(** * umm_malloc: a shallow embedding of [src/libc/umm_malloc/umm_malloc.c]

    The allocator manages one contiguous region of the (32-bit, little
    endian) linear memory.  The region is an array of fixed-size blocks;
    every link between blocks is a 15-bit block index stored in a 16-bit
    field, and the top bit of the [next] field of a block is its free flag.

    Memory is modelled as a total function from addresses to bytes, block
    fields as 16-bit little-endian loads and stores at the offsets the C
    structure [umm_block] gives them, and every C function as a function on
    the allocator state.  The loops of the source (the free-list scan of
    [umm_malloc_core], the chain walk of [umm_info], the two walks of
    [umm_integrity_check] and the walk of [umm_poison_check]) take fuel;
    running out of fuel is reported as [None].

    The public functions open with [UMM_CHECK_INITIALIZED()] and bracket
    their work with [UMM_CRITICAL_ENTRY] and [UMM_CRITICAL_EXIT].  These
    macros belong to the configuration header, which is not among the
    sources at hand.  Calling a public function before [umm_init_heap] is
    outside its contract, and the critical sections only keep concurrent
    callers apart, so the functions are modelled as they run, one call at a
    time, on a heap that was initialised. *)

From Stdlib Require Import ZArith List Lia Bool Sorted.
Import ListNotations.
Open Scope Z_scope.

(** ** Machine integers *)

Definition u16 (x : Z) : Z := x mod 65536.
Definition u32 (x : Z) : Z := x mod 4294967296.
Definition s32 (x : Z) : Z :=
  let y := u32 x in if y <? 2147483648 then y else y - 4294967296.

Definition INT16_MAX : Z := 32767.
Definition UMM_FREELIST_MASK : Z := 32768.
Definition UMM_BLOCKNO_MASK : Z := 32767.
Definition NULL : Z := 0.

(** ** Linear memory *)

Definition mem := Z -> Z.

Definition store8 (m : mem) (a v : Z) : mem :=
  fun x => if x =? a then v mod 256 else m x.

Definition load16 (m : mem) (a : Z) : Z :=
  (m a) mod 256 + 256 * ((m (a + 1)) mod 256).

Definition store16 (m : mem) (a v : Z) : mem :=
  store8 (store8 m a (u16 v)) (a + 1) (u16 v / 256).

(** [memmove]: the destination range receives the bytes the source range
    held before the call (so overlapping ranges are handled as the C
    function does); [memcpy] is only called on disjoint ranges, where it
    agrees with [memmove]. *)
Definition memmove (m : mem) (dst src n : Z) : mem :=
  fun x => if (dst <=? x) && (x <? dst + n) then m (src + (x - dst)) else m x.

Definition memcpy := memmove.

Definition memset (m : mem) (dst v n : Z) : mem :=
  fun x => if (dst <=? x) && (x <? dst + n) then v mod 256 else m x.

(** ** Allocator state *)

Record umm_heap_config := mk_config {
  pheap : Z;
  heap_size : Z;
  numblocks : Z
}.

Record UMM_HEAP_INFO := mk_info {
  totalEntries : Z;
  usedEntries : Z;
  freeEntries : Z;
  totalBlocks : Z;
  usedBlocks : Z;
  freeBlocks : Z;
  freeBlocksSquared : Z;
  maxFreeContiguousBlocks : Z;
  usage_metric : Z;
  fragmentation_metric : Z
}.

Definition info_zero : UMM_HEAP_INFO := mk_info 0 0 0 0 0 0 0 0 0 0.

Record umm_state := mk_state {
  memory : mem;
  umm_heap_current : umm_heap_config;
  ummHeapInfo : UMM_HEAP_INFO
}.

Definition with_memory (st : umm_state) (m : mem) : umm_state :=
  mk_state m (umm_heap_current st) (ummHeapInfo st).

Definition with_info (st : umm_state) (i : UMM_HEAP_INFO) : umm_state :=
  mk_state (memory st) (umm_heap_current st) i.

Definition UMM_HEAP (st : umm_state) : Z := pheap (umm_heap_current st).
Definition UMM_HEAPSIZE (st : umm_state) : Z := heap_size (umm_heap_current st).
Definition UMM_NUMBLOCKS (st : umm_state) : Z := numblocks (umm_heap_current st).
Definition UMM_BLOCK_LAST (st : umm_state) : Z := UMM_NUMBLOCKS st - 1.

Inductive fit_policy := UMM_BEST_FIT | UMM_FIRST_FIT.

Inductive field := NBLOCK | PBLOCK | NFREE | PFREE.

Definition field_offset (f : field) : Z :=
  match f with NBLOCK => 0 | PBLOCK => 2 | NFREE => 4 | PFREE => 6 end.

Definition has_free_flag (v : Z) : bool :=
  negb (Z.land v UMM_FREELIST_MASK =? 0).

Section Allocator.

(** Compile-time configuration (the configuration header is not part of the
    sources at hand): the body-size constant, the fit policy and whether the
    metrics are maintained inline. *)
Variable UMM_BLOCK_BODY_SIZE : Z.
Variable policy : fit_policy.
Variable UMM_INLINE_METRICS : bool.

(** [sizeof(((umm_block * )0)->body)]: a union of the two free-list links
    and of [UMM_BLOCK_BODY_SIZE - 4] data bytes. *)
Definition body_size : Z := Z.max 4 (UMM_BLOCK_BODY_SIZE - 4).

(** [sizeof(((umm_block * )0)->header)] *)
Definition header_size : Z := 4.

(** [sizeof(umm_block)] *)
Definition UMM_BLOCKSIZE : Z := header_size + body_size.

(** Address of block [b] and of its data. *)
Definition UMM_BLOCK (st : umm_state) (b : Z) : Z := UMM_HEAP st + b * UMM_BLOCKSIZE.
Definition UMM_DATA (st : umm_state) (b : Z) : Z := UMM_BLOCK st b + header_size.

Definition get (f : field) (st : umm_state) (b : Z) : Z :=
  load16 (memory st) (UMM_BLOCK st b + field_offset f).

Definition set (f : field) (b v : Z) (st : umm_state) : umm_state :=
  with_memory st (store16 (memory st) (UMM_BLOCK st b + field_offset f) v).

Abbreviation UMM_NBLOCK := (get NBLOCK).
Abbreviation UMM_PBLOCK := (get PBLOCK).
Abbreviation UMM_NFREE := (get NFREE).
Abbreviation UMM_PFREE := (get PFREE).

(** Block index of a user pointer (truncating division, then the
    conversion to [uint16_t]). *)
Definition block_of (st : umm_state) (ptr : Z) : Z :=
  u16 (u32 (ptr - UMM_HEAP st) / UMM_BLOCKSIZE).

(** ** umm_blocks *)

Definition umm_blocks (size : Z) : Z :=
  if size <=? body_size then 1
  else
    let size := size - body_size in
    let blocks := u32 (2 + (size - 1) / UMM_BLOCKSIZE) in
    let blocks := if blocks >? INT16_MAX then INT16_MAX else blocks in
    u16 blocks.

(** ** Inline metrics *)

Definition umm_fragmentation_metric_init (st : umm_state) : umm_state :=
  let i := ummHeapInfo st in
  let fb := u32 (UMM_NUMBLOCKS st - 2) in
  with_info st
    (mk_info (totalEntries i) (usedEntries i) (freeEntries i) (totalBlocks i)
       (usedBlocks i) fb (u32 (fb * fb)) (maxFreeContiguousBlocks i)
       (usage_metric i) (fragmentation_metric i)).

Definition umm_fragmentation_metric_add (c : Z) (st : umm_state) : umm_state :=
  let i := ummHeapInfo st in
  let blocks := u16 (Z.land (UMM_NBLOCK st c) UMM_BLOCKNO_MASK - c) in
  with_info st
    (mk_info (totalEntries i) (usedEntries i) (freeEntries i) (totalBlocks i)
       (usedBlocks i) (u32 (freeBlocks i + blocks))
       (u32 (freeBlocksSquared i + blocks * blocks))
       (maxFreeContiguousBlocks i) (usage_metric i) (fragmentation_metric i)).

Definition umm_fragmentation_metric_remove (c : Z) (st : umm_state) : umm_state :=
  let i := ummHeapInfo st in
  let blocks := u16 (Z.land (UMM_NBLOCK st c) UMM_BLOCKNO_MASK - c) in
  with_info st
    (mk_info (totalEntries i) (usedEntries i) (freeEntries i) (totalBlocks i)
       (usedBlocks i) (u32 (freeBlocks i - blocks))
       (u32 (freeBlocksSquared i - blocks * blocks))
       (maxFreeContiguousBlocks i) (usage_metric i) (fragmentation_metric i)).

(** Modelled from the spec: the three metric macros of the configuration
    header.  With inline metrics they call the functions above at every
    point where a free run appears, grows, shrinks or disappears; without,
    they expand to nothing. *)
Definition UMM_FRAGMENTATION_METRIC_INIT (st : umm_state) : umm_state :=
  if UMM_INLINE_METRICS then umm_fragmentation_metric_init st else st.
Definition UMM_FRAGMENTATION_METRIC_ADD (c : Z) (st : umm_state) : umm_state :=
  if UMM_INLINE_METRICS then umm_fragmentation_metric_add c st else st.
Definition UMM_FRAGMENTATION_METRIC_REMOVE (c : Z) (st : umm_state) : umm_state :=
  if UMM_INLINE_METRICS then umm_fragmentation_metric_remove c st else st.

(** ** Free-list primitives *)

Definition umm_split_block (c blocks new_freemask : Z) (st : umm_state) : umm_state :=
  let st := set NBLOCK (c + blocks)
              (Z.lor (Z.land (UMM_NBLOCK st c) UMM_BLOCKNO_MASK) new_freemask) st in
  let st := set PBLOCK (c + blocks) c st in
  let st := set PBLOCK (Z.land (UMM_NBLOCK st c) UMM_BLOCKNO_MASK) (c + blocks) st in
  set NBLOCK c (c + blocks) st.

Definition umm_disconnect_from_free_list (c : Z) (st : umm_state) : umm_state :=
  let st := set NFREE (UMM_PFREE st c) (UMM_NFREE st c) st in
  let st := set PFREE (UMM_NFREE st c) (UMM_PFREE st c) st in
  set NBLOCK c (Z.land (UMM_NBLOCK st c) UMM_BLOCKNO_MASK) st.

Definition umm_assimilate_up (c : Z) (st : umm_state) : umm_state :=
  if has_free_flag (UMM_NBLOCK st (UMM_NBLOCK st c)) then
    let st := UMM_FRAGMENTATION_METRIC_REMOVE (UMM_NBLOCK st c) st in
    let st := umm_disconnect_from_free_list (UMM_NBLOCK st c) st in
    let st := set PBLOCK
                (Z.land (UMM_NBLOCK st (UMM_NBLOCK st c)) UMM_BLOCKNO_MASK) c st in
    set NBLOCK c (Z.land (UMM_NBLOCK st (UMM_NBLOCK st c)) UMM_BLOCKNO_MASK) st
  else st.

Definition umm_assimilate_down (c freemask : Z) (st : umm_state) : Z * umm_state :=
  let st := UMM_FRAGMENTATION_METRIC_REMOVE (UMM_PBLOCK st c) st in
  let st := set NBLOCK (UMM_PBLOCK st c) (Z.lor (UMM_NBLOCK st c) freemask) st in
  let st := set PBLOCK (UMM_NBLOCK st c) (UMM_PBLOCK st c) st in
  let st := if freemask =? 0 then st
            else UMM_FRAGMENTATION_METRIC_ADD (UMM_PBLOCK st c) st in
  (UMM_PBLOCK st c, st).

(** ** umm_init_heap *)

Definition umm_init_heap (ptr size : Z) (st : umm_state) : umm_state :=
  let st := mk_state (memory st)
              (mk_config ptr size (u16 (size / UMM_BLOCKSIZE))) (ummHeapInfo st) in
  let st := with_memory st (memset (memory st) (UMM_HEAP st) 0 (UMM_HEAPSIZE st)) in
  let st := UMM_FRAGMENTATION_METRIC_INIT st in
  let st := set NBLOCK 0 1 st in
  let st := set NFREE 0 1 st in
  let st := set PFREE 0 1 st in
  let st := set NBLOCK 1 (Z.lor (UMM_BLOCK_LAST st) UMM_FREELIST_MASK) st in
  set PBLOCK (UMM_BLOCK_LAST st) 1 st.

(** ** umm_free *)

Definition umm_free_core (ptr : Z) (st : umm_state) : umm_state :=
  let c := block_of st ptr in
  let st := umm_assimilate_up c st in
  if has_free_flag (UMM_NBLOCK st (UMM_PBLOCK st c)) then
    snd (umm_assimilate_down c UMM_FREELIST_MASK st)
  else
    let st := UMM_FRAGMENTATION_METRIC_ADD c st in
    let st := set PFREE (UMM_NFREE st 0) c st in
    let st := set NFREE c (UMM_NFREE st 0) st in
    let st := set PFREE c 0 st in
    let st := set NFREE 0 c st in
    set NBLOCK c (Z.lor (UMM_NBLOCK st c) UMM_FREELIST_MASK) st.

Definition umm_free (ptr : Z) (st : umm_state) : umm_state :=
  if ptr =? NULL then st else umm_free_core ptr st.

(** ** umm_malloc *)

(** The [while (cf)] loop of [umm_malloc_core].  The result is the value of
    [(cf, blockSize, bestBlock, bestSize)] when the loop is left. *)
Fixpoint free_list_scan (fuel : nat) (st : umm_state) (blocks cf blockSize bestBlock bestSize : Z)
  : option (Z * Z * Z * Z) :=
  if cf =? 0 then Some (cf, blockSize, bestBlock, bestSize)
  else
    match fuel with
    | O => None
    | S fuel' =>
        let blockSize := u16 (Z.land (UMM_NBLOCK st cf) UMM_BLOCKNO_MASK - cf) in
        match policy with
        | UMM_BEST_FIT =>
            if (blockSize >=? blocks) && (blockSize <? bestSize)
            then free_list_scan fuel' st blocks (UMM_NFREE st cf) blockSize cf blockSize
            else free_list_scan fuel' st blocks (UMM_NFREE st cf) blockSize bestBlock bestSize
        | UMM_FIRST_FIT =>
            if blockSize >=? blocks
            then Some (cf, blockSize, bestBlock, bestSize)
            else free_list_scan fuel' st blocks (UMM_NFREE st cf) blockSize bestBlock bestSize
        end
    end.

Definition scan_fuel (st : umm_state) : nat := Z.to_nat (UMM_NUMBLOCKS st).

Definition umm_malloc_core (size : Z) (st : umm_state) : option (Z * umm_state) :=
  let blocks := umm_blocks size in
  match free_list_scan (scan_fuel st) st blocks (UMM_NFREE st 0) 0 (UMM_NFREE st 0) 32767 with
  | None => None
  | Some (cf, blockSize, bestBlock, bestSize) =>
      let cf := if bestSize =? 32767 then cf else bestBlock in
      let blockSize := if bestSize =? 32767 then blockSize else bestSize in
      if negb (Z.land (UMM_NBLOCK st cf) UMM_BLOCKNO_MASK =? 0) && (blockSize >=? blocks) then
        let st := UMM_FRAGMENTATION_METRIC_REMOVE cf st in
        if blockSize =? blocks then
          Some (UMM_DATA st cf, umm_disconnect_from_free_list cf st)
        else
          let st := umm_split_block cf blocks UMM_FREELIST_MASK st in
          let st := UMM_FRAGMENTATION_METRIC_ADD (UMM_NBLOCK st cf) st in
          let st := set NFREE (UMM_PFREE st cf) (cf + blocks) st in
          let st := set PFREE (cf + blocks) (UMM_PFREE st cf) st in
          let st := set PFREE (UMM_NFREE st cf) (cf + blocks) st in
          let st := set NFREE (cf + blocks) (UMM_NFREE st cf) st in
          Some (UMM_DATA st cf, st)
      else Some (NULL, st)
  end.

Definition umm_malloc (size : Z) (st : umm_state) : option (Z * umm_state) :=
  if size =? 0 then Some (NULL, st) else umm_malloc_core size st.

(** ** umm_realloc *)

(** The last stage of [umm_realloc], common to its six cases: when the
    block at [c] is larger than requested, split it and free the tail. *)
Definition realloc_finish (blocks ptr c blockSize : Z) (st : umm_state)
  : option (Z * umm_state) :=
  if blockSize >? blocks then
    let st := umm_split_block c blocks 0 st in
    Some (ptr, umm_free_core (UMM_DATA st (c + blocks)) st)
  else Some (ptr, st).

Definition umm_realloc (ptr size : Z) (st : umm_state) : option (Z * umm_state) :=
  if ptr =? NULL then umm_malloc size st
  else if size =? 0 then Some (NULL, umm_free ptr st)
  else
    let blocks := umm_blocks size in
    let c := block_of st ptr in
    let blockSize := u16 (UMM_NBLOCK st c - c) in
    let curSize := u32 (blockSize * UMM_BLOCKSIZE - header_size) in
    let nextBlockSize :=
      if has_free_flag (UMM_NBLOCK st (UMM_NBLOCK st c))
      then u16 (Z.land (UMM_NBLOCK st (UMM_NBLOCK st c)) UMM_BLOCKNO_MASK - UMM_NBLOCK st c)
      else 0 in
    let prevBlockSize :=
      if has_free_flag (UMM_NBLOCK st (UMM_PBLOCK st c))
      then u16 (c - UMM_PBLOCK st c)
      else 0 in
    if blockSize >=? blocks then
      (* Case 1 - block is same size or smaller *)
      realloc_finish blocks ptr c blockSize st
    else if blockSize + nextBlockSize =? blocks then
      (* Case 2 - block + next block fits EXACTLY *)
      let st := umm_assimilate_up c st in
      realloc_finish blocks ptr c (u16 (blockSize + nextBlockSize)) st
    else if (0 =? prevBlockSize) && (blockSize + nextBlockSize >=? blocks) then
      (* Case 3 - prev block NOT free and block + next block fits *)
      let st := umm_assimilate_up c st in
      realloc_finish blocks ptr c (u16 (blockSize + nextBlockSize)) st
    else if prevBlockSize + blockSize >=? blocks then
      (* Case 4 - prev block + block fits *)
      let st := umm_disconnect_from_free_list (UMM_PBLOCK st c) st in
      let '(c, st) := umm_assimilate_down c 0 st in
      let st := with_memory st (memmove (memory st) (UMM_DATA st c) ptr curSize) in
      realloc_finish blocks (UMM_DATA st c) c (u16 (blockSize + prevBlockSize)) st
    else if prevBlockSize + blockSize + nextBlockSize >=? blocks then
      (* Case 5 - prev block + block + next block fits *)
      let st := umm_assimilate_up c st in
      let st := umm_disconnect_from_free_list (UMM_PBLOCK st c) st in
      let '(c, st) := umm_assimilate_down c 0 st in
      let st := with_memory st (memmove (memory st) (UMM_DATA st c) ptr curSize) in
      realloc_finish blocks (UMM_DATA st c) c
        (u16 (blockSize + (prevBlockSize + nextBlockSize))) st
    else
      (* Case 6 - default is we need to realloc a new block *)
      match umm_malloc_core size st with
      | None => None
      | Some (newptr, st) =>
          if newptr =? NULL then realloc_finish blocks NULL c blocks st
          else
            let st := with_memory st (memcpy (memory st) newptr ptr curSize) in
            let st := umm_free_core ptr st in
            realloc_finish blocks newptr c blocks st
      end.

(** ** umm_calloc *)

Definition umm_calloc (num item_size : Z) (st : umm_state) : option (Z * umm_state) :=
  match umm_malloc (u32 (item_size * num)) st with
  | None => None
  | Some (ret, st) =>
      if ret =? NULL then Some (ret, st)
      else Some (ret, with_memory st (memset (memory st) ret 0 (u32 (item_size * num))))
  end.

(** ** umm_info and the metrics *)

(** [(uint32_t)(sqrtf(x))] for an unsigned [x].  The source computes in
    single precision; the integer square root agrees with it wherever [x]
    is a perfect square below [2^24], which is all that is relied on. *)
Definition sqrtf_u32 (x : Z) : Z := Z.sqrt x.

Definition compute_usage_metric (st : umm_state) : umm_state :=
  let i := ummHeapInfo st in
  let u := if 0 =? freeBlocks i then -1
           else s32 (u32 (usedBlocks i * 100) / freeBlocks i) in
  with_info st
    (mk_info (totalEntries i) (usedEntries i) (freeEntries i) (totalBlocks i)
       (usedBlocks i) (freeBlocks i) (freeBlocksSquared i)
       (maxFreeContiguousBlocks i) u (fragmentation_metric i)).

Definition compute_fragmentation_metric (st : umm_state) : umm_state :=
  let i := ummHeapInfo st in
  let f := if 0 =? freeBlocks i then 0
           else s32 (100 - u32 (sqrtf_u32 (freeBlocksSquared i) * 100) / freeBlocks i) in
  with_info st
    (mk_info (totalEntries i) (usedEntries i) (freeEntries i) (totalBlocks i)
       (usedBlocks i) (freeBlocks i) (freeBlocksSquared i)
       (maxFreeContiguousBlocks i) (usage_metric i) f).

Definition count_free (curBlocks : Z) (i : UMM_HEAP_INFO) : UMM_HEAP_INFO :=
  mk_info (u32 (totalEntries i + 1)) (usedEntries i) (u32 (freeEntries i + 1))
    (u32 (totalBlocks i + curBlocks)) (usedBlocks i)
    (u32 (freeBlocks i + curBlocks))
    (u32 (freeBlocksSquared i + curBlocks * curBlocks))
    (if maxFreeContiguousBlocks i <? curBlocks then curBlocks
     else maxFreeContiguousBlocks i)
    (usage_metric i) (fragmentation_metric i).

Definition count_used (curBlocks : Z) (i : UMM_HEAP_INFO) : UMM_HEAP_INFO :=
  mk_info (u32 (totalEntries i + 1)) (u32 (usedEntries i + 1)) (freeEntries i)
    (u32 (totalBlocks i + curBlocks)) (u32 (usedBlocks i + curBlocks))
    (freeBlocks i) (freeBlocksSquared i) (maxFreeContiguousBlocks i)
    (usage_metric i) (fragmentation_metric i).

(** The [while] loop of [umm_info].  The boolean says whether the loop was
    left by the early [return ptr]. *)
Fixpoint info_walk (fuel : nat) (st : umm_state) (ptr blockNo : Z) (i : UMM_HEAP_INFO)
  : option (bool * UMM_HEAP_INFO) :=
  if Z.land (UMM_NBLOCK st blockNo) UMM_BLOCKNO_MASK =? 0 then Some (false, i)
  else
    match fuel with
    | O => None
    | S fuel' =>
        let curBlocks := u32 (Z.land (UMM_NBLOCK st blockNo) UMM_BLOCKNO_MASK - blockNo) in
        if has_free_flag (UMM_NBLOCK st blockNo) then
          let i := count_free curBlocks i in
          if ptr =? UMM_BLOCK st blockNo then Some (true, i)
          else info_walk fuel' st ptr (Z.land (UMM_NBLOCK st blockNo) UMM_BLOCKNO_MASK) i
        else
          let i := count_used curBlocks i in
          info_walk fuel' st ptr (Z.land (UMM_NBLOCK st blockNo) UMM_BLOCKNO_MASK) i
    end.

Definition umm_info (ptr : Z) (force : bool) (st : umm_state) : option (Z * umm_state) :=
  let blockNo := Z.land (UMM_NBLOCK st 0) UMM_BLOCKNO_MASK in
  match info_walk (scan_fuel st) st ptr blockNo info_zero with
  | None => None
  | Some (true, i) => Some (ptr, with_info st i)
  | Some (false, i) =>
      let st := with_info st i in
      let st := compute_usage_metric st in
      let st := compute_fragmentation_metric st in
      Some (NULL, st)
  end.

Definition umm_free_heap_size (st : umm_state) : option (Z * umm_state) :=
  match (if UMM_INLINE_METRICS then Some (NULL, st) else umm_info NULL false st) with
  | None => None
  | Some (_, st) => Some (u32 (freeBlocks (ummHeapInfo st) * UMM_BLOCKSIZE), st)
  end.

Definition umm_max_free_block_size (st : umm_state) : option (Z * umm_state) :=
  match umm_info NULL false st with
  | None => None
  | Some (_, st) =>
      Some (u32 (maxFreeContiguousBlocks (ummHeapInfo st) * UMM_BLOCKSIZE), st)
  end.

Definition umm_usage_metric (st : umm_state) : option (Z * umm_state) :=
  match (if UMM_INLINE_METRICS then Some (NULL, compute_usage_metric st)
         else umm_info NULL false st) with
  | None => None
  | Some (_, st) => Some (usage_metric (ummHeapInfo st), st)
  end.

Definition umm_fragmentation_metric (st : umm_state) : option (Z * umm_state) :=
  match (if UMM_INLINE_METRICS then Some (NULL, compute_fragmentation_metric st)
         else umm_info NULL false st) with
  | None => None
  | Some (_, st) => Some (fragmentation_metric (ummHeapInfo st), st)
  end.

(** ** Derived views of the heap *)

(** Index of the chain successor of block [b] and the free flag of [b]. *)
Abbreviation nxt st b := (Z.land (UMM_NBLOCK st b) UMM_BLOCKNO_MASK).
Abbreviation is_free st b := (has_free_flag (UMM_NBLOCK st b)).

(** The block chain, walked from block 0 as [umm_info] walks it. *)
Fixpoint chain_from (fuel : nat) (st : umm_state) (b : Z) : list Z :=
  b :: match fuel with
       | O => []
       | S fuel' => if nxt st b =? 0 then [] else chain_from fuel' st (nxt st b)
       end.

Definition chain (st : umm_state) : list Z := chain_from (scan_fuel st) st 0.

(** The maximal free extents [(start index, length in blocks)]. *)
Definition free_runs (st : umm_state) : list (Z * Z) :=
  map (fun b => (b, nxt st b - b)) (filter (fun b => is_free st b) (chain st)).

(** Number of bytes a used block starting at [c] offers to its owner. *)
Definition usable_size (st : umm_state) (c : Z) : Z :=
  (nxt st c - c) * UMM_BLOCKSIZE - header_size.

(** [ptr] is the data address of a used chain block other than the two
    sentinels. *)
Definition allocated (st : umm_state) (ptr : Z) : bool :=
  let c := block_of st ptr in
  (ptr =? UMM_DATA st c) && existsb (Z.eqb c) (chain st)
  && negb (c =? 0) && negb (c =? UMM_BLOCK_LAST st) && negb (is_free st c).

(** ** The heap invariant *)

Definition upd (f : Z -> Z) (k v : Z) : Z -> Z := fun x => if x =? k then v else f x.
Definition updb (f : Z -> bool) (k : Z) (v : bool) : Z -> bool :=
  fun x => if x =? k then v else f x.

(** The free ring as a path [p -> x1 -> ... -> xn -> 0] with back links. *)
Fixpoint links (nf pf : Z -> Z) (p : Z) (l : list Z) : Prop :=
  match l with
  | [] => nf p = 0 /\ pf 0 = p
  | x :: l' => nf p = x /\ pf x = p /\ links nf pf x l'
  end.

(** [S] is the set of block starts of the chain and [fl] the free ring in
    ring order.  [nx], [pv] and [fr] are the successor, predecessor and
    free flag read from the used-headers; [nf] and [pf] are the free-list
    links. *)
Record hinv (N : Z) (nx pv : Z -> Z) (fr : Z -> bool) (nf pf : Z -> Z)
            (S : Z -> Prop) (fl : list Z) : Prop := mk_hinv {
  hi_N : 3 <= N <= 32767;
  hi_first : S 0;
  hi_last : S (N - 1);
  hi_range : forall i, S i -> 0 <= i <= N - 1;
  hi_nx0 : nx 0 = 1;
  hi_fr0 : fr 0 = false;
  hi_nxlast : nx (N - 1) = 0;
  hi_frlast : fr (N - 1) = false;
  hi_next : forall i, S i -> i <> N - 1 -> i < nx i /\ S (nx i) /\ pv (nx i) = i;
  hi_gap : forall i j, S i -> S j -> i < j -> nx i <= j;
  hi_prev : forall i, S i -> i <> 0 -> S (pv i) /\ nx (pv i) = i;
  hi_noadj : forall i, S i -> fr i = true -> fr (nx i) = false;
  hi_nodup : NoDup fl;
  hi_mem : forall x, In x fl <-> S x /\ fr x = true;
  hi_links : links nf pf 0 fl
}.

(** The abstract heap: what the invariant is stated on. *)
Record aheap := mk_aheap {
  aN : Z;
  anx : Z -> Z;
  apv : Z -> Z;
  afr : Z -> bool;
  anf : Z -> Z;
  apf : Z -> Z;
  aS : Z -> Prop;
  afl : list Z
}.

Definition ainv (a : aheap) : Prop :=
  hinv (aN a) (anx a) (apv a) (afr a) (anf a) (apf a) (aS a) (afl a).

Definition drop (c : Z) (l : list Z) : list Z := filter (fun x => negb (x =? c)) l.
Definition swap (c d : Z) (l : list Z) : list Z := map (fun x => if x =? c then d else x) l.

(** The abstract effect of the primitives. *)

(** [umm_disconnect_from_free_list c] *)
Definition a_unlink (c : Z) (a : aheap) : aheap :=
  mk_aheap (aN a) (anx a) (apv a) (updb (afr a) c false)
    (upd (anf a) (apf a c) (anf a c)) (upd (apf a) (anf a c) (apf a c))
    (aS a) (drop c (afl a)).

(** Folding the successor of [i] into [i]. *)
Definition a_merge (i : Z) (a : aheap) : aheap :=
  mk_aheap (aN a)
    (upd (anx a) i (anx a (anx a i))) (upd (apv a) (anx a (anx a i)) i)
    (afr a) (anf a) (apf a)
    (fun x => aS a x /\ x <> anx a i) (afl a).

(** [umm_split_block i (d - i) 0] on a used block. *)
Definition a_split_used (i d : Z) (a : aheap) : aheap :=
  mk_aheap (aN a)
    (upd (upd (anx a) d (anx a i)) i d) (upd (upd (apv a) d i) (anx a i) d)
    (updb (afr a) d false) (anf a) (apf a)
    (fun x => aS a x \/ x = d) (afl a).

(** The split of [umm_malloc_core]: the tail [d] replaces [i] in the ring. *)
Definition a_split_free (i d : Z) (a : aheap) : aheap :=
  mk_aheap (aN a)
    (upd (upd (anx a) d (anx a i)) i d) (upd (upd (apv a) d i) (anx a i) d)
    (updb (updb (afr a) i false) d true)
    (upd (upd (anf a) (apf a i) d) d (anf a i))
    (upd (upd (apf a) d (apf a i)) (anf a i) d)
    (fun x => aS a x \/ x = d) (swap i d (afl a)).

(** The head insertion of [umm_free_core]. *)
Definition a_insert (c : Z) (a : aheap) : aheap :=
  mk_aheap (aN a) (anx a) (apv a) (updb (afr a) c true)
    (upd (upd (anf a) c (anf a 0)) 0 c) (upd (upd (apf a) (anf a 0) c) c 0)
    (aS a) (c :: afl a).

(** [umm_assimilate_up c]: the successor of [c] is unlinked and folded
    into [c] when it is free. *)
Definition a_up (c : Z) (a : aheap) : aheap :=
  if afr a (anx a c) then a_merge c (a_unlink (anx a c) a) else a.

(** [umm_free_core] on the data pointer of block [c]. *)
Definition a_free (c : Z) (a : aheap) : aheap :=
  let a1 := a_up c a in
  if afr a1 (apv a1 c) then a_merge (apv a1 c) a1 else a_insert c a1.

(** The free-list scan of [umm_malloc_core] over the ring [l]. *)
Fixpoint a_scan (nx : Z -> Z) (blocks : Z) (l : list Z) (blockSize bestBlock bestSize : Z)
  : Z * Z * Z * Z :=
  match l with
  | [] => (0, blockSize, bestBlock, bestSize)
  | c :: l' =>
      let blockSize := nx c - c in
      match policy with
      | UMM_BEST_FIT =>
          if (blockSize >=? blocks) && (blockSize <? bestSize)
          then a_scan nx blocks l' blockSize c blockSize
          else a_scan nx blocks l' blockSize bestBlock bestSize
      | UMM_FIRST_FIT =>
          if blockSize >=? blocks
          then (c, blockSize, bestBlock, bestSize)
          else a_scan nx blocks l' blockSize bestBlock bestSize
      end
  end.

(** The block the scan settles on, with its size. *)
Definition a_pick (nx : Z -> Z) (blocks : Z) (l : list Z) : Z * Z :=
  let '(cf, blockSize, bestBlock, bestSize) := a_scan nx blocks l 0 (hd 0 l) 32767 in
  (if bestSize =? 32767 then cf else bestBlock,
   if bestSize =? 32767 then blockSize else bestSize).

(** Handing out the first [k] blocks of the free block [cf]. *)
Definition a_alloc (cf k : Z) (a : aheap) : aheap :=
  if anx a cf - cf =? k then a_unlink cf a else a_split_free cf (cf + k) a.

(** The heap [umm_init_heap] sets up: one free block between the sentinels. *)
Definition a_init (N : Z) : aheap :=
  mk_aheap N
    (upd (upd (fun _ => 0) 0 1) 1 (N - 1))
    (upd (fun _ => 0) (N - 1) 1)
    (updb (fun _ => false) 1 true)
    (upd (fun _ => 0) 0 1) (upd (fun _ => 0) 0 1)
    (fun x => x = 0 \/ x = 1 \/ x = N - 1) [1].

Definition cfg_ok (st : umm_state) : Prop :=
  0 < UMM_HEAP st /\
  UMM_NUMBLOCKS st * UMM_BLOCKSIZE <= UMM_HEAPSIZE st /\
  UMM_HEAP st + UMM_HEAPSIZE st <= 4294967296.

(** [a] describes the heap of [st]: it satisfies the invariant and agrees
    with the fields of [st] at every chain block and ring member. *)
Definition view (st : umm_state) (a : aheap) : Prop :=
  cfg_ok st /\
  aN a = UMM_NUMBLOCKS st /\
  ainv a /\
  (forall x, aS a x ->
     nxt st x = anx a x /\ UMM_PBLOCK st x = apv a x /\ is_free st x = afr a x) /\
  (forall x, x = 0 \/ In x (afl a) ->
     UMM_NFREE st x = anf a x /\ UMM_PFREE st x = apf a x).

Definition heap_inv (st : umm_state) : Prop := exists a, view st a.

(** ** Reachable heap states *)

Definition valid_region (ptr size : Z) : Prop :=
  0 < ptr /\ ptr + size <= 4294967296 /\ 3 <= size / UMM_BLOCKSIZE <= 32767.

(** States reachable from [umm_init_heap] by the public operations, called
    as their contracts require (a pointer passed to free or realloc is null
    or currently allocated), interleaved with stores of the program into
    memory it owns. *)
Inductive reachable : umm_state -> Prop :=
| reach_init : forall ptr size st,
    valid_region ptr size -> reachable (umm_init_heap ptr size st)
| reach_malloc : forall st size p st',
    reachable st -> 0 <= size < 4294967296 ->
    umm_malloc size st = Some (p, st') -> reachable st'
| reach_calloc : forall st num item_size p st',
    reachable st ->
    umm_calloc num item_size st = Some (p, st') -> reachable st'
| reach_free : forall st p,
    reachable st -> p = NULL \/ allocated st p = true ->
    reachable (umm_free p st)
| reach_realloc : forall st p size p' st',
    reachable st -> p = NULL \/ allocated st p = true ->
    0 <= size < 4294967296 ->
    umm_realloc p size st = Some (p', st') -> reachable st'
| reach_store : forall st p off v,
    reachable st -> allocated st p = true ->
    0 <= off < usable_size st (block_of st p) ->
    reachable (with_memory st (store8 (memory st) (p + off) v)).

(** * Properties *)

(** ** Machine integers and memory *)

Lemma u16_range x : 0 <= u16 x < 65536.
Proof. unfold u16. apply Z.mod_pos_bound. lia. Qed.

Lemma u16_small x : 0 <= x < 65536 -> u16 x = x.
Proof. intros. unfold u16. apply Z.mod_small. lia. Qed.

Lemma u32_small x : 0 <= x < 4294967296 -> u32 x = x.
Proof. intros. unfold u32. apply Z.mod_small. lia. Qed.

Lemma load16_range m a : 0 <= load16 m a < 65536.
Proof.
  unfold load16.
  pose proof (Z.mod_pos_bound (m a) 256).
  pose proof (Z.mod_pos_bound (m (a + 1)) 256). lia.
Qed.

Lemma load16_store16_same m a v : load16 (store16 m a v) a = u16 v.
Proof.
  unfold load16, store16, store8.
  rewrite Z.eqb_refl.
  replace (a =? a + 1) with false by (symmetry; apply Z.eqb_neq; lia).
  rewrite Z.eqb_refl.
  pose proof (u16_range v).
  rewrite !Z.mod_mod by lia.
  rewrite (Z.mod_small (u16 v / 256) 256).
  - pose proof (Z.div_mod (u16 v) 256). lia.
  - split. apply Z.div_pos; lia. apply Z.div_lt_upper_bound; lia.
Qed.

Lemma load16_store16_other m a v a' :
  a' + 1 < a \/ a + 1 < a' -> load16 (store16 m a v) a' = load16 m a'.
Proof.
  intros H. unfold load16, store16, store8.
  replace (a' =? a + 1) with false by (symmetry; apply Z.eqb_neq; lia).
  replace (a' =? a) with false by (symmetry; apply Z.eqb_neq; lia).
  replace (a' + 1 =? a + 1) with false by (symmetry; apply Z.eqb_neq; lia).
  replace (a' + 1 =? a) with false by (symmetry; apply Z.eqb_neq; lia).
  reflexivity.
Qed.

Lemma load16_memmove_outside m dst src n a :
  a + 1 < dst \/ dst + n <= a -> load16 (memmove m dst src n) a = load16 m a.
Proof.
  intros H. unfold load16, memmove.
  replace ((dst <=? a) && (a <? dst + n)) with false
    by (symmetry; apply andb_false_iff; rewrite Z.leb_gt, Z.ltb_ge; lia).
  replace ((dst <=? a + 1) && (a + 1 <? dst + n)) with false
    by (symmetry; apply andb_false_iff; rewrite Z.leb_gt, Z.ltb_ge; lia).
  reflexivity.
Qed.

Lemma load16_memset_outside m dst v n a :
  a + 1 < dst \/ dst + n <= a -> load16 (memset m dst v n) a = load16 m a.
Proof.
  intros H. unfold load16, memset.
  replace ((dst <=? a) && (a <? dst + n)) with false
    by (symmetry; apply andb_false_iff; rewrite Z.leb_gt, Z.ltb_ge; lia).
  replace ((dst <=? a + 1) && (a + 1 <? dst + n)) with false
    by (symmetry; apply andb_false_iff; rewrite Z.leb_gt, Z.ltb_ge; lia).
  reflexivity.
Qed.

Lemma store16_outside m a v x : x <> a -> x <> a + 1 -> store16 m a v x = m x.
Proof.
  intros. unfold store16, store8.
  replace (x =? a + 1) with false by (symmetry; apply Z.eqb_neq; lia).
  replace (x =? a) with false by (symmetry; apply Z.eqb_neq; lia).
  reflexivity.
Qed.

(** ** Bit masks on 16-bit values *)

Lemma land_blockno v : 0 <= v -> Z.land v UMM_BLOCKNO_MASK = v mod 32768.
Proof. intros. change UMM_BLOCKNO_MASK with (Z.ones 15). rewrite Z.land_ones by lia. reflexivity. Qed.

Lemma land_freemask v :
  0 <= v < 65536 -> Z.land v UMM_FREELIST_MASK = if v <? 32768 then 0 else 32768.
Proof.
  intros H. unfold UMM_FREELIST_MASK.
  assert (Hv : v = Z.lor (Z.land v 32767) (Z.land v 32768)).
  { rewrite <- Z.land_lor_distr_r. change (Z.lor 32767 32768) with (Z.ones 16).
    rewrite Z.land_ones by lia. rewrite Z.mod_small; lia. }
  assert (Hd : Z.land (Z.land v 32767) (Z.land v 32768) = 0).
  { rewrite Z.land_assoc, <- (Z.land_assoc v 32767 v), (Z.land_comm 32767 v),
      Z.land_assoc, Z.land_diag, <- Z.land_assoc. change (Z.land 32767 32768) with 0.
    apply Z.land_0_r. }
  assert (Hs : v = Z.land v 32767 + Z.land v 32768).
  { rewrite Z.add_nocarry_lxor by exact Hd. rewrite Z.lxor_lor by exact Hd. exact Hv. }
  pose proof (land_blockno v (proj1 H)) as Hm. unfold UMM_BLOCKNO_MASK in Hm.
  pose proof (Z.mod_pos_bound v 32768).
  assert (Hb : Z.land v 32768 = 0 \/ Z.land v 32768 = 32768).
  { change 32768 with (2 ^ 15).
    destruct (Z.testbit v 15) eqn:E.
    - right. apply Z.bits_inj'. intros n Hn. rewrite Z.land_spec, Z.pow2_bits_eqb by lia.
      destruct (Z.eqb_spec 15 n); subst; rewrite ?E; simpl; auto using andb_false_r.
    - left. apply Z.bits_inj'. intros n Hn. rewrite Z.land_spec, Z.pow2_bits_eqb, Z.bits_0 by lia.
      destruct (Z.eqb_spec 15 n); subst; rewrite ?E; simpl; auto using andb_false_r. }
  destruct (Z.ltb_spec v 32768); lia.
Qed.

Lemma lor_freemask v : 0 <= v < 32768 -> Z.lor v UMM_FREELIST_MASK = v + 32768.
Proof.
  intros H. unfold UMM_FREELIST_MASK.
  assert (Hd : Z.land v 32768 = 0).
  { pose proof (land_freemask v) as E. unfold UMM_FREELIST_MASK in E. rewrite E by lia.
    destruct (Z.ltb_spec v 32768); lia. }
  rewrite Z.add_nocarry_lxor by exact Hd. rewrite Z.lxor_lor by exact Hd. reflexivity.
Qed.

Lemma has_free_flag_spec v :
  0 <= v < 65536 -> has_free_flag v = (32768 <=? v).
Proof.
  intros H. unfold has_free_flag. rewrite land_freemask by exact H.
  destruct (Z.ltb_spec v 32768), (Z.leb_spec 32768 v); try lia; reflexivity.
Qed.
(** ** The free ring as a list *)

Lemma upd_same f k v : upd f k v k = v.
Proof. unfold upd. rewrite Z.eqb_refl. reflexivity. Qed.

Lemma upd_other f k v x : x <> k -> upd f k v x = f x.
Proof. intros H. unfold upd. destruct (Z.eqb_spec x k); [contradiction | reflexivity]. Qed.

Lemma updb_same f k v : updb f k v k = v.
Proof. unfold updb. rewrite Z.eqb_refl. reflexivity. Qed.

Lemma updb_other f k v x : x <> k -> updb f k v x = f x.
Proof. intros H. unfold updb. destruct (Z.eqb_spec x k); [contradiction | reflexivity]. Qed.

Lemma links_ext nf pf nf' pf' l : forall p,
  links nf pf p l ->
  (forall x, x = p \/ In x l -> nf' x = nf x) ->
  (forall x, x = 0 \/ In x l -> pf' x = pf x) ->
  links nf' pf' p l.
Proof.
  induction l as [|a l IH]; simpl; intros p H Hn Hp.
  - destruct H as [H1 H2]. rewrite Hn, Hp by auto. auto.
  - destruct H as (H1 & H2 & H3).
    rewrite Hn, Hp by auto. repeat split; auto.
    apply IH; auto.
    + intros x [->|Hx]; apply Hn; auto.
    + intros x [->|Hx]; apply Hp; auto.
Qed.

(** The successor of a ring element is a later element or the anchor. *)
Lemma links_nf_in nf pf l : forall p c,
  links nf pf p l -> c = p \/ In c l -> nf c = 0 \/ In (nf c) l.
Proof.
  induction l as [|a l IH]; simpl; intros p c H Hc.
  - destruct Hc as [->|[]]. tauto.
  - destruct H as (H1 & H2 & H3).
    destruct Hc as [->|Hc].
    + right. left. auto.
    + destruct (IH a c H3) as [E|E]; auto.
      destruct Hc; auto.
Qed.

(** The predecessor of a ring element is an earlier element or the start. *)
Lemma links_pf_in nf pf l : forall p c,
  links nf pf p l -> In c l -> pf c = p \/ In (pf c) l.
Proof.
  induction l as [|a l IH]; simpl; intros p c H Hc.
  - contradiction.
  - destruct H as (H1 & H2 & H3).
    destruct Hc as [->|Hc].
    + left. auto.
    + destruct (IH a c H3 Hc) as [E|E]; auto.
Qed.


Lemma In_drop c l x : In x (drop c l) <-> In x l /\ x <> c.
Proof.
  unfold drop. rewrite filter_In, negb_true_iff, Z.eqb_neq. tauto.
Qed.

Lemma drop_notin c l : ~ In c l -> drop c l = l.
Proof.
  induction l as [|a l IH]; simpl; intros H; auto.
  destruct (Z.eqb_spec a c); simpl.
  - subst. tauto.
  - rewrite IH; tauto.
Qed.

Lemma NoDup_drop c l : NoDup l -> NoDup (drop c l).
Proof. apply NoDup_filter. Qed.

Lemma swap_notin c d l : ~ In c l -> swap c d l = l.
Proof.
  induction l as [|a l IH]; simpl; intros H; auto.
  destruct (Z.eqb_spec a c); simpl.
  - subst. tauto.
  - rewrite IH; tauto.
Qed.

Lemma In_swap c d l x :
  In x (swap c d l) <-> (In x l /\ x <> c) \/ (x = d /\ In c l).
Proof.
  induction l as [|a l IH]; simpl.
  - tauto.
  - rewrite IH. destruct (Z.eqb_spec a c); subst; split; intros H.
    + destruct (Z.eq_dec x c); intuition congruence.
    + destruct (Z.eq_dec x c); intuition congruence.
    + intuition congruence.
    + intuition congruence.
Qed.

Lemma NoDup_swap c d l : NoDup l -> ~ In d l -> NoDup (swap c d l).
Proof.
  induction l as [|a l IH]; simpl; intros H Hd.
  - constructor.
  - inversion H; subst. constructor.
    + rewrite In_swap. destruct (Z.eqb_spec a c); subst; intuition congruence.
    + apply IH; tauto.
Qed.

(** Unlinking [c]: [nf (pf c) <- nf c] and [pf (nf c) <- pf c]. *)
Lemma links_drop nf pf c l : forall p,
  links nf pf p l -> NoDup (p :: l) -> ~ In 0 l -> In c l ->
  links (upd nf (pf c) (nf c)) (upd pf (nf c) (pf c)) p (drop c l).
Proof.
  induction l as [|a l IH]; intros p H Hnd H0 Hc.
  - destruct Hc.
  - simpl in H. destruct H as (H1 & H2 & H3).
    apply NoDup_cons_iff in Hnd. destruct Hnd as [Hp Hnd'].
    pose proof Hnd' as Hnd''. apply NoDup_cons_iff in Hnd''. destruct Hnd'' as [Ha Hnd''].
    simpl in Hp, H0.
    unfold drop; simpl. destruct (Z.eqb_spec a c) as [->|Hac]; simpl.
    + (* the head is unlinked *)
      fold (drop c l). rewrite drop_notin by exact Ha.
      rewrite H2.
      destruct l as [|y l']; simpl in *.
      * destruct H3 as [H3 H4]. rewrite H3.
        rewrite !upd_same. auto.
      * destruct H3 as (H3 & H4 & H5). rewrite H3.
        rewrite !upd_same. repeat split; auto.
        apply NoDup_cons_iff in Hnd''. destruct Hnd'' as [Hy Hnd3].
        eapply links_ext; [exact H5 | |].
        -- intros x Hx. apply upd_other. intros ->. simpl in *; intuition lia.
        -- intros x Hx. apply upd_other. intros ->. simpl in *; intuition lia.
    + fold (drop c l). destruct Hc as [Hc|Hc]; [contradiction|].
      repeat split.
      * rewrite upd_other; auto.
        intros E. destruct (links_pf_in _ _ _ _ _ H3 Hc) as [E'|E'];
          [|rewrite <- E in E']; simpl in *; intuition lia.
      * rewrite upd_other; auto.
        intros E. destruct (links_nf_in _ _ _ a c H3 (or_intror Hc)) as [E'|E'];
          [|rewrite <- E in E']; simpl in *; intuition lia.
      * apply IH; auto.
Qed.

(** Replacing [c] by a fresh [d] in the ring (the tail of a split). *)
Lemma links_swap nf pf c d l : forall p,
  links nf pf p l -> NoDup (p :: l) -> ~ In 0 l -> In c l ->
  d <> 0 -> d <> p -> ~ In d l ->
  links (upd (upd nf (pf c) d) d (nf c)) (upd (upd pf d (pf c)) (nf c) d) p
        (swap c d l).
Proof.
  induction l as [|a l IH]; intros p H Hnd H0 Hc Hd0 Hdp Hdl.
  - destruct Hc.
  - simpl in H. destruct H as (H1 & H2 & H3).
    apply NoDup_cons_iff in Hnd. destruct Hnd as [Hp Hnd'].
    pose proof Hnd' as Hnd''. apply NoDup_cons_iff in Hnd''. destruct Hnd'' as [Ha Hnd''].
    simpl in Hp, H0, Hdl.
    simpl. destruct (Z.eqb_spec a c) as [->|Hac]; simpl.
    + rewrite swap_notin by exact Ha.
      rewrite H2.
      assert (Hnc : nf c = 0 \/ In (nf c) l).
      { destruct (links_nf_in _ _ _ c c H3); auto. }
      assert (Hncd : nf c <> d) by (intros E; rewrite E in Hnc; intuition lia).
      repeat split.
      * rewrite upd_other by auto. apply upd_same.
      * rewrite upd_other by auto. apply upd_same.
      * destruct l as [|y l']; simpl in *.
        -- destruct H3 as [H3 H4]. rewrite H3.
           rewrite !upd_same. auto.
        -- destruct H3 as (H3 & H4 & H5). rewrite H3.
           rewrite !upd_same. repeat split; auto.
           apply NoDup_cons_iff in Hnd''. destruct Hnd'' as [Hy Hnd3].
           eapply links_ext; [exact H5 | |].
           ++ intros x Hx. rewrite !upd_other; auto.
              ** intros ->. simpl in *; intuition lia.
              ** intros ->. simpl in *; intuition lia.
           ++ intros x Hx. rewrite !upd_other; auto.
              ** intros ->. simpl in *; intuition lia.
              ** intros ->. simpl in *; intuition lia.
    + destruct Hc as [Hc|Hc]; [contradiction|].
      assert (Hpc : pf c = a \/ In (pf c) l) by (eapply links_pf_in; eauto).
      assert (Hnc : nf c = 0 \/ In (nf c) l)
        by (eapply (links_nf_in _ _ _ a c); eauto).
      repeat split.
      * rewrite !upd_other; auto;
          intros E; try rewrite <- E in Hpc; simpl in *; intuition lia.
      * rewrite !upd_other; auto;
          intros E; try rewrite <- E in Hnc; simpl in *; intuition lia.
      * apply IH; auto.
Qed.

(** Inserting a fresh [c] at the head of the ring. *)
Lemma links_cons nf pf c l :
  links nf pf 0 l -> c <> 0 -> ~ In c l -> ~ In 0 l -> NoDup l ->
  links (upd (upd nf c (nf 0)) 0 c) (upd (upd pf (nf 0) c) c 0) 0 (c :: l).
Proof.
  intros H Hc Hcl H0 Hnd. simpl.
  split; [apply upd_same|]. split; [apply upd_same|].
  destruct l as [|y l']; simpl in *.
  - destruct H as [H1 H2]. rewrite H1.
    rewrite (upd_other _ 0 c c) by auto. rewrite upd_same.
    rewrite (upd_other _ c 0 0) by auto. rewrite upd_same. auto.
  - destruct H as (H1 & H2 & H3). rewrite H1.
    apply NoDup_cons_iff in Hnd. destruct Hnd as [Hy Hnd3].
    rewrite (upd_other _ 0 c c) by auto. rewrite upd_same.
    rewrite (upd_other _ c 0 y) by (intros E; intuition lia). rewrite upd_same.
    split; [reflexivity|]. split; [reflexivity|].
    eapply links_ext; [exact H3 | |].
    + intros x Hx. rewrite !upd_other; auto; intros ->; intuition lia.
    + intros x Hx. rewrite !upd_other; auto; intros ->; intuition lia.
Qed.

(** A ring member is neither its own successor nor its own predecessor. *)
Lemma links_neq nf pf l : forall p c,
  links nf pf p l -> NoDup (p :: l) -> ~ In 0 l -> In c l ->
  nf c <> c /\ pf c <> c.
Proof.
  induction l as [|a l IH]; intros p c H Hnd H0 Hc.
  - destruct Hc.
  - simpl in H. destruct H as (Ha1 & Ha2 & Ha3).
    apply NoDup_cons_iff in Hnd. destruct Hnd as [Hp Hnd'].
    pose proof Hnd' as Hnd''. apply NoDup_cons_iff in Hnd''. destruct Hnd'' as [Ha Hnd''].
    destruct Hc as [<-|Hc].
    + split.
      * destruct l as [|y l']; simpl in *.
        -- destruct Ha3 as [Ha3 _]. rewrite Ha3. intuition lia.
        -- destruct Ha3 as [Ha3 _]. rewrite Ha3. intuition lia.
      * rewrite Ha2. simpl in Hp. intuition lia.
    + apply (IH a c); auto. simpl in H0. tauto.
Qed.
(** ** The invariant under the abstract effect of each primitive *)

Section Hinv.

Variables (N : Z) (nx pv : Z -> Z) (fr : Z -> bool) (nf pf : Z -> Z).
Variables (S : Z -> Prop) (fl : list Z).
Hypothesis H : hinv N nx pv fr nf pf S fl.

Lemma hinv_S1 : S 1.
Proof.
  destruct H. destruct (hi_next0 0) as (_ & Ha1 & _); auto; try lia.
  rewrite hi_nx1 in Ha1. exact Ha1.
Qed.

Lemma hinv_prev_lt i : S i -> i <> 0 -> pv i < i /\ pv i <> N - 1 /\ 0 <= pv i.
Proof.
  intros Hi Hi0. destruct H.
  destruct (hi_prev0 i Hi Hi0) as [Hp Hn].
  assert (pv i <> N - 1) by (intros E; rewrite E in Hn; lia).
  destruct (hi_next0 (pv i) Hp) as (Hlt & _); auto.
  pose proof (hi_range0 _ Hp). lia.
Qed.

Lemma hinv_free_inner i : S i -> fr i = true -> i <> 0 /\ i <> N - 1.
Proof.
  intros Hi Hf. destruct H. split; intros ->; congruence.
Qed.

Lemma hinv_free_prev_used i : S i -> fr i = true -> fr (pv i) = false.
Proof.
  intros Hi Hf. destruct (hinv_free_inner i Hi Hf) as [Hi0 HiN].
  destruct H.
  destruct (hi_prev0 i Hi Hi0) as [Hp Hn].
  destruct (fr (pv i)) eqn:E; auto.
  pose proof (hi_noadj0 _ Hp E) as Hc. rewrite Hn in Hc. congruence.
Qed.

Lemma hinv_0_notin : ~ In 0 fl.
Proof.
  destruct H. intros Hin. apply hi_mem0 in Hin. destruct Hin. congruence.
Qed.

Lemma hinv_fl_range x : In x fl -> 0 < x < N - 1.
Proof.
  intros Hin. destruct H as [? ? ? ? ? ? ? ? ? ? ? ? ? Hm ?].
  apply Hm in Hin. destruct Hin as [Hs Hf].
  destruct (hinv_free_inner x Hs Hf). pose proof (hi_range0 _ Hs). lia.
Qed.

Lemma hinv_nx_range i : S i -> 0 <= nx i <= N - 1.
Proof.
  intros Hi. destruct H.
  destruct (Z.eq_dec i (N - 1)) as [->|Hn]; [lia|].
  destruct (hi_next0 i Hi Hn) as (_ & Hs & _). apply hi_range0 in Hs. lia.
Qed.

(** Only the values at chain blocks and ring members matter. *)
Lemma hinv_ext nx' pv' fr' nf' pf' :
  (forall x, S x -> nx' x = nx x /\ pv' x = pv x /\ fr' x = fr x) ->
  (forall x, x = 0 \/ In x fl -> nf' x = nf x /\ pf' x = pf x) ->
  hinv N nx' pv' fr' nf' pf' S fl.
Proof.
  intros Hc Hr. pose proof hinv_nx_range as Hnr. destruct H.
  assert (Hx : forall x, S x -> nx' x = nx x) by (intros; apply Hc; auto).
  assert (Hv : forall x, S x -> pv' x = pv x) by (intros; apply Hc; auto).
  assert (Hf : forall x, S x -> fr' x = fr x) by (intros; apply Hc; auto).
  assert (HSnx : forall i, S i -> S (nx i)).
  { intros i Hi. destruct (Z.eq_dec i (N - 1)) as [->|Hn].
    - rewrite hi_nxlast0. auto.
    - apply hi_next0; auto. }
  constructor; auto.
  - rewrite Hx; auto.
  - rewrite Hf; auto.
  - rewrite Hx; auto.
  - rewrite Hf; auto.
  - intros i Hi Hn. rewrite Hx by auto.
    destruct (hi_next0 i Hi Hn) as (Ha1 & Ha2 & Ha3).
    rewrite Hv by auto. auto.
  - intros i j Hi Hj Hlt. rewrite Hx by auto. auto.
  - intros i Hi Hn. rewrite Hv by auto.
    destruct (hi_prev0 i Hi Hn) as (Ha1 & Ha2).
    rewrite Hx by auto. auto.
  - intros i Hi. rewrite Hf, Hx by auto. rewrite Hf by auto. auto.
  - intros x. rewrite hi_mem0. split; intros [Ha1 Ha2]; split; auto.
    + rewrite Hf; auto.
    + rewrite <- Hf; auto.
  - eapply links_ext; [exact hi_links0 | |].
    + intros x Hx0. apply Hr; auto.
    + intros x Hx0. apply Hr; auto.
Qed.

(** Removing the free block [c] from the ring and clearing its flag. *)
Lemma hinv_unlink c :
  In c fl ->
  hinv N nx pv (updb fr c false) (upd nf (pf c) (nf c)) (upd pf (nf c) (pf c))
       S (drop c fl).
Proof.
  intros Hc. pose proof hinv_0_notin as H0. destruct H.
  assert (Hc' := Hc). apply hi_mem0 in Hc'. destruct Hc' as [HcS Hcf].
  assert (c <> 0) by (intros ->; congruence).
  assert (c <> N - 1) by (intros ->; congruence).
  constructor; auto.
  - rewrite updb_other; auto.
  - rewrite updb_other; auto.
  - intros i Hi. unfold updb at 1. destruct (Z.eqb_spec i c); [congruence|].
    intros Hf. unfold updb. destruct (Z.eqb_spec (nx i) c); auto.
  - apply NoDup_drop; auto.
  - intros x. rewrite In_drop, hi_mem0. unfold updb.
    destruct (Z.eqb_spec x c); intuition congruence.
  - apply links_drop; auto. constructor; auto.
Qed.

(** Folding the used successor [nx i] into [i]. *)
Lemma hinv_merge i :
  S i -> i <> 0 -> i <> N - 1 -> nx i <> N - 1 -> fr (nx i) = false ->
  (fr i = true -> fr (nx (nx i)) = false) ->
  hinv N (upd nx i (nx (nx i))) (upd pv (nx (nx i)) i) fr nf pf
       (fun x => S x /\ x <> nx i) fl.
Proof.
  intros Hi Hi0 HiN HnN Hnf Hadj. destruct H.
  destruct (hi_next0 i Hi HiN) as (Hlt & Hn & Hpn).
  destruct (hi_next0 (nx i) Hn HnN) as (Hlt2 & Hn2 & Hpn2).
  pose proof (hi_range0 _ Hi). pose proof (hi_range0 _ Hn). pose proof (hi_range0 _ Hn2).
  constructor; auto.
  - split; auto. lia.
  - intros x [Hx _]. auto.
  - rewrite upd_other; auto.
  - rewrite upd_other; auto.
  - intros x [Hx Hxn] HxN.
    destruct (hi_next0 x Hx HxN) as (Ha1 & Ha2 & Ha3).
    destruct (Z.eq_dec x i) as [->|Hxi].
    + rewrite (upd_same nx). split; [lia|]. split; [split; [auto|lia]|]. apply upd_same.
    + rewrite (upd_other nx) by auto. split; [lia|]. split; [split; [auto|]|].
      * intros E. rewrite E in Ha3. congruence.
      * rewrite upd_other; auto. intros E. rewrite E in Ha3. congruence.
  - intros x j [Hx Hxn] [Hj Hjn] Hlt3.
    destruct (Z.eq_dec x i) as [->|Hxi].
    + rewrite upd_same.
      pose proof (hi_gap0 _ _ Hi Hj Hlt3). apply hi_gap0; auto. lia.
    + rewrite upd_other by auto. apply hi_gap0; auto.
  - intros x [Hx Hxn] Hx0.
    destruct (hi_prev0 x Hx Hx0) as (Ha1 & Ha2).
    destruct (Z.eq_dec x (nx (nx i))) as [->|Hxi].
    + rewrite (upd_same pv). split; [split; [auto|lia]|]. apply upd_same.
    + rewrite (upd_other pv) by auto.
      assert (pv x <> nx i) by (intros E; rewrite E in Ha2; congruence).
      assert (pv x <> i) by (intros E; rewrite E in Ha2; congruence).
      split; [split; auto|]. rewrite upd_other; auto.
  - intros x [Hx Hxn] Hf.
    destruct (Z.eq_dec x i) as [->|Hxi].
    + rewrite upd_same. auto.
    + rewrite upd_other by auto. auto.
  - intros x. rewrite hi_mem0. split.
    + intros [Ha1 Ha2]. repeat split; auto. intros ->. congruence.
    + intros [[Ha1 Ha2] Ha3]. auto.
Qed.

(** Splitting block [i] at [d]; the head becomes (or stays) used and the
    tail gets the flag [m]. *)
Lemma hinv_split_chain i d m fr' nf' pf' fl' :
  S i -> i <> N - 1 -> i < d < nx i ->
  (m = true -> fr (nx i) = false) ->
  (forall x, S x -> x <> i -> fr' x = fr x) -> fr' i = false -> fr' d = m ->
  NoDup fl' ->
  (forall x, In x fl' <-> (S x \/ x = d) /\ fr' x = true) ->
  links nf' pf' 0 fl' ->
  hinv N (upd (upd nx d (nx i)) i d) (upd (upd pv d i) (nx i) d) fr' nf' pf'
       (fun x => S x \/ x = d) fl'.
Proof.
  intros Hi HiN Hd Hm Hfr Hfi Hfd Hnd Hmem Hl. destruct H.
  destruct (hi_next0 i Hi HiN) as (Hlt & Hn & Hpn).
  pose proof (hi_range0 _ Hi). pose proof (hi_range0 _ Hn).
  assert (HdS : ~ S d).
  { intros HS. pose proof (hi_gap0 _ _ Hi HS). lia. }
  assert (Hi0 : i <> 0) by (intros ->; lia).
  constructor; auto.
  - intros x [Hx| ->]; auto. lia.
  - rewrite !upd_other; auto; lia.
  - rewrite Hfr; auto.
  - rewrite !upd_other; auto; lia.
  - rewrite Hfr; auto.
  - intros x Hx HxN.
    destruct (Z.eq_dec x i) as [->|Hxi].
    + rewrite (upd_same _ i d). split; [lia|]. split; [auto|].
      rewrite upd_other by lia. apply upd_same.
    + rewrite (upd_other _ i d x) by auto.
      destruct (Z.eq_dec x d) as [->|Hxd].
      * rewrite (upd_same nx). split; [lia|]. split; [auto|]. apply upd_same.
      * rewrite (upd_other nx) by auto.
        destruct Hx as [Hx|Hx]; [|contradiction].
        destruct (hi_next0 x Hx HxN) as (Ha1 & Ha2 & Ha3).
        split; [lia|]. split; [auto|].
        rewrite !upd_other; auto.
        -- intros E. rewrite E in Ha2. contradiction.
        -- intros E. rewrite E in Ha3. congruence.
  - intros x j Hx Hj Hlt3.
    destruct (Z.eq_dec x i) as [->|Hxi].
    + rewrite upd_same.
      destruct Hj as [Hj| ->]; [|lia].
      pose proof (hi_gap0 _ _ Hi Hj Hlt3). lia.
    + rewrite (upd_other _ i d x) by auto.
      destruct (Z.eq_dec x d) as [->|Hxd].
      * rewrite upd_same.
        destruct Hj as [Hj| ->]; [|lia].
        apply hi_gap0; auto. lia.
      * rewrite upd_other by auto.
        destruct Hx as [Hx|Hx]; [|contradiction].
        destruct Hj as [Hj| ->]; [apply hi_gap0; auto|].
        destruct (Z.lt_total x i) as [Hc|[Hc|Hc]]; [|contradiction|].
        -- pose proof (hi_gap0 _ _ Hx Hi Hc). lia.
        -- pose proof (hi_gap0 _ _ Hi Hx Hc). lia.
  - intros x Hx Hx0.
    destruct (Z.eq_dec x (nx i)) as [->|Hxn].
    + rewrite (upd_same _ (nx i) d). split; [auto|].
      rewrite upd_other by lia. apply upd_same.
    + rewrite (upd_other _ (nx i) d x) by auto.
      destruct (Z.eq_dec x d) as [->|Hxd].
      * rewrite (upd_same pv). split; [auto|]. apply upd_same.
      * rewrite (upd_other pv) by auto.
        destruct Hx as [Hx|Hx]; [|contradiction].
        destruct (hi_prev0 x Hx Hx0) as (Ha1 & Ha2).
        split; [auto|]. rewrite !upd_other; auto.
        -- intros E. rewrite E in Ha1. contradiction.
        -- intros E. rewrite E in Ha2. congruence.
  - intros x Hx Hf.
    destruct (Z.eq_dec x i) as [->|Hxi]; [congruence|].
    rewrite (upd_other _ i d x) by auto.
    destruct (Z.eq_dec x d) as [->|Hxd].
    + rewrite upd_same. rewrite Hfr; auto. apply Hm. congruence. lia.
    + rewrite upd_other by auto.
      destruct Hx as [Hx|Hx]; [|contradiction].
      rewrite Hfr in Hf by auto.
      destruct (Z.eq_dec (nx x) i) as [E|E]; [rewrite E; auto|].
      destruct (Z.eq_dec x (N - 1)) as [->|HxN]; [congruence|].
      destruct (hi_next0 x Hx HxN) as (Ha1 & Ha2 & Ha3).
      rewrite Hfr; auto.
Qed.

(** Splitting a used block: both halves are used, the ring is untouched. *)
Lemma hinv_split_used i d :
  S i -> i <> N - 1 -> i < d < nx i -> fr i = false ->
  hinv N (upd (upd nx d (nx i)) i d) (upd (upd pv d i) (nx i) d)
       (updb fr d false) nf pf (fun x => S x \/ x = d) fl.
Proof.
  intros Hi HiN Hd Hf.
  assert (HdS : ~ S d).
  { intros HS. destruct H. pose proof (hi_gap0 _ _ Hi HS). lia. }
  apply hinv_split_chain with (m := false); auto; try discriminate.
  - intros x Hx _. apply updb_other. intros ->. contradiction.
  - rewrite updb_other by lia. auto.
  - apply updb_same.
  - destruct H; auto.
  - intros x. destruct H. rewrite hi_mem0. unfold updb.
    destruct (Z.eqb_spec x d) as [->|Hxd]; intuition congruence.
  - destruct H; auto.
Qed.

(** Splitting the free block [i] for an allocation: the head is handed
    out and the tail [d] takes the place of [i] in the ring. *)
Lemma hinv_split_free i d :
  In i fl -> i < d < nx i ->
  hinv N (upd (upd nx d (nx i)) i d) (upd (upd pv d i) (nx i) d)
       (updb (updb fr i false) d true)
       (upd (upd nf (pf i) d) d (nf i)) (upd (upd pf d (pf i)) (nf i) d)
       (fun x => S x \/ x = d) (swap i d fl).
Proof.
  intros Hin Hd. pose proof hinv_0_notin as H0.
  assert (Hin' := Hin).
  destruct H as [? ? ? ? ? ? ? ? ? ? ? ? ? Hm ?]. apply Hm in Hin'.
  destruct Hin' as [Hi Hf].
  destruct (hinv_free_inner i Hi Hf) as [Hi0 HiN].
  assert (HdS : ~ S d).
  { intros HS. pose proof (hi_gap0 _ _ Hi HS). lia. }
  assert (Hdfl : ~ In d fl) by (rewrite Hm; tauto).
  pose proof (hi_range0 _ Hi).
  apply hinv_split_chain with (m := true); auto.
  - intros x Hx Hxi. rewrite updb_other by (intros ->; contradiction).
    apply updb_other; auto.
  - rewrite updb_other by lia. apply updb_same.
  - apply updb_same.
  - apply NoDup_swap; auto.
  - intros x. rewrite In_swap, Hm. unfold updb.
    destruct (Z.eqb_spec x d) as [->|Hxd].
    + intuition congruence.
    + destruct (Z.eqb_spec x i) as [->|Hxi]; intuition congruence.
  - apply links_swap; auto; try lia. constructor; auto.
Qed.

(** Putting the used block [c] at the head of the ring. *)
Lemma hinv_insert c :
  S c -> c <> 0 -> c <> N - 1 -> fr c = false ->
  fr (nx c) = false -> fr (pv c) = false ->
  hinv N nx pv (updb fr c true)
       (upd (upd nf c (nf 0)) 0 c) (upd (upd pf (nf 0) c) c 0) S (c :: fl).
Proof.
  intros Hc Hc0 HcN Hf Hfn Hfp. pose proof hinv_0_notin as H0. destruct H.
  assert (Hcfl : ~ In c fl) by (rewrite hi_mem0; intros [_ E]; congruence).
  destruct (hi_next0 c Hc HcN) as (Hlt & Hn & Hpn).
  constructor; auto.
  - rewrite updb_other; auto.
  - rewrite updb_other; auto.
  - intros i Hi. unfold updb.
    destruct (Z.eqb_spec i c) as [->|Hic].
    + intros _. destruct (Z.eqb_spec (nx c) c); [lia|auto].
    + intros Hfi. destruct (Z.eqb_spec (nx i) c) as [E|E]; auto.
      exfalso. destruct (Z.eq_dec i (N - 1)) as [->|HiN]; [congruence|].
      destruct (hi_next0 i Hi HiN) as (_ & _ & Hp). rewrite E in Hp.
      rewrite Hp in Hfp. congruence.
  - constructor; auto.
  - intros x. simpl. rewrite hi_mem0. unfold updb.
    destruct (Z.eqb_spec x c) as [->|Hxc]; intuition congruence.
  - apply links_cons; auto.
Qed.

End Hinv.

(** The same facts on abstract heaps. *)

Lemma ainv_unlink a c : ainv a -> In c (afl a) -> ainv (a_unlink c a).
Proof. intros H Hc. apply hinv_unlink; assumption. Qed.

Lemma ainv_merge a i :
  ainv a -> aS a i -> i <> 0 -> i <> aN a - 1 -> anx a i <> aN a - 1 ->
  afr a (anx a i) = false ->
  (afr a i = true -> afr a (anx a (anx a i)) = false) ->
  ainv (a_merge i a).
Proof. intros. unfold ainv, a_merge; simpl. apply hinv_merge; assumption. Qed.

Lemma ainv_split_used a i d :
  ainv a -> aS a i -> i <> aN a - 1 -> i < d < anx a i -> afr a i = false ->
  ainv (a_split_used i d a).
Proof. intros. unfold ainv, a_split_used; simpl. apply hinv_split_used; assumption. Qed.

Lemma ainv_split_free a i d :
  ainv a -> In i (afl a) -> i < d < anx a i -> ainv (a_split_free i d a).
Proof. intros. unfold ainv, a_split_free; simpl. apply hinv_split_free; assumption. Qed.

Lemma ainv_insert a c :
  ainv a -> aS a c -> c <> 0 -> c <> aN a - 1 -> afr a c = false ->
  afr a (anx a c) = false -> afr a (apv a c) = false ->
  ainv (a_insert c a).
Proof. intros. unfold ainv, a_insert; simpl. apply hinv_insert; assumption. Qed.
(** ** Block fields *)

Lemma UMM_BLOCKSIZE_ge : 8 <= UMM_BLOCKSIZE.
Proof. unfold UMM_BLOCKSIZE, header_size, body_size. lia. Qed.

Lemma get_range f st b : 0 <= get f st b < 65536.
Proof. apply load16_range. Qed.

Lemma get_set_eq f b v st x :
  get f (set f b v st) x = if x =? b then u16 v else get f st x.
Proof.
  unfold get, set, with_memory, UMM_BLOCK, UMM_HEAP; simpl.
  destruct (Z.eqb_spec x b) as [->|Hne].
  - apply load16_store16_same.
  - apply load16_store16_other.
    pose proof UMM_BLOCKSIZE_ge.
    assert (x < b \/ b < x) as [Hlt|Hlt] by lia; [left|right]; nia.
Qed.

Lemma get_set_diff f g b v st x :
  f <> g -> get g (set f b v st) x = get g st x.
Proof.
  intros Hfg. unfold get, set, with_memory, UMM_BLOCK, UMM_HEAP; simpl.
  apply load16_store16_other.
  pose proof UMM_BLOCKSIZE_ge.
  destruct (Z.eq_dec x b) as [->|Hne].
  - destruct f, g; simpl; try congruence; lia.
  - assert (x < b \/ b < x) as [Hlt|Hlt] by lia; [left|right];
      destruct f, g; simpl; nia.
Qed.

Lemma get_with_info f st i x : get f (with_info st i) x = get f st x.
Proof. reflexivity. Qed.

Lemma get_METRIC_ADD f c st x : get f (UMM_FRAGMENTATION_METRIC_ADD c st) x = get f st x.
Proof. unfold UMM_FRAGMENTATION_METRIC_ADD. destruct UMM_INLINE_METRICS; reflexivity. Qed.

Lemma get_METRIC_REMOVE f c st x :
  get f (UMM_FRAGMENTATION_METRIC_REMOVE c st) x = get f st x.
Proof. unfold UMM_FRAGMENTATION_METRIC_REMOVE. destruct UMM_INLINE_METRICS; reflexivity. Qed.

Lemma cfg_set f b v st : umm_heap_current (set f b v st) = umm_heap_current st.
Proof. reflexivity. Qed.

Lemma cfg_METRIC_ADD c st :
  umm_heap_current (UMM_FRAGMENTATION_METRIC_ADD c st) = umm_heap_current st.
Proof. unfold UMM_FRAGMENTATION_METRIC_ADD. destruct UMM_INLINE_METRICS; reflexivity. Qed.

Lemma cfg_METRIC_REMOVE c st :
  umm_heap_current (UMM_FRAGMENTATION_METRIC_REMOVE c st) = umm_heap_current st.
Proof. unfold UMM_FRAGMENTATION_METRIC_REMOVE. destruct UMM_INLINE_METRICS; reflexivity. Qed.

Lemma memory_METRIC_ADD c st : memory (UMM_FRAGMENTATION_METRIC_ADD c st) = memory st.
Proof. unfold UMM_FRAGMENTATION_METRIC_ADD. destruct UMM_INLINE_METRICS; reflexivity. Qed.

Lemma memory_METRIC_REMOVE c st : memory (UMM_FRAGMENTATION_METRIC_REMOVE c st) = memory st.
Proof. unfold UMM_FRAGMENTATION_METRIC_REMOVE. destruct UMM_INLINE_METRICS; reflexivity. Qed.

(** Two states with the same configuration and the same block fields. *)
Definition same_fields (st st' : umm_state) : Prop :=
  umm_heap_current st' = umm_heap_current st /\
  forall f x, get f st' x = get f st x.

(** ** Index and flag of a [next] field *)

Lemma nxt_range st b : 0 <= nxt st b < 32768.
Proof.
  pose proof (get_range NBLOCK st b).
  rewrite land_blockno by lia. apply Z.mod_pos_bound. lia.
Qed.

Lemma NBLOCK_used st b : is_free st b = false -> get NBLOCK st b = nxt st b.
Proof.
  pose proof (get_range NBLOCK st b).
  rewrite has_free_flag_spec, land_blockno by lia.
  intros Hf. apply Z.leb_gt in Hf. rewrite Z.mod_small; lia.
Qed.

Lemma NBLOCK_free st b : is_free st b = true -> get NBLOCK st b = nxt st b + 32768.
Proof.
  pose proof (get_range NBLOCK st b).
  rewrite has_free_flag_spec, land_blockno by lia.
  intros Hf. apply Z.leb_le in Hf.
  pose proof (Z.div_mod (get NBLOCK st b) 32768).
  assert (get NBLOCK st b / 32768 = 1).
  { apply Z.le_antisymm.
    - apply Z.lt_succ_r. apply Z.div_lt_upper_bound; lia.
    - apply Z.div_le_lower_bound; lia. }
  lia.
Qed.

Lemma idx_of_used i : 0 <= i < 32768 -> Z.land i UMM_BLOCKNO_MASK = i.
Proof.
  intros. rewrite land_blockno by lia. apply Z.mod_small. lia.
Qed.

Lemma flag_of_used i : 0 <= i < 32768 -> has_free_flag i = false.
Proof.
  intros. rewrite has_free_flag_spec by lia. apply Z.leb_gt. lia.
Qed.

Lemma idx_of_free i :
  0 <= i < 32768 -> Z.land (Z.lor i UMM_FREELIST_MASK) UMM_BLOCKNO_MASK = i.
Proof.
  intros. rewrite lor_freemask by lia.
  rewrite land_blockno by lia.
  replace (i + 32768) with (i + 1 * 32768) by lia.
  rewrite Z.mod_add by lia. apply Z.mod_small. lia.
Qed.

Lemma flag_of_free i :
  0 <= i < 32768 -> has_free_flag (Z.lor i UMM_FREELIST_MASK) = true.
Proof.
  intros. rewrite lor_freemask by lia.
  rewrite has_free_flag_spec by lia. apply Z.leb_le. lia.
Qed.

Lemma u16_lor_free i :
  0 <= i < 32768 -> u16 (Z.lor i UMM_FREELIST_MASK) = Z.lor i UMM_FREELIST_MASK.
Proof.
  intros. rewrite lor_freemask by lia. apply u16_small. lia.
Qed.

Lemma lor_zero i : Z.lor i 0 = i.
Proof. apply Z.lor_0_r. Qed.

Lemma nxt_set_NBLOCK b v st x :
  nxt (set NBLOCK b v st) x = if x =? b then Z.land (u16 v) UMM_BLOCKNO_MASK else nxt st x.
Proof.
  rewrite get_set_eq. destruct (x =? b); reflexivity.
Qed.

Lemma is_free_set_NBLOCK b v st x :
  is_free (set NBLOCK b v st) x = if x =? b then has_free_flag (u16 v) else is_free st x.
Proof.
  rewrite get_set_eq. destruct (x =? b); reflexivity.
Qed.

Lemma nxt_same_NBLOCK st st' x : get NBLOCK st' x = get NBLOCK st x -> nxt st' x = nxt st x.
Proof. intros ->. reflexivity. Qed.

Lemma is_free_same_NBLOCK st st' x :
  get NBLOCK st' x = get NBLOCK st x -> is_free st' x = is_free st x.
Proof. intros ->. reflexivity. Qed.

(** Rewriting a field read through the writes that precede it. *)
Ltac get_simpl :=
  repeat first
    [ rewrite get_set_eq
    | rewrite get_set_diff by discriminate
    | rewrite get_with_info
    | rewrite get_METRIC_ADD
    | rewrite get_METRIC_REMOVE ].

Ltac eqb_cases :=
  repeat match goal with
    | |- context [?a =? ?b] => destruct (Z.eqb_spec a b)
    end.

Lemma u16_get f st b : u16 (get f st b) = get f st b.
Proof. apply u16_small. apply get_range. Qed.

Lemma u16_nxt st b : u16 (nxt st b) = nxt st b.
Proof. apply u16_small. pose proof (nxt_range st b). lia. Qed.

Lemma nxt_set_other f b v st x : f <> NBLOCK -> nxt (set f b v st) x = nxt st x.
Proof. intros. apply nxt_same_NBLOCK. apply get_set_diff. auto. Qed.

Lemma is_free_set_other f b v st x : f <> NBLOCK -> is_free (set f b v st) x = is_free st x.
Proof. intros. apply is_free_same_NBLOCK. apply get_set_diff. auto. Qed.

Lemma nxt_METRIC_ADD c st x : nxt (UMM_FRAGMENTATION_METRIC_ADD c st) x = nxt st x.
Proof. apply nxt_same_NBLOCK. apply get_METRIC_ADD. Qed.

Lemma nxt_METRIC_REMOVE c st x : nxt (UMM_FRAGMENTATION_METRIC_REMOVE c st) x = nxt st x.
Proof. apply nxt_same_NBLOCK. apply get_METRIC_REMOVE. Qed.

Lemma is_free_METRIC_ADD c st x :
  is_free (UMM_FRAGMENTATION_METRIC_ADD c st) x = is_free st x.
Proof. apply is_free_same_NBLOCK. apply get_METRIC_ADD. Qed.

Lemma is_free_METRIC_REMOVE c st x :
  is_free (UMM_FRAGMENTATION_METRIC_REMOVE c st) x = is_free st x.
Proof. apply is_free_same_NBLOCK. apply get_METRIC_REMOVE. Qed.

Ltac view_simpl :=
  repeat first
    [ rewrite nxt_set_NBLOCK
    | rewrite is_free_set_NBLOCK
    | rewrite nxt_set_other by discriminate
    | rewrite is_free_set_other by discriminate
    | rewrite nxt_METRIC_ADD
    | rewrite nxt_METRIC_REMOVE
    | rewrite is_free_METRIC_ADD
    | rewrite is_free_METRIC_REMOVE
    | rewrite get_set_eq
    | rewrite get_set_diff by discriminate
    | rewrite get_with_info
    | rewrite get_METRIC_ADD
    | rewrite get_METRIC_REMOVE
    | rewrite u16_get
    | rewrite u16_nxt ].

(** ** What a view says about the concrete fields *)

Lemma view_cfg st st' a :
  view st a ->
  umm_heap_current st' = umm_heap_current st ->
  (forall x, aS a x ->
     nxt st' x = anx a x /\ get PBLOCK st' x = apv a x /\ is_free st' x = afr a x) ->
  (forall x, x = 0 \/ In x (afl a) ->
     get NFREE st' x = anf a x /\ get PFREE st' x = apf a x) ->
  view st' a.
Proof.
  intros (Hcfg & HN & Hinv & Hc & Hr) Hsame Hc' Hr'.
  unfold view, cfg_ok, UMM_HEAP, UMM_HEAPSIZE, UMM_NUMBLOCKS in *.
  rewrite Hsame.
  split; [exact Hcfg|]. split; [exact HN|]. split; [exact Hinv|].
  split; [exact Hc' | exact Hr'].
Qed.

Lemma view_nxt st a x : view st a -> aS a x -> nxt st x = anx a x.
Proof. intros (_ & _ & _ & Hc & _) Hx. apply Hc; auto. Qed.

Lemma view_pv st a x : view st a -> aS a x -> get PBLOCK st x = apv a x.
Proof. intros (_ & _ & _ & Hc & _) Hx. apply Hc; auto. Qed.

Lemma view_fr st a x : view st a -> aS a x -> is_free st x = afr a x.
Proof. intros (_ & _ & _ & Hc & _) Hx. apply Hc; auto. Qed.

Lemma view_nf st a x : view st a -> x = 0 \/ In x (afl a) -> get NFREE st x = anf a x.
Proof. intros (_ & _ & _ & _ & Hr) Hx. apply Hr; auto. Qed.

Lemma view_pf st a x : view st a -> x = 0 \/ In x (afl a) -> get PFREE st x = apf a x.
Proof. intros (_ & _ & _ & _ & Hr) Hx. apply Hr; auto. Qed.

Lemma view_NBLOCK_used st a x :
  view st a -> aS a x -> afr a x = false -> get NBLOCK st x = anx a x.
Proof.
  intros Hv Hx Hf. rewrite <- (view_nxt st a x Hv Hx).
  apply NBLOCK_used. rewrite (view_fr st a x Hv Hx). exact Hf.
Qed.

Lemma view_NBLOCK_free st a x :
  view st a -> aS a x -> afr a x = true -> get NBLOCK st x = anx a x + 32768.
Proof.
  intros Hv Hx Hf. rewrite <- (view_nxt st a x Hv Hx).
  apply NBLOCK_free. rewrite (view_fr st a x Hv Hx). exact Hf.
Qed.

Lemma view_anx_range st a x : view st a -> aS a x -> 0 <= anx a x < 32768.
Proof. intros Hv Hx. rewrite <- (view_nxt st a x Hv Hx). apply nxt_range. Qed.

Lemma view_ainv st a : view st a -> ainv a.
Proof. intros (_ & _ & H & _). exact H. Qed.

Lemma view_N st a : view st a -> aN a = UMM_NUMBLOCKS st.
Proof. intros (_ & H & _). exact H. Qed.

Lemma view_fl_S st a x : view st a -> In x (afl a) -> aS a x /\ afr a x = true.
Proof. intros Hv Hx. apply view_ainv in Hv. destruct Hv. apply hi_mem0. exact Hx. Qed.

Lemma view_ring_neq st a c :
  view st a -> In c (afl a) -> anf a c <> c /\ apf a c <> c.
Proof.
  intros Hv Hc. apply view_ainv in Hv.
  pose proof (hinv_0_notin _ _ _ _ _ _ _ _ Hv).
  destruct Hv.
  eapply links_neq; eauto. constructor; auto.
Qed.

(** The metric hooks do not touch the heap. *)
Lemma view_METRIC_ADD st a c : view st a -> view (UMM_FRAGMENTATION_METRIC_ADD c st) a.
Proof.
  intros Hv. unfold UMM_FRAGMENTATION_METRIC_ADD. destruct UMM_INLINE_METRICS; auto.
Qed.

Lemma view_METRIC_REMOVE st a c : view st a -> view (UMM_FRAGMENTATION_METRIC_REMOVE c st) a.
Proof.
  intros Hv. unfold UMM_FRAGMENTATION_METRIC_REMOVE. destruct UMM_INLINE_METRICS; auto.
Qed.

(** ** umm_disconnect_from_free_list *)

Lemma sim_disconnect st a c :
  view st a -> In c (afl a) ->
  view (umm_disconnect_from_free_list c st) (a_unlink c a).
Proof.
  intros Hv Hc.
  destruct (view_ring_neq _ _ _ Hv Hc) as [Hn Hp].
  destruct (view_fl_S _ _ _ Hv Hc) as [HcS Hcf].
  pose proof (view_pf _ _ c Hv (or_intror Hc)) as Epf.
  pose proof (view_nf _ _ c Hv (or_intror Hc)) as Enf.
  pose proof (nxt_range st c) as Hr.
  pose proof Hv as (Hcfg & HN & Hinv & Hcv & Hrv).
  split; [exact Hcfg|]. split; [exact HN|].
  split; [apply ainv_unlink; auto|].
  unfold umm_disconnect_from_free_list. cbv zeta.  split.
  - intros x Hx. simpl in Hx. simpl. view_simpl. unfold updb.
    destruct (Hcv x Hx) as (E1 & E2 & E3). 
    destruct (Z.eqb_spec x c) as [->|Hxc].
    + rewrite idx_of_used, flag_of_used by lia. auto.
    + auto.
  - intros x Hx. simpl in Hx. rewrite In_drop in Hx. simpl. view_simpl. unfold upd.
    rewrite Epf, Enf.
    destruct (Z.eqb_spec c (apf a c)); [congruence|].
    assert (Hx' : x = 0 \/ In x (afl a)) by tauto.
    destruct (Hrv x Hx') as (E1 & E2).  rewrite E1, E2. auto.
Qed.
(** ** Views after the field updates of each primitive *)

Lemma decode_idx j b :
  0 <= j < 32768 -> Z.land (j + (if b : bool then 32768 else 0)) UMM_BLOCKNO_MASK = j.
Proof.
  intros. rewrite land_blockno by (destruct b; lia). destruct b.
  - replace (j + 32768) with (j + 1 * 32768) by lia.
    rewrite Z.mod_add by lia. apply Z.mod_small. lia.
  - rewrite Z.add_0_r. apply Z.mod_small. lia.
Qed.

Lemma decode_flag j b :
  0 <= j < 32768 -> has_free_flag (j + (if b : bool then 32768 else 0)) = b.
Proof.
  intros. rewrite has_free_flag_spec by (destruct b; lia). destruct b.
  - apply Z.leb_le. lia.
  - apply Z.leb_gt. lia.
Qed.

Lemma view_NBLOCK st a x :
  view st a -> aS a x ->
  get NBLOCK st x = anx a x + (if afr a x then 32768 else 0).
Proof.
  intros Hv Hx. destruct (afr a x) eqn:E.
  - apply view_NBLOCK_free; auto.
  - rewrite Z.add_0_r. apply view_NBLOCK_used; auto.
Qed.

Lemma view_S_range st a x : view st a -> aS a x -> 0 <= x <= aN a - 1.
Proof. intros Hv Hx. apply view_ainv in Hv. destruct Hv. auto. Qed.

Lemma view_N_range st a : view st a -> 3 <= aN a <= 32767.
Proof. intros Hv. apply view_ainv in Hv. destruct Hv. auto. Qed.

Lemma view_next st a i :
  view st a -> aS a i -> i <> aN a - 1 ->
  i < anx a i /\ aS a (anx a i) /\ apv a (anx a i) = i.
Proof. intros Hv Hi Hn. apply view_ainv in Hv. destruct Hv. auto. Qed.

Lemma view_prev st a i :
  view st a -> aS a i -> i <> 0 ->
  aS a (apv a i) /\ anx a (apv a i) = i /\ apv a i < i /\ apv a i <> aN a - 1.
Proof.
  intros Hv Hi Hn. apply view_ainv in Hv.
  pose proof (hinv_prev_lt _ _ _ _ _ _ _ _ Hv i Hi Hn).
  destruct Hv. destruct (hi_prev0 i Hi Hn). tauto.
Qed.

Lemma view_gap st a i j :
  view st a -> aS a i -> aS a j -> i < j -> anx a i <= j.
Proof. intros Hv Hi Hj Hlt. apply view_ainv in Hv. destruct Hv. eauto. Qed.

Lemma view_merge st st' a i :
  view st a ->
  aS a i -> i <> 0 -> i <> aN a - 1 -> anx a i <> aN a - 1 ->
  afr a (anx a i) = false ->
  (afr a i = true -> afr a (anx a (anx a i)) = false) ->
  umm_heap_current st' = umm_heap_current st ->
  (forall x, get NBLOCK st' x =
             if x =? i then anx a (anx a i) + (if afr a i then 32768 else 0)
             else get NBLOCK st x) ->
  (forall x, get PBLOCK st' x = if x =? anx a (anx a i) then i else get PBLOCK st x) ->
  (forall x, get NFREE st' x = get NFREE st x) ->
  (forall x, get PFREE st' x = get PFREE st x) ->
  view st' (a_merge i a).
Proof.
  intros Hv Hi Hi0 HiN HnN Hnf Hadj Hsame EN EP ENF EPF.
  destruct (view_next _ _ _ Hv Hi HiN) as (Hlt & Hn & Hpn).
  pose proof (view_anx_range _ _ _ Hv Hn) as Hr2.
  pose proof Hv as (Hcfg & HN & Hinv & Hcv & Hrv).
  unfold view, cfg_ok, UMM_HEAP, UMM_HEAPSIZE, UMM_NUMBLOCKS in *. rewrite Hsame.
  split; [exact Hcfg|]. split; [exact HN|].
  split; [apply ainv_merge; auto|]. split.
  - intros x [Hx Hxn]. simpl.     rewrite EN, EP. unfold upd.
    destruct (Hcv x Hx) as (E1 & E2 & E3).
    destruct (Z.eqb_spec x i) as [->|Hxi].
    + rewrite decode_idx, decode_flag by lia.
      destruct (Z.eqb_spec i (anx a (anx a i))); auto.
    + destruct (Z.eqb_spec x (anx a (anx a i))); auto.
  - intros x Hx. simpl in *. rewrite ENF, EPF. apply Hrv; auto.
Qed.

Lemma view_split_used st st' a i d :
  view st a ->
  aS a i -> i <> aN a - 1 -> i < d < anx a i -> afr a i = false ->
  umm_heap_current st' = umm_heap_current st ->
  (forall x, get NBLOCK st' x =
             if x =? i then d else if x =? d then anx a i else get NBLOCK st x) ->
  (forall x, get PBLOCK st' x =
             if x =? anx a i then d else if x =? d then i else get PBLOCK st x) ->
  (forall x, get NFREE st' x = get NFREE st x) ->
  (forall x, get PFREE st' x = get PFREE st x) ->
  view st' (a_split_used i d a).
Proof.
  intros Hv Hi HiN Hd Hf Hsame EN EP ENF EPF.
  destruct (view_next _ _ _ Hv Hi HiN) as (Hlt & Hn & Hpn).
  pose proof (view_anx_range _ _ _ Hv Hi) as Hr.
  pose proof (view_S_range _ _ _ Hv Hi) as Hri.
  pose proof Hv as (Hcfg & HN & Hinv & Hcv & Hrv).
  unfold view, cfg_ok, UMM_HEAP, UMM_HEAPSIZE, UMM_NUMBLOCKS in *. rewrite Hsame.
  split; [exact Hcfg|]. split; [exact HN|].
  split; [apply ainv_split_used; auto|]. split.
  - intros x Hx. simpl in *.     rewrite EN, EP. unfold upd, updb.
    destruct (Z.eqb_spec x i) as [->|Hxi].
    + rewrite idx_of_used, flag_of_used by lia.
      destruct (Z.eqb_spec i (anx a i)); [lia|].
      destruct (Z.eqb_spec i d); [lia|].
      destruct (Hcv i Hi) as (E1 & E2 & E3).  auto.
    + destruct (Z.eqb_spec x d) as [->|Hxd].
      * rewrite idx_of_used, flag_of_used by lia.
        destruct (Z.eqb_spec d (anx a i)); [lia|]. auto.
      * destruct Hx as [Hx|Hx]; [|contradiction].
        destruct (Hcv x Hx) as (E1 & E2 & E3). 
        destruct (Z.eqb_spec x (anx a i)); auto.
  - intros x Hx. simpl in *. rewrite ENF, EPF. apply Hrv; auto.
Qed.

Lemma view_split_free st st' a i d :
  view st a ->
  In i (afl a) -> i < d < anx a i ->
  umm_heap_current st' = umm_heap_current st ->
  (forall x, get NBLOCK st' x =
             if x =? i then d else if x =? d then anx a i + 32768 else get NBLOCK st x) ->
  (forall x, get PBLOCK st' x =
             if x =? anx a i then d else if x =? d then i else get PBLOCK st x) ->
  (forall x, get NFREE st' x =
             if x =? d then anf a i else if x =? apf a i then d else get NFREE st x) ->
  (forall x, get PFREE st' x =
             if x =? anf a i then d else if x =? d then apf a i else get PFREE st x) ->
  view st' (a_split_free i d a).
Proof.
  intros Hv Hin Hd Hsame EN EP ENF EPF.
  destruct (view_fl_S _ _ _ Hv Hin) as [Hi Hf].
  pose proof (view_ainv _ _ Hv) as Hinv0.
  destruct (hinv_free_inner _ _ _ _ _ _ _ _ Hinv0 i Hi Hf) as [Hi0 HiN].
  destruct (view_next _ _ _ Hv Hi HiN) as (Hlt & Hn & Hpn).
  pose proof (view_anx_range _ _ _ Hv Hi) as Hr.
  pose proof (view_S_range _ _ _ Hv Hi) as Hri.
  assert (HdS : ~ aS a d).
  { intros HS. pose proof (view_gap _ _ _ _ Hv Hi HS). lia. }
  assert (Hdfl : ~ In d (afl a)).
  { intros HS. apply (view_fl_S _ _ _ Hv) in HS. tauto. }
  pose proof Hv as (Hcfg & HN & Hinv & Hcv & Hrv).
  unfold view, cfg_ok, UMM_HEAP, UMM_HEAPSIZE, UMM_NUMBLOCKS in *. rewrite Hsame.
  split; [exact Hcfg|]. split; [exact HN|].
  split; [apply ainv_split_free; auto|]. split.
  - intros x Hx. simpl in *.     rewrite EN, EP. unfold upd, updb.
    destruct (Z.eqb_spec x i) as [->|Hxi].
    + rewrite idx_of_used, flag_of_used by lia.
      destruct (Z.eqb_spec i (anx a i)); [lia|].
      destruct (Z.eqb_spec i d); [lia|].
      destruct (Hcv i Hi) as (E1 & E2 & E3).  auto.
    + destruct (Z.eqb_spec x d) as [->|Hxd].
      * pose proof (decode_idx (anx a i) true Hr) as Ei.
        pose proof (decode_flag (anx a i) true Hr) as Ef.
        cbv iota in Ei, Ef. rewrite Ei, Ef.
        destruct (Z.eqb_spec d (anx a i)); [lia|]. auto.
      * destruct Hx as [Hx|Hx]; [|contradiction].
        destruct (Hcv x Hx) as (E1 & E2 & E3). 
        destruct (Z.eqb_spec x (anx a i)); auto.
  - intros x Hx. simpl in *. rewrite ENF, EPF. unfold upd.
    rewrite In_swap in Hx.
    destruct (Z.eqb_spec x d) as [->|Hxd].
    + auto.
    + assert (Hx' : x = 0 \/ In x (afl a)) by tauto.
      destruct (Hrv x Hx') as (E1 & E2).  rewrite E1, E2.
      destruct (Z.eqb_spec x (apf a i)); destruct (Z.eqb_spec x (anf a i)); auto.
Qed.

Lemma view_insert st st' a c :
  view st a ->
  aS a c -> c <> 0 -> c <> aN a - 1 -> afr a c = false ->
  afr a (anx a c) = false -> afr a (apv a c) = false ->
  umm_heap_current st' = umm_heap_current st ->
  (forall x, get NBLOCK st' x =
             if x =? c then anx a c + 32768 else get NBLOCK st x) ->
  (forall x, get PBLOCK st' x = get PBLOCK st x) ->
  (forall x, get NFREE st' x =
             if x =? 0 then c else if x =? c then anf a 0 else get NFREE st x) ->
  (forall x, get PFREE st' x =
             if x =? c then 0 else if x =? anf a 0 then c else get PFREE st x) ->
  view st' (a_insert c a).
Proof.
  intros Hv Hc Hc0 HcN Hf Hfn Hfp Hsame EN EP ENF EPF.
  pose proof (view_anx_range _ _ _ Hv Hc) as Hr.
  assert (Hcfl : ~ In c (afl a)).
  { intros HS. apply (view_fl_S _ _ _ Hv) in HS. destruct HS. congruence. }
  pose proof Hv as (Hcfg & HN & Hinv & Hcv & Hrv).
  unfold view, cfg_ok, UMM_HEAP, UMM_HEAPSIZE, UMM_NUMBLOCKS in *. rewrite Hsame.
  split; [exact Hcfg|]. split; [exact HN|].
  split; [apply ainv_insert; auto|]. split.
  - intros x Hx. simpl in *.     rewrite EN, EP. unfold updb.
    destruct (Hcv x Hx) as (E1 & E2 & E3). 
    destruct (Z.eqb_spec x c) as [->|Hxc]; auto.
    pose proof (decode_idx (anx a c) true Hr) as Ei.
    pose proof (decode_flag (anx a c) true Hr) as Ef.
    cbv iota in Ei, Ef. rewrite Ei, Ef. auto.
  - intros x Hx. simpl in *. rewrite ENF, EPF. unfold upd.
    destruct (Z.eqb_spec x 0) as [->|Hx0].
    + destruct (Z.eqb_spec 0 c); [lia|].
      destruct (Hrv 0 (or_introl eq_refl)) as (E1 & E2). 
      destruct (Z.eqb_spec 0 (anf a 0)); auto.
    + destruct (Z.eqb_spec x c) as [->|Hxc]; auto.
      assert (Hx' : x = 0 \/ In x (afl a)) by (intuition lia).
      destruct (Hrv x Hx') as (E1 & E2).  rewrite E1, E2.
      destruct (Z.eqb_spec x (anf a 0)); auto.
Qed.
(** ** The primitives on a heap with a view *)

Lemma split_NBLOCK c k m st x :
  k <> 0 ->
  get NBLOCK (umm_split_block c k m st) x =
  if x =? c then u16 (c + k)
  else if x =? c + k then u16 (Z.lor (nxt st c) m)
  else get NBLOCK st x.
Proof.
  intros Hk. unfold umm_split_block. cbv zeta.  view_simpl. reflexivity.
Qed.

Lemma split_PBLOCK c k m st x :
  k <> 0 ->
  get PBLOCK (umm_split_block c k m st) x =
  if x =? nxt st c then u16 (c + k)
  else if x =? c + k then u16 c
  else get PBLOCK st x.
Proof.
  intros Hk. unfold umm_split_block. cbv zeta.  view_simpl.
  destruct (Z.eqb_spec c (c + k)); [lia|]. reflexivity.
Qed.

Lemma split_NFREE c k m st x : get NFREE (umm_split_block c k m st) x = get NFREE st x.
Proof. unfold umm_split_block. cbv zeta. view_simpl. reflexivity. Qed.

Lemma split_PFREE c k m st x : get PFREE (umm_split_block c k m st) x = get PFREE st x.
Proof. unfold umm_split_block. cbv zeta. view_simpl. reflexivity. Qed.

Lemma cfg_split c k m st :
  umm_heap_current (umm_split_block c k m st) = umm_heap_current st.
Proof. reflexivity. Qed.

Lemma sim_split_used st a c k :
  view st a -> aS a c -> c <> aN a - 1 -> 0 < k -> c + k < anx a c ->
  afr a c = false ->
  view (umm_split_block c k 0 st) (a_split_used c (c + k) a).
Proof.
  intros Hv Hc HcN Hk Hlt Hf.
  pose proof (view_anx_range _ _ _ Hv Hc) as Hr.
  pose proof (view_S_range _ _ _ Hv Hc) as Hri.
  eapply view_split_used;
    [exact Hv | exact Hc | exact HcN | lia | exact Hf | apply cfg_split | | | | ].
  - intros x. rewrite split_NBLOCK by lia.
    rewrite (view_nxt _ _ _ Hv Hc), lor_zero.
    rewrite !u16_small by lia. reflexivity.
  - intros x. rewrite split_PBLOCK by lia.
    rewrite (view_nxt _ _ _ Hv Hc).
    rewrite !u16_small by lia. reflexivity.
  - intros x. apply split_NFREE.
  - intros x. apply split_PFREE.
Qed.

(** ** umm_assimilate_up *)

Lemma cfg_disconnect c st :
  umm_heap_current (umm_disconnect_from_free_list c st) = umm_heap_current st.
Proof. reflexivity. Qed.

Lemma cfg_assimilate_up c st :
  umm_heap_current (umm_assimilate_up c st) = umm_heap_current st.
Proof.
  unfold umm_assimilate_up. destruct (has_free_flag _); [|reflexivity].
  cbv zeta.
  change (umm_heap_current (UMM_FRAGMENTATION_METRIC_REMOVE (UMM_NBLOCK st c) st)
          = umm_heap_current st).
  apply cfg_METRIC_REMOVE.
Qed.

Lemma sim_assimilate_up st a c :
  view st a -> aS a c -> afr a c = false -> c <> 0 -> c <> aN a - 1 ->
  view (umm_assimilate_up c st) (a_up c a).
Proof.
  intros Hv Hc Hf Hc0 HcN.
  destruct (view_next _ _ _ Hv Hc HcN) as (Hlt & Hn & Hpn).
  unfold umm_assimilate_up, a_up. 
  rewrite (view_NBLOCK_used _ _ _ Hv Hc Hf).
   rewrite (view_fr _ _ _ Hv Hn).
  destruct (afr a (anx a c)) eqn:Hfn; [|exact Hv].
  cbv zeta. 
  assert (Hin : In (anx a c) (afl a)).
  { pose proof (view_ainv _ _ Hv) as Hi. destruct Hi. apply hi_mem0. auto. }
  pose proof (view_ainv _ _ Hv) as Hinv.
  destruct (hinv_free_inner _ _ _ _ _ _ _ _ Hinv _ Hn Hfn) as [Hn0 HnN].
  destruct (view_next _ _ _ Hv Hn HnN) as (Hlt2 & Hn2 & Hpn2).
  pose proof (view_METRIC_REMOVE _ _ (get NBLOCK st c) Hv) as Hv1.
  assert (E1 : get NBLOCK (UMM_FRAGMENTATION_METRIC_REMOVE (anx a c) st) c = anx a c).
  { rewrite get_METRIC_REMOVE. apply (view_NBLOCK_used _ _ _ Hv Hc Hf). }
  rewrite E1.
  pose proof (sim_disconnect _ _ (anx a c) (view_METRIC_REMOVE _ _ (anx a c) Hv) Hin) as Hv2.
  remember (umm_disconnect_from_free_list (anx a c)
              (UMM_FRAGMENTATION_METRIC_REMOVE (anx a c) st)) as st2 eqn:Est2.
  remember (a_unlink (anx a c) a) as a1 eqn:Ea1.
  assert (Hc1 : aS a1 c) by (subst a1; exact Hc).
  assert (Hn1 : aS a1 (anx a c)) by (subst a1; exact Hn).
  assert (Hnx1 : forall x, anx a1 x = anx a x) by (subst a1; reflexivity).
  assert (HN1 : aN a1 = aN a) by (subst a1; reflexivity).
  assert (Hf1 : afr a1 c = false).
  { subst a1; simpl. unfold updb. destruct (Z.eqb_spec c (anx a c)); auto. }
  assert (Hfn1 : afr a1 (anx a c) = false).
  { subst a1; simpl. apply updb_same. }
  assert (E2 : get NBLOCK st2 c = anx a c).
  { rewrite (view_NBLOCK_used _ _ _ Hv2 Hc1 Hf1). apply Hnx1. }
  assert (E3 : nxt st2 (anx a c) = anx a (anx a c)).
  { rewrite (view_nxt _ _ _ Hv2 Hn1). apply Hnx1. }
  pose proof (view_anx_range _ _ _ Hv Hn) as Hr2.
  rewrite E2, E3.
  eapply (view_merge st2);
    [exact Hv2 | exact Hc1 | exact Hc0 | | | | | reflexivity | | | | ].
  - rewrite HN1. auto.
  - rewrite Hnx1, HN1. auto.
  - rewrite Hnx1. auto.
  - rewrite Hf1. discriminate.
  - intros x. view_simpl. rewrite E2.  rewrite E3.
    rewrite !Hnx1, Hf1, Z.add_0_r. reflexivity.
  - intros x. view_simpl.
    pose proof (view_S_range _ _ _ Hv Hc). pose proof (view_N_range _ _ Hv).
    rewrite u16_small by lia. rewrite !Hnx1. reflexivity.
  - intros x. view_simpl. reflexivity.
  - intros x. view_simpl. reflexivity.
Qed.

(** ** umm_assimilate_down *)

Lemma cfg_assimilate_down c m st :
  umm_heap_current (snd (umm_assimilate_down c m st)) = umm_heap_current st.
Proof.
  unfold umm_assimilate_down. cbv zeta. simpl snd.
  destruct (m =? 0).
  - change (umm_heap_current (UMM_FRAGMENTATION_METRIC_REMOVE (UMM_PBLOCK st c) st)
            = umm_heap_current st).
    apply cfg_METRIC_REMOVE.
  - rewrite cfg_METRIC_ADD.
    change (umm_heap_current (UMM_FRAGMENTATION_METRIC_REMOVE (UMM_PBLOCK st c) st)
            = umm_heap_current st).
    apply cfg_METRIC_REMOVE.
Qed.

Lemma sim_assimilate_down st a c m (b : bool) :
  view st a -> aS a c -> c <> 0 -> c <> aN a - 1 -> afr a c = false ->
  apv a c <> 0 ->
  m = (if b then UMM_FREELIST_MASK else 0) ->
  afr a (apv a c) = b ->
  (b = true -> afr a (anx a c) = false) ->
  fst (umm_assimilate_down c m st) = apv a c /\
  view (snd (umm_assimilate_down c m st)) (a_merge (apv a c) a).
Proof.
  intros Hv Hc Hc0 HcN Hf Hp0 Hm Hfp Hadj.
  destruct (view_prev _ _ _ Hv Hc Hc0) as (Hp & Hnp & Hplt & HpN).
  destruct (view_next _ _ _ Hv Hc HcN) as (Hlt & Hn & Hpn).
  pose proof (view_anx_range _ _ _ Hv Hc) as Hr.
  pose proof (view_S_range _ _ _ Hv Hp) as Hrp.
  pose proof (view_N_range _ _ Hv) as HNr.
  pose proof (view_pv _ _ _ Hv Hc) as Epv.
  pose proof (view_NBLOCK_used _ _ _ Hv Hc Hf) as Enb.
  assert (Hfields :
    forall f x, get f (snd (umm_assimilate_down c m st)) x =
      match f with
      | NBLOCK => if x =? apv a c then u16 (Z.lor (anx a c) m) else get NBLOCK st x
      | PBLOCK => if x =? anx a c then apv a c else get PBLOCK st x
      | _ => get f st x
      end).
  { intros f x. unfold umm_assimilate_down. cbv zeta. simpl snd.
    destruct (m =? 0); destruct f; view_simpl; rewrite ?Epv, ?Enb;
      view_simpl; rewrite ?Epv, ?Enb;
      destruct (Z.eqb_spec c (apv a c)); try lia;
      rewrite ?(u16_small (apv a c)) by lia; reflexivity. }
  split.
  - unfold umm_assimilate_down. cbv zeta. simpl fst.
    destruct (m =? 0); view_simpl; rewrite ?Epv, ?Enb; view_simpl;
      destruct (Z.eqb_spec c (apv a c)); try lia;
      destruct (Z.eqb_spec c (anx a c)); try lia; rewrite ?Epv; reflexivity.
  - eapply (view_merge st);
      [exact Hv | exact Hp | exact Hp0 | exact HpN | | | | apply cfg_assimilate_down | | | | ].
    + rewrite Hnp. exact HcN.
    + rewrite Hnp. exact Hf.
    + rewrite Hnp. rewrite Hfp. exact Hadj.
    + intros x. rewrite (Hfields NBLOCK). rewrite Hnp, Hfp, Hm.
      destruct b.
      * rewrite u16_lor_free, lor_freemask by lia. reflexivity.
      * rewrite lor_zero, Z.add_0_r, u16_small by lia. reflexivity.
    + intros x. rewrite (Hfields PBLOCK). rewrite Hnp. reflexivity.
    + intros x. apply (Hfields NFREE).
    + intros x. apply (Hfields PFREE).
Qed.

(** ** Block index of a data pointer *)

Lemma block_of_DATA st c :
  cfg_ok st -> 0 <= c < UMM_NUMBLOCKS st -> UMM_NUMBLOCKS st <= 32767 ->
  block_of st (UMM_DATA st c) = c.
Proof.
  intros (Hh & Hs & He) Hc HN.
  pose proof UMM_BLOCKSIZE_ge as HB.
  unfold block_of, UMM_DATA, UMM_BLOCK, header_size.
  replace (UMM_HEAP st + c * UMM_BLOCKSIZE + 4 - UMM_HEAP st)
    with (4 + c * UMM_BLOCKSIZE) by lia.
  assert (c * UMM_BLOCKSIZE + UMM_BLOCKSIZE <= UMM_NUMBLOCKS st * UMM_BLOCKSIZE) by nia.
  assert (0 <= c * UMM_BLOCKSIZE) by nia.
  rewrite u32_small by lia.
  rewrite Z.div_add by lia. rewrite Z.div_small by lia.
  apply u16_small. lia.
Qed.

(** ** umm_free_core *)

(** What [a_up] leaves in place. *)
Lemma a_up_facts a c :
  ainv a -> aS a c -> afr a c = false -> c <> 0 -> c <> aN a - 1 ->
  aN (a_up c a) = aN a /\ aS (a_up c a) c /\ afr (a_up c a) c = false /\
  afr (a_up c a) (anx (a_up c a) c) = false /\
  apv (a_up c a) c = apv a c /\
  afr (a_up c a) (apv a c) = afr a (apv a c).
Proof.
  intros Hinv Hc Hf Hc0 HcN. unfold a_up.
  pose proof Hinv as Hi. destruct Hi.
  destruct (hi_next0 c Hc HcN) as (Hlt & Hn & Hpn).
  destruct (hi_prev0 c Hc Hc0) as (Hp & Hnp).
  destruct (hinv_prev_lt _ _ _ _ _ _ _ _ Hinv c Hc Hc0) as (Hplt & _).
  destruct (afr a (anx a c)) eqn:Hfn.
  - destruct (hinv_free_inner _ _ _ _ _ _ _ _ Hinv _ Hn Hfn) as [Hn0 HnN].
    destruct (hi_next0 _ Hn HnN) as (Hlt2 & Hn2 & Hpn2).
    pose proof (hi_noadj0 _ Hn Hfn) as Hadj.
    simpl. unfold upd, updb.
    rewrite Z.eqb_refl.
    destruct (Z.eqb_spec c (anx a c)); [lia|].
    destruct (Z.eqb_spec (anx a (anx a c)) (anx a c)); [lia|].
    destruct (Z.eqb_spec c (anx a (anx a c))); [lia|].
    destruct (Z.eqb_spec (apv a c) (anx a c)); [lia|].
    repeat split; auto; lia.
  - repeat split; auto.
Qed.

Lemma cfg_free_core p st : umm_heap_current (umm_free_core p st) = umm_heap_current st.
Proof.
  unfold umm_free_core. cbv zeta.
  destruct (has_free_flag _).
  - rewrite cfg_assimilate_down. apply cfg_assimilate_up.
  - change (umm_heap_current
              (UMM_FRAGMENTATION_METRIC_ADD (block_of st p)
                 (umm_assimilate_up (block_of st p) st)) = umm_heap_current st).
    rewrite cfg_METRIC_ADD. apply cfg_assimilate_up.
Qed.

Lemma sim_free_core st a c :
  view st a -> aS a c -> afr a c = false -> c <> 0 -> c <> aN a - 1 ->
  view (umm_free_core (UMM_DATA st c) st) (a_free c a).
Proof.
  intros Hv Hc Hf Hc0 HcN.
  pose proof (view_N_range _ _ Hv) as HNr.
  pose proof (view_S_range _ _ _ Hv Hc) as Hrc.
  pose proof (view_N _ _ Hv) as HN.
  unfold umm_free_core, a_free. cbv zeta.
  rewrite block_of_DATA by (try apply Hv; lia).
  pose proof (sim_assimilate_up _ _ _ Hv Hc Hf Hc0 HcN) as Hv1.
  destruct (a_up_facts a c (view_ainv _ _ Hv) Hc Hf Hc0 HcN)
    as (HN1 & Hc1 & Hf1 & Hfn1 & Hpv1 & Hfp1).
  remember (umm_assimilate_up c st) as st1 eqn:Est1.
  remember (a_up c a) as a1 eqn:Ea1.
  assert (HcN1 : c <> aN a1 - 1) by lia.
  destruct (view_prev _ _ _ Hv1 Hc1 Hc0) as (Hp & Hnp & Hplt & HpN).
  destruct (view_next _ _ _ Hv1 Hc1 HcN1) as (Hlt & Hn & Hpn).
  pose proof (view_pv _ _ _ Hv1 Hc1) as Epv.
  pose proof (view_anx_range _ _ _ Hv1 Hc1) as Hr.
  rewrite Epv. rewrite (view_fr _ _ _ Hv1 Hp).
  destruct (afr a1 (apv a1 c)) eqn:Hfp.
  - assert (Hp0 : apv a1 c <> 0).
    { intros E. rewrite E in Hfp. pose proof (view_ainv _ _ Hv1) as Hi. destruct Hi.
      congruence. }
    eapply (sim_assimilate_down st1 a1 c UMM_FREELIST_MASK true); eauto.
  - eapply (view_insert (UMM_FRAGMENTATION_METRIC_ADD c st1));
      [apply view_METRIC_ADD; exact Hv1 | exact Hc1 | exact Hc0 | exact HcN1
      | exact Hf1 | exact Hfn1 | exact Hfp | reflexivity | | | | ].
    + intros x. view_simpl.
      rewrite (view_NBLOCK_used _ _ _ Hv1 Hc1 Hf1).
      rewrite u16_lor_free, lor_freemask by lia. reflexivity.
    + intros x. view_simpl. reflexivity.
    + intros x. view_simpl.
      rewrite (view_nf _ _ 0 Hv1 (or_introl eq_refl)).
      rewrite (u16_small c) by lia.
      destruct (Z.eqb_spec x 0) as [->|Hx0]; [reflexivity|].
      destruct (Z.eqb_spec x c); reflexivity.
    + intros x. view_simpl.
      rewrite (view_nf _ _ 0 Hv1 (or_introl eq_refl)).
      rewrite (u16_small c) by lia.
      change (u16 0) with 0.
      destruct (Z.eqb_spec x c) as [->|Hxc]; [reflexivity|].
      reflexivity.
Qed.
(** ** umm_blocks *)

Lemma umm_blocks_range size :
  0 <= size < 4294967296 -> 1 <= umm_blocks size <= 32767.
Proof.
  intros Hs. unfold umm_blocks, INT16_MAX.
  pose proof UMM_BLOCKSIZE_ge as HB.
  assert (Hbody : 4 <= body_size) by (unfold body_size; lia).
  destruct (Z.leb_spec size body_size); [lia|].
  cbv zeta.
  assert (Hq : 0 <= (size - body_size - 1) / UMM_BLOCKSIZE < 4294967296 - 2).
  { split.
    - apply Z.div_pos; lia.
    - apply Z.div_lt_upper_bound; lia. }
  rewrite u32_small by lia.
  destruct (Z.gtb_spec (2 + (size - body_size - 1) / UMM_BLOCKSIZE) 32767).
  - change (u16 32767) with 32767. lia.
  - rewrite u16_small by lia. lia.
Qed.

(** ** The free-list scan *)

Lemma links_hd nf pf p l : links nf pf p l -> nf p = hd 0 l.
Proof. destruct l; simpl; tauto. Qed.

Lemma NoDup_bounded_length (l : list Z) (n : Z) :
  NoDup l -> (forall x, In x l -> 0 <= x < n) -> (length l <= Z.to_nat n)%nat.
Proof.
  intros Hnd Hr.
  assert (Hincl : incl l (map Z.of_nat (seq 0 (Z.to_nat n)))).
  { intros x Hx. apply Hr in Hx. apply in_map_iff. exists (Z.to_nat x). split.
    - lia.
    - apply in_seq. lia. }
  pose proof (NoDup_incl_length Hnd Hincl) as Hl.
  rewrite length_map, length_seq in Hl. exact Hl.
Qed.

Lemma scan_sim st a blocks : view st a ->
  forall l p fuel bs bb bsz,
  links (anf a) (apf a) p l -> incl l (afl a) -> (length l <= fuel)%nat ->
  free_list_scan fuel st blocks (hd 0 l) bs bb bsz =
  Some (a_scan (anx a) blocks l bs bb bsz).
Proof.
  intros Hv. induction l as [|c l IH]; intros p fuel bs bb bsz Hl Hin Hlen.
  - simpl. destruct fuel; reflexivity.
  - simpl in Hl. destruct Hl as (Ha1 & Ha2 & Ha3).
    assert (Hc : In c (afl a)) by (apply Hin; left; reflexivity).
    destruct (view_fl_S _ _ _ Hv Hc) as [HcS Hcf].
    pose proof (hinv_fl_range _ _ _ _ _ _ _ _ (view_ainv _ _ Hv) c Hc) as Hcr.
    pose proof (view_N_range _ _ Hv) as HNr.
    assert (HcN : c <> aN a - 1) by lia.
    destruct (view_next _ _ _ Hv HcS HcN) as (Hlt & Hn & Hpn).
    pose proof (view_S_range _ _ _ Hv Hn) as Hnr.
    destruct fuel as [|fuel]; [simpl in Hlen; lia|].
    simpl hd. simpl free_list_scan.
    destruct (Z.eqb_spec c 0); [lia|].
    rewrite (view_nxt _ _ _ Hv HcS).
    rewrite (view_nf _ _ c Hv (or_intror Hc)).
    rewrite (links_hd _ _ _ _ Ha3).
    rewrite (u16_small (anx a c - c)) by lia.
    assert (Hin' : incl l (afl a)) by (intros x Hx; apply Hin; right; exact Hx).
    simpl in Hlen.
    simpl a_scan. destruct policy.
    + destruct ((anx a c - c >=? blocks) && (anx a c - c <? bsz));
        apply (IH c); auto; lia.
    + destruct (anx a c - c >=? blocks); [reflexivity|].
      apply (IH c); auto; lia.
Qed.

(** What the scan settles on: a ring member that is large enough, or a
    size that is too small when no ring member is large enough. *)
Lemma a_scan_first nx blocks l : policy = UMM_FIRST_FIT ->
  forall bs bb bsz,
  exists cf bs',
    a_scan nx blocks l bs bb bsz = (cf, bs', bb, bsz) /\
    ((In cf l /\ bs' = nx cf - cf /\ blocks <= bs') \/
     (cf = 0 /\ (forall c, In c l -> nx c - c < blocks) /\
      (bs' = bs \/ bs' < blocks))).
Proof.
  intros Hpol. induction l as [|c l IH]; intros bs bb bsz.
  - simpl. exists 0, bs. split; [reflexivity|]. right. repeat split; auto.
    intros c [].
  - simpl. rewrite Hpol. destruct (Z.geb_spec (nx c - c) blocks) as [Hge|Hlt].
    + exists c, (nx c - c). split; [reflexivity|]. left. repeat split; auto; lia.
    + destruct (IH (nx c - c) bb bsz) as (cf & bs' & E & Hcase).
      exists cf, bs'. split; [exact E|].
      destruct Hcase as [(H1 & H2 & H3)|(H1 & H2 & H3)].
      * left. repeat split; auto.
      * right. repeat split; auto.
        -- intros c' [<-|Hc']; auto.
        -- right. destruct H3; lia.
Qed.

Lemma a_scan_best nx blocks l : policy = UMM_BEST_FIT ->
  forall bs bb bsz,
  exists bs' bb' bsz',
    a_scan nx blocks l bs bb bsz = (0, bs', bb', bsz') /\
    ((bsz' = bsz /\ bb' = bb /\ forall c, In c l -> ~ (blocks <= nx c - c < bsz)) \/
     (In bb' l /\ bsz' = nx bb' - bb' /\ blocks <= bsz' < bsz)) /\
    ((l = [] /\ bs' = bs) \/ (exists c, In c l /\ bs' = nx c - c)).
Proof.
  intros Hpol. induction l as [|c l IH]; intros bs bb bsz.
  - simpl. exists bs, bb, bsz. split; [reflexivity|]. split.
    + left. repeat split; auto.
    + left. auto.
  - simpl. rewrite Hpol.
    assert (Hlast : forall bs' : Z,
      (l = [] /\ bs' = nx c - c) \/ (exists c0, In c0 l /\ bs' = nx c0 - c0) ->
      (c :: l = [] /\ bs' = bs) \/ (exists c0, In c0 (c :: l) /\ bs' = nx c0 - c0)).
    { intros bs' [[_ E]|(c0 & Hc0 & E)]; right.
      - exists c. split; [left; reflexivity|exact E].
      - exists c0. split; [right; exact Hc0|exact E]. }
    destruct (Z.geb_spec (nx c - c) blocks) as [Hge|Hlt];
      destruct (Z.ltb_spec (nx c - c) bsz) as [Hlt2|Hge2]; simpl.
    + destruct (IH (nx c - c) c (nx c - c)) as (bs' & bb' & bsz' & E & Hcase & Hl).
      exists bs', bb', bsz'. split; [exact E|]. split; [|apply Hlast; exact Hl].
      destruct Hcase as [(H1 & H2 & H3)|(H1 & H2 & H3)].
      * right. subst. repeat split; auto; lia.
      * right. repeat split; auto; lia.
    + destruct (IH (nx c - c) bb bsz) as (bs' & bb' & bsz' & E & Hcase & Hl).
      exists bs', bb', bsz'. split; [exact E|]. split; [|apply Hlast; exact Hl].
      destruct Hcase as [(H1 & H2 & H3)|(H1 & H2 & H3)].
      * left. repeat split; auto. intros c' [<-|Hc']; [lia|auto].
      * right. repeat split; auto; lia.
    + destruct (IH (nx c - c) bb bsz) as (bs' & bb' & bsz' & E & Hcase & Hl).
      exists bs', bb', bsz'. split; [exact E|]. split; [|apply Hlast; exact Hl].
      destruct Hcase as [(H1 & H2 & H3)|(H1 & H2 & H3)].
      * left. repeat split; auto. intros c' [<-|Hc']; [lia|auto].
      * right. repeat split; auto; lia.
    + destruct (IH (nx c - c) bb bsz) as (bs' & bb' & bsz' & E & Hcase & Hl).
      exists bs', bb', bsz'. split; [exact E|]. split; [|apply Hlast; exact Hl].
      destruct Hcase as [(H1 & H2 & H3)|(H1 & H2 & H3)].
      * left. repeat split; auto. intros c' [<-|Hc']; [lia|auto].
      * right. repeat split; auto; lia.
Qed.

Lemma a_pick_spec nx blocks l :
  1 <= blocks -> (forall c, In c l -> 0 < nx c - c < 32767) ->
  let '(cf, bs) := a_pick nx blocks l in
  (blocks <= bs -> In cf l /\ bs = nx cf - cf) /\
  (bs < blocks -> forall c, In c l -> nx c - c < blocks).
Proof.
  intros Hb Hsz. unfold a_pick. destruct policy eqn:Hpol.
  - destruct (a_scan_best nx blocks l Hpol 0 (hd 0 l) 32767)
      as (bs' & bb' & bsz' & E & Hcase & Hl).
    rewrite E.
    destruct Hcase as [(H1 & H2 & H3)|(H1 & H2 & H3)].
    + subst. simpl.
      assert (Hall : forall c, In c l -> nx c - c < blocks).
      { intros c Hc. specialize (H3 c Hc). specialize (Hsz c Hc). lia. }
      split; [|auto]. intros Hge. exfalso.
      destruct Hl as [[_ ->]|(c & Hc & ->)]; [lia|].
      specialize (Hall c Hc). lia.
    + destruct (Z.eqb_spec bsz' 32767); [lia|].
      split; [auto|]. intros. lia.
  - destruct (a_scan_first nx blocks l Hpol 0 (hd 0 l) 32767) as (cf & bs' & E & Hcase).
    rewrite E. simpl.
    destruct Hcase as [(H1 & H2 & H3)|(H1 & H2 & H3)].
    + split; [auto|]. intros. lia.
    + split; [|auto]. intros Hge. exfalso. destruct H3; lia.
Qed.

(** ** umm_malloc_core *)

Lemma DATA_same_cfg st st' c :
  umm_heap_current st' = umm_heap_current st -> UMM_DATA st' c = UMM_DATA st c.
Proof. intros E. unfold UMM_DATA, UMM_BLOCK, UMM_HEAP. rewrite E. reflexivity. Qed.

Lemma sim_malloc_split st a cf k :
  view st a -> In cf (afl a) -> 0 < k -> cf + k < anx a cf ->
  let st0 := UMM_FRAGMENTATION_METRIC_REMOVE cf st in
  let st := umm_split_block cf k UMM_FREELIST_MASK st0 in
  let st := UMM_FRAGMENTATION_METRIC_ADD (UMM_NBLOCK st cf) st in
  let st := set NFREE (UMM_PFREE st cf) (cf + k) st in
  let st := set PFREE (cf + k) (UMM_PFREE st cf) st in
  let st := set PFREE (UMM_NFREE st cf) (cf + k) st in
  let st := set NFREE (cf + k) (UMM_NFREE st cf) st in
  view st (a_split_free cf (cf + k) a).
Proof.
  intros Hv Hin Hk Hlt. cbv zeta.
  destruct (view_fl_S _ _ _ Hv Hin) as [HcS Hcf].
  destruct (view_ring_neq _ _ _ Hv Hin) as [Hnn Hpn].
  pose proof (view_nf _ _ cf Hv (or_intror Hin)) as Enf.
  pose proof (view_pf _ _ cf Hv (or_intror Hin)) as Epf.
  pose proof (view_anx_range _ _ _ Hv HcS) as Hr.
  pose proof (view_S_range _ _ _ Hv HcS) as Hrc.
  pose proof (view_N_range _ _ Hv) as HNr.
  pose proof (view_nxt _ _ _ Hv HcS) as Enx.
  assert (Hnfr : 0 <= anf a cf < 65536) by (rewrite <- Enf; apply get_range).
  assert (Hpfr : 0 <= apf a cf < 65536) by (rewrite <- Epf; apply get_range).
  eapply (view_split_free st);
    [exact Hv | exact Hin | lia | | | | | ].
  - change (umm_heap_current (UMM_FRAGMENTATION_METRIC_ADD
              (UMM_NBLOCK (umm_split_block cf k UMM_FREELIST_MASK
                             (UMM_FRAGMENTATION_METRIC_REMOVE cf st)) cf)
              (umm_split_block cf k UMM_FREELIST_MASK
                 (UMM_FRAGMENTATION_METRIC_REMOVE cf st))) = umm_heap_current st).
    rewrite cfg_METRIC_ADD, cfg_split. apply cfg_METRIC_REMOVE.
  - intros x. view_simpl. rewrite split_NBLOCK by lia. view_simpl.
    rewrite Enx. rewrite (u16_small (cf + k)) by lia.
    rewrite u16_lor_free, lor_freemask by lia. reflexivity.
  - intros x. view_simpl. rewrite split_PBLOCK by lia. view_simpl.
    rewrite Enx. rewrite (u16_small (cf + k)), (u16_small cf) by lia. reflexivity.
  - intros x. view_simpl. rewrite !split_NFREE, !split_PFREE. view_simpl.
    rewrite Enf, Epf.
    destruct (Z.eqb_spec cf (apf a cf)); [congruence|].
    rewrite !u16_small by lia. reflexivity.
  - intros x. view_simpl. rewrite !split_NFREE, !split_PFREE. view_simpl.
    rewrite Enf, Epf.
    destruct (Z.eqb_spec cf (apf a cf)); [congruence|].
    destruct (Z.eqb_spec cf (cf + k)); [lia|].
    rewrite !u16_small by lia. reflexivity.
Qed.

Lemma sim_malloc_core st a size :
  view st a -> 0 <= size < 4294967296 ->
  (exists cf st',
     umm_malloc_core size st = Some (UMM_DATA st cf, st') /\
     In cf (afl a) /\ umm_blocks size <= anx a cf - cf /\
     umm_heap_current st' = umm_heap_current st /\
     view st' (a_alloc cf (umm_blocks size) a)) \/
  (umm_malloc_core size st = Some (NULL, st) /\
   forall c, In c (afl a) -> anx a c - c < umm_blocks size).
Proof.
  intros Hv Hsize.
  pose proof (umm_blocks_range size Hsize) as Hk.
  pose proof (view_ainv _ _ Hv) as Hinv.
  pose proof (view_N_range _ _ Hv) as HNr.
  assert (Hsz : forall c, In c (afl a) -> 0 < anx a c - c < 32767).
  { intros c Hc.
    destruct (view_fl_S _ _ _ Hv Hc) as [HcS Hcf].
    pose proof (hinv_fl_range _ _ _ _ _ _ _ _ Hinv c Hc) as Hcr.
    destruct (view_next _ _ _ Hv HcS) as (Hlt & Hn & _); [lia|].
    pose proof (view_S_range _ _ _ Hv Hn). lia. }
  unfold umm_malloc_core. cbv zeta.
  rewrite (view_nf _ _ 0 Hv (or_introl eq_refl)).
  rewrite (links_hd _ _ _ _ (hi_links _ _ _ _ _ _ _ _ Hinv)).
  rewrite (scan_sim st a (umm_blocks size) Hv (afl a) 0).
  2: { destruct Hinv; auto. }
  2: { apply incl_refl. }
  2: { unfold scan_fuel. rewrite <- (view_N _ _ Hv).
       apply NoDup_bounded_length.
       - destruct Hinv; auto.
       - intros x Hx. pose proof (hinv_fl_range _ _ _ _ _ _ _ _ Hinv x Hx). lia. }
  pose proof (a_pick_spec (anx a) (umm_blocks size) (afl a) (proj1 Hk) Hsz) as Hpick.
  unfold a_pick in Hpick.
  destruct (a_scan (anx a) (umm_blocks size) (afl a) 0 (hd 0 (afl a)) 32767)
    as [[[cf bs] bb] bsz].
  set (cf' := if bsz =? 32767 then cf else bb) in *.
  set (bs' := if bsz =? 32767 then bs else bsz) in *.
  destruct Hpick as [Hfit Hnofit].
  destruct (Z.geb_spec bs' (umm_blocks size)) as [Hge|Hlt].
  - destruct (Hfit Hge) as [Hin Ebs].
    destruct (view_fl_S _ _ _ Hv Hin) as [HcS Hcf].
    pose proof (view_anx_range _ _ _ Hv HcS) as Hr.
    pose proof (hinv_fl_range _ _ _ _ _ _ _ _ Hinv cf' Hin) as Hcr.
    rewrite (view_nxt _ _ _ Hv HcS).
    destruct (Z.eqb_spec (anx a cf') 0); [lia|]. simpl negb. simpl andb.
    left. exists cf'.
    destruct (Z.eqb_spec bs' (umm_blocks size)) as [Eex|Eex].
    + eexists. split; [|split; [exact Hin|split; [lia|split]]].
      * rewrite (DATA_same_cfg st) by apply cfg_METRIC_REMOVE. reflexivity.
      * rewrite cfg_disconnect. apply cfg_METRIC_REMOVE.
      * unfold a_alloc. rewrite <- Ebs. rewrite (proj2 (Z.eqb_eq _ _) Eex).
        apply sim_disconnect; auto. apply view_METRIC_REMOVE. exact Hv.
    + assert (Ecfg : umm_heap_current (UMM_FRAGMENTATION_METRIC_ADD
              (UMM_NBLOCK (umm_split_block cf' (umm_blocks size) UMM_FREELIST_MASK
                             (UMM_FRAGMENTATION_METRIC_REMOVE cf' st)) cf')
              (umm_split_block cf' (umm_blocks size) UMM_FREELIST_MASK
                 (UMM_FRAGMENTATION_METRIC_REMOVE cf' st))) = umm_heap_current st).
      { rewrite cfg_METRIC_ADD, cfg_split. apply cfg_METRIC_REMOVE. }
      eexists. split; [|split; [exact Hin|split; [lia|split]]].
      * rewrite (DATA_same_cfg st); [reflexivity|]. exact Ecfg.
      * exact Ecfg.
      * unfold a_alloc. rewrite <- Ebs. rewrite (proj2 (Z.eqb_neq _ _) Eex).
        apply (sim_malloc_split st a cf' (umm_blocks size)); auto; lia.
  - right. rewrite andb_false_r. split; [reflexivity|]. apply Hnofit. exact Hlt.
Qed.

(** What [a_alloc] does to the block it hands out and to the others. *)
Lemma a_alloc_facts a cf k :
  ainv a -> In cf (afl a) -> 0 < k <= anx a cf - cf ->
  aN (a_alloc cf k a) = aN a /\ aS (a_alloc cf k a) cf /\
  afr (a_alloc cf k a) cf = false /\ anx (a_alloc cf k a) cf = cf + k /\
  (forall x, aS a x -> x <> cf ->
     aS (a_alloc cf k a) x /\ afr (a_alloc cf k a) x = afr a x /\
     anx (a_alloc cf k a) x = anx a x).
Proof.
  intros Hinv Hin Hk. unfold a_alloc.
  pose proof Hinv as Hi. destruct Hi.
  destruct (proj1 (hi_mem0 cf) Hin) as [HcS Hcf].
  destruct (Z.eqb_spec (anx a cf - cf) k) as [E|E]; simpl.
  - rewrite updb_same. repeat split; auto; try lia.
    apply updb_other. auto.
  - assert (HdS : ~ aS a (cf + k)).
    { intros HS. pose proof (hi_gap0 _ _ HcS HS). lia. }
    rewrite upd_same. rewrite updb_other by lia. rewrite updb_same.
    repeat split; auto.
    + rewrite updb_other by (intros ->; contradiction). apply updb_other. auto.
    + rewrite upd_other by auto. apply upd_other. intros ->. contradiction.
Qed.
(** ** Stores into the data of a used block *)

Lemma load16_same m m' a :
  m' a = m a -> m' (a + 1) = m (a + 1) -> load16 m' a = load16 m a.
Proof. intros E1 E2. unfold load16. rewrite E1, E2. reflexivity. Qed.

Lemma get_frame st m' f b lo hi :
  (forall x, ~ (lo <= x < hi) -> m' x = memory st x) ->
  UMM_BLOCK st b + field_offset f + 1 < lo \/ hi <= UMM_BLOCK st b + field_offset f ->
  get f (with_memory st m') b = get f st b.
Proof.
  intros Hm Ha. unfold get. simpl.
  change (UMM_BLOCK (with_memory st m') b) with (UMM_BLOCK st b).
  apply load16_same; apply Hm; lia.
Qed.

Lemma view_frame st a m' c :
  view st a -> aS a c -> c <> 0 -> afr a c = false ->
  (forall x, ~ (UMM_DATA st c <= x < UMM_BLOCK st (anx a c)) -> m' x = memory st x) ->
  view (with_memory st m') a.
Proof.
  intros Hv Hc Hc0 Hf Hm.
  pose proof UMM_BLOCKSIZE_ge as HB.
  pose proof (view_S_range _ _ _ Hv Hc) as Hrc.
  pose proof (view_N_range _ _ Hv) as HNr.
  assert (Hout : forall f x, aS a x -> (x = c -> field_offset f <= 2) ->
            get f (with_memory st m') x = get f st x).
  { intros f x Hx Hxc.
    apply (get_frame st m' f x _ _ Hm).
    pose proof (view_S_range _ _ _ Hv Hx) as Hrx.
    assert (Hoff : 0 <= field_offset f <= 6) by (destruct f; simpl; lia).
    unfold UMM_DATA, UMM_BLOCK, header_size.
    destruct (Z.lt_total x c) as [Hlt|[->|Hgt]].
    - left. nia.
    - left. specialize (Hxc eq_refl). lia.
    - right. pose proof (view_gap _ _ _ _ Hv Hc Hx Hgt). nia. }
  apply (view_cfg st); [exact Hv | reflexivity | |].
  - intros x Hx.
    rewrite (Hout NBLOCK x Hx) by (simpl; lia).
    rewrite (Hout PBLOCK x Hx) by (simpl; lia).
    destruct Hv as (_ & _ & _ & Hcv & _). apply Hcv. exact Hx.
  - intros x Hx.
    assert (HxS : aS a x).
    { destruct Hx as [->|Hx].
      - pose proof (view_ainv _ _ Hv) as Hi. destruct Hi. auto.
      - apply (view_fl_S _ _ _ Hv Hx). }
    assert (Hxc : x <> c).
    { destruct Hx as [->|Hx]; [auto|].
      intros ->. destruct (view_fl_S _ _ _ Hv Hx). congruence. }
    rewrite (Hout NFREE x HxS) by (intros; contradiction).
    rewrite (Hout PFREE x HxS) by (intros; contradiction).
    destruct Hv as (_ & _ & _ & _ & Hrv). apply Hrv. exact Hx.
Qed.

Lemma view_memmove st a c dst src n :
  view st a -> aS a c -> c <> 0 -> afr a c = false ->
  UMM_DATA st c <= dst -> dst + n <= UMM_BLOCK st (anx a c) ->
  view (with_memory st (memmove (memory st) dst src n)) a.
Proof.
  intros Hv Hc Hc0 Hf Hlo Hhi.
  apply (view_frame st a _ c Hv Hc Hc0 Hf).
  intros x Hx. unfold memmove.
  destruct (Z.leb_spec dst x); destruct (Z.ltb_spec x (dst + n)); simpl; auto. lia.
Qed.

Lemma view_memset st a c dst v n :
  view st a -> aS a c -> c <> 0 -> afr a c = false ->
  UMM_DATA st c <= dst -> dst + n <= UMM_BLOCK st (anx a c) ->
  view (with_memory st (memset (memory st) dst v n)) a.
Proof.
  intros Hv Hc Hc0 Hf Hlo Hhi.
  apply (view_frame st a _ c Hv Hc Hc0 Hf).
  intros x Hx. unfold memset.
  destruct (Z.leb_spec dst x); destruct (Z.ltb_spec x (dst + n)); simpl; auto. lia.
Qed.

Lemma view_store8 st a c p v :
  view st a -> aS a c -> c <> 0 -> afr a c = false ->
  UMM_DATA st c <= p < UMM_BLOCK st (anx a c) ->
  view (with_memory st (store8 (memory st) p v)) a.
Proof.
  intros Hv Hc Hc0 Hf Hp.
  apply (view_frame st a _ c Hv Hc Hc0 Hf).
  intros x Hx. unfold store8.
  destruct (Z.eqb_spec x p); auto. lia.
Qed.

(** ** umm_init_heap *)

Lemma ainv_init N : 3 <= N <= 32767 -> ainv (a_init N).
Proof.
  intros HN. unfold ainv, a_init; simpl.
  constructor.
  - exact HN.
  - auto.
  - auto.
  - intros i [->|[->| ->]]; lia.
  - rewrite upd_other by lia. apply upd_same.
  - apply updb_other. lia.
  - rewrite !upd_other by lia. reflexivity.
  - apply updb_other. lia.
  - intros i Hi HiN.
    destruct Hi as [->|[->| ->]]; [| |lia].
    + rewrite (upd_other _ 1) by lia. rewrite upd_same.
      split; [lia|]. split; [auto|]. apply upd_other. lia.
    + rewrite upd_same. split; [lia|]. split; [auto|]. apply upd_same.
  - intros i j Hi Hj Hlt.
    destruct Hi as [->|[->| ->]].
    + rewrite (upd_other _ 1) by lia. rewrite upd_same.
      destruct Hj as [->|[->| ->]]; lia.
    + rewrite upd_same. destruct Hj as [->|[->| ->]]; lia.
    + destruct Hj as [->|[->| ->]]; lia.
  - intros i Hi Hi0.
    destruct Hi as [->|[->| ->]]; [lia| |].
    + rewrite (upd_other _ (N - 1)) by lia. split; [auto|].
      rewrite (upd_other _ 1) by lia. apply upd_same.
    + rewrite upd_same. split; [auto|]. apply upd_same.
  - intros i Hi Hf. unfold updb in Hf.
    destruct (Z.eqb_spec i 1) as [->|]; [|discriminate].
    rewrite upd_same. apply updb_other. lia.
  - constructor; [simpl; tauto | constructor].
  - intros x. simpl. unfold updb.
    destruct (Z.eqb_spec x 1) as [->|]; intuition (try lia; try discriminate).
  - simpl. rewrite upd_same. rewrite !upd_other by lia. auto.
Qed.

Lemma get_memset_inside st dst n f b :
  dst <= UMM_BLOCK st b + field_offset f ->
  UMM_BLOCK st b + field_offset f + 1 < dst + n ->
  get f (with_memory st (memset (memory st) dst 0 n)) b = 0.
Proof.
  intros Hlo Hhi. unfold get. simpl.
  change (UMM_BLOCK (with_memory st (memset (memory st) dst 0 n)) b)
    with (UMM_BLOCK st b).
  unfold load16, memset.
  destruct (Z.leb_spec dst (UMM_BLOCK st b + field_offset f)); [|lia].
  destruct (Z.ltb_spec (UMM_BLOCK st b + field_offset f) (dst + n)); [|lia].
  destruct (Z.leb_spec dst (UMM_BLOCK st b + field_offset f + 1)); [|lia].
  destruct (Z.ltb_spec (UMM_BLOCK st b + field_offset f + 1) (dst + n)); [|lia].
  reflexivity.
Qed.

Lemma cfg_METRIC_INIT st :
  umm_heap_current (UMM_FRAGMENTATION_METRIC_INIT st) = umm_heap_current st.
Proof. unfold UMM_FRAGMENTATION_METRIC_INIT. destruct UMM_INLINE_METRICS; reflexivity. Qed.

Lemma get_METRIC_INIT f st x : get f (UMM_FRAGMENTATION_METRIC_INIT st) x = get f st x.
Proof. unfold UMM_FRAGMENTATION_METRIC_INIT. destruct UMM_INLINE_METRICS; reflexivity. Qed.

Lemma cfg_init ptr size st :
  umm_heap_current (umm_init_heap ptr size st)
  = mk_config ptr size (u16 (size / UMM_BLOCKSIZE)).
Proof.
  unfold umm_init_heap. cbv zeta.
  change (umm_heap_current
            (UMM_FRAGMENTATION_METRIC_INIT
               (with_memory
                  (mk_state (memory st)
                     (mk_config ptr size (u16 (size / UMM_BLOCKSIZE))) (ummHeapInfo st))
                  (memset (memory st) ptr 0 size)))
          = mk_config ptr size (u16 (size / UMM_BLOCKSIZE))).
  rewrite cfg_METRIC_INIT. reflexivity.
Qed.

Lemma init_fields ptr size st f x :
  3 <= size / UMM_BLOCKSIZE <= 32767 ->
  0 <= x < size / UMM_BLOCKSIZE ->
  get f (umm_init_heap ptr size st) x =
  match f with
  | NBLOCK => if x =? 1 then size / UMM_BLOCKSIZE - 1 + 32768
              else if x =? 0 then 1 else 0
  | PBLOCK => if x =? size / UMM_BLOCKSIZE - 1 then 1 else 0
  | NFREE => if x =? 0 then 1 else 0
  | PFREE => if x =? 0 then 1 else 0
  end.
Proof.
  intros HN Hx.
  pose proof UMM_BLOCKSIZE_ge as HB.
  assert (Hsz : size / UMM_BLOCKSIZE * UMM_BLOCKSIZE <= size).
  { rewrite Z.mul_comm. apply Z.mul_div_le. lia. }
  unfold umm_init_heap. cbv zeta.
  set (s0 := mk_state (memory st) (mk_config ptr size (u16 (size / UMM_BLOCKSIZE)))
               (ummHeapInfo st)).
  set (s1 := UMM_FRAGMENTATION_METRIC_INIT
               (with_memory s0 (memset (memory s0) (UMM_HEAP s0) 0 (UMM_HEAPSIZE s0)))).
  assert (Hbase : forall g, get g s1 x = 0).
  { intros g. unfold s1. rewrite get_METRIC_INIT.
    apply get_memset_inside; unfold UMM_BLOCK, UMM_HEAP, UMM_HEAPSIZE; simpl;
      destruct g; simpl; nia. }
  assert (HL : forall s, umm_heap_current s = umm_heap_current s0 ->
                 UMM_BLOCK_LAST s = size / UMM_BLOCKSIZE - 1).
  { intros s Es. unfold UMM_BLOCK_LAST, UMM_NUMBLOCKS. rewrite Es. simpl.
    rewrite u16_small by lia. reflexivity. }
  assert (Es1 : umm_heap_current s1 = umm_heap_current s0).
  { unfold s1. rewrite cfg_METRIC_INIT. reflexivity. }
  rewrite !HL by exact Es1.
  destruct f; view_simpl; rewrite Hbase.
  - rewrite u16_lor_free, lor_freemask by lia. reflexivity.
  - rewrite (u16_small 1) by lia. reflexivity.
  - rewrite (u16_small 1) by lia. reflexivity.
  - rewrite (u16_small 1) by lia. reflexivity.
Qed.

Lemma view_init ptr size st :
  valid_region ptr size ->
  view (umm_init_heap ptr size st) (a_init (size / UMM_BLOCKSIZE)).
Proof.
  intros (Hp & He & HN).
  pose proof UMM_BLOCKSIZE_ge as HB.
  assert (Hsz : size / UMM_BLOCKSIZE * UMM_BLOCKSIZE <= size).
  { rewrite Z.mul_comm. apply Z.mul_div_le. lia. }
  unfold view, cfg_ok, UMM_HEAP, UMM_HEAPSIZE, UMM_NUMBLOCKS.
  rewrite cfg_init. simpl pheap. simpl heap_size. simpl numblocks.
  rewrite u16_small by lia.
  split; [lia|]. split; [reflexivity|]. split; [apply ainv_init; exact HN|].
  split.
  - intros x Hx. simpl in Hx.
    rewrite !init_fields by (destruct Hx as [->|[->| ->]]; lia).
    simpl. unfold upd, updb.
    destruct Hx as [->|[->| ->]].
    + simpl. destruct (Z.eqb_spec 0 (size / UMM_BLOCKSIZE - 1)); [lia|]. auto.
    + simpl. destruct (Z.eqb_spec 1 (size / UMM_BLOCKSIZE - 1)); [lia|].
      pose proof (decode_idx (size / UMM_BLOCKSIZE - 1) true) as Ei.
      pose proof (decode_flag (size / UMM_BLOCKSIZE - 1) true) as Ef.
      cbv iota in Ei, Ef. rewrite Ei, Ef by lia. auto.
    + rewrite Z.eqb_refl.
      destruct (Z.eqb_spec (size / UMM_BLOCKSIZE - 1) 1); [lia|].
      destruct (Z.eqb_spec (size / UMM_BLOCKSIZE - 1) 0); [lia|]. auto.
  - intros x Hx. simpl in Hx.
    rewrite !init_fields by (destruct Hx as [->|[<-|[]]]; lia).
    simpl. unfold upd.
    destruct Hx as [->|[<-|[]]]; auto.
Qed.
(** ** The chain walk visits exactly the block starts *)

Lemma chain_from_spec st a :
  view st a ->
  forall fuel b, aS a b -> (Z.to_nat (aN a - 1 - b) <= fuel)%nat ->
  forall i, In i (chain_from fuel st b) <-> aS a i /\ b <= i.
Proof.
  intros Hv. induction fuel as [|fuel IH]; intros b Hb Hfuel i.
  - pose proof (view_S_range _ _ _ Hv Hb) as Hrb.
    assert (b = aN a - 1) by lia. subst b.
    simpl. split.
    + intros [<-|[]]. split; [auto|lia].
    + intros [Hi Hle]. pose proof (view_S_range _ _ _ Hv Hi). left. lia.
  - cbn [chain_from]. rewrite (view_nxt _ _ _ Hv Hb).
    pose proof (view_S_range _ _ _ Hv Hb) as Hrb.
    destruct (Z.eq_dec b (aN a - 1)) as [E|HbN].
    + pose proof (view_ainv _ _ Hv) as Hi. destruct Hi.
      assert (E0 : anx a b = 0) by (rewrite E; exact hi_nxlast0).
      rewrite E0. simpl. split.
      * intros [<-|[]]. split; [auto|lia].
      * intros [Hi Hle]. pose proof (view_S_range _ _ _ Hv Hi). left. lia.
    + destruct (view_next _ _ _ Hv Hb HbN) as (Hlt & Hn & _).
      destruct (Z.eqb_spec (anx a b) 0); [lia|].
      simpl. rewrite IH by (auto; lia). split.
      * intros [<-|[Hi Hle]]; split; auto; lia.
      * intros [Hi Hle]. destruct (Z.eq_dec b i) as [->|Hne]; [left; auto|].
        right. split; [auto|]. apply (view_gap _ _ _ _ Hv Hb Hi). lia.
Qed.

Lemma chain_spec st a i : view st a -> In i (chain st) <-> aS a i.
Proof.
  intros Hv. unfold chain, scan_fuel.
  pose proof (view_ainv _ _ Hv) as Hi. pose proof (view_N_range _ _ Hv) as HNr.
  rewrite (chain_from_spec st a Hv).
  - split; [tauto|]. intros HS. split; [auto|]. apply (view_S_range _ _ _ Hv HS).
  - destruct Hi; auto.
  - rewrite <- (view_N _ _ Hv). lia.
Qed.

Lemma allocated_spec st a p :
  view st a -> allocated st p = true ->
  exists c, p = UMM_DATA st c /\ block_of st p = c /\ aS a c /\ c <> 0 /\
            c <> aN a - 1 /\ afr a c = false.
Proof.
  intros Hv Hal. unfold allocated in Hal. cbv zeta in Hal.
  rewrite !andb_true_iff, !negb_true_iff in Hal.
  destruct Hal as ((((Hp & Hch) & H0) & HN) & Hf).
  apply Z.eqb_eq in Hp. apply Z.eqb_neq in H0. apply Z.eqb_neq in HN.
  apply existsb_exists in Hch. destruct Hch as (x & Hx & Ex).
  apply Z.eqb_eq in Ex. rewrite <- Ex in Hx.
  apply (chain_spec st a _ Hv) in Hx.
  exists (block_of st p). repeat split; auto.
  - rewrite (view_N _ _ Hv). exact HN.
  - rewrite <- (view_fr _ _ _ Hv Hx). exact Hf.
Qed.

Lemma allocated_intro st a c :
  view st a -> aS a c -> c <> 0 -> c <> aN a - 1 -> afr a c = false ->
  allocated st (UMM_DATA st c) = true.
Proof.
  intros Hv Hc Hc0 HcN Hf. unfold allocated. cbv zeta.
  pose proof (view_S_range _ _ _ Hv Hc) as Hrc.
  pose proof (view_N_range _ _ Hv) as HNr.
  rewrite block_of_DATA;
    [| apply Hv | rewrite <- (view_N _ _ Hv); lia | rewrite <- (view_N _ _ Hv); lia].
  rewrite Z.eqb_refl.
  rewrite (view_fr _ _ _ Hv Hc), Hf.
  destruct (Z.eqb_spec c 0); [contradiction|].
  unfold UMM_BLOCK_LAST. rewrite <- (view_N _ _ Hv).
  destruct (Z.eqb_spec c (aN a - 1)); [contradiction|].
  simpl. rewrite !andb_true_r.
  apply existsb_exists. exists c. split; [|apply Z.eqb_refl].
  apply (chain_spec st a c Hv). exact Hc.
Qed.
(** ** umm_realloc *)

Lemma DATA_nonnull st c : cfg_ok st -> 0 <= c -> UMM_DATA st c <> NULL.
Proof.
  intros (Hh & _) Hc. pose proof UMM_BLOCKSIZE_ge.
  unfold UMM_DATA, UMM_BLOCK, header_size, NULL. nia.
Qed.

Lemma realloc_finish_ok st a c k ptr bs :
  view st a -> aS a c -> afr a c = false -> c <> 0 -> c <> aN a - 1 ->
  1 <= k -> bs = anx a c - c ->
  exists st',
    realloc_finish k ptr c bs st = Some (ptr, st') /\
    view st' (if bs >? k then a_free (c + k) (a_split_used c (c + k) a) else a).
Proof.
  intros Hv Hc Hf Hc0 HcN Hk Hbs. unfold realloc_finish.
  destruct (Z.gtb_spec bs k) as [Hgt|Hle].
  - cbv zeta. eexists. split; [reflexivity|].
    pose proof (sim_split_used st a c k Hv Hc HcN) as Hv1.
    destruct (view_next _ _ _ Hv Hc HcN) as (Hlt & Hn & _).
    pose proof (view_S_range _ _ _ Hv Hn) as Hrn.
    pose proof (view_S_range _ _ _ Hv Hc) as Hrc.
    apply sim_free_core.
    + apply Hv1; auto; lia.
    + simpl. right. reflexivity.
    + simpl. apply updb_same.
    + lia.
    + simpl. lia.
  - eexists. split; [reflexivity|]. exact Hv.
Qed.

(** Cases 2 and 3: the block grows into its free successor. *)
Lemma realloc_up_ok st a c k ptr :
  view st a -> aS a c -> afr a c = false -> c <> 0 -> c <> aN a - 1 ->
  1 <= k ->
  exists st',
    realloc_finish k ptr c (anx (a_up c a) c - c) (umm_assimilate_up c st)
    = Some (ptr, st') /\ heap_inv st'.
Proof.
  intros Hv Hc Hf Hc0 HcN Hk.
  pose proof (sim_assimilate_up _ _ _ Hv Hc Hf Hc0 HcN) as Hv1.
  destruct (a_up_facts a c (view_ainv _ _ Hv) Hc Hf Hc0 HcN)
    as (HN1 & Hc1 & Hf1 & Hfn1 & Hpv1 & Hfp1).
  destruct (realloc_finish_ok _ _ c k ptr (anx (a_up c a) c - c) Hv1 Hc1 Hf1 Hc0)
    as (st' & E & Hv');
    [lia | exact Hk | reflexivity |].
  exists st'. split; [exact E|]. eexists. exact Hv'.
Qed.

(** Cases 4 and 5: the block moves down into its free predecessor. *)
Lemma realloc_down_ok st a c k ptr cur :
  view st a -> aS a c -> afr a c = false -> c <> 0 -> c <> aN a - 1 ->
  afr a (apv a c) = true -> 1 <= k ->
  cur <= (anx a c - c) * UMM_BLOCKSIZE - header_size ->
  exists p' st',
    (let st := umm_disconnect_from_free_list (apv a c) st in
     let '(c', st) := umm_assimilate_down c 0 st in
     let st := with_memory st (memmove (memory st) (UMM_DATA st c') ptr cur) in
     realloc_finish k (UMM_DATA st c') c' (anx a c - apv a c) st)
    = Some (p', st') /\ heap_inv st'.
Proof.
  intros Hv Hc Hf Hc0 HcN Hfp Hk Hcur.
  pose proof UMM_BLOCKSIZE_ge as HB.
  destruct (view_prev _ _ _ Hv Hc Hc0) as (Hp & Hnp & Hplt & HpN).
  destruct (view_next _ _ _ Hv Hc HcN) as (Hlt & Hn & Hpn).
  pose proof (view_ainv _ _ Hv) as Hinv.
  destruct (hinv_free_inner _ _ _ _ _ _ _ _ Hinv _ Hp Hfp) as [Hp0 _].
  assert (Hpin : In (apv a c) (afl a)).
  { destruct Hinv. apply hi_mem0. auto. }
  cbv zeta.
  pose proof (sim_disconnect _ _ _ Hv Hpin) as Hv1.
  remember (umm_disconnect_from_free_list (apv a c) st) as st1 eqn:Est1.
  remember (a_unlink (apv a c) a) as a1 eqn:Ea1.
  assert (Hc1 : aS a1 c) by (subst a1; exact Hc).
  assert (HN1 : aN a1 = aN a) by (subst a1; reflexivity).
  assert (Hnx1 : forall x, anx a1 x = anx a x) by (subst a1; reflexivity).
  assert (Hpv1 : forall x, apv a1 x = apv a x) by (subst a1; reflexivity).
  assert (Hf1 : afr a1 c = false).
  { subst a1; simpl. unfold updb. destruct (Z.eqb_spec c (apv a c)); auto. }
  assert (Hfp1 : afr a1 (apv a1 c) = false).
  { subst a1; simpl. apply updb_same. }
  destruct (sim_assimilate_down st1 a1 c 0 false Hv1 Hc1 Hc0) as [Efst Hv2];
    [lia | exact Hf1 | rewrite Hpv1; exact Hp0 | reflexivity | exact Hfp1
    | discriminate |].
  destruct (umm_assimilate_down c 0 st1) as [c' st2] eqn:Edown.
  simpl in Efst, Hv2. rewrite Hpv1 in Efst, Hv2. subst c'.
  remember (a_merge (apv a c) a1) as a2 eqn:Ea2.
  assert (Hp2 : aS a2 (apv a c)).
  { subst a2; simpl. split; [subst a1; exact Hp|]. rewrite Hnx1, Hnp. lia. }
  assert (Hfp2 : afr a2 (apv a c) = false).
  { subst a2; simpl. rewrite <- Hpv1. exact Hfp1. }
  assert (Hnx2 : anx a2 (apv a c) = anx a c).
  { subst a2; simpl. rewrite upd_same. rewrite !Hnx1, Hnp. reflexivity. }
  assert (HN2 : aN a2 = aN a) by (subst a2; simpl; exact HN1).
  assert (Hv3 : view (with_memory st2
                         (memmove (memory st2) (UMM_DATA st2 (apv a c)) ptr cur)) a2).
  { apply (view_memmove st2 a2 (apv a c)); auto; try lia.
    rewrite Hnx2. unfold UMM_DATA, UMM_BLOCK, header_size in *. nia. }
  destruct (realloc_finish_ok _ _ (apv a c) k
              (UMM_DATA (with_memory st2
                 (memmove (memory st2) (UMM_DATA st2 (apv a c)) ptr cur)) (apv a c))
              (anx a c - apv a c) Hv3 Hp2 Hfp2 Hp0)
    as (st' & E & Hv'); [lia | exact Hk | rewrite Hnx2; reflexivity |].
  eexists. exists st'. split; [exact E|]. eexists. exact Hv'.
Qed.

Lemma realloc_ok st a c size :
  view st a -> aS a c -> afr a c = false -> c <> 0 -> c <> aN a - 1 ->
  0 < size < 4294967296 ->
  exists p' st',
    umm_realloc (UMM_DATA st c) size st = Some (p', st') /\ heap_inv st'.
Proof.
  intros Hv Hc Hf Hc0 HcN Hsize.
  pose proof UMM_BLOCKSIZE_ge as HB.
  pose proof (view_ainv _ _ Hv) as Hinv.
  pose proof (view_N_range _ _ Hv) as HNr.
  pose proof (view_N _ _ Hv) as HN.
  pose proof (view_S_range _ _ _ Hv Hc) as Hrc.
  pose proof Hv as (Hcfg & _).
  destruct (view_prev _ _ _ Hv Hc Hc0) as (Hp & Hnp & Hplt & HpN).
  destruct (view_next _ _ _ Hv Hc HcN) as (Hlt & Hn & Hpn).
  pose proof (view_S_range _ _ _ Hv Hn) as Hrn.
  pose proof (view_S_range _ _ _ Hv Hp) as Hrp.
  assert (Hk : 1 <= umm_blocks size <= 32767) by (apply umm_blocks_range; lia).
  unfold umm_realloc.
  destruct (Z.eqb_spec (UMM_DATA st c) NULL) as [E|_];
    [exfalso; revert E; apply DATA_nonnull; [exact Hcfg | lia]|].
  destruct (Z.eqb_spec size 0); [lia|].
  cbv zeta.
  rewrite block_of_DATA by (try exact Hcfg; lia).
  rewrite (view_NBLOCK_used _ _ _ Hv Hc Hf).
  rewrite (view_pv _ _ _ Hv Hc).
  rewrite (view_fr _ _ _ Hv Hn), (view_fr _ _ _ Hv Hp).
  rewrite (view_nxt _ _ _ Hv Hn).
  rewrite (u16_small (anx a c - c)) by lia.
  rewrite (u16_small (c - apv a c)) by lia.
  assert (Hcur : 0 <= (anx a c - c) * UMM_BLOCKSIZE - header_size < 4294967296).
  { destruct Hcfg as (? & ? & ?). unfold header_size. nia. }
  rewrite (u32_small _ Hcur).
  set (nbs := if afr a (anx a c) then u16 (anx a (anx a c) - anx a c) else 0).
  set (pbs := if afr a (apv a c) then c - apv a c else 0).
  destruct (a_up_facts a c Hinv Hc Hf Hc0 HcN)
    as (HN1 & Hc1 & Hf1 & Hfn1 & Hpv1 & Hfp1).
  assert (Hup : anx (a_up c a) c - c = anx a c - c + nbs /\ 0 <= nbs < 32768).
  { unfold a_up, nbs. destruct (afr a (anx a c)) eqn:Hfn.
    - destruct (hinv_free_inner _ _ _ _ _ _ _ _ Hinv _ Hn Hfn) as [Hn0 HnN].
      destruct (view_next _ _ _ Hv Hn HnN) as (Hlt2 & Hn2 & _).
      pose proof (view_S_range _ _ _ Hv Hn2) as Hrn2.
      rewrite u16_small by lia. simpl. rewrite upd_same. lia.
    - lia. }
  destruct Hup as [Hup Hnbs].
  assert (Hpbs : 0 <= pbs /\ (0 < pbs -> afr a (apv a c) = true)
                 /\ (afr a (apv a c) = true -> pbs = c - apv a c)).
  { unfold pbs. destruct (afr a (apv a c)); repeat split; auto; lia. }
  destruct Hpbs as (Hpbs0 & Hpbs1 & Hpbs2).
  destruct (Z.geb_spec (anx a c - c) (umm_blocks size)) as [H1|H1].
  { (* case 1 *)
    destruct (realloc_finish_ok st a c (umm_blocks size) (UMM_DATA st c)
                (anx a c - c) Hv Hc Hf Hc0 HcN) as (st' & E & Hv');
      [lia | reflexivity |].
    eexists. exists st'. split; [exact E|]. eexists. exact Hv'. }
  destruct (Z.eqb_spec (anx a c - c + nbs) (umm_blocks size)) as [H2|H2].
  { (* case 2 *)
    rewrite u16_small by lia. rewrite <- Hup.
    destruct (realloc_up_ok st a c (umm_blocks size) (UMM_DATA st c)
                Hv Hc Hf Hc0 HcN) as (st' & E & Hinv'); [lia|].
    eexists. exists st'. split; [exact E | exact Hinv']. }
  destruct ((0 =? pbs) && (anx a c - c + nbs >=? umm_blocks size)) eqn:H3.
  { (* case 3 *)
    rewrite u16_small by lia. rewrite <- Hup.
    destruct (realloc_up_ok st a c (umm_blocks size) (UMM_DATA st c)
                Hv Hc Hf Hc0 HcN) as (st' & E & Hinv'); [lia|].
    eexists. exists st'. split; [exact E | exact Hinv']. }
  destruct (Z.geb_spec (pbs + (anx a c - c)) (umm_blocks size)) as [H4|H4].
  { (* case 4 *)
    assert (Hfp : afr a (apv a c) = true) by (apply Hpbs1; lia).
    rewrite (u16_small (anx a c - c + pbs)) by (rewrite (Hpbs2 Hfp); lia).
    replace (anx a c - c + pbs) with (anx a c - apv a c) by (rewrite (Hpbs2 Hfp); lia).
    apply (realloc_down_ok st a c (umm_blocks size) (UMM_DATA st c)
             ((anx a c - c) * UMM_BLOCKSIZE - header_size) Hv Hc Hf Hc0 HcN Hfp);
      lia. }
  destruct (Z.geb_spec (pbs + (anx a c - c) + nbs) (umm_blocks size)) as [H5|H5].
  { (* case 5 *)
    assert (Hfp : afr a (apv a c) = true).
    { apply Hpbs1. destruct (Z.eqb_spec 0 pbs) as [E0|E0]; [|lia].
      simpl in H3. rewrite Z.geb_leb in H3. apply Z.leb_gt in H3. lia. }
    pose proof (sim_assimilate_up _ _ _ Hv Hc Hf Hc0 HcN) as Hv1.
    rewrite (view_pv _ _ _ Hv1 Hc1).
    rewrite (u16_small (anx a c - c + (pbs + nbs))) by (rewrite (Hpbs2 Hfp); lia).
    replace (anx a c - c + (pbs + nbs)) with (anx (a_up c a) c - apv (a_up c a) c)
      by (rewrite Hpv1, (Hpbs2 Hfp); lia).
    apply (realloc_down_ok (umm_assimilate_up c st) (a_up c a) c (umm_blocks size)
             (UMM_DATA st c) ((anx a c - c) * UMM_BLOCKSIZE - header_size)
             Hv1 Hc1 Hf1 Hc0); try lia;
      try (rewrite Hpv1, Hfp1; exact Hfp); try (rewrite Hup; nia). }
  (* case 6 *)
  destruct (sim_malloc_core st a size Hv) as
    [(cf & st1 & E & Hin & Hfit & Ecfg & Hv1)|(E & _)]; [lia| |].
  - rewrite E.
    destruct (view_fl_S _ _ _ Hv Hin) as [HcfS Hcff].
    pose proof (hinv_fl_range _ _ _ _ _ _ _ _ Hinv cf Hin) as Hcfr.
    destruct (Z.eqb_spec (UMM_DATA st cf) NULL) as [E0|_];
      [exfalso; revert E0; apply DATA_nonnull; [exact Hcfg | lia]|].
    destruct (a_alloc_facts a cf (umm_blocks size) Hinv Hin)
      as (HNa & Hcfa & Hcffa & Hnxa & Hoth); [lia|].
    assert (Hccf : c <> cf) by (intros ->; congruence).
    destruct (Hoth c Hc Hccf) as (Hca & Hcfr' & Hcnx).
    remember (a_alloc cf (umm_blocks size) a) as a1 eqn:Ea1.
    assert (Hv2 : view (with_memory st1
                     (memcpy (memory st1) (UMM_DATA st cf) (UMM_DATA st c)
                        ((anx a c - c) * UMM_BLOCKSIZE - header_size))) a1).
    { apply (view_memmove st1 a1 cf); auto; try lia.
      - rewrite (DATA_same_cfg st st1) by exact Ecfg. lia.
      - rewrite Hnxa. unfold UMM_DATA, UMM_BLOCK, UMM_HEAP, header_size.
        rewrite Ecfg. nia. }
    remember (with_memory st1
                (memcpy (memory st1) (UMM_DATA st cf) (UMM_DATA st c)
                   ((anx a c - c) * UMM_BLOCKSIZE - header_size))) as st2 eqn:Est2.
    assert (Ecfg2 : umm_heap_current st2 = umm_heap_current st).
    { subst st2. exact Ecfg. }
    rewrite <- (DATA_same_cfg st st2 c Ecfg2).
    pose proof (sim_free_core st2 a1 c Hv2 Hca) as Hv3.
    unfold realloc_finish. rewrite Z.gtb_ltb, Z.ltb_irrefl.
    eexists. eexists. split; [reflexivity|].
    eexists. apply Hv3; auto; try lia. congruence.
  - rewrite E. simpl. unfold realloc_finish. rewrite Z.gtb_ltb, Z.ltb_irrefl.
    eexists. eexists. split; [reflexivity|]. eexists. exact Hv.
Qed.
(** ** Which bytes the primitives write *)

(** [x] is not among the first 8 bytes (the four fields) of block [b]. *)
Definition clear_of (st : umm_state) (x b : Z) : Prop :=
  x < UMM_BLOCK st b \/ UMM_BLOCK st b + 8 <= x.

Lemma memory_set f b v st x :
  x < UMM_BLOCK st b + field_offset f \/ UMM_BLOCK st b + field_offset f + 2 <= x ->
  memory (set f b v st) x = memory st x.
Proof.
  intros Hx. unfold set, with_memory. simpl. apply store16_outside; lia.
Qed.

Lemma memory_set_clear f b v st x :
  clear_of st x b -> memory (set f b v st) x = memory st x.
Proof.
  intros Hx. apply memory_set. unfold clear_of in Hx.
  destruct f; simpl; lia.
Qed.

Lemma memory_set_NBLOCK b v st st0 x :
  umm_heap_current st = umm_heap_current st0 ->
  x < UMM_BLOCK st0 b \/ UMM_BLOCK st0 b + 2 <= x ->
  memory (set NBLOCK b v st) x = memory st x.
Proof.
  intros E Hx. apply memory_set. unfold UMM_BLOCK, UMM_HEAP in *.
  rewrite E. simpl. lia.
Qed.

Lemma clear_of_cfg st st' x b :
  umm_heap_current st' = umm_heap_current st -> clear_of st x b -> clear_of st' x b.
Proof.
  intros E. unfold clear_of, UMM_BLOCK, UMM_HEAP. rewrite E. auto.
Qed.

Lemma fp_split c k m st x :
  k <> 0 ->
  clear_of st x (c + k) -> clear_of st x (nxt st c) ->
  x < UMM_BLOCK st c \/ UMM_BLOCK st c + 2 <= x ->
  memory (umm_split_block c k m st) x = memory st x.
Proof.
  intros Hk H1 H2 H3. unfold umm_split_block. cbv zeta.
  rewrite (memory_set_NBLOCK _ _ _ st) by (reflexivity || exact H3).
  rewrite memory_set_clear.
  2: { apply (clear_of_cfg st); [reflexivity|]. view_simpl.
       destruct (Z.eqb_spec c (c + k)); [lia | exact H2]. }
  rewrite memory_set_clear by (apply (clear_of_cfg st); [reflexivity | exact H1]).
  rewrite memory_set_clear by exact H1.
  reflexivity.
Qed.

Lemma fp_disconnect st a c x :
  view st a -> In c (afl a) ->
  clear_of st x (apf a c) -> clear_of st x (anf a c) -> clear_of st x c ->
  memory (umm_disconnect_from_free_list c st) x = memory st x.
Proof.
  intros Hv Hc H1 H2 H3.
  destruct (view_ring_neq _ _ _ Hv Hc) as [Hn Hp].
  pose proof (view_pf _ _ c Hv (or_intror Hc)) as Epf.
  pose proof (view_nf _ _ c Hv (or_intror Hc)) as Enf.
  unfold umm_disconnect_from_free_list. cbv zeta.
  rewrite memory_set_clear by (apply (clear_of_cfg st); [reflexivity | exact H3]).
  rewrite memory_set_clear.
  2: { apply (clear_of_cfg st); [reflexivity|]. view_simpl. rewrite Epf, Enf.
       destruct (Z.eqb_spec c (apf a c)); [congruence | exact H2]. }
  rewrite memory_set_clear by (rewrite Epf; exact H1).
  reflexivity.
Qed.

Lemma in_ring_next st a c :
  view st a -> In c (afl a) -> anf a c = 0 \/ In (anf a c) (afl a).
Proof.
  intros Hv Hc. pose proof (view_ainv _ _ Hv) as Hinv. destruct Hinv.
  apply (links_nf_in _ _ _ 0 c hi_links0). right. exact Hc.
Qed.

Lemma in_ring_prev st a c :
  view st a -> In c (afl a) -> apf a c = 0 \/ In (apf a c) (afl a).
Proof.
  intros Hv Hc. pose proof (view_ainv _ _ Hv) as Hinv. destruct Hinv.
  apply (links_pf_in _ _ _ 0 c hi_links0). exact Hc.
Qed.

Lemma fp_assimilate_up st a c x :
  view st a -> aS a c -> afr a c = false -> c <> 0 -> c <> aN a - 1 ->
  (forall b, b = anx a c \/ b = anx a (anx a c) \/ b = 0 \/ In b (afl a) ->
             clear_of st x b) ->
  x < UMM_BLOCK st c \/ UMM_BLOCK st c + 2 <= x ->
  memory (umm_assimilate_up c st) x = memory st x.
Proof.
  intros Hv Hc Hf Hc0 HcN Hclear Hx.
  destruct (view_next _ _ _ Hv Hc HcN) as (Hlt & Hn & Hpn).
  unfold umm_assimilate_up.
  rewrite (view_NBLOCK_used _ _ _ Hv Hc Hf).
  rewrite (view_fr _ _ _ Hv Hn).
  destruct (afr a (anx a c)) eqn:Hfn; [|reflexivity].
  cbv zeta.
  assert (Hin : In (anx a c) (afl a)).
  { pose proof (view_ainv _ _ Hv) as Hi. destruct Hi. apply hi_mem0. auto. }
  assert (E1 : get NBLOCK (UMM_FRAGMENTATION_METRIC_REMOVE (anx a c) st) c = anx a c).
  { rewrite get_METRIC_REMOVE. apply (view_NBLOCK_used _ _ _ Hv Hc Hf). }
  rewrite E1.
  pose proof (view_METRIC_REMOVE _ _ (anx a c) Hv) as Hv0.
  pose proof (sim_disconnect _ _ (anx a c) Hv0 Hin) as Hv2.
  remember (UMM_FRAGMENTATION_METRIC_REMOVE (anx a c) st) as st0 eqn:Est0.
  assert (Ecfg0 : umm_heap_current st0 = umm_heap_current st).
  { subst st0. apply cfg_METRIC_REMOVE. }
  assert (Em0 : memory st0 = memory st).
  { subst st0. apply memory_METRIC_REMOVE. }
  assert (Em2 : memory (umm_disconnect_from_free_list (anx a c) st0) x = memory st x).
  { rewrite <- Em0. apply (fp_disconnect st0 a (anx a c) x Hv0 Hin);
      apply (clear_of_cfg st); auto; apply Hclear;
      first [ solve [auto]
            | destruct (in_ring_prev st a _ Hv Hin); solve [auto]
            | destruct (in_ring_next st a _ Hv Hin); solve [auto] ]. }
  remember (umm_disconnect_from_free_list (anx a c) st0) as st2 eqn:Est2.
  assert (Ecfg2 : umm_heap_current st2 = umm_heap_current st).
  { subst st2. rewrite cfg_disconnect. exact Ecfg0. }
  remember (a_unlink (anx a c) a) as a1 eqn:Ea1.
  assert (Hc1 : aS a1 c) by (subst a1; exact Hc).
  assert (Hn1 : aS a1 (anx a c)) by (subst a1; exact Hn).
  assert (Hnx1 : forall y, anx a1 y = anx a y) by (subst a1; reflexivity).
  assert (Hf1 : afr a1 c = false).
  { subst a1; simpl. unfold updb. destruct (Z.eqb_spec c (anx a c)); auto. }
  assert (E2 : get NBLOCK st2 c = anx a c).
  { rewrite (view_NBLOCK_used _ _ _ Hv2 Hc1 Hf1). apply Hnx1. }
  assert (E3 : nxt st2 (anx a c) = anx a (anx a c)).
  { rewrite (view_nxt _ _ _ Hv2 Hn1). apply Hnx1. }
  rewrite E2, E3.
  rewrite (memory_set_NBLOCK _ _ _ st) by (exact Ecfg2 || exact Hx).
  rewrite memory_set_clear.
  2: { apply (clear_of_cfg st); [exact Ecfg2|]. apply Hclear. auto. }
  exact Em2.
Qed.

(** [umm_free_core] on a block whose predecessor is used. *)
Lemma fp_free_core_insert st a d x :
  view st a -> aS a d -> afr a d = false -> d <> 0 -> d <> aN a - 1 ->
  afr a (apv a d) = false ->
  (forall b, b = d \/ b = anx a d \/ b = anx a (anx a d) \/ b = 0 \/ In b (afl a) ->
             clear_of st x b) ->
  memory (umm_free_core (UMM_DATA st d) st) x = memory st x.
Proof.
  intros Hv Hd Hf Hd0 HdN Hfp Hclear.
  pose proof (view_N_range _ _ Hv) as HNr.
  pose proof (view_S_range _ _ _ Hv Hd) as Hrd.
  pose proof (view_N _ _ Hv) as HN.
  unfold umm_free_core. cbv zeta.
  rewrite block_of_DATA by (try apply Hv; lia).
  pose proof (sim_assimilate_up _ _ _ Hv Hd Hf Hd0 HdN) as Hv1.
  destruct (a_up_facts a d (view_ainv _ _ Hv) Hd Hf Hd0 HdN)
    as (HN1 & Hd1 & Hf1 & Hfn1 & Hpv1 & Hfp1).
  assert (Em1 : memory (umm_assimilate_up d st) x = memory st x).
  { apply (fp_assimilate_up st a d x Hv Hd Hf Hd0 HdN).
    - intros b Hb. apply Hclear. tauto.
    - assert (Hcd : clear_of st x d) by (apply Hclear; auto).
      unfold clear_of in Hcd. lia. }
  assert (Hfl1 : forall b, In b (afl (a_up d a)) -> In b (afl a)).
  { intros b. unfold a_up. destruct (afr a (anx a d)); simpl; auto.
    rewrite In_drop. tauto. }
  remember (umm_assimilate_up d st) as st1 eqn:Est1.
  assert (Ecfg1 : umm_heap_current st1 = umm_heap_current st).
  { subst st1. apply cfg_assimilate_up. }
  remember (a_up d a) as a1 eqn:Ea1.
  assert (HdN1 : d <> aN a1 - 1) by lia.
  destruct (view_prev _ _ _ Hv1 Hd1 Hd0) as (Hp & _).
  rewrite (view_pv _ _ _ Hv1 Hd1). rewrite (view_fr _ _ _ Hv1 Hp).
  rewrite Hpv1, Hfp1, Hfp.
  assert (Hcd : clear_of st1 x d).
  { apply (clear_of_cfg st); [exact Ecfg1|]. apply Hclear. auto. }
  assert (Hc0 : clear_of st1 x 0).
  { apply (clear_of_cfg st); [exact Ecfg1|]. apply Hclear. auto. }
  assert (Hcn : clear_of st1 x (anf a1 0)).
  { apply (clear_of_cfg st); [exact Ecfg1|]. apply Hclear.
    pose proof (view_ainv _ _ Hv1) as Hi. destruct Hi.
    destruct (links_nf_in _ _ _ 0 0 hi_links0 (or_introl eq_refl)) as [E|E].
    - rewrite E. auto.
    - right. right. right. right. apply Hfl1. exact E. }
  assert (Ecfg : forall s, umm_heap_current s
                           = umm_heap_current (UMM_FRAGMENTATION_METRIC_ADD d st1) ->
                           umm_heap_current s = umm_heap_current st1).
  { intros s E. rewrite E. apply cfg_METRIC_ADD. }
  rewrite memory_set_clear
    by (apply (clear_of_cfg st1); [apply Ecfg; reflexivity | exact Hcd]).
  rewrite memory_set_clear
    by (apply (clear_of_cfg st1); [apply Ecfg; reflexivity | exact Hc0]).
  rewrite memory_set_clear
    by (apply (clear_of_cfg st1); [apply Ecfg; reflexivity | exact Hcd]).
  rewrite memory_set_clear
    by (apply (clear_of_cfg st1); [apply Ecfg; reflexivity | exact Hcd]).
  rewrite memory_set_clear.
  2: { apply (clear_of_cfg st1); [apply Ecfg; reflexivity|].
       rewrite get_METRIC_ADD.
       rewrite (view_nf _ _ 0 Hv1 (or_introl eq_refl)). exact Hcn. }
  rewrite memory_METRIC_ADD. exact Em1.
Qed.
(** ** Every reachable state satisfies the invariant *)

Lemma umm_blocks_covers size :
  0 <= size < 4294967296 -> umm_blocks size < 32767 ->
  size <= umm_blocks size * UMM_BLOCKSIZE - header_size.
Proof.
  intros Hs. unfold umm_blocks, INT16_MAX, UMM_BLOCKSIZE, header_size.
  assert (Hbody : 4 <= body_size) by (unfold body_size; lia).
  destruct (Z.leb_spec size body_size); [lia|].
  cbv zeta.
  assert (Hq : 0 <= (size - body_size - 1) / (4 + body_size) < 4294967296 - 2).
  { split.
    - apply Z.div_pos; lia.
    - apply Z.div_lt_upper_bound; lia. }
  rewrite u32_small by lia.
  destruct (Z.gtb_spec (2 + (size - body_size - 1) / (4 + body_size)) 32767).
  - change (u16 32767) with 32767. lia.
  - rewrite u16_small by lia. intros _.
    pose proof (Z.div_mod (size - body_size - 1) (4 + body_size)).
    pose proof (Z.mod_pos_bound (size - body_size - 1) (4 + body_size)).
    nia.
Qed.

Lemma malloc_inv st size p st' :
  heap_inv st -> 0 <= size < 4294967296 ->
  umm_malloc size st = Some (p, st') -> heap_inv st'.
Proof.
  intros [a Hv] Hsize E. unfold umm_malloc in E.
  destruct (Z.eqb_spec size 0).
  - injection E as <- <-. exists a. exact Hv.
  - destruct (sim_malloc_core st a size Hv Hsize)
      as [(cf & st1 & E1 & _ & _ & _ & Hv1)|(E1 & _)];
      rewrite E1 in E; injection E as <- <-.
    + eexists. exact Hv1.
    + exists a. exact Hv.
Qed.

Lemma calloc_inv st num item_size p st' :
  heap_inv st -> umm_calloc num item_size st = Some (p, st') -> heap_inv st'.
Proof.
  intros [a Hv] E. unfold umm_calloc in E.
  pose proof UMM_BLOCKSIZE_ge as HB.
  assert (Hsize : 0 <= u32 (item_size * num) < 4294967296).
  { unfold u32. apply Z.mod_pos_bound. lia. }
  unfold umm_malloc in E.
  destruct (Z.eqb_spec (u32 (item_size * num)) 0).
  - simpl in E. injection E as <- <-. exists a. exact Hv.
  - destruct (sim_malloc_core st a _ Hv Hsize)
      as [(cf & st1 & E1 & Hin & Hfit & Ecfg & Hv1)|(E1 & _)];
      rewrite E1 in E.
    + pose proof (view_ainv _ _ Hv) as Hinv.
      pose proof (hinv_fl_range _ _ _ _ _ _ _ _ Hinv cf Hin) as Hcfr.
      destruct (view_fl_S _ _ _ Hv Hin) as [HcfS _].
      destruct (view_next _ _ _ Hv HcfS) as (_ & Hn & _); [lia|].
      pose proof (view_S_range _ _ _ Hv Hn) as Hrn.
      pose proof (view_N_range _ _ Hv) as HNr.
      pose proof (umm_blocks_range _ Hsize) as Hk.
      destruct (Z.eqb_spec (UMM_DATA st cf) NULL) as [E0|_];
        [exfalso; revert E0; apply DATA_nonnull; [apply Hv | lia]|].
      injection E as <- <-.
      destruct (a_alloc_facts a cf (umm_blocks (u32 (item_size * num))) Hinv Hin)
        as (HNa & Hcfa & Hcffa & Hnxa & _); [lia|].
      eexists. apply (view_memset st1 _ cf); eauto; try lia.
      * rewrite (DATA_same_cfg st st1) by exact Ecfg. lia.
      * rewrite Hnxa.
        pose proof (umm_blocks_covers _ Hsize) as Hcov.
        unfold UMM_DATA, UMM_BLOCK, UMM_HEAP, header_size in *.
        rewrite Ecfg. nia.
    + simpl in E. injection E as <- <-. exists a. exact Hv.
Qed.

Lemma free_inv st p :
  heap_inv st -> p = NULL \/ allocated st p = true -> heap_inv (umm_free p st).
Proof.
  intros [a Hv] Hp. unfold umm_free.
  destruct (Z.eqb_spec p NULL); [exists a; exact Hv|].
  destruct Hp as [Hp|Hp]; [contradiction|].
  destruct (allocated_spec st a p Hv Hp) as (c & -> & _ & Hc & Hc0 & HcN & Hf).
  eexists. apply sim_free_core; eauto.
Qed.

Lemma realloc_inv st p size p' st' :
  heap_inv st -> p = NULL \/ allocated st p = true ->
  0 <= size < 4294967296 ->
  umm_realloc p size st = Some (p', st') -> heap_inv st'.
Proof.
  intros Hinv Hp Hsize E.
  destruct (Z.eq_dec p NULL) as [->|Hnn].
  - unfold umm_realloc in E. simpl in E. eapply malloc_inv; eauto.
  - destruct Hp as [Hp|Hp]; [contradiction|].
    destruct (Z.eq_dec size 0) as [->|Hs0].
    + unfold umm_realloc in E.
      destruct (Z.eqb_spec p NULL); [contradiction|]. simpl in E.
      injection E as <- <-. apply free_inv; auto.
    + destruct Hinv as [a Hv].
      destruct (allocated_spec st a p Hv Hp) as (c & -> & _ & Hc & Hc0 & HcN & Hf).
      destruct (realloc_ok st a c size Hv Hc Hf Hc0 HcN) as (p1 & st1 & E1 & Hinv1);
        [lia|].
      rewrite E1 in E. injection E as <- <-. exact Hinv1.
Qed.

Lemma store_inv st p off v :
  heap_inv st -> allocated st p = true ->
  0 <= off < usable_size st (block_of st p) ->
  heap_inv (with_memory st (store8 (memory st) (p + off) v)).
Proof.
  intros [a Hv] Hp Hoff.
  destruct (allocated_spec st a p Hv Hp) as (c & Ep & Eb & Hc & Hc0 & HcN & Hf).
  rewrite Eb in Hoff. unfold usable_size in Hoff.
  rewrite (view_nxt _ _ _ Hv Hc) in Hoff.
  exists a. apply (view_store8 st a c); auto.
  subst p. unfold UMM_DATA, UMM_BLOCK, header_size in *. nia.
Qed.

Lemma reachable_inv st : reachable st -> heap_inv st.
Proof.
  induction 1.
  - eexists. apply view_init. assumption.
  - eapply malloc_inv; eauto.
  - eapply calloc_inv; eauto.
  - apply free_inv; auto.
  - eapply realloc_inv; eauto.
  - apply store_inv; auto.
Qed.
(** * The claims *)

(** ** Free runs through a view *)

Lemma free_runs_spec st a i len :
  view st a ->
  In (i, len) (free_runs st) <-> aS a i /\ afr a i = true /\ len = anx a i - i.
Proof.
  intros Hv. unfold free_runs. rewrite in_map_iff. split.
  - intros (b & E & Hb). injection E as <- <-.
    apply filter_In in Hb. destruct Hb as [Hb Hf].
    apply (chain_spec st a _ Hv) in Hb.
    rewrite (view_fr _ _ _ Hv Hb) in Hf. rewrite (view_nxt _ _ _ Hv Hb). auto.
  - intros (Hi & Hf & ->). exists i. split.
    + rewrite (view_nxt _ _ _ Hv Hi). reflexivity.
    + apply filter_In. split.
      * apply (chain_spec st a _ Hv). exact Hi.
      * rewrite (view_fr _ _ _ Hv Hi). exact Hf.
Qed.

(** C1. In every heap state reachable from [umm_init_heap] by allocate,
    free and reallocate (also zero-allocate and stores of the program into
    its own blocks), no two chain-adjacent blocks are both free: when a
    chain block [i] carries the free flag, its chain successor does not. *)
Theorem no_adjacent_free_blocks st i :
  reachable st -> In i (chain st) -> is_free st i = true ->
  is_free st (nxt st i) = false.
Proof.
  intros Hr Hi Hf. destruct (reachable_inv st Hr) as [a Hv].
  apply (chain_spec st a i Hv) in Hi.
  rewrite (view_fr _ _ _ Hv Hi) in Hf.
  pose proof (view_ainv _ _ Hv) as Hinv.
  destruct (hinv_free_inner _ _ _ _ _ _ _ _ Hinv i Hi Hf) as [Hi0 HiN].
  destruct (view_next _ _ _ Hv Hi HiN) as (_ & Hn & _).
  rewrite (view_nxt _ _ _ Hv Hi).
  rewrite (view_fr _ _ _ Hv Hn).
  destruct Hinv. auto.
Qed.

(** C5. Zero sizes and null pointers: [umm_malloc 0] and
    [umm_calloc] with a zero count or item size return null and leave the
    state as it is; [umm_realloc p 0] returns null and does what
    [umm_free p] does; [umm_free NULL] does nothing; [umm_realloc NULL s]
    is [umm_malloc s]. *)
Theorem zero_size_and_null_inputs :
  (forall st, umm_malloc 0 st = Some (NULL, st)) /\
  (forall st n, umm_calloc 0 n st = Some (NULL, st)) /\
  (forall st n, umm_calloc n 0 st = Some (NULL, st)) /\
  (forall st p, umm_realloc p 0 st = Some (NULL, umm_free p st)) /\
  (forall st, umm_free NULL st = st) /\
  (forall st s, umm_realloc NULL s st = umm_malloc s st).
Proof.
  split; [|split; [|split; [|split; [|split]]]].
  - intros st. reflexivity.
  - intros st n. unfold umm_calloc. rewrite Z.mul_0_r. reflexivity.
  - intros st n. unfold umm_calloc. rewrite Z.mul_0_l. reflexivity.
  - intros st p. unfold umm_realloc, umm_free.
    destruct (Z.eqb_spec p NULL); reflexivity.
  - intros st. reflexivity.
  - intros st s. reflexivity.
Qed.

(** [blocks_for] as the specification words it: above one body, the
    excess over the body divided by the block size rounding up, plus 2,
    clamped to [INT16_MAX]. *)
Definition spec_blocks_for (size : Z) : Z :=
  if size <=? UMM_BLOCKSIZE - 4 then 1
  else Z.min ((size - (UMM_BLOCKSIZE - 4) + UMM_BLOCKSIZE - 1) / UMM_BLOCKSIZE + 2)
             INT16_MAX.

(** C4, as the code has it. [umm_blocks size] is 1 when the request fits the body
    of one block; otherwise it is the excess over one body divided by the
    block size rounding up, plus 1 (not 2), clamped to [INT16_MAX]. *)
Theorem umm_blocks_formula size :
  0 <= size < 4294967296 ->
  umm_blocks size =
  if size <=? UMM_BLOCKSIZE - 4 then 1
  else Z.min ((size - (UMM_BLOCKSIZE - 4) + UMM_BLOCKSIZE - 1) / UMM_BLOCKSIZE + 1)
             INT16_MAX.
Proof.
  intros Hs. unfold umm_blocks, INT16_MAX, UMM_BLOCKSIZE, header_size.
  assert (Hbody : 4 <= body_size) by (unfold body_size; lia).
  replace (4 + body_size - 4) with body_size by lia.
  destruct (Z.leb_spec size body_size); [reflexivity|].
  cbv zeta.
  assert (Hq : 0 <= (size - body_size - 1) / (4 + body_size) < 4294967296 - 2).
  { split.
    - apply Z.div_pos; lia.
    - apply Z.div_lt_upper_bound; lia. }
  rewrite u32_small by lia.
  replace (size - body_size + (4 + body_size) - 1)
    with (size - body_size - 1 + 1 * (4 + body_size)) by lia.
  rewrite Z.div_add by lia.
  destruct (Z.gtb_spec (2 + (size - body_size - 1) / (4 + body_size)) 32767).
  - change (u16 32767) with 32767. lia.
  - rewrite u16_small by lia. lia.
Qed.

(** ** Allocate, then free *)

(** On the abstract heap, freeing the block just handed out restores the
    block starts, the free flags and the extents. *)
Lemma a_free_alloc a cf k :
  ainv a -> In cf (afl a) -> 0 < k <= anx a cf - cf ->
  (forall x, aS (a_free cf (a_alloc cf k a)) x <-> aS a x) /\
  (forall x, aS a x ->
     afr (a_free cf (a_alloc cf k a)) x = afr a x /\
     anx (a_free cf (a_alloc cf k a)) x = anx a x).
Proof.
  intros Hinv Hin Hk.
  pose proof Hinv as Hi. destruct Hi.
  destruct (proj1 (hi_mem0 cf) Hin) as [HcS Hcf].
  destruct (hinv_free_inner _ _ _ _ _ _ _ _ Hinv cf HcS Hcf) as [Hc0 HcN].
  destruct (hi_next0 cf HcS HcN) as (Hlt & Hn & Hpn).
  destruct (hinv_prev_lt _ _ _ _ _ _ _ _ Hinv cf HcS Hc0) as (Hplt & _ & _).
  pose proof (hi_noadj0 cf HcS Hcf) as Hnfree.
  pose proof (hinv_free_prev_used _ _ _ _ _ _ _ _ Hinv cf HcS Hcf) as Hpfree.
  unfold a_alloc.
  destruct (Z.eqb_spec (anx a cf - cf) k) as [E|E].
  - (* exact fit *)
    assert (E1 : afr (a_unlink cf a) (anx (a_unlink cf a) cf) = false).
    { simpl. rewrite updb_other by lia. exact Hnfree. }
    assert (E2 : afr (a_unlink cf a) (apv (a_unlink cf a) cf) = false).
    { simpl. rewrite updb_other by lia. exact Hpfree. }
    unfold a_free, a_up. cbv zeta. rewrite E1, E2. simpl.
    split; [tauto|]. intros x Hx. split; [|reflexivity].
    unfold updb. destruct (Z.eqb_spec x cf) as [->|]; auto.
  - (* split *)
    set (d := cf + k) in *.
    assert (HdS : ~ aS a d).
    { intros HS. pose proof (hi_gap0 _ _ HcS HS). unfold d in *. lia. }
    assert (Hd : cf < d < anx a cf) by (unfold d; lia).
    assert (E1 : afr (a_split_free cf d a) (anx (a_split_free cf d a) cf) = true).
    { simpl. rewrite upd_same. apply updb_same. }
    unfold a_free, a_up. cbv zeta. rewrite E1.
    assert (E3 : upd (upd (anx a) d (anx a cf)) cf d cf = d) by apply upd_same.
    assert (E4 : upd (upd (anx a) d (anx a cf)) cf d d = anx a cf).
    { rewrite upd_other by lia. apply upd_same. }
    assert (E2 : afr (a_merge cf (a_unlink (anx (a_split_free cf d a) cf)
                                    (a_split_free cf d a)))
                   (apv (a_merge cf (a_unlink (anx (a_split_free cf d a) cf)
                                       (a_split_free cf d a))) cf) = false).
    { simpl. rewrite E3, E4.
      rewrite !upd_other by lia. rewrite !updb_other by lia. exact Hpfree. }
    rewrite E2. simpl. rewrite E3, E4.
    split.
    + intros x. split.
      * intros [[Hx| ->] Hne]; [exact Hx | contradiction].
      * intros Hx. split; [left; exact Hx|]. intros ->. contradiction.
    + intros x Hx.
      assert (Hxd : x <> d) by (intros ->; contradiction).
      split.
      * unfold updb. destruct (Z.eqb_spec x cf) as [->|]; [auto|].
        destruct (Z.eqb_spec x d); [contradiction|]. reflexivity.
      * unfold upd. destruct (Z.eqb_spec x cf) as [->|]; [reflexivity|].
        destruct (Z.eqb_spec x d); [contradiction|]. reflexivity.
Qed.

(** C3. For a heap that satisfies the invariant [heap_inv], as every
    reachable heap does, and a size for which [umm_malloc] succeeds,
    freeing the returned pointer gives a heap with the same set of free
    runs [(start index, length)] as before the allocation. *)
Theorem malloc_then_free_restores_free_runs st size p st' r :
  heap_inv st -> 0 <= size < 4294967296 ->
  umm_malloc size st = Some (p, st') -> p <> NULL ->
  In r (free_runs (umm_free p st')) <-> In r (free_runs st).
Proof.
  intros Hr Hsize E Hp. destruct Hr as [a Hv].
  unfold umm_malloc in E.
  destruct (Z.eqb_spec size 0); [injection E as <- <-; contradiction|].
  destruct (sim_malloc_core st a size Hv Hsize)
    as [(cf & st1 & E1 & Hin & Hfit & Ecfg & Hv1)|(E1 & _)];
    rewrite E1 in E; injection E as <- <-; [|contradiction].
  pose proof (view_ainv _ _ Hv) as Hinv.
  pose proof (umm_blocks_range size Hsize) as Hk.
  destruct (a_alloc_facts a cf (umm_blocks size) Hinv Hin)
    as (HNa & Hcfa & Hcffa & Hnxa & _); [lia|].
  pose proof (hinv_fl_range _ _ _ _ _ _ _ _ Hinv cf Hin) as Hcfr.
  unfold umm_free.
  destruct (Z.eqb_spec (UMM_DATA st cf) NULL); [contradiction|].
  rewrite <- (DATA_same_cfg st st1 cf Ecfg).
  assert (Hv2 : view (umm_free_core (UMM_DATA st1 cf) st1)
                  (a_free cf (a_alloc cf (umm_blocks size) a))).
  { apply sim_free_core; auto; lia. }
  destruct (a_free_alloc a cf (umm_blocks size) Hinv Hin) as [HS Hsame]; [lia|].
  destruct r as [i len].
  rewrite (free_runs_spec _ _ i len Hv2), (free_runs_spec _ _ i len Hv).
  rewrite HS. split; intros (Hi & Hf & Hl); destruct (Hsame i Hi) as [Ef En];
    repeat split; auto; congruence.
Qed.

(** ** What [umm_malloc] returns *)

(** C7, as the code has it. For a reachable heap and a size [s > 0], [umm_malloc]
    returns. Either the result is null, the state is unchanged and no free
    block of the chain has [umm_blocks s] blocks; or it is the data address
    of a chain block [c] that was free and large enough: the address is
    the block's address plus the 4-byte used-header, so it sits at offset
    4 modulo the block size from the heap base (the block, not its body,
    is aligned to the block size), and afterwards [c] is an allocated
    block of exactly [umm_blocks s] blocks whose usable size is at least
    [s] bytes. *)
Theorem malloc_returns_block_body st size :
  reachable st -> 0 < size < 4294967296 ->
  exists p st',
    umm_malloc size st = Some (p, st') /\
    ((p = NULL /\ st' = st /\
      forall c, In c (chain st) -> is_free st c = true ->
                nxt st c - c < umm_blocks size) \/
     (exists c,
        In c (chain st) /\ is_free st c = true /\
        umm_blocks size <= nxt st c - c /\
        p = UMM_BLOCK st c + header_size /\
        (UMM_BLOCK st c - UMM_HEAP st) mod UMM_BLOCKSIZE = 0 /\
        (p - UMM_HEAP st) mod UMM_BLOCKSIZE = header_size /\
        allocated st' p = true /\ block_of st' p = c /\
        nxt st' c - c = umm_blocks size /\
        size <= usable_size st' c)).
Proof.
  intros Hr Hsize. destruct (reachable_inv st Hr) as [a Hv].
  pose proof UMM_BLOCKSIZE_ge as HB.
  unfold umm_malloc. destruct (Z.eqb_spec size 0); [lia|].
  pose proof (view_ainv _ _ Hv) as Hinv.
  assert (Hsize' : 0 <= size < 4294967296) by lia.
  pose proof (umm_blocks_range size Hsize') as Hk.
  destruct (sim_malloc_core st a size Hv Hsize')
    as [(cf & st1 & E1 & Hin & Hfit & Ecfg & Hv1)|(E1 & Hno)].
  - exists (UMM_DATA st cf), st1. split; [exact E1|]. right. exists cf.
    destruct (view_fl_S _ _ _ Hv Hin) as [HcS Hcf].
    pose proof (hinv_fl_range _ _ _ _ _ _ _ _ Hinv cf Hin) as Hcfr.
    destruct (view_next _ _ _ Hv HcS) as (_ & Hn & _); [lia|].
    pose proof (view_S_range _ _ _ Hv Hn) as Hrn.
    pose proof (view_N_range _ _ Hv) as HNr.
    destruct (a_alloc_facts a cf (umm_blocks size) Hinv Hin)
      as (HNa & Hcfa & Hcffa & Hnxa & _); [lia|].
    assert (Hal : allocated st1 (UMM_DATA st1 cf) = true).
    { apply (allocated_intro st1 _ cf Hv1); auto; lia. }
    rewrite (DATA_same_cfg st st1 cf Ecfg) in Hal.
    assert (Hbo : block_of st1 (UMM_DATA st cf) = cf).
    { rewrite <- (DATA_same_cfg st st1 cf Ecfg).
      apply block_of_DATA; [apply Hv1 | |];
        rewrite <- (view_N _ _ Hv1); lia. }
    split; [apply (chain_spec st a cf Hv); exact HcS|].
    split; [rewrite (view_fr _ _ _ Hv HcS); exact Hcf|].
    split; [rewrite (view_nxt _ _ _ Hv HcS); exact Hfit|].
    split; [reflexivity|].
    split; [unfold UMM_BLOCK;
            replace (UMM_HEAP st + cf * UMM_BLOCKSIZE - UMM_HEAP st)
              with (cf * UMM_BLOCKSIZE) by lia; apply Z.mod_mul; lia|].
    split; [unfold UMM_DATA, UMM_BLOCK, header_size;
            replace (UMM_HEAP st + cf * UMM_BLOCKSIZE + 4 - UMM_HEAP st)
              with (4 + cf * UMM_BLOCKSIZE) by lia;
            rewrite Z.mod_add by lia; apply Z.mod_small; lia|].
    split; [exact Hal|]. split; [exact Hbo|].
    rewrite (view_nxt _ _ _ Hv1 Hcfa), Hnxa.
    split; [lia|].
    unfold usable_size. rewrite (view_nxt _ _ _ Hv1 Hcfa), Hnxa.
    replace (cf + umm_blocks size - cf) with (umm_blocks size) by lia.
    apply umm_blocks_covers; lia.
  - exists NULL, st. split; [exact E1|]. left.
    split; [reflexivity|]. split; [reflexivity|].
    intros c Hc Hf.
    apply (chain_spec st a c Hv) in Hc.
    rewrite (view_fr _ _ _ Hv Hc) in Hf.
    rewrite (view_nxt _ _ _ Hv Hc).
    apply Hno. destruct Hinv. apply hi_mem0. auto.
Qed.

(** ** Reallocate: out of memory in case 6 *)

(** The three sizes [umm_realloc] computes for the block of [ptr]. *)
Definition realloc_blockSize (st : umm_state) (ptr : Z) : Z :=
  let c := block_of st ptr in u16 (UMM_NBLOCK st c - c).

Definition realloc_nextBlockSize (st : umm_state) (ptr : Z) : Z :=
  let c := block_of st ptr in
  if has_free_flag (UMM_NBLOCK st (UMM_NBLOCK st c))
  then u16 (Z.land (UMM_NBLOCK st (UMM_NBLOCK st c)) UMM_BLOCKNO_MASK - UMM_NBLOCK st c)
  else 0.

Definition realloc_prevBlockSize (st : umm_state) (ptr : Z) : Z :=
  let c := block_of st ptr in
  if has_free_flag (UMM_NBLOCK st (UMM_PBLOCK st c))
  then u16 (c - UMM_PBLOCK st c)
  else 0.

(** None of the conditions of cases 1 to 5 holds. *)
Definition realloc_case6 (st : umm_state) (ptr size : Z) : bool :=
  let blocks := umm_blocks size in
  let blockSize := realloc_blockSize st ptr in
  let nextBlockSize := realloc_nextBlockSize st ptr in
  let prevBlockSize := realloc_prevBlockSize st ptr in
  negb (blockSize >=? blocks)
  && negb (blockSize + nextBlockSize =? blocks)
  && negb ((0 =? prevBlockSize) && (blockSize + nextBlockSize >=? blocks))
  && negb (prevBlockSize + blockSize >=? blocks)
  && negb (prevBlockSize + blockSize + nextBlockSize >=? blocks).

(** C2. For an allocated pointer and a size that fall into case 6 of
    [umm_realloc], when the fresh allocation fails the call returns null
    and the state it returns is the state it was given: the old block is
    still allocated at the same index, with the same contents. *)
Theorem realloc_case6_failure_keeps_heap st p size :
  reachable st -> allocated st p = true -> 0 < size < 4294967296 ->
  realloc_case6 st p size = true ->
  (exists st', umm_malloc_core size st = Some (NULL, st')) ->
  umm_realloc p size st = Some (NULL, st).
Proof.
  intros Hr Hal Hsize H6 (st' & Hfail).
  destruct (reachable_inv st Hr) as [a Hv].
  destruct (allocated_spec st a p Hv Hal) as (c & Ep & Eb & Hc & Hc0 & HcN & Hf).
  pose proof (view_S_range _ _ _ Hv Hc) as Hrc.
  unfold realloc_case6, realloc_blockSize, realloc_nextBlockSize,
    realloc_prevBlockSize in H6. cbv zeta in H6.
  rewrite !andb_true_iff, !negb_true_iff in H6.
  destruct H6 as ((((H1 & H2) & H3) & H4) & H5).
  unfold umm_realloc.
  destruct (Z.eqb_spec p NULL) as [E|_].
  { exfalso. subst p. revert E. apply DATA_nonnull; [apply Hv | lia]. }
  destruct (Z.eqb_spec size 0); [lia|].
  cbv zeta. rewrite H1, H2, H3, H4, H5.
  destruct (sim_malloc_core st a size Hv) as
    [(cf & st1 & E & Hin & _)|(E & _)]; [lia| |].
  - exfalso. rewrite E in Hfail. injection Hfail as Hnull _.
    pose proof (hinv_fl_range _ _ _ _ _ _ _ _ (view_ainv _ _ Hv) cf Hin).
    revert Hnull. apply DATA_nonnull; [apply Hv | lia].
  - rewrite E. simpl. unfold realloc_finish. rewrite Z.gtb_ltb, Z.ltb_irrefl.
    reflexivity.
Qed.

(** ** umm_info *)

Lemma info_walk_spec st a p :
  view st a ->
  forall fuel b i, aS a b -> (Z.to_nat (aN a - 1 - b) <= fuel)%nat ->
  exists r i',
    info_walk fuel st p b i = Some (r, i') /\
    (r = true <->
     exists x, aS a x /\ b <= x /\ afr a x = true /\ p = UMM_BLOCK st x).
Proof.
  intros Hv.
  pose proof (view_ainv _ _ Hv) as Hinv.
  assert (Hlast : forall b i fuel, aS a b -> b = aN a - 1 ->
    exists r i',
      info_walk fuel st p b i = Some (r, i') /\
      (r = true <->
       exists x, aS a x /\ b <= x /\ afr a x = true /\ p = UMM_BLOCK st x)).
  { intros b i fuel Hb E.
    assert (E0 : (nxt st b =? 0) = true).
    { rewrite (view_nxt _ _ _ Hv Hb). rewrite E. destruct Hinv.
      rewrite hi_nxlast0. reflexivity. }
    exists false, i. split.
    - destruct fuel; simpl; rewrite E0; reflexivity.
    - split; [discriminate|]. intros (x & Hx & Hle & Hfx & _).
      pose proof (view_S_range _ _ _ Hv Hx).
      assert (x = aN a - 1) by lia. subst x. destruct Hinv. congruence. }
  induction fuel as [|fuel IH]; intros b i Hb Hfuel.
  - pose proof (view_S_range _ _ _ Hv Hb) as Hrb.
    apply Hlast; auto. lia.
  - destruct (Z.eq_dec b (aN a - 1)) as [E|HbN]; [apply Hlast; auto|].
    pose proof (view_S_range _ _ _ Hv Hb) as Hrb.
    destruct (view_next _ _ _ Hv Hb HbN) as (Hlt & Hn & _).
    assert (Hstep : forall x, aS a x -> b <= x -> x <> b -> anx a b <= x).
    { intros x Hx Hle Hne. apply (view_gap _ _ _ _ Hv Hb Hx). lia. }
    cbn [info_walk].
    rewrite (view_nxt _ _ _ Hv Hb), (view_fr _ _ _ Hv Hb).
    destruct (Z.eqb_spec (anx a b) 0); [lia|].
    destruct (afr a b) eqn:Hfb.
    + destruct (Z.eqb_spec p (UMM_BLOCK st b)) as [Ep|Ep].
      * eexists true, _. split; [reflexivity|]. split; [|reflexivity].
        intros _. exists b. repeat split; auto. lia.
      * destruct (IH (anx a b)
                    (count_free (u32 (anx a b - b)) i) Hn) as (r & i' & E & Hiff);
          [lia|].
        exists r, i'. split; [exact E|]. rewrite Hiff. split.
        -- intros (x & Hx & Hle & Hfx & Epx). exists x. repeat split; auto. lia.
        -- intros (x & Hx & Hle & Hfx & Epx). exists x. repeat split; auto.
           apply Hstep; auto. intros ->. contradiction.
    + destruct (IH (anx a b)
                  (count_used (u32 (anx a b - b)) i) Hn) as (r & i' & E & Hiff);
        [lia|].
      exists r, i'. split; [exact E|]. rewrite Hiff. split.
      * intros (x & Hx & Hle & Hfx & Epx). exists x. repeat split; auto. lia.
      * intros (x & Hx & Hle & Hfx & Epx). exists x. repeat split; auto.
        apply Hstep; auto. intros ->. congruence.
Qed.

(** C9, as the code has it. On a reachable heap [umm_info] returns; it returns the
    probe pointer when the probe is the address of the header of a free
    block of the chain, and null otherwise (also when the probe is the
    header address of a used block or of a sentinel). *)
Theorem umm_info_matches_free_blocks st p force :
  reachable st ->
  exists r st',
    umm_info p force st = Some (r, st') /\
    ((exists b, In b (chain st) /\ is_free st b = true /\ p = UMM_BLOCK st b) ->
     r = p) /\
    (~ (exists b, In b (chain st) /\ is_free st b = true /\ p = UMM_BLOCK st b) ->
     r = NULL).
Proof.
  intros Hr. destruct (reachable_inv st Hr) as [a Hv].
  pose proof (view_ainv _ _ Hv) as Hinv.
  pose proof (view_N_range _ _ Hv) as HNr.
  pose proof (hinv_S1 _ _ _ _ _ _ _ _ Hinv) as HS1.
  assert (HS0 : aS a 0) by (destruct Hinv; auto).
  assert (Hnx0 : anx a 0 = 1) by (destruct Hinv; auto).
  unfold umm_info. cbv zeta.
  rewrite (view_nxt _ _ _ Hv HS0), Hnx0.
  destruct (info_walk_spec st a p Hv (scan_fuel st) 1 info_zero HS1)
    as (r & i' & E & Hiff).
  { unfold scan_fuel. rewrite <- (view_N _ _ Hv). lia. }
  rewrite E.
  assert (Hex : (exists b, In b (chain st) /\ is_free st b = true /\
                           p = UMM_BLOCK st b) <->
                (exists x, aS a x /\ 1 <= x /\ afr a x = true /\
                           p = UMM_BLOCK st x)).
  { split.
    - intros (b & Hb & Hf & Ep). apply (chain_spec st a b Hv) in Hb.
      rewrite (view_fr _ _ _ Hv Hb) in Hf.
      exists b. repeat split; auto.
      destruct (hinv_free_inner _ _ _ _ _ _ _ _ Hinv b Hb Hf).
      pose proof (view_S_range _ _ _ Hv Hb). lia.
    - intros (x & Hx & _ & Hf & Ep). exists x.
      split; [apply (chain_spec st a x Hv); exact Hx|].
      split; [rewrite (view_fr _ _ _ Hv Hx); exact Hf | exact Ep]. }
  destruct r.
  - eexists p, _. split; [reflexivity|]. split; [reflexivity|].
    intros Hno. exfalso. apply Hno. apply Hex. apply Hiff. reflexivity.
  - eexists NULL, _. split; [reflexivity|]. split; [|reflexivity].
    intros Hyes. apply Hex in Hyes. apply Hiff in Hyes. discriminate.
Qed.

(** ** Shrinking in place *)

Lemma umm_blocks_le size n :
  0 < size -> 1 <= n <= 32767 -> size <= n * UMM_BLOCKSIZE - header_size ->
  umm_blocks size <= n.
Proof.
  intros Hs Hn Hle. unfold umm_blocks, INT16_MAX.
  pose proof UMM_BLOCKSIZE_ge as HB.
  assert (Hbody : UMM_BLOCKSIZE = 4 + body_size) by reflexivity.
  unfold header_size in Hle.
  destruct (Z.leb_spec size body_size); [lia|].
  cbv zeta.
  assert (Hq : 0 <= (size - body_size - 1) / UMM_BLOCKSIZE <= n - 2).
  { split.
    - apply Z.div_pos; lia.
    - assert ((size - body_size - 1) / UMM_BLOCKSIZE < n - 1); [|lia].
      apply Z.div_lt_upper_bound; nia. }
  rewrite u32_small by lia.
  destruct (Z.gtb_spec (2 + (size - body_size - 1) / UMM_BLOCKSIZE) 32767); [lia|].
  rewrite u16_small by lia. lia.
Qed.

Lemma umm_blocks_fits size :
  0 < size < 4294967296 -> umm_blocks size < INT16_MAX ->
  size <= umm_blocks size * UMM_BLOCKSIZE - header_size.
Proof.
  intros Hs. unfold umm_blocks, INT16_MAX, header_size.
  pose proof UMM_BLOCKSIZE_ge as HB.
  assert (Hbody : UMM_BLOCKSIZE = 4 + body_size) by reflexivity.
  destruct (Z.leb_spec size body_size); [lia|].
  cbv zeta. intros Hlt.
  assert (Hq : 0 <= (size - body_size - 1) / UMM_BLOCKSIZE < 4294967296 - 2).
  { split.
    - apply Z.div_pos; lia.
    - apply Z.div_lt_upper_bound; lia. }
  rewrite u32_small in Hlt |- * by lia.
  destruct (Z.gtb_spec (2 + (size - body_size - 1) / UMM_BLOCKSIZE) 32767)
    as [Hg|Hg].
  - change (u16 32767) with 32767 in Hlt. lia.
  - rewrite u16_small by lia.
    pose proof (Z.mul_succ_div_gt (size - body_size - 1) UMM_BLOCKSIZE). lia.
Qed.

(** C6, as the code has it. For an allocated pointer [p] and a size [0 < size <=
    bytes(p)], [umm_realloc p size] returns [p]; the block is cut down to
    [umm_blocks size] blocks, and the bytes of the old contents that are
    kept are the first [umm_blocks size * UMM_BLOCKSIZE - 4], which are at
    least [size] and at most [bytes(p)].  When the block already has that
    extent the state is not changed at all. *)
Theorem realloc_shrink_keeps_new_extent st p size :
  reachable st -> allocated st p = true ->
  0 < size <= usable_size st (block_of st p) ->
  exists st',
    umm_realloc p size st = Some (p, st') /\
    size <= umm_blocks size * UMM_BLOCKSIZE - header_size /\
    umm_blocks size * UMM_BLOCKSIZE - header_size <= usable_size st (block_of st p) /\
    (forall off, 0 <= off < umm_blocks size * UMM_BLOCKSIZE - header_size ->
       memory st' (p + off) = memory st (p + off)) /\
    (umm_blocks size * UMM_BLOCKSIZE - header_size = usable_size st (block_of st p) ->
     st' = st).
Proof.
  intros Hr Hal Hsize.
  destruct (reachable_inv st Hr) as [a Hv].
  destruct (allocated_spec st a p Hv Hal) as (c & Ep & Eb & Hc & Hc0 & HcN & Hf).
  pose proof UMM_BLOCKSIZE_ge as HB.
  pose proof (view_ainv _ _ Hv) as Hinv.
  pose proof (view_N_range _ _ Hv) as HNr.
  pose proof (view_S_range _ _ _ Hv Hc) as Hrc.
  pose proof Hv as (Hcfg & _).
  destruct (view_next _ _ _ Hv Hc HcN) as (Hlt & Hn & Hpn).
  pose proof (view_S_range _ _ _ Hv Hn) as Hrn.
  rewrite Eb in *. unfold usable_size in *.
  rewrite (view_nxt _ _ _ Hv Hc) in *.
  assert (Hs32 : 0 < size < 4294967296).
  { destruct Hcfg as (? & ? & ?). pose proof (view_N _ _ Hv).
    unfold header_size in *. nia. }
  assert (Hk : 1 <= umm_blocks size <= 32767) by (apply umm_blocks_range; lia).
  assert (Hkle : umm_blocks size <= anx a c - c).
  { apply umm_blocks_le; lia. }
  assert (Hfit : size <= umm_blocks size * UMM_BLOCKSIZE - header_size).
  { apply umm_blocks_fits; [exact Hs32 | unfold INT16_MAX; lia]. }
  unfold umm_realloc.
  destruct (Z.eqb_spec p NULL) as [E|_].
  { exfalso. rewrite Ep in E. revert E. apply DATA_nonnull; [exact Hcfg | lia]. }
  destruct (Z.eqb_spec size 0); [lia|].
  cbv zeta. rewrite Eb.
  rewrite (view_NBLOCK_used _ _ _ Hv Hc Hf).
  rewrite (u16_small (anx a c - c)) by lia.
  destruct (Z.geb_spec (anx a c - c) (umm_blocks size)) as [_|Hbad]; [|lia].
  unfold realloc_finish.
  destruct (Z.gtb_spec (anx a c - c) (umm_blocks size)) as [Hgt|Hnot].
  - cbv zeta. eexists. split; [reflexivity|].
    split; [exact Hfit|]. split; [unfold header_size; nia|].
    split; [|intros E; unfold header_size in E; nia].
    intros off Hoff.
    set (k := umm_blocks size) in *.
    pose proof (sim_split_used st a c k Hv Hc HcN) as Hv1.
    assert (Hv1' : view (umm_split_block c k 0 st) (a_split_used c (c + k) a))
      by (apply Hv1; auto; lia).
    clear Hv1.
    assert (Hx1 : UMM_BLOCK st c + 4 <= p + off).
    { rewrite Ep. unfold UMM_DATA, header_size. lia. }
    assert (Hx2 : p + off < UMM_BLOCK st (c + k)).
    { rewrite Ep. unfold UMM_DATA, UMM_BLOCK, header_size in *. nia. }
    assert (Hmono : forall i j, i <= j -> UMM_BLOCK st i <= UMM_BLOCK st j).
    { intros i j Hij. unfold UMM_BLOCK. nia. }
    assert (Hstep : forall i j, i < j -> UMM_BLOCK st i + 8 <= UMM_BLOCK st j).
    { intros i j Hij. unfold UMM_BLOCK. nia. }
    assert (Hclear : forall b, b <= c - 1 \/ c + k <= b -> clear_of st (p + off) b).
    { intros b [Hb|Hb]; unfold clear_of.
      - right. pose proof (Hstep b c). lia.
      - left. pose proof (Hmono (c + k) b). lia. }
    rewrite (fp_free_core_insert _ (a_split_used c (c + k) a) (c + k) (p + off) Hv1').
    + apply fp_split; try lia.
      * apply Hclear. lia.
      * rewrite (view_nxt _ _ _ Hv Hc). apply Hclear. lia.
    + simpl. right. reflexivity.
    + simpl. apply updb_same.
    + lia.
    + simpl. lia.
    + simpl. rewrite (upd_other _ (anx a c)) by lia. rewrite upd_same.
      rewrite updb_other by lia. exact Hf.
    + intros b Hb. apply (clear_of_cfg st); [apply cfg_split|].
      simpl in Hb. apply Hclear.
      rewrite (upd_other _ c (c + k) (c + k)) in Hb by lia.
      rewrite upd_same in Hb.
      rewrite (upd_other _ c (c + k) (anx a c)) in Hb by lia.
      rewrite (upd_other _ (c + k) (anx a c) (anx a c)) in Hb by lia.
      destruct Hb as [->|[->|[->|[->|Hb]]]]; try lia.
      * destruct (Z.eq_dec (anx a c) (aN a - 1)) as [E|E].
        -- rewrite E. destruct Hinv. rewrite hi_nxlast0. lia.
        -- destruct (view_next _ _ _ Hv Hn E) as (Hlt2 & _). lia.
      * destruct (view_fl_S _ _ _ Hv Hb) as [Hbs Hbf].
        assert (Hbc : b <> c) by (intros ->; congruence).
        assert (Hcase : b < c \/ c < b) by lia.
        destruct Hcase as [Hcase|Hcase]; [lia|].
        pose proof (view_gap _ _ _ _ Hv Hc Hbs Hcase). lia.
  - eexists. split; [reflexivity|].
    split; [exact Hfit|]. split; [unfold header_size; nia|].
    split; [reflexivity|reflexivity].
Qed.

(** ** The heap right after [umm_init_heap] *)

Lemma info_walk_step fuel st p b i :
  info_walk (S fuel) st p b i =
  if nxt st b =? 0 then Some (false, i)
  else if is_free st b then
         if p =? UMM_BLOCK st b then Some (true, count_free (u32 (nxt st b - b)) i)
         else info_walk fuel st p (nxt st b) (count_free (u32 (nxt st b - b)) i)
       else info_walk fuel st p (nxt st b) (count_used (u32 (nxt st b - b)) i).
Proof. reflexivity. Qed.

Lemma info_walk_end fuel st p b i :
  nxt st b = 0 -> info_walk fuel st p b i = Some (false, i).
Proof. intros E. destruct fuel; simpl; rewrite E; reflexivity. Qed.

Section AfterInit.

Variables (ptr size : Z) (st : umm_state).
Hypothesis Hregion : valid_region ptr size.

Local Abbreviation N := (size / UMM_BLOCKSIZE).
Local Abbreviation st' := (umm_init_heap ptr size st).

Lemma init_numblocks : UMM_NUMBLOCKS st' = N.
Proof.
  pose proof (view_N _ _ (view_init ptr size st Hregion)) as E.
  symmetry. exact E.
Qed.

Lemma init_links :
  nxt st' 0 = 1 /\ nxt st' 1 = N - 1 /\ nxt st' (N - 1) = 0 /\
  is_free st' 0 = false /\ is_free st' 1 = true /\ is_free st' (N - 1) = false.
Proof.
  pose proof (view_init ptr size st Hregion) as Hv.
  destruct Hregion as (_ & _ & HN).
  assert (H0 : aS (a_init N) 0) by (simpl; auto).
  assert (H1 : aS (a_init N) 1) by (simpl; auto).
  assert (H2 : aS (a_init N) (N - 1)) by (simpl; auto).
  rewrite !(view_nxt _ _ _ Hv H0), !(view_nxt _ _ _ Hv H1), !(view_nxt _ _ _ Hv H2).
  rewrite !(view_fr _ _ _ Hv H0), !(view_fr _ _ _ Hv H1), !(view_fr _ _ _ Hv H2).
  simpl. unfold upd, updb.
  destruct (Z.eqb_spec (N - 1) 1); [lia|].
  destruct (Z.eqb_spec (N - 1) 0); [lia|].
  simpl. tauto.
Qed.

Lemma init_chain : chain st' = [0; 1; N - 1].
Proof.
  destruct init_links as (E0 & E1 & E2 & _).
  pose proof Hregion as (_ & _ & HN).
  unfold chain, scan_fuel. rewrite init_numblocks.
  destruct (Z.to_nat N) as [|[|n]] eqn:EN; try lia.
  simpl chain_from. rewrite E0. simpl.
  rewrite E1. destruct (Z.eqb_spec (N - 1) 0); [lia|].
  destruct n as [|n]; [reflexivity|].
  simpl chain_from. rewrite E2. reflexivity.
Qed.

Lemma init_free_runs : free_runs st' = [(1, N - 2)].
Proof.
  destruct init_links as (E0 & E1 & E2 & F0 & F1 & F2).
  unfold free_runs. rewrite init_chain. simpl.
  rewrite F0, F1, F2. simpl. rewrite E1. f_equal. f_equal. lia.
Qed.

Lemma init_info_walk :
  info_walk (scan_fuel st') st' NULL (nxt st' 0) info_zero
  = Some (false, count_free (N - 2) info_zero).
Proof.
  destruct init_links as (E0 & E1 & E2 & F0 & F1 & F2).
  pose proof Hregion as (Hp & _ & HN).
  pose proof UMM_BLOCKSIZE_ge as HB.
  unfold scan_fuel. rewrite init_numblocks, E0.
  destruct (Z.to_nat N) as [|n] eqn:EN; try lia.
  rewrite info_walk_step. rewrite E1, F1.
  destruct (Z.eqb_spec (N - 1) 0); [lia|].
  rewrite (info_walk_end _ _ _ _ _ E2).
  replace (NULL =? UMM_BLOCK st' 1) with false.
  2: { symmetry. apply Z.eqb_neq.
       unfold NULL, UMM_BLOCK, UMM_HEAP. rewrite cfg_init. cbn [pheap]. lia. }
  rewrite (u32_small (N - 1 - 1)) by lia.
  replace (N - 1 - 1) with (N - 2) by lia.
  reflexivity.
Qed.

Lemma init_umm_info :
  umm_info NULL false st'
  = Some (NULL, compute_fragmentation_metric
                  (compute_usage_metric
                     (with_info st' (count_free (N - 2) info_zero)))).
Proof. unfold umm_info. cbv zeta. rewrite init_info_walk. reflexivity. Qed.

(** The figures the introspection functions report on a fresh heap whose
    statistics record started out zeroed, as a C global does. *)
Lemma init_introspect :
  ummHeapInfo st = info_zero ->
  (exists s, umm_free_heap_size st' = Some ((N - 2) * UMM_BLOCKSIZE, s)) /\
  (exists s, umm_fragmentation_metric st' = Some (0, s)) /\
  (exists s, umm_usage_metric st' = Some (0, s)).
Proof.
  intros Hinfo.
  pose proof Hregion as (Hp & He & HN).
  pose proof UMM_BLOCKSIZE_ge as HB.
  assert (Hsz : N * UMM_BLOCKSIZE <= size).
  { unfold N. rewrite Z.mul_comm. apply Z.mul_div_le. lia. }
  assert (Hsq : Z.sqrt ((N - 2) * (N - 2)) = N - 2) by (apply Z.sqrt_square; lia).
  assert (Hdiv : (N - 2) * 100 / (N - 2) = 100) by (rewrite Z.mul_comm; apply Z.div_mul; lia).
  assert (Hinl : ummHeapInfo st' =
                 if UMM_INLINE_METRICS
                 then mk_info 0 0 0 0 0 (N - 2) ((N - 2) * (N - 2)) 0 0 0
                 else info_zero).
  { unfold umm_init_heap, UMM_FRAGMENTATION_METRIC_INIT. cbv zeta.
    destruct UMM_INLINE_METRICS;
      unfold umm_fragmentation_metric_init, UMM_NUMBLOCKS, with_memory, with_info, set;
      cbn [ummHeapInfo umm_heap_current numblocks]; rewrite Hinfo;
      cbn [totalEntries usedEntries freeEntries totalBlocks usedBlocks freeBlocks
           freeBlocksSquared maxFreeContiguousBlocks usage_metric
           fragmentation_metric info_zero].
    - rewrite (u16_small N) by lia.
      rewrite (u32_small (N - 2)) by lia.
      rewrite u32_small by nia. reflexivity.
    - reflexivity. }
  unfold umm_free_heap_size, umm_fragmentation_metric, umm_usage_metric.
  rewrite init_umm_info.
  remember (umm_init_heap ptr size st) as s1 eqn:Es1.
  assert (Hne : (0 =? N - 2) = false) by (apply Z.eqb_neq; lia).
  destruct UMM_INLINE_METRICS;
    unfold compute_fragmentation_metric, compute_usage_metric, with_info,
      count_free;
    cbn [ummHeapInfo totalEntries usedEntries freeEntries totalBlocks usedBlocks
         freeBlocks freeBlocksSquared maxFreeContiguousBlocks usage_metric
         fragmentation_metric info_zero];
    rewrite ?Hinl;
    cbn [ummHeapInfo totalEntries usedEntries freeEntries totalBlocks usedBlocks
         freeBlocks freeBlocksSquared maxFreeContiguousBlocks usage_metric
         fragmentation_metric info_zero];
    rewrite ?Z.add_0_l, ?(u32_small (N - 2)) by lia;
    rewrite ?(u32_small ((N - 2) * (N - 2))) by nia;
    rewrite ?Hne; unfold sqrtf_u32; rewrite ?Hsq;
    rewrite ?(u32_small ((N - 2) * 100)) by lia; rewrite ?Hdiv;
    rewrite ?(u32_small ((N - 2) * UMM_BLOCKSIZE)) by nia;
    change (u32 (0 * 100)) with 0; rewrite ?Z.div_0_l by lia;
    (split; [|split]; eexists; reflexivity).
Qed.

End AfterInit.

(** * Further properties of the allocator *)

(** ** Where allocated blocks lie *)

(** The body of an allocated block, seen through the abstract heap. *)
Lemma allocated_extent st a p :
  view st a -> allocated st p = true ->
  exists c,
    p = UMM_DATA st c /\ block_of st p = c /\ aS a c /\ afr a c = false /\
    1 <= c /\ c < anx a c /\ anx a c <= aN a - 1 /\ aS a (anx a c) /\
    usable_size st c = (anx a c - c) * UMM_BLOCKSIZE - header_size.
Proof.
  intros Hv Hal.
  destruct (allocated_spec st a p Hv Hal) as (c & Ep & Eb & Hc & Hc0 & HcN & Hf).
  pose proof (view_S_range _ _ _ Hv Hc) as Hrc.
  destruct (view_next _ _ _ Hv Hc HcN) as (Hlt & Hn & _).
  pose proof (view_S_range _ _ _ Hv Hn) as Hrn.
  exists c. repeat split; auto; try lia.
  unfold usable_size. rewrite (view_nxt _ _ _ Hv Hc). reflexivity.
Qed.

(** X1. Two different allocated blocks of a reachable heap do not overlap:
    the block with the lower address ends, with its whole usable size,
    before the header of the other one starts. *)
Theorem allocated_blocks_disjoint st p q :
  reachable st -> allocated st p = true -> allocated st q = true -> p < q ->
  p + usable_size st (block_of st p) + header_size <= q.
Proof.
  intros Hr Hp Hq Hlt.
  destruct (reachable_inv st Hr) as [a Hv].
  pose proof UMM_BLOCKSIZE_ge as HB.
  destruct (allocated_extent st a p Hv Hp)
    as (c & Ep & Eb & Hc & _ & Hc1 & Hcn & _ & _ & Eu).
  destruct (allocated_extent st a q Hv Hq)
    as (d & Eq & _ & Hd & _ & Hd1 & _ & _ & _ & _).
  rewrite Eb, Eu.
  assert (Hcd : c < d).
  { rewrite Ep, Eq in Hlt. unfold UMM_DATA, UMM_BLOCK in Hlt. nia. }
  pose proof (view_gap _ _ _ _ Hv Hc Hd Hcd) as Hgap.
  rewrite Ep, Eq. unfold UMM_DATA, UMM_BLOCK, header_size. nia.
Qed.

(** X2. An allocated block of a reachable heap lies inside the region
    given to [umm_init_heap], after the first block and before the last
    one, and offers at least the body of one block. *)
Theorem allocated_block_in_heap st p :
  reachable st -> allocated st p = true ->
  UMM_HEAP st + UMM_BLOCKSIZE + header_size <= p /\
  UMM_BLOCKSIZE - header_size <= usable_size st (block_of st p) /\
  p + usable_size st (block_of st p) <= UMM_BLOCK st (UMM_BLOCK_LAST st) /\
  UMM_BLOCK st (UMM_BLOCK_LAST st) + UMM_BLOCKSIZE <= UMM_HEAP st + UMM_HEAPSIZE st /\
  (p - UMM_HEAP st) mod UMM_BLOCKSIZE = header_size.
Proof.
  intros Hr Hp.
  destruct (reachable_inv st Hr) as [a Hv].
  pose proof UMM_BLOCKSIZE_ge as HB.
  destruct (allocated_extent st a p Hv Hp)
    as (c & Ep & Eb & Hc & _ & Hc1 & Hcn & Hle & _ & Eu).
  pose proof (view_N _ _ Hv) as HN.
  pose proof Hv as ((Hh & Hs & He) & _).
  rewrite Eb, Eu, Ep.
  unfold UMM_BLOCK_LAST, UMM_DATA, UMM_BLOCK, header_size. rewrite <- HN.
  split; [nia|]. split; [nia|]. split; [nia|]. split; [nia|].
  replace (UMM_HEAP st + c * UMM_BLOCKSIZE + 4 - UMM_HEAP st)
    with (4 + c * UMM_BLOCKSIZE) by lia.
  rewrite Z.mod_add by lia. apply Z.mod_small. lia.
Qed.

(** ** Block arithmetic *)

(** X3. [umm_blocks size] is between 1 and [INT16_MAX]; below the clamp
    it is the least number of blocks whose usable bytes hold [size]. *)
Theorem umm_blocks_least size :
  0 < size < 4294967296 ->
  1 <= umm_blocks size <= INT16_MAX /\
  (umm_blocks size < INT16_MAX ->
   size <= umm_blocks size * UMM_BLOCKSIZE - header_size) /\
  (forall n, 1 <= n <= INT16_MAX ->
             size <= n * UMM_BLOCKSIZE - header_size -> umm_blocks size <= n).
Proof.
  intros Hs. split; [|split].
  - unfold INT16_MAX. apply umm_blocks_range. lia.
  - intros Hlt. apply umm_blocks_fits; assumption.
  - intros n Hn Hle. unfold INT16_MAX in Hn. apply umm_blocks_le; lia.
Qed.

(** [umm_blocks] never decreases when the request grows. *)
Lemma umm_blocks_mono s1 s2 :
  0 <= s1 <= s2 -> s2 < 4294967296 -> umm_blocks s1 <= umm_blocks s2.
Proof.
  intros H12 H2. unfold umm_blocks, INT16_MAX.
  pose proof UMM_BLOCKSIZE_ge as HB.
  assert (Hbody : UMM_BLOCKSIZE = 4 + body_size) by reflexivity.
  assert (Hq : forall s, body_size < s < 4294967296 ->
                 0 <= (s - body_size - 1) / UMM_BLOCKSIZE < 4294967296 - 2).
  { intros s Hs. split.
    - apply Z.div_pos; lia.
    - apply Z.div_lt_upper_bound; lia. }
  assert (Hr : forall s, body_size < s < 4294967296 ->
                 2 <= u16 (if u32 (2 + (s - body_size - 1) / UMM_BLOCKSIZE) >? 32767
                           then 32767
                           else u32 (2 + (s - body_size - 1) / UMM_BLOCKSIZE))
                   <= 32767 /\
                 u16 (if u32 (2 + (s - body_size - 1) / UMM_BLOCKSIZE) >? 32767
                      then 32767
                      else u32 (2 + (s - body_size - 1) / UMM_BLOCKSIZE))
                 = Z.min 32767 (2 + (s - body_size - 1) / UMM_BLOCKSIZE)).
  { intros s Hs. specialize (Hq s Hs). rewrite u32_small by lia.
    destruct (Z.gtb_spec (2 + (s - body_size - 1) / UMM_BLOCKSIZE) 32767).
    - change (u16 32767) with 32767. lia.
    - rewrite u16_small by lia. lia. }
  destruct (Z.leb_spec s1 body_size); destruct (Z.leb_spec s2 body_size);
    cbv zeta; try lia.
  - destruct (Hr s2) as [Hr2 _]; lia.
  - destruct (Hr s1) as [_ E1]; [lia|]. destruct (Hr s2) as [_ E2]; [lia|].
    rewrite E1, E2.
    assert ((s1 - body_size - 1) / UMM_BLOCKSIZE <= (s2 - body_size - 1) / UMM_BLOCKSIZE)
      by (apply Z.div_le_mono; lia).
    lia.
Qed.

(** X4. Every address in the body of the first block of an extent maps
    back to that block: [block_of] inverts [UMM_DATA], also for pointers
    into the body. *)
Theorem block_of_body st c off :
  reachable st -> 0 <= c < UMM_NUMBLOCKS st ->
  0 <= off < UMM_BLOCKSIZE - header_size ->
  block_of st (UMM_DATA st c + off) = c.
Proof.
  intros Hr Hc Hoff.
  destruct (reachable_inv st Hr) as [a Hv].
  pose proof Hv as ((Hh & Hs & He) & _).
  pose proof (view_N _ _ Hv) as HN. pose proof (view_N_range _ _ Hv) as HNr.
  pose proof UMM_BLOCKSIZE_ge as HB.
  unfold block_of, UMM_DATA, UMM_BLOCK, header_size in *.
  replace (UMM_HEAP st + c * UMM_BLOCKSIZE + 4 + off - UMM_HEAP st)
    with ((4 + off) + c * UMM_BLOCKSIZE) by lia.
  assert (c * UMM_BLOCKSIZE + UMM_BLOCKSIZE <= UMM_NUMBLOCKS st * UMM_BLOCKSIZE) by nia.
  assert (0 <= c * UMM_BLOCKSIZE) by nia.
  rewrite u32_small by lia.
  rewrite Z.div_add by lia. rewrite Z.div_small by lia.
  apply u16_small. lia.
Qed.

(** ** The free list *)

(** The free list as [umm_malloc_core] and [umm_integrity_check] walk it:
    from block 0 along [UMM_NFREE] until the link is 0. *)
Fixpoint free_list_from (fuel : nat) (st : umm_state) (b : Z) : list Z :=
  match fuel with
  | O => []
  | S fuel' =>
      if UMM_NFREE st b =? 0 then []
      else UMM_NFREE st b :: free_list_from fuel' st (UMM_NFREE st b)
  end.

Definition free_list (st : umm_state) : list Z :=
  free_list_from (scan_fuel st) st 0.

Lemma free_list_from_links st nf pf : forall l fuel p,
  links nf pf p l -> ~ In 0 l ->
  (forall x, x = p \/ In x l -> UMM_NFREE st x = nf x) ->
  (length l <= fuel)%nat ->
  free_list_from fuel st p = l.
Proof.
  induction l as [|x l IH]; intros fuel p Hl H0 Hnf Hfuel.
  - destruct fuel; [reflexivity|]. simpl in *.
    rewrite (Hnf p) by auto. rewrite (proj1 Hl). reflexivity.
  - destruct fuel; [simpl in Hfuel; lia|].
    simpl in Hl. destruct Hl as (E1 & E2 & Hl).
    cbn [free_list_from]. rewrite (Hnf p) by auto. rewrite E1.
    destruct (Z.eqb_spec x 0) as [->|_]; [exfalso; apply H0; left; reflexivity|].
    f_equal. apply IH; auto.
    + intros Hin. apply H0. right. exact Hin.
    + intros y Hy. apply Hnf. right.
      destruct Hy as [->|Hy]; [left; reflexivity | right; exact Hy].
    + simpl in Hfuel. lia.
Qed.

Lemma free_list_spec st a : view st a -> free_list st = afl a.
Proof.
  intros Hv. pose proof (view_ainv _ _ Hv) as Hinv.
  unfold free_list, scan_fuel.
  apply (free_list_from_links st (anf a) (apf a)).
  - destruct Hinv; auto.
  - apply (hinv_0_notin _ _ _ _ _ _ _ _ Hinv).
  - intros x Hx. apply (view_nf _ _ _ Hv). exact Hx.
  - rewrite <- (view_N _ _ Hv). apply NoDup_bounded_length.
    + destruct Hinv; auto.
    + intros x Hx. pose proof (hinv_fl_range _ _ _ _ _ _ _ _ Hinv x Hx). lia.
Qed.

Lemma links_back_next nf pf : forall l p,
  links nf pf p l -> forall b, b = p \/ In b l -> pf (nf b) = b.
Proof.
  induction l as [|x l IH]; intros p Hl b Hb.
  - destruct Hb as [->|[]]. destruct Hl as [E1 E2]. rewrite E1. exact E2.
  - simpl in Hl. destruct Hl as (E1 & E2 & Hl).
    destruct Hb as [->|Hb].
    + rewrite E1. exact E2.
    + apply (IH x Hl).
      destruct Hb as [->|Hb]; [left; reflexivity | right; exact Hb].
Qed.

Lemma links_back_prev nf pf : forall l p,
  links nf pf p l -> forall b, b = 0 \/ In b l -> nf (pf b) = b.
Proof.
  induction l as [|x l IH]; intros p Hl b Hb.
  - destruct Hb as [->|[]]. destruct Hl as [E1 E2]. rewrite E2. exact E1.
  - simpl in Hl. destruct Hl as (E1 & E2 & Hl).
    destruct Hb as [->|[->|Hb]].
    + apply (IH x Hl). left. reflexivity.
    + rewrite E2. exact E1.
    + apply (IH x Hl). right. exact Hb.
Qed.

Lemma links_pf0_in nf pf : forall l p,
  links nf pf p l -> pf 0 = p \/ In (pf 0) l.
Proof.
  induction l as [|x l IH]; intros p Hl.
  - left. apply Hl.
  - simpl in Hl. destruct Hl as (_ & _ & Hl).
    destruct (IH x Hl) as [E|E]; right; [left; auto | right; exact E].
Qed.

(** X5. On a reachable heap the free list, walked from block 0 along the
    next-free links, has no repetition and holds exactly the blocks of the
    chain whose free flag is set; the previous-free links mirror the
    next-free links, the list closing into a ring through block 0. *)
Theorem free_list_coherent st :
  reachable st ->
  NoDup (free_list st) /\
  (forall b, In b (free_list st) <-> In b (chain st) /\ is_free st b = true) /\
  (forall b, b = 0 \/ In b (free_list st) ->
     UMM_PFREE st (UMM_NFREE st b) = b /\ UMM_NFREE st (UMM_PFREE st b) = b).
Proof.
  intros Hr. destruct (reachable_inv st Hr) as [a Hv].
  pose proof (view_ainv _ _ Hv) as Hinv.
  rewrite (free_list_spec st a Hv).
  split; [destruct Hinv; auto|]. split.
  - intros b. rewrite (chain_spec st a b Hv). split.
    + intros Hb. destruct (view_fl_S _ _ _ Hv Hb) as [HS Hf].
      split; [exact HS|]. rewrite (view_fr _ _ _ Hv HS). exact Hf.
    + intros [HS Hf]. rewrite (view_fr _ _ _ Hv HS) in Hf.
      destruct Hinv. apply hi_mem0. auto.
  - intros b Hb.
    assert (Hl : links (anf a) (apf a) 0 (afl a)) by (destruct Hinv; auto).
    assert (Hnin : anf a b = 0 \/ In (anf a b) (afl a)).
    { apply (links_nf_in _ _ _ 0 b Hl). exact Hb. }
    assert (Hpin : apf a b = 0 \/ In (apf a b) (afl a)).
    { destruct Hb as [->|Hb].
      - apply (links_pf0_in _ _ _ _ Hl).
      - apply (links_pf_in _ _ _ 0 b Hl Hb). }
    rewrite (view_nf _ _ b Hv Hb), (view_pf _ _ b Hv Hb).
    rewrite (view_pf _ _ _ Hv Hnin), (view_nf _ _ _ Hv Hpin).
    split.
    + apply (links_back_next _ _ _ _ Hl). exact Hb.
    + apply (links_back_prev _ _ _ _ Hl). exact Hb.
Qed.

(** ** What the operations leave alone *)

(** [x] is a byte of the body of the allocated block [q]. *)
Definition in_body (st : umm_state) (a : aheap) (q x : Z) : Prop :=
  aS a q /\ afr a q = false /\ q <> 0 /\ q <> aN a - 1 /\
  UMM_DATA st q <= x < UMM_BLOCK st (anx a q).

(** [x] is not among the 4 bytes of the used-header of block [b]. *)
Definition off_hdr (st : umm_state) (x b : Z) : Prop :=
  x < UMM_BLOCK st b \/ UMM_BLOCK st b + 4 <= x.

Lemma clear_off_hdr st x b : clear_of st x b -> off_hdr st x b.
Proof. unfold clear_of, off_hdr. lia. Qed.

Lemma off_hdr_cfg st st' x b :
  umm_heap_current st' = umm_heap_current st -> off_hdr st x b -> off_hdr st' x b.
Proof.
  intros E. unfold off_hdr, UMM_BLOCK, UMM_HEAP. rewrite E. auto.
Qed.

Lemma memory_set_hdr f b v st x :
  f = NBLOCK \/ f = PBLOCK -> off_hdr st x b ->
  memory (set f b v st) x = memory st x.
Proof.
  intros Hf Hx. apply memory_set. unfold off_hdr in Hx.
  destruct Hf as [->| ->]; simpl; lia.
Qed.

Lemma body_clear st a q x r b :
  view st a -> in_body st a q x -> aS a r -> r <> q ->
  r <= b -> (b < anx a r \/ b = r) ->
  clear_of st x b.
Proof.
  intros Hv (Hq & Hf & Hq0 & HqN & Hx) Hr Hrq Hrb Hb.
  pose proof UMM_BLOCKSIZE_ge as HB.
  destruct (view_next _ _ _ Hv Hq HqN) as (Hlt & Hn & _).
  unfold clear_of. unfold UMM_DATA, UMM_BLOCK, header_size in *.
  assert (Hcase : r < q \/ q < r) by lia.
  destruct Hcase as [Hc|Hc].
  - right. pose proof (view_gap _ _ _ _ Hv Hr Hq Hc). nia.
  - left. pose proof (view_gap _ _ _ _ Hv Hq Hr Hc). nia.
Qed.

Lemma body_off_hdr st a q x b :
  view st a -> in_body st a q x -> aS a b -> off_hdr st x b.
Proof.
  intros Hv Hin Hb.
  destruct (Z.eq_dec b q) as [->|Hne].
  - destruct Hin as (_ & _ & _ & _ & Hx). unfold off_hdr, UMM_DATA, header_size in *.
    lia.
  - apply clear_off_hdr. apply (body_clear st a q x b b); auto; lia.
Qed.

Lemma body_clear_ring st a q x b :
  view st a -> in_body st a q x -> b = 0 \/ In b (afl a) -> clear_of st x b.
Proof.
  intros Hv Hin Hb.
  assert (HbS : aS a b /\ b <> q).
  { destruct Hin as (Hq & Hf & Hq0 & _).
    destruct Hb as [->|Hb].
    - split; [|auto]. pose proof (view_ainv _ _ Hv) as Hi. destruct Hi; auto.
    - destruct (view_fl_S _ _ _ Hv Hb) as [HS Hfb]. split; [exact HS|].
      intros ->. congruence. }
  apply (body_clear st a q x b b); try tauto; lia.
Qed.

Lemma in_body_keep st st' a a' q x :
  umm_heap_current st' = umm_heap_current st ->
  in_body st a q x ->
  aS a' q -> afr a' q = false -> anx a' q = anx a q -> aN a' = aN a ->
  in_body st' a' q x.
Proof.
  intros E (Hq & Hf & Hq0 & HqN & Hx) HS' Hf' Hn' HN'.
  unfold in_body. rewrite Hn', HN'.
  unfold UMM_DATA, UMM_BLOCK, UMM_HEAP in *. rewrite E. auto.
Qed.

(** *** The primitives *)

Lemma fr_disconnect st a c q x :
  view st a -> In c (afl a) -> in_body st a q x ->
  memory (umm_disconnect_from_free_list c st) x = memory st x.
Proof.
  intros Hv Hc Hin.
  apply (fp_disconnect st a c x Hv Hc);
    apply (body_clear_ring st a q x _ Hv Hin).
  - destruct (in_ring_prev st a c Hv Hc); auto.
  - destruct (in_ring_next st a c Hv Hc); auto.
  - auto.
Qed.

Lemma fr_split c k m st x :
  k <> 0 ->
  off_hdr st x (c + k) -> off_hdr st x (nxt st c) -> off_hdr st x c ->
  memory (umm_split_block c k m st) x = memory st x.
Proof.
  intros Hk H1 H2 H3. unfold umm_split_block. cbv zeta.
  rewrite memory_set_hdr; [| auto | apply (off_hdr_cfg st); [reflexivity | exact H3]].
  rewrite memory_set_hdr; [| auto |].
  2: { apply (off_hdr_cfg st); [reflexivity|]. view_simpl.
       destruct (Z.eqb_spec c (c + k)); [lia | exact H2]. }
  rewrite memory_set_hdr; [| auto | apply (off_hdr_cfg st); [reflexivity | exact H1]].
  rewrite memory_set_hdr; [| auto | exact H1].
  reflexivity.
Qed.

Lemma fr_assimilate_up st a c q x :
  view st a -> aS a c -> afr a c = false -> c <> 0 -> c <> aN a - 1 ->
  in_body st a q x ->
  memory (umm_assimilate_up c st) x = memory st x.
Proof.
  intros Hv Hc Hf Hc0 HcN Hin.
  destruct (view_next _ _ _ Hv Hc HcN) as (Hlt & Hn & Hpn).
  pose proof (view_ainv _ _ Hv) as Hinv.
  unfold umm_assimilate_up.
  rewrite (view_NBLOCK_used _ _ _ Hv Hc Hf).
  rewrite (view_fr _ _ _ Hv Hn).
  destruct (afr a (anx a c)) eqn:Hfn; [|reflexivity].
  cbv zeta.
  assert (Hnin : In (anx a c) (afl a)) by (destruct Hinv; apply hi_mem0; auto).
  destruct (hinv_free_inner _ _ _ _ _ _ _ _ Hinv _ Hn Hfn) as [Hn0 HnN].
  destruct (view_next _ _ _ Hv Hn HnN) as (Hlt2 & Hn2 & _).
  assert (E1 : get NBLOCK (UMM_FRAGMENTATION_METRIC_REMOVE (anx a c) st) c = anx a c).
  { rewrite get_METRIC_REMOVE. apply (view_NBLOCK_used _ _ _ Hv Hc Hf). }
  rewrite E1.
  pose proof (view_METRIC_REMOVE _ _ (anx a c) Hv) as Hv0.
  pose proof (sim_disconnect _ _ (anx a c) Hv0 Hnin) as Hv2.
  remember (UMM_FRAGMENTATION_METRIC_REMOVE (anx a c) st) as st0 eqn:Est0.
  assert (Ecfg0 : umm_heap_current st0 = umm_heap_current st).
  { rewrite Est0. apply cfg_METRIC_REMOVE. }
  assert (Em0 : memory st0 = memory st).
  { rewrite Est0. apply memory_METRIC_REMOVE. }
  assert (Hin0 : in_body st0 a q x).
  { destruct Hin as (H1 & H2 & H3 & H4 & H5).
    apply (in_body_keep st st0 a a q x Ecfg0); unfold in_body; auto. }
  assert (Em2 : memory (umm_disconnect_from_free_list (anx a c) st0) x = memory st x).
  { rewrite <- Em0. apply (fr_disconnect st0 a (anx a c) q x Hv0 Hnin Hin0). }
  remember (umm_disconnect_from_free_list (anx a c) st0) as st2 eqn:Est2.
  assert (Ecfg2 : umm_heap_current st2 = umm_heap_current st).
  { rewrite Est2, cfg_disconnect. exact Ecfg0. }
  remember (a_unlink (anx a c) a) as a1 eqn:Ea1.
  assert (Hc1 : aS a1 c) by (rewrite Ea1; exact Hc).
  assert (Hn1 : aS a1 (anx a c)) by (rewrite Ea1; exact Hn).
  assert (Hnx1 : forall y, anx a1 y = anx a y) by (rewrite Ea1; reflexivity).
  assert (Hf1 : afr a1 c = false).
  { rewrite Ea1; simpl. unfold updb. destruct (Z.eqb_spec c (anx a c)); auto. }
  assert (E2 : get NBLOCK st2 c = anx a c).
  { rewrite (view_NBLOCK_used _ _ _ Hv2 Hc1 Hf1). apply Hnx1. }
  assert (E3 : nxt st2 (anx a c) = anx a (anx a c)).
  { rewrite (view_nxt _ _ _ Hv2 Hn1). apply Hnx1. }
  rewrite E2, E3.
  rewrite memory_set_hdr; [| auto |].
  2: { apply (off_hdr_cfg st); [reflexivity || exact Ecfg2|].
       apply (body_off_hdr st a q x c Hv Hin Hc). }
  rewrite memory_set_hdr; [| auto |].
  2: { apply (off_hdr_cfg st); [exact Ecfg2|].
       apply (body_off_hdr st a q x _ Hv Hin Hn2). }
  exact Em2.
Qed.

Lemma fr_assimilate_down st a c m q x :
  view st a -> aS a c -> afr a c = false -> c <> 0 -> c <> aN a - 1 ->
  in_body st a q x ->
  memory (snd (umm_assimilate_down c m st)) x = memory st x.
Proof.
  intros Hv Hc Hf Hc0 HcN Hin.
  destruct (view_prev _ _ _ Hv Hc Hc0) as (Hp & Hnp & Hplt & HpN).
  destruct (view_next _ _ _ Hv Hc HcN) as (Hlt & Hn & Hpn).
  unfold umm_assimilate_down. cbv zeta. cbn [snd].
  assert (Em : forall s, memory (if m =? 0 then s
                                 else UMM_FRAGMENTATION_METRIC_ADD (UMM_PBLOCK s c) s)
                         = memory s).
  { intros s. destruct (m =? 0); [reflexivity | apply memory_METRIC_ADD]. }
  rewrite Em.
  rewrite memory_set_hdr; [| auto |].
  2: { apply (off_hdr_cfg st); [apply cfg_METRIC_REMOVE|].
       view_simpl. rewrite (view_pv _ _ _ Hv Hc).
       destruct (Z.eqb_spec c (apv a c)); [lia|].
       rewrite (view_NBLOCK_used _ _ _ Hv Hc Hf).
       apply (body_off_hdr st a q x _ Hv Hin Hn). }
  rewrite memory_set_hdr; [| auto |].
  2: { apply (off_hdr_cfg st); [apply cfg_METRIC_REMOVE|].
       view_simpl. rewrite (view_pv _ _ _ Hv Hc).
       apply (body_off_hdr st a q x _ Hv Hin Hp). }
  apply (f_equal (fun f => f x)). apply memory_METRIC_REMOVE.
Qed.

(** [umm_free_core] on the block [c] leaves the bodies of the other
    allocated blocks as they are. *)
Lemma fr_free_core st a c q x :
  view st a -> aS a c -> afr a c = false -> c <> 0 -> c <> aN a - 1 ->
  in_body st a q x -> q <> c ->
  memory (umm_free_core (UMM_DATA st c) st) x = memory st x.
Proof.
  intros Hv Hc Hf Hc0 HcN Hin Hqc.
  pose proof (view_N_range _ _ Hv) as HNr.
  pose proof (view_S_range _ _ _ Hv Hc) as Hrc.
  pose proof (view_N _ _ Hv) as HN.
  pose proof (view_ainv _ _ Hv) as Hinv.
  unfold umm_free_core. cbv zeta.
  rewrite block_of_DATA by (try apply Hv; lia).
  pose proof (sim_assimilate_up _ _ _ Hv Hc Hf Hc0 HcN) as Hv1.
  pose proof (fr_assimilate_up st a c q x Hv Hc Hf Hc0 HcN Hin) as Em1.
  destruct (a_up_facts a c Hinv Hc Hf Hc0 HcN)
    as (HN1 & Hc1 & Hf1 & Hfn1 & Hpv1 & Hfp1).
  assert (Hin1 : in_body (umm_assimilate_up c st) (a_up c a) q x).
  { destruct Hin as (Hq & Hfq & Hq0 & HqN & Hx).
    destruct (view_next _ _ _ Hv Hc HcN) as (Hlt & Hn & Hpn).
    apply (in_body_keep st _ a); [apply cfg_assimilate_up | unfold in_body; auto | | | | ].
    - unfold a_up. destruct (afr a (anx a c)) eqn:Hfn; [|exact Hq].
      simpl. split; [exact Hq|]. intros ->. congruence.
    - unfold a_up. destruct (afr a (anx a c)) eqn:Hfn; [|exact Hfq].
      simpl. unfold updb. destruct (Z.eqb_spec q (anx a c)); auto.
    - unfold a_up. destruct (afr a (anx a c)) eqn:Hfn; [|reflexivity].
      simpl. apply upd_other. auto.
    - exact HN1. }
  remember (umm_assimilate_up c st) as st1 eqn:Est1.
  remember (a_up c a) as a1 eqn:Ea1.
  assert (HcN1 : c <> aN a1 - 1) by lia.
  destruct (view_prev _ _ _ Hv1 Hc1 Hc0) as (Hp & _).
  rewrite (view_pv _ _ _ Hv1 Hc1). rewrite (view_fr _ _ _ Hv1 Hp).
  destruct (afr a1 (apv a1 c)) eqn:Hfp.
  - rewrite (fr_assimilate_down st1 a1 c _ q x Hv1 Hc1 Hf1 Hc0 HcN1 Hin1).
    exact Em1.
  - assert (Ecfg : forall s, umm_heap_current s
                             = umm_heap_current (UMM_FRAGMENTATION_METRIC_ADD c st1) ->
                             umm_heap_current s = umm_heap_current st1).
    { intros s E. rewrite E. apply cfg_METRIC_ADD. }
    assert (Hcc : clear_of st1 x c).
    { apply (body_clear st1 a1 q x c c Hv1 Hin1 Hc1); auto; lia. }
    assert (Hc00 : clear_of st1 x 0).
    { apply (body_clear_ring st1 a1 q x 0 Hv1 Hin1). auto. }
    assert (Hcn : clear_of st1 x (anf a1 0)).
    { apply (body_clear_ring st1 a1 q x _ Hv1 Hin1).
      pose proof (view_ainv _ _ Hv1) as Hi. destruct Hi.
      apply (links_nf_in _ _ _ 0 0 hi_links0). auto. }
    rewrite memory_set_clear
      by (apply (clear_of_cfg st1); [apply Ecfg; reflexivity | exact Hcc]).
    rewrite memory_set_clear
      by (apply (clear_of_cfg st1); [apply Ecfg; reflexivity | exact Hc00]).
    rewrite memory_set_clear
      by (apply (clear_of_cfg st1); [apply Ecfg; reflexivity | exact Hcc]).
    rewrite memory_set_clear
      by (apply (clear_of_cfg st1); [apply Ecfg; reflexivity | exact Hcc]).
    rewrite memory_set_clear.
    2: { apply (clear_of_cfg st1); [apply Ecfg; reflexivity|].
         rewrite get_METRIC_ADD.
         rewrite (view_nf _ _ 0 Hv1 (or_introl eq_refl)). exact Hcn. }
    rewrite memory_METRIC_ADD. exact Em1.
Qed.

(** *** umm_malloc_core *)

(** The state [umm_malloc_core] returns when it takes [blocks] blocks out
    of the free block [cf] of [blockSize] blocks. *)
Definition malloc_take (cf blockSize blocks : Z) (st : umm_state) : umm_state :=
  let st := UMM_FRAGMENTATION_METRIC_REMOVE cf st in
  if blockSize =? blocks then umm_disconnect_from_free_list cf st
  else
    let st := umm_split_block cf blocks UMM_FREELIST_MASK st in
    let st := UMM_FRAGMENTATION_METRIC_ADD (UMM_NBLOCK st cf) st in
    let st := set NFREE (UMM_PFREE st cf) (cf + blocks) st in
    let st := set PFREE (cf + blocks) (UMM_PFREE st cf) st in
    let st := set PFREE (UMM_NFREE st cf) (cf + blocks) st in
    set NFREE (cf + blocks) (UMM_NFREE st cf) st.

Lemma malloc_core_cases st a size :
  view st a -> 0 <= size < 4294967296 ->
  (umm_malloc_core size st = Some (NULL, st) /\
   forall c, In c (afl a) -> anx a c - c < umm_blocks size) \/
  (exists cf,
     In cf (afl a) /\ umm_blocks size <= anx a cf - cf /\
     umm_malloc_core size st
     = Some (UMM_DATA st cf, malloc_take cf (anx a cf - cf) (umm_blocks size) st)).
Proof.
  intros Hv Hsize.
  pose proof (umm_blocks_range size Hsize) as Hk.
  pose proof (view_ainv _ _ Hv) as Hinv.
  pose proof (view_N_range _ _ Hv) as HNr.
  assert (Hsz : forall c, In c (afl a) -> 0 < anx a c - c < 32767).
  { intros c Hc.
    destruct (view_fl_S _ _ _ Hv Hc) as [HcS Hcf].
    pose proof (hinv_fl_range _ _ _ _ _ _ _ _ Hinv c Hc) as Hcr.
    destruct (view_next _ _ _ Hv HcS) as (Hlt & Hn & _); [lia|].
    pose proof (view_S_range _ _ _ Hv Hn). lia. }
  unfold umm_malloc_core. cbv zeta.
  rewrite (view_nf _ _ 0 Hv (or_introl eq_refl)).
  rewrite (links_hd _ _ _ _ (hi_links _ _ _ _ _ _ _ _ Hinv)).
  rewrite (scan_sim st a (umm_blocks size) Hv (afl a) 0).
  2: { destruct Hinv; auto. }
  2: { apply incl_refl. }
  2: { unfold scan_fuel. rewrite <- (view_N _ _ Hv).
       apply NoDup_bounded_length.
       - destruct Hinv; auto.
       - intros x Hx. pose proof (hinv_fl_range _ _ _ _ _ _ _ _ Hinv x Hx). lia. }
  pose proof (a_pick_spec (anx a) (umm_blocks size) (afl a) (proj1 Hk) Hsz) as Hpick.
  unfold a_pick in Hpick.
  destruct (a_scan (anx a) (umm_blocks size) (afl a) 0 (hd 0 (afl a)) 32767)
    as [[[cf bs] bb] bsz].
  set (cf' := if bsz =? 32767 then cf else bb) in *.
  set (bs' := if bsz =? 32767 then bs else bsz) in *.
  destruct Hpick as [Hfit Hnofit].
  destruct (Z.geb_spec bs' (umm_blocks size)) as [Hge|Hlt].
  - destruct (Hfit Hge) as [Hin Ebs].
    destruct (view_fl_S _ _ _ Hv Hin) as [HcS Hcf].
    pose proof (view_anx_range _ _ _ Hv HcS) as Hr.
    pose proof (hinv_fl_range _ _ _ _ _ _ _ _ Hinv cf' Hin) as Hcr.
    rewrite (view_nxt _ _ _ Hv HcS).
    destruct (Z.eqb_spec (anx a cf') 0); [lia|]. simpl negb. simpl andb.
    right. exists cf'. split; [exact Hin|]. split; [lia|].
    unfold malloc_take. cbv zeta. rewrite <- Ebs.
    destruct (Z.eqb_spec bs' (umm_blocks size)) as [Eex|Eex].
    + rewrite (DATA_same_cfg st) by apply cfg_METRIC_REMOVE. reflexivity.
    + rewrite (DATA_same_cfg st); [reflexivity|].
      change (umm_heap_current (UMM_FRAGMENTATION_METRIC_ADD
              (UMM_NBLOCK (umm_split_block cf' (umm_blocks size) UMM_FREELIST_MASK
                             (UMM_FRAGMENTATION_METRIC_REMOVE cf' st)) cf')
              (umm_split_block cf' (umm_blocks size) UMM_FREELIST_MASK
                 (UMM_FRAGMENTATION_METRIC_REMOVE cf' st))) = umm_heap_current st).
      rewrite cfg_METRIC_ADD, cfg_split. apply cfg_METRIC_REMOVE.
  - left. rewrite andb_false_r. split; [reflexivity|]. apply Hnofit. exact Hlt.
Qed.

(** On a heap that satisfies the invariant the scan of the free list ends
    within its fuel: [umm_malloc] and [umm_calloc] return. *)
Lemma malloc_total st size :
  heap_inv st -> 0 <= size < 4294967296 ->
  exists p st', umm_malloc size st = Some (p, st').
Proof.
  intros [a Hv] Hsize. unfold umm_malloc.
  destruct (size =? 0); [eexists; eexists; reflexivity|].
  destruct (malloc_core_cases st a size Hv Hsize) as [[E _]|(cf & _ & _ & E)];
    rewrite E; eexists; eexists; reflexivity.
Qed.

Lemma calloc_total st num item_size :
  heap_inv st -> exists p st', umm_calloc num item_size st = Some (p, st').
Proof.
  intros Hi. unfold umm_calloc.
  assert (Hsize : 0 <= u32 (item_size * num) < 4294967296).
  { unfold u32. apply Z.mod_pos_bound. lia. }
  destruct (malloc_total st _ Hi Hsize) as (p & st' & E). rewrite E.
  destruct (p =? NULL); eexists; eexists; reflexivity.
Qed.


Lemma cfg_malloc_take cf bs k st :
  umm_heap_current (malloc_take cf bs k st) = umm_heap_current st.
Proof.
  unfold malloc_take. cbv zeta. destruct (bs =? k).
  - rewrite cfg_disconnect. apply cfg_METRIC_REMOVE.
  - change (umm_heap_current (UMM_FRAGMENTATION_METRIC_ADD
              (UMM_NBLOCK (umm_split_block cf k UMM_FREELIST_MASK
                             (UMM_FRAGMENTATION_METRIC_REMOVE cf st)) cf)
              (umm_split_block cf k UMM_FREELIST_MASK
                 (UMM_FRAGMENTATION_METRIC_REMOVE cf st))) = umm_heap_current st).
    rewrite cfg_METRIC_ADD, cfg_split. apply cfg_METRIC_REMOVE.
Qed.

Lemma sim_malloc_take st a cf k :
  view st a -> In cf (afl a) -> 0 < k <= anx a cf - cf ->
  view (malloc_take cf (anx a cf - cf) k st) (a_alloc cf k a).
Proof.
  intros Hv Hin Hk. unfold malloc_take, a_alloc. cbv zeta.
  destruct (Z.eqb_spec (anx a cf - cf) k) as [E|E].
  - apply sim_disconnect; auto. apply view_METRIC_REMOVE. exact Hv.
  - apply (sim_malloc_split st a cf k); auto; lia.
Qed.

(** Taking blocks out of a free block leaves the bodies of the allocated
    blocks as they are. *)
Lemma fr_malloc_take st a cf k q x :
  view st a -> In cf (afl a) -> 0 < k <= anx a cf - cf ->
  in_body st a q x ->
  memory (malloc_take cf (anx a cf - cf) k st) x = memory st x.
Proof.
  intros Hv Hin Hk Hb.
  destruct (view_fl_S _ _ _ Hv Hin) as [HcS Hcf].
  destruct (view_ring_neq _ _ _ Hv Hin) as [Hnn Hpn].
  pose proof (view_nf _ _ cf Hv (or_intror Hin)) as Enf.
  pose proof (view_pf _ _ cf Hv (or_intror Hin)) as Epf.
  pose proof (view_nxt _ _ _ Hv HcS) as Enx.
  pose proof (view_ainv _ _ Hv) as Hinv.
  pose proof (hinv_fl_range _ _ _ _ _ _ _ _ Hinv cf Hin) as Hcr.
  destruct (view_next _ _ _ Hv HcS) as (Hlt & Hn & _); [lia|].
  assert (Hqcf : cf <> q).
  { intros ->. destruct Hb as (_ & Hf & _). congruence. }
  pose proof (view_METRIC_REMOVE _ _ cf Hv) as Hv0.
  assert (Hb0 : in_body (UMM_FRAGMENTATION_METRIC_REMOVE cf st) a q x).
  { destruct Hb as (H1 & H2 & H3 & H4 & H5).
    apply (in_body_keep st _ a a q x (cfg_METRIC_REMOVE cf st)); unfold in_body; auto. }
  unfold malloc_take. cbv zeta.
  destruct (Z.eqb_spec (anx a cf - cf) k) as [E|E].
  - rewrite (fr_disconnect _ a cf q x Hv0 Hin Hb0).
    apply (f_equal (fun f => f x)). apply memory_METRIC_REMOVE.
  - assert (Hd : clear_of st x (cf + k)).
    { apply (body_clear st a q x cf (cf + k) Hv Hb HcS Hqcf); lia. }
    assert (Hpf : clear_of st x (apf a cf)).
    { apply (body_clear_ring st a q x _ Hv Hb).
      destruct (in_ring_prev st a cf Hv Hin); auto. }
    assert (Hnf : clear_of st x (anf a cf)).
    { apply (body_clear_ring st a q x _ Hv Hb).
      destruct (in_ring_next st a cf Hv Hin); auto. }
    assert (Ecfg : forall s c',
              umm_heap_current s
              = umm_heap_current
                  (UMM_FRAGMENTATION_METRIC_ADD c'
                     (umm_split_block cf k UMM_FREELIST_MASK
                        (UMM_FRAGMENTATION_METRIC_REMOVE cf st))) ->
              umm_heap_current s = umm_heap_current st).
    { intros s c' Es. rewrite Es, cfg_METRIC_ADD, cfg_split. apply cfg_METRIC_REMOVE. }
    rewrite memory_set_clear.
    2: { apply (clear_of_cfg st); [eapply Ecfg; reflexivity|].
         exact Hd. }
    rewrite memory_set_clear.
    2: { apply (clear_of_cfg st); [eapply Ecfg; reflexivity|].
         view_simpl. rewrite split_NFREE. view_simpl. rewrite Enf.
         rewrite split_PFREE. view_simpl. rewrite Epf.
         destruct (Z.eqb_spec cf (apf a cf)); [congruence | exact Hnf]. }
    rewrite memory_set_clear.
    2: { apply (clear_of_cfg st); [eapply Ecfg; reflexivity|].
         exact Hd. }
    rewrite memory_set_clear.
    2: { apply (clear_of_cfg st); [eapply Ecfg; reflexivity|].
         view_simpl. rewrite split_PFREE. view_simpl. rewrite Epf. exact Hpf. }
    rewrite memory_METRIC_ADD.
    rewrite fr_split.
    + apply (f_equal (fun f => f x)). apply memory_METRIC_REMOVE.
    + lia.
    + apply (off_hdr_cfg st); [apply cfg_METRIC_REMOVE|]. apply clear_off_hdr. exact Hd.
    + apply (off_hdr_cfg st); [apply cfg_METRIC_REMOVE|].
      view_simpl. rewrite Enx. apply (body_off_hdr st a q x _ Hv Hb Hn).
    + apply (off_hdr_cfg st); [apply cfg_METRIC_REMOVE|].
      apply (body_off_hdr st a q x _ Hv Hb HcS).
Qed.

(** ** Bytes outside the block array *)

(** [x] is not a byte of one of the [UMM_NUMBLOCKS] blocks of the heap. *)
Definition outside (st : umm_state) (x : Z) : Prop :=
  x < UMM_HEAP st \/ UMM_HEAP st + UMM_NUMBLOCKS st * UMM_BLOCKSIZE <= x.

Lemma outside_cfg st st' x :
  umm_heap_current st' = umm_heap_current st -> outside st x -> outside st' x.
Proof.
  intros E. unfold outside, UMM_HEAP, UMM_NUMBLOCKS. rewrite E. auto.
Qed.

Lemma outside_clear st x b :
  outside st x -> 0 <= b < UMM_NUMBLOCKS st -> clear_of st x b.
Proof.
  intros Hx Hb. pose proof UMM_BLOCKSIZE_ge as HB.
  unfold outside, clear_of, UMM_BLOCK in *. nia.
Qed.

Lemma outside_S st a x b :
  view st a -> outside st x -> aS a b -> clear_of st x b.
Proof.
  intros Hv Hx Hb. apply outside_clear; [exact Hx|].
  pose proof (view_S_range _ _ _ Hv Hb). pose proof (view_N _ _ Hv). lia.
Qed.

Lemma outside_ring st a x b :
  view st a -> outside st x -> b = 0 \/ In b (afl a) -> clear_of st x b.
Proof.
  intros Hv Hx Hb. apply (outside_S st a); auto.
  destruct Hb as [->|Hb].
  - pose proof (view_ainv _ _ Hv) as Hi. destruct Hi; auto.
  - apply (view_fl_S _ _ _ Hv Hb).
Qed.

Lemma outside_next st a x c :
  view st a -> outside st x -> aS a c -> clear_of st x (anx a c).
Proof.
  intros Hv Hx Hc. pose proof (view_ainv _ _ Hv) as Hinv.
  destruct (Z.eq_dec c (aN a - 1)) as [->|HcN].
  - destruct Hinv. rewrite hi_nxlast0. apply (outside_S st a); auto.
  - destruct (view_next _ _ _ Hv Hc HcN) as (_ & Hn & _).
    apply (outside_S st a); auto.
Qed.

Lemma out_disconnect st a c x :
  view st a -> In c (afl a) -> outside st x ->
  memory (umm_disconnect_from_free_list c st) x = memory st x.
Proof.
  intros Hv Hc Hx.
  apply (fp_disconnect st a c x Hv Hc); apply (outside_ring st a x _ Hv Hx).
  - destruct (in_ring_prev st a c Hv Hc); auto.
  - destruct (in_ring_next st a c Hv Hc); auto.
  - auto.
Qed.

Lemma out_split st a c k m x :
  view st a -> aS a c -> 0 < k -> c + k < anx a c -> outside st x ->
  memory (umm_split_block c k m st) x = memory st x.
Proof.
  intros Hv Hc Hk Hlt Hx.
  pose proof (view_S_range _ _ _ Hv Hc) as Hcr.
  pose proof (view_N _ _ Hv) as HN.
  assert (HcN : c <> aN a - 1).
  { intros ->. pose proof (view_ainv _ _ Hv) as Hi. destruct Hi.
    rewrite hi_nxlast0 in Hlt. lia. }
  destruct (view_next _ _ _ Hv Hc HcN) as (_ & Hn & _).
  pose proof (view_S_range _ _ _ Hv Hn) as Hnr.
  apply fp_split.
  - lia.
  - apply outside_clear; [exact Hx | lia].
  - rewrite (view_nxt _ _ _ Hv Hc). apply (outside_S st a); auto.
  - pose proof (outside_S st a x c Hv Hx Hc) as Hcl. unfold clear_of in Hcl. lia.
Qed.

Lemma out_assimilate_up st a c x :
  view st a -> aS a c -> afr a c = false -> c <> 0 -> c <> aN a - 1 ->
  outside st x ->
  memory (umm_assimilate_up c st) x = memory st x.
Proof.
  intros Hv Hc Hf Hc0 HcN Hx.
  destruct (view_next _ _ _ Hv Hc HcN) as (_ & Hn & _).
  apply (fp_assimilate_up st a c x Hv Hc Hf Hc0 HcN).
  - intros b [->|[->|Hb]].
    + apply (outside_S st a); auto.
    + apply (outside_next st a); auto.
    + apply (outside_ring st a); auto.
  - pose proof (outside_S st a x c Hv Hx Hc) as Hcl. unfold clear_of in Hcl. lia.
Qed.

Lemma out_assimilate_down st a c m x :
  view st a -> aS a c -> afr a c = false -> c <> 0 -> c <> aN a - 1 ->
  outside st x ->
  memory (snd (umm_assimilate_down c m st)) x = memory st x.
Proof.
  intros Hv Hc Hf Hc0 HcN Hx.
  destruct (view_prev _ _ _ Hv Hc Hc0) as (Hp & Hnp & Hplt & HpN).
  destruct (view_next _ _ _ Hv Hc HcN) as (Hlt & Hn & Hpn).
  unfold umm_assimilate_down. cbv zeta. cbn [snd].
  assert (Em : forall s, memory (if m =? 0 then s
                                 else UMM_FRAGMENTATION_METRIC_ADD (UMM_PBLOCK s c) s)
                         = memory s).
  { intros s. destruct (m =? 0); [reflexivity | apply memory_METRIC_ADD]. }
  rewrite Em.
  rewrite memory_set_clear.
  2: { apply (clear_of_cfg st); [apply cfg_METRIC_REMOVE|].
       view_simpl. rewrite (view_pv _ _ _ Hv Hc).
       destruct (Z.eqb_spec c (apv a c)); [lia|].
       rewrite (view_NBLOCK_used _ _ _ Hv Hc Hf).
       apply (outside_S st a x _ Hv Hx Hn). }
  rewrite memory_set_clear.
  2: { apply (clear_of_cfg st); [apply cfg_METRIC_REMOVE|].
       view_simpl. rewrite (view_pv _ _ _ Hv Hc).
       apply (outside_S st a x _ Hv Hx Hp). }
  apply (f_equal (fun f => f x)). apply memory_METRIC_REMOVE.
Qed.

Lemma out_free_core st a c x :
  view st a -> aS a c -> afr a c = false -> c <> 0 -> c <> aN a - 1 ->
  outside st x ->
  memory (umm_free_core (UMM_DATA st c) st) x = memory st x.
Proof.
  intros Hv Hc Hf Hc0 HcN Hx.
  pose proof (view_N_range _ _ Hv) as HNr.
  pose proof (view_S_range _ _ _ Hv Hc) as Hrc.
  pose proof (view_N _ _ Hv) as HN.
  pose proof (view_ainv _ _ Hv) as Hinv.
  unfold umm_free_core. cbv zeta.
  rewrite block_of_DATA by (try apply Hv; lia).
  pose proof (sim_assimilate_up _ _ _ Hv Hc Hf Hc0 HcN) as Hv1.
  pose proof (out_assimilate_up st a c x Hv Hc Hf Hc0 HcN Hx) as Em1.
  destruct (a_up_facts a c Hinv Hc Hf Hc0 HcN)
    as (HN1 & Hc1 & Hf1 & Hfn1 & Hpv1 & Hfp1).
  assert (Hx1 : outside (umm_assimilate_up c st) x).
  { apply (outside_cfg st); [apply cfg_assimilate_up | exact Hx]. }
  remember (umm_assimilate_up c st) as st1 eqn:Est1.
  remember (a_up c a) as a1 eqn:Ea1.
  assert (HcN1 : c <> aN a1 - 1) by lia.
  destruct (view_prev _ _ _ Hv1 Hc1 Hc0) as (Hp & _).
  rewrite (view_pv _ _ _ Hv1 Hc1). rewrite (view_fr _ _ _ Hv1 Hp).
  destruct (afr a1 (apv a1 c)) eqn:Hfp.
  - rewrite (out_assimilate_down st1 a1 c _ x Hv1 Hc1 Hf1 Hc0 HcN1 Hx1).
    exact Em1.
  - assert (Ecfg : forall s, umm_heap_current s
                             = umm_heap_current (UMM_FRAGMENTATION_METRIC_ADD c st1) ->
                             umm_heap_current s = umm_heap_current st1).
    { intros s E. rewrite E. apply cfg_METRIC_ADD. }
    assert (Hcc : clear_of st1 x c) by (apply (outside_S st1 a1); auto).
    assert (Hc00 : clear_of st1 x 0) by (apply (outside_ring st1 a1); auto).
    assert (Hcn : clear_of st1 x (anf a1 0)).
    { apply (outside_ring st1 a1 x _ Hv1 Hx1).
      pose proof (view_ainv _ _ Hv1) as Hi. destruct Hi.
      apply (links_nf_in _ _ _ 0 0 hi_links0). auto. }
    rewrite memory_set_clear
      by (apply (clear_of_cfg st1); [apply Ecfg; reflexivity | exact Hcc]).
    rewrite memory_set_clear
      by (apply (clear_of_cfg st1); [apply Ecfg; reflexivity | exact Hc00]).
    rewrite memory_set_clear
      by (apply (clear_of_cfg st1); [apply Ecfg; reflexivity | exact Hcc]).
    rewrite memory_set_clear
      by (apply (clear_of_cfg st1); [apply Ecfg; reflexivity | exact Hcc]).
    rewrite memory_set_clear.
    2: { apply (clear_of_cfg st1); [apply Ecfg; reflexivity|].
         rewrite get_METRIC_ADD.
         rewrite (view_nf _ _ 0 Hv1 (or_introl eq_refl)). exact Hcn. }
    rewrite memory_METRIC_ADD. exact Em1.
Qed.

Lemma out_malloc_take st a cf k x :
  view st a -> In cf (afl a) -> 0 < k <= anx a cf - cf ->
  outside st x ->
  memory (malloc_take cf (anx a cf - cf) k st) x = memory st x.
Proof.
  intros Hv Hin Hk Hx.
  destruct (view_fl_S _ _ _ Hv Hin) as [HcS Hcf].
  destruct (view_ring_neq _ _ _ Hv Hin) as [Hnn Hpn].
  pose proof (view_nf _ _ cf Hv (or_intror Hin)) as Enf.
  pose proof (view_pf _ _ cf Hv (or_intror Hin)) as Epf.
  pose proof (view_nxt _ _ _ Hv HcS) as Enx.
  pose proof (view_ainv _ _ Hv) as Hinv.
  pose proof (view_N _ _ Hv) as HN.
  pose proof (hinv_fl_range _ _ _ _ _ _ _ _ Hinv cf Hin) as Hcr.
  destruct (view_next _ _ _ Hv HcS) as (Hlt & Hn & _); [lia|].
  pose proof (view_S_range _ _ _ Hv Hn) as Hnr.
  pose proof (view_METRIC_REMOVE _ _ cf Hv) as Hv0.
  assert (Hx0 : outside (UMM_FRAGMENTATION_METRIC_REMOVE cf st) x).
  { apply (outside_cfg st); [apply cfg_METRIC_REMOVE | exact Hx]. }
  unfold malloc_take. cbv zeta.
  destruct (Z.eqb_spec (anx a cf - cf) k) as [E|E].
  - rewrite (out_disconnect _ a cf x Hv0 Hin Hx0).
    apply (f_equal (fun f => f x)). apply memory_METRIC_REMOVE.
  - assert (Hd : clear_of st x (cf + k)).
    { apply outside_clear; [exact Hx | lia]. }
    assert (Hpf : clear_of st x (apf a cf)).
    { apply (outside_ring st a x _ Hv Hx).
      destruct (in_ring_prev st a cf Hv Hin); auto. }
    assert (Hnf : clear_of st x (anf a cf)).
    { apply (outside_ring st a x _ Hv Hx).
      destruct (in_ring_next st a cf Hv Hin); auto. }
    assert (Ecfg : forall s c',
              umm_heap_current s
              = umm_heap_current
                  (UMM_FRAGMENTATION_METRIC_ADD c'
                     (umm_split_block cf k UMM_FREELIST_MASK
                        (UMM_FRAGMENTATION_METRIC_REMOVE cf st))) ->
              umm_heap_current s = umm_heap_current st).
    { intros s c' Es. rewrite Es, cfg_METRIC_ADD, cfg_split. apply cfg_METRIC_REMOVE. }
    rewrite memory_set_clear.
    2: { apply (clear_of_cfg st); [eapply Ecfg; reflexivity|].
         exact Hd. }
    rewrite memory_set_clear.
    2: { apply (clear_of_cfg st); [eapply Ecfg; reflexivity|].
         view_simpl. rewrite split_NFREE. view_simpl. rewrite Enf.
         rewrite split_PFREE. view_simpl. rewrite Epf.
         destruct (Z.eqb_spec cf (apf a cf)); [congruence | exact Hnf]. }
    rewrite memory_set_clear.
    2: { apply (clear_of_cfg st); [eapply Ecfg; reflexivity|].
         exact Hd. }
    rewrite memory_set_clear.
    2: { apply (clear_of_cfg st); [eapply Ecfg; reflexivity|].
         view_simpl. rewrite split_PFREE. view_simpl. rewrite Epf. exact Hpf. }
    rewrite memory_METRIC_ADD.
    rewrite (out_split _ a cf k _ x Hv0 HcS); [| lia | lia | exact Hx0].
    apply (f_equal (fun f => f x)). apply memory_METRIC_REMOVE.
Qed.

(** *** The public operations *)

Lemma block_of_cfg st st' p :
  umm_heap_current st' = umm_heap_current st -> block_of st' p = block_of st p.
Proof. intros E. unfold block_of, UMM_HEAP. rewrite E. reflexivity. Qed.

Lemma allocated_in_body st a q off :
  view st a -> allocated st q = true ->
  0 <= off < usable_size st (block_of st q) ->
  in_body st a (block_of st q) (q + off).
Proof.
  intros Hv Hq Hoff.
  destruct (allocated_extent st a q Hv Hq)
    as (c & Ep & Eb & Hc & Hf & Hc1 & Hlt & Hle & _ & Eu).
  rewrite Eb in *. rewrite Eu in Hoff.
  unfold in_body. repeat split; auto; try lia.
  rewrite Ep. unfold UMM_DATA, UMM_BLOCK, header_size in *. nia.
Qed.

(** A block that the abstract heap keeps as it is stays allocated, with
    the same usable size. *)
Lemma allocated_keep st st' a a' q :
  view st a -> view st' a' ->
  umm_heap_current st' = umm_heap_current st ->
  allocated st q = true ->
  aS a' (block_of st q) -> afr a' (block_of st q) = false ->
  anx a' (block_of st q) = anx a (block_of st q) -> aN a' = aN a ->
  allocated st' q = true /\
  usable_size st' (block_of st' q) = usable_size st (block_of st q).
Proof.
  intros Hv Hv' Ecfg Hq HS Hf Hn HN.
  destruct (allocated_extent st a q Hv Hq)
    as (c & Ep & Eb & Hc & _ & Hc1 & Hlt & Hle & _ & Eu).
  rewrite (block_of_cfg st st' q Ecfg). rewrite Eb in *. split.
  - rewrite Ep. rewrite <- (DATA_same_cfg st st' c Ecfg).
    apply (allocated_intro st' a' c Hv' HS); auto; lia.
  - rewrite Eu. unfold usable_size. rewrite (view_nxt _ _ _ Hv' HS), Hn. reflexivity.
Qed.

(** X6. [umm_malloc] leaves every block that is allocated alone: it stays
    allocated, with the same usable size and the same contents.  The
    pointer it returns, when not null, was not allocated before. *)
Theorem malloc_keeps_allocated st size p st' q :
  reachable st -> 0 <= size < 4294967296 ->
  umm_malloc size st = Some (p, st') -> allocated st q = true ->
  p <> q /\ (p <> NULL -> allocated st p = false) /\
  allocated st' q = true /\
  usable_size st' (block_of st' q) = usable_size st (block_of st q) /\
  (forall off, 0 <= off < usable_size st (block_of st q) ->
     memory st' (q + off) = memory st (q + off)).
Proof.
  intros Hr Hsize E Hq.
  destruct (reachable_inv st Hr) as [a Hv].
  pose proof (view_ainv _ _ Hv) as Hinv.
  destruct (allocated_extent st a q Hv Hq)
    as (c & Ep & Eb & Hc & Hf & Hc1 & Hlt & Hle & _ & Eu).
  assert (Hqn : q <> NULL).
  { rewrite Ep. apply DATA_nonnull; [apply Hv | lia]. }
  assert (Hsame : p = NULL /\ st' = st ->
            p <> q /\ (p <> NULL -> allocated st p = false) /\
            allocated st' q = true /\
            usable_size st' (block_of st' q) = usable_size st (block_of st q) /\
            (forall off, 0 <= off < usable_size st (block_of st q) ->
               memory st' (q + off) = memory st (q + off))).
  { intros [-> ->]. repeat split; auto. intros H; contradiction. }
  unfold umm_malloc in E.
  destruct (Z.eqb_spec size 0).
  { injection E as <- <-. apply Hsame. auto. }
  destruct (malloc_core_cases st a size Hv Hsize) as [[E1 _]|(cf & Hin & Hfit & E1)];
    rewrite E1 in E; injection E as <- <-.
  { apply Hsame. auto. }
  pose proof (umm_blocks_range size Hsize) as Hk.
  assert (Hk' : 0 < umm_blocks size <= anx a cf - cf) by lia.
  pose proof (sim_malloc_take st a cf _ Hv Hin Hk') as Hv'.
  destruct (view_fl_S _ _ _ Hv Hin) as [HcfS Hcff].
  pose proof (hinv_fl_range _ _ _ _ _ _ _ _ Hinv cf Hin) as Hcfr.
  pose proof (view_N _ _ Hv) as HN. pose proof (view_N_range _ _ Hv) as HNr.
  assert (Hne : c <> cf) by (intros ->; congruence).
  destruct (a_alloc_facts a cf (umm_blocks size) Hinv Hin Hk')
    as (HNa & _ & _ & _ & Hoth).
  destruct (Hoth c Hc Hne) as (HcS' & Hcf' & Hcn').
  rewrite Hf in Hcf'.
  assert (Hbcf : block_of st (UMM_DATA st cf) = cf).
  { apply block_of_DATA; [apply Hv | lia | lia]. }
  split; [|split; [|split; [|split]]].
  - rewrite Ep. unfold UMM_DATA, UMM_BLOCK. pose proof UMM_BLOCKSIZE_ge. nia.
  - intros _. unfold allocated. cbv zeta. rewrite Hbcf.
    rewrite (view_fr _ _ _ Hv HcfS), Hcff. simpl. apply andb_false_r.
  - apply (allocated_keep st _ a _ q Hv Hv' (cfg_malloc_take _ _ _ _) Hq);
      rewrite ?Eb; auto.
  - apply (allocated_keep st _ a _ q Hv Hv' (cfg_malloc_take _ _ _ _) Hq);
      rewrite ?Eb; auto.
  - intros off Hoff.
    apply (fr_malloc_take st a cf _ (block_of st q) (q + off) Hv Hin Hk').
    apply allocated_in_body; auto.
Qed.

(** What [a_free] does to the other allocated blocks and to the block it
    frees. *)
Lemma a_free_others a c q :
  ainv a -> aS a c -> afr a c = false -> c <> 0 -> c <> aN a - 1 ->
  aS a q -> afr a q = false -> q <> c ->
  aS (a_free c a) q /\ afr (a_free c a) q = false /\
  anx (a_free c a) q = anx a q /\ aN (a_free c a) = aN a.
Proof.
  intros Hinv Hc Hf Hc0 HcN Hq Hfq Hqc.
  pose proof Hinv as Hi. destruct Hi.
  destruct (hi_next0 c Hc HcN) as (Hlt & Hn & Hpn).
  destruct (hi_prev0 c Hc Hc0) as (Hp & Hnp).
  assert (H1 : aS (a_up c a) q /\ afr (a_up c a) q = false /\
               anx (a_up c a) q = anx a q /\ aN (a_up c a) = aN a /\
               apv (a_up c a) c = apv a c /\
               afr (a_up c a) (apv a c) = afr a (apv a c) /\
               anx (a_up c a) (apv a c) = c).
  { destruct (a_up_facts a c Hinv Hc Hf Hc0 HcN) as (HN1 & _ & _ & _ & Hpv1 & Hfp1).
    destruct (hinv_prev_lt _ _ _ _ _ _ _ _ Hinv c Hc Hc0) as (Hplt & _).
    unfold a_up in *. destruct (afr a (anx a c)) eqn:Hfn.
    - simpl in *. repeat split; auto.
      + intros ->. congruence.
      + unfold updb. destruct (Z.eqb_spec q (anx a c)); auto.
      + apply upd_other. auto.
      + rewrite upd_other by lia. exact Hnp.
    - repeat split; auto. }
  destruct H1 as (HS1 & Hf1 & Hn1 & HN1 & Hpv1 & Hfp1 & Hnp1).
  unfold a_free. cbv zeta. rewrite Hpv1, Hfp1.
  destruct (afr a (apv a c)) eqn:Hfp.
  - simpl. rewrite Hnp1. repeat split; auto.
    rewrite upd_other; [exact Hn1|]. intros ->. congruence.
  - simpl. repeat split; auto.
    rewrite updb_other by auto. exact Hf1.
Qed.

Lemma a_free_self a c :
  ainv a -> aS a c -> afr a c = false -> c <> 0 -> c <> aN a - 1 ->
  aS (a_free c a) c -> afr (a_free c a) c = true.
Proof.
  intros Hinv Hc Hf Hc0 HcN.
  pose proof Hinv as Hi. destruct Hi.
  destruct (hi_prev0 c Hc Hc0) as (Hp & Hnp).
  destruct (hinv_prev_lt _ _ _ _ _ _ _ _ Hinv c Hc Hc0) as (Hplt & _).
  destruct (hi_next0 c Hc HcN) as (Hlt & Hn & Hpn).
  destruct (a_up_facts a c Hinv Hc Hf Hc0 HcN) as (HN1 & _ & _ & _ & Hpv1 & Hfp1).
  assert (Hnp1 : anx (a_up c a) (apv a c) = c).
  { unfold a_up. destruct (afr a (anx a c)); [|exact Hnp].
    simpl. rewrite upd_other by lia. exact Hnp. }
  unfold a_free. cbv zeta. rewrite Hpv1, Hfp1.
  destruct (afr a (apv a c)) eqn:Hfp.
  - simpl. rewrite Hnp1. intros [_ Hne]. contradiction.
  - simpl. intros _. apply updb_same.
Qed.

(** X7. [umm_free p] releases [p] and nothing else: [p] is no longer
    allocated, and every other allocated block stays allocated, with the
    same usable size and the same contents. *)
Theorem free_keeps_others st p q :
  reachable st -> allocated st p = true -> allocated st q = true -> q <> p ->
  allocated (umm_free p st) p = false /\
  allocated (umm_free p st) q = true /\
  usable_size (umm_free p st) (block_of (umm_free p st) q)
  = usable_size st (block_of st q) /\
  (forall off, 0 <= off < usable_size st (block_of st q) ->
     memory (umm_free p st) (q + off) = memory st (q + off)).
Proof.
  intros Hr Hp Hq Hqp.
  destruct (reachable_inv st Hr) as [a Hv].
  pose proof (view_ainv _ _ Hv) as Hinv.
  destruct (allocated_spec st a p Hv Hp) as (c & Ep & Ebp & Hc & Hc0 & HcN & Hf).
  destruct (allocated_extent st a q Hv Hq)
    as (d & Eq & Eb & Hd & Hfd & Hd1 & Hlt & Hle & _ & Eu).
  assert (Hdc : d <> c) by (intros ->; congruence).
  unfold umm_free.
  destruct (Z.eqb_spec p NULL) as [E0|_].
  { exfalso. rewrite Ep in E0. revert E0.
    pose proof (view_S_range _ _ _ Hv Hc). apply DATA_nonnull; [apply Hv | lia]. }
  rewrite Ep.
  pose proof (sim_free_core st a c Hv Hc Hf Hc0 HcN) as Hv'.
  pose proof (cfg_free_core (UMM_DATA st c) st) as Ecfg.
  destruct (a_free_others a c d Hinv Hc Hf Hc0 HcN Hd Hfd Hdc)
    as (HS' & Hf' & Hn' & HN').
  split; [|split; [|split]].
  - unfold allocated. cbv zeta.
    rewrite (block_of_cfg st _ _ Ecfg). rewrite <- Ep, Ebp.
    destruct (existsb (Z.eqb c) (chain (umm_free_core p st))) eqn:Ech.
    + apply existsb_exists in Ech. destruct Ech as (y & Hy & Ey).
      apply Z.eqb_eq in Ey. rewrite <- Ey in Hy. rewrite Ep in Hy.
      apply (chain_spec _ _ _ Hv') in Hy.
      rewrite Ep. rewrite (view_fr _ _ _ Hv' Hy).
      rewrite (a_free_self a c Hinv Hc Hf Hc0 HcN Hy). simpl.
      apply andb_false_r.
    + rewrite andb_false_r. reflexivity.
  - apply (allocated_keep st _ a _ q Hv Hv' Ecfg Hq); rewrite ?Eb; auto.
  - apply (allocated_keep st _ a _ q Hv Hv' Ecfg Hq); rewrite ?Eb; auto.
  - intros off Hoff.
    apply (fr_free_core st a c (block_of st q) (q + off) Hv Hc Hf Hc0 HcN).
    + apply allocated_in_body; auto.
    + rewrite Eb. exact Hdc.
Qed.

(** What a call of [umm_calloc] that returned has done. *)
Lemma calloc_zeroed_cases st num item_size p st' :
  reachable st -> 0 <= num * item_size < 4294967296 ->
  umm_calloc num item_size st = Some (p, st') ->
  (p = NULL /\ st' = st) \/
  (p <> NULL /\ allocated st p = false /\ allocated st' p = true /\
   num * item_size <= usable_size st' (block_of st' p) /\
   (forall off, 0 <= off < num * item_size -> memory st' (p + off) = 0) /\
   (forall q off, allocated st q = true ->
      0 <= off < usable_size st (block_of st q) ->
      allocated st' q = true /\ memory st' (q + off) = memory st (q + off))).
Proof.
  intros Hr Hprod E.
  destruct (reachable_inv st Hr) as [a Hv].
  pose proof (view_ainv _ _ Hv) as Hinv.
  pose proof UMM_BLOCKSIZE_ge as HB.
  unfold umm_calloc in E.
  rewrite (Z.mul_comm item_size num) in E.
  rewrite (u32_small _ Hprod) in E.
  unfold umm_malloc in E.
  destruct (Z.eqb_spec (num * item_size) 0).
  { simpl in E. injection E as <- <-. left. auto. }
  destruct (malloc_core_cases st a _ Hv Hprod) as [[E1 _]|(cf & Hin & Hfit & E1)];
    rewrite E1 in E.
  { simpl in E. injection E as <- <-. left. auto. }
  pose proof (umm_blocks_range _ Hprod) as Hk.
  assert (Hk' : 0 < umm_blocks (num * item_size) <= anx a cf - cf) by lia.
  pose proof (sim_malloc_take st a cf _ Hv Hin Hk') as Hv1.
  pose proof (cfg_malloc_take cf (anx a cf - cf) (umm_blocks (num * item_size)) st)
    as Ecfg.
  destruct (view_fl_S _ _ _ Hv Hin) as [HcfS Hcff].
  pose proof (hinv_fl_range _ _ _ _ _ _ _ _ Hinv cf Hin) as Hcfr.
  pose proof (view_N _ _ Hv) as HN. pose proof (view_N_range _ _ Hv) as HNr.
  destruct (view_next _ _ _ Hv HcfS) as (_ & Hn & _); [lia|].
  pose proof (view_S_range _ _ _ Hv Hn) as Hrn.
  destruct (a_alloc_facts a cf _ Hinv Hin Hk') as (HNa & Hcfa & Hcffa & Hnxa & Hoth).
  assert (Hnn : UMM_DATA st cf <> NULL) by (apply DATA_nonnull; [apply Hv | lia]).
  destruct (Z.eqb_spec (UMM_DATA st cf) NULL) as [E0|_]; [contradiction|].
  injection E as <- <-.
  remember (malloc_take cf (anx a cf - cf) (umm_blocks (num * item_size)) st)
    as st1 eqn:Est1.
  remember (a_alloc cf (umm_blocks (num * item_size)) a) as a1 eqn:Ea1.
  assert (Hcov : num * item_size
                 <= umm_blocks (num * item_size) * UMM_BLOCKSIZE - header_size).
  { apply umm_blocks_covers; lia. }
  assert (Hv2 : view (with_memory st1
                        (memset (memory st1) (UMM_DATA st cf) 0 (num * item_size))) a1).
  { apply (view_memset st1 a1 cf); auto; try lia.
    - rewrite (DATA_same_cfg st st1) by exact Ecfg. lia.
    - rewrite Hnxa. unfold UMM_DATA, UMM_BLOCK, UMM_HEAP, header_size in *.
      rewrite Ecfg. nia. }
  assert (Hbcf : block_of st (UMM_DATA st cf) = cf).
  { apply block_of_DATA; [apply Hv | lia | lia]. }
  remember (with_memory st1
              (memset (memory st1) (UMM_DATA st cf) 0 (num * item_size)))
    as st2 eqn:Est2.
  assert (Ecfg2 : umm_heap_current st2 = umm_heap_current st).
  { rewrite Est2. exact Ecfg. }
  assert (Em2 : forall x, memory st2 x
                = memset (memory st1) (UMM_DATA st cf) 0 (num * item_size) x).
  { intros x. rewrite Est2. reflexivity. }
  right. split; [exact Hnn|]. split; [|split; [|split; [|split]]].
  - unfold allocated. cbv zeta. rewrite Hbcf.
    rewrite (view_fr _ _ _ Hv HcfS), Hcff. simpl. apply andb_false_r.
  - rewrite <- (DATA_same_cfg st st2 cf Ecfg2).
    apply (allocated_intro _ a1 cf Hv2); auto; lia.
  - rewrite (block_of_cfg st _ _ Ecfg2), Hbcf.
    unfold usable_size. rewrite (view_nxt _ _ _ Hv2 Hcfa), Hnxa. lia.
  - intros off Hoff. rewrite Em2. unfold memset.
    destruct (Z.leb_spec (UMM_DATA st cf) (UMM_DATA st cf + off)); [|lia].
    destruct (Z.ltb_spec (UMM_DATA st cf + off) (UMM_DATA st cf + num * item_size));
      [reflexivity | lia].
  - intros q off Hq Hoff.
    destruct (allocated_extent st a q Hv Hq)
      as (d & Eq & Eb & Hd & Hfd & Hd1 & Hlt & Hle & _ & Eu).
    assert (Hne : d <> cf) by (intros ->; congruence).
    destruct (Hoth d Hd Hne) as (HdS' & Hdf' & Hdn').
    rewrite Hfd in Hdf'.
    split.
    + apply (allocated_keep st _ a a1 q Hv Hv2 Ecfg2 Hq); rewrite ?Eb; auto.
    + rewrite Em2. unfold memset.
      assert (Hout : ~ (UMM_DATA st cf <= q + off
                        < UMM_DATA st cf + num * item_size)).
      { rewrite Eb, Eu in Hoff. rewrite Eq.
        unfold UMM_DATA, UMM_BLOCK, header_size in *.
        assert (Hcase : d < cf \/ cf < d) by lia.
        destruct Hcase as [Hc|Hc].
        - pose proof (view_gap _ _ _ _ Hv Hd HcfS Hc). nia.
        - pose proof (view_gap _ _ _ _ Hv HcfS Hd Hc). nia. }
      destruct (Z.leb_spec (UMM_DATA st cf) (q + off));
        destruct (Z.ltb_spec (q + off) (UMM_DATA st cf + num * item_size));
        simpl; try lia.
      all: rewrite Est1;
        apply (fr_malloc_take st a cf _ (block_of st q) (q + off) Hv Hin Hk');
        apply allocated_in_body; auto.
Qed.

(** X8. [umm_calloc], for a product that does not overflow, returns on
    every reachable heap: it returns null and leaves the heap as it is,
    or it returns a block, not allocated before, of at least
    [num * item_size] usable bytes of which the first [num * item_size]
    are zero; the blocks allocated before keep their contents. *)
Theorem calloc_gives_zeroed_block st num item_size :
  reachable st -> 0 <= num * item_size < 4294967296 ->
  exists p st',
    umm_calloc num item_size st = Some (p, st') /\
    ((p = NULL /\ st' = st) \/
     (p <> NULL /\ allocated st p = false /\ allocated st' p = true /\
      num * item_size <= usable_size st' (block_of st' p) /\
      (forall off, 0 <= off < num * item_size -> memory st' (p + off) = 0) /\
      (forall q off, allocated st q = true ->
         0 <= off < usable_size st (block_of st q) ->
         allocated st' q = true /\ memory st' (q + off) = memory st (q + off)))).
Proof.
  intros Hr Hprod.
  destruct (calloc_total st num item_size (reachable_inv st Hr)) as (p & st' & E).
  exists p, st'. split; [exact E|].
  apply (calloc_zeroed_cases st num item_size p st' Hr Hprod E).
Qed.

(** ** The set of allocated blocks *)

(** [q] is an allocated block of the abstract heap: a used chain block
    other than the two sentinels. *)
Definition used (a : aheap) (q : Z) : Prop :=
  aS a q /\ afr a q = false /\ q <> 0 /\ q <> aN a - 1.

Lemma allocated_used st a p :
  view st a ->
  (allocated st p = true <-> exists c, p = UMM_DATA st c /\ used a c).
Proof.
  intros Hv. split.
  - intros Hp.
    destruct (allocated_spec st a p Hv Hp) as (c & Ep & _ & Hc & Hc0 & HcN & Hf).
    exists c. unfold used. auto.
  - intros (c & -> & Hc & Hf & Hc0 & HcN). apply (allocated_intro st a c); auto.
Qed.

(** No primitive turns a block into an allocated one, apart from the
    block it is applied to. *)
Lemma cu_unlink c a q : used (a_unlink c a) q -> used a q \/ q = c.
Proof.
  unfold used, a_unlink. simpl. unfold updb.
  destruct (Z.eqb_spec q c); auto.
Qed.

Lemma cu_merge i a q : used (a_merge i a) q -> used a q /\ q <> anx a i.
Proof. unfold used, a_merge. simpl. tauto. Qed.

Lemma cu_split_used i d a q : used (a_split_used i d a) q -> used a q \/ q = d.
Proof.
  unfold used, a_split_used. simpl. unfold updb.
  destruct (Z.eqb_spec q d); auto. tauto.
Qed.

Lemma cu_split_free i d a q :
  used (a_split_free i d a) q -> (used a q \/ q = i) /\ q <> d.
Proof.
  unfold used, a_split_free. simpl. unfold updb.
  destruct (Z.eqb_spec q d); [intros (_ & H & _); discriminate|].
  destruct (Z.eqb_spec q i); [auto|]. tauto.
Qed.

Lemma cu_insert c a q : used (a_insert c a) q -> used a q /\ q <> c.
Proof.
  unfold used, a_insert. simpl. unfold updb.
  destruct (Z.eqb_spec q c); [intros (_ & H & _); discriminate|]. tauto.
Qed.

Lemma cu_up c a q : used (a_up c a) q -> used a q.
Proof.
  unfold a_up. destruct (afr a (anx a c)); [|auto].
  intros H. apply cu_merge in H. destruct H as [H Hne].
  apply cu_unlink in H. simpl in Hne. tauto.
Qed.

Lemma cu_free a c q :
  ainv a -> aS a c -> afr a c = false -> c <> 0 -> c <> aN a - 1 ->
  used (a_free c a) q -> used a q /\ q <> c.
Proof.
  intros Hinv Hc Hf Hc0 HcN.
  pose proof Hinv as Hi. destruct Hi.
  destruct (hi_prev0 c Hc Hc0) as (Hp & Hnp).
  destruct (hinv_prev_lt _ _ _ _ _ _ _ _ Hinv c Hc Hc0) as (Hplt & _).
  destruct (a_up_facts a c Hinv Hc Hf Hc0 HcN) as (HN1 & _ & _ & _ & Hpv1 & Hfp1).
  assert (Hnp1 : anx (a_up c a) (apv a c) = c).
  { unfold a_up. destruct (afr a (anx a c)); [|exact Hnp].
    simpl. rewrite upd_other by lia. exact Hnp. }
  unfold a_free. cbv zeta. rewrite Hpv1, Hfp1.
  destruct (afr a (apv a c)) eqn:Hfp; intros H.
  - apply cu_merge in H. rewrite Hnp1 in H. destruct H as [H Hne].
    apply cu_up in H. auto.
  - apply cu_insert in H. destruct H as [H Hne]. apply cu_up in H. auto.
Qed.

Lemma cu_alloc cf k a q : used (a_alloc cf k a) q -> used a q \/ q = cf.
Proof.
  unfold a_alloc. destruct (anx a cf - cf =? k); intros H.
  - apply cu_unlink in H. exact H.
  - apply cu_split_free in H. tauto.
Qed.

(** ** The inline fragmentation metric *)

(** With [UMM_INLINE_METRICS] the fields [freeBlocks] and
    [freeBlocksSquared] of the statistics record are kept up to date by
    [umm_fragmentation_metric_add] and [umm_fragmentation_metric_remove].
    What they should hold is the sum, over the free list, of the block
    lengths and of their squares. *)

Fixpoint fsum (f : Z -> Z) (l : list Z) : Z :=
  match l with
  | [] => 0
  | c :: l' => f c + fsum f l'
  end.

Definition ameasure (phi : Z -> Z) (a : aheap) : Z :=
  fsum (fun c => phi (anx a c - c)) (afl a).

Definition sq (x : Z) : Z := x * x.

(** The two counters of the record. *)
Definition fm (st : umm_state) : Z * Z :=
  (freeBlocks (ummHeapInfo st), freeBlocksSquared (ummHeapInfo st)).

Definition minfo (st : umm_state) (a : aheap) : Prop :=
  UMM_INLINE_METRICS = true ->
  fm st = (u32 (ameasure (fun x => x) a), u32 (ameasure sq a)).

(** *** Sums over the ring *)

Lemma fsum_ext f g l : (forall x, In x l -> f x = g x) -> fsum f l = fsum g l.
Proof.
  induction l as [|c l IH]; intros H; [reflexivity|].
  simpl. rewrite (H c) by (left; reflexivity). rewrite IH; [reflexivity|].
  intros x Hx. apply H. right. exact Hx.
Qed.

Lemma fsum_drop_notin f c l : ~ In c l -> fsum f (drop c l) = fsum f l.
Proof. intros H. rewrite drop_notin by exact H. reflexivity. Qed.

Lemma fsum_drop f c l :
  NoDup l -> In c l -> fsum f (drop c l) = fsum f l - f c.
Proof.
  induction l as [|x l IH]; intros Hnd Hin; [destruct Hin|].
  apply NoDup_cons_iff in Hnd. destruct Hnd as [Hx Hnd].
  unfold drop. simpl. fold (drop c l).
  destruct (Z.eqb_spec x c) as [->|Hne].
  - simpl. rewrite fsum_drop_notin by exact Hx. lia.
  - simpl. destruct Hin as [E|Hin]; [contradiction|].
    rewrite IH by assumption. lia.
Qed.

(** Changing the weight of one member. *)
Lemma fsum_change f g i l :
  NoDup l -> In i l -> (forall x, In x l -> x <> i -> g x = f x) ->
  fsum g l = fsum f l - f i + g i.
Proof.
  induction l as [|x l IH]; intros Hnd Hin Hg; [destruct Hin|].
  apply NoDup_cons_iff in Hnd. destruct Hnd as [Hx Hnd].
  simpl. destruct (Z.eq_dec x i) as [->|Hne].
  - rewrite (fsum_ext g f l); [lia|].
    intros y Hy. apply Hg; [right; exact Hy|]. intros ->. contradiction.
  - destruct Hin as [E|Hin]; [contradiction|].
    rewrite IH; auto.
    + rewrite (Hg x) by (auto; left; reflexivity). lia.
    + intros y Hy. apply Hg. right. exact Hy.
Qed.

(** Replacing the member [i] by [d]. *)
Lemma fsum_swap f g i d l :
  NoDup l -> In i l -> ~ In d l ->
  (forall x, In x l -> x <> i -> g x = f x) ->
  fsum g (swap i d l) = fsum f l - f i + g d.
Proof.
  induction l as [|x l IH]; intros Hnd Hin Hd Hg; [destruct Hin|].
  apply NoDup_cons_iff in Hnd. destruct Hnd as [Hx Hnd].
  unfold swap. simpl. fold (swap i d l).
  destruct (Z.eqb_spec x i) as [->|Hne].
  - rewrite swap_notin by exact Hx.
    rewrite (fsum_ext g f l); [lia|].
    intros y Hy. apply Hg; [right; exact Hy|]. intros ->. contradiction.
  - destruct Hin as [E|Hin]; [contradiction|].
    rewrite IH; auto.
    + rewrite (Hg x) by (auto; left; reflexivity). lia.
    + intros H. apply Hd. right. exact H.
    + intros y Hy. apply Hg. right. exact Hy.
Qed.

(** *** The measure under the abstract operations *)

Lemma am_unlink phi a c :
  NoDup (afl a) -> In c (afl a) ->
  ameasure phi (a_unlink c a) = ameasure phi a - phi (anx a c - c).
Proof.
  intros Hnd Hin. unfold ameasure. simpl.
  apply (fsum_drop (fun x => phi (anx a x - x))); assumption.
Qed.

Lemma am_merge_used phi a i :
  ~ In i (afl a) -> ameasure phi (a_merge i a) = ameasure phi a.
Proof.
  intros Hi. unfold ameasure. simpl. apply fsum_ext.
  intros x Hx. rewrite upd_other; [reflexivity|]. intros ->. contradiction.
Qed.

Lemma am_merge_free phi a i :
  NoDup (afl a) -> In i (afl a) ->
  ameasure phi (a_merge i a)
  = ameasure phi a - phi (anx a i - i) + phi (anx a (anx a i) - i).
Proof.
  intros Hnd Hi. unfold ameasure. simpl.
  rewrite (fsum_change (fun x => phi (anx a x - x)) _ i); auto.
  - rewrite upd_same. reflexivity.
  - intros x Hx Hne. rewrite upd_other by exact Hne. reflexivity.
Qed.

Lemma am_split_used phi a i d :
  ~ In i (afl a) -> ~ In d (afl a) ->
  ameasure phi (a_split_used i d a) = ameasure phi a.
Proof.
  intros Hi Hd. unfold ameasure. simpl. apply fsum_ext.
  intros x Hx. rewrite !upd_other; [reflexivity| |]; intros ->; contradiction.
Qed.

Lemma am_split_free phi a i d :
  NoDup (afl a) -> In i (afl a) -> ~ In d (afl a) ->
  ameasure phi (a_split_free i d a)
  = ameasure phi a - phi (anx a i - i) + phi (anx a i - d).
Proof.
  intros Hnd Hi Hd. unfold ameasure. simpl.
  assert (Hdi : d <> i) by (intros ->; contradiction).
  rewrite (fsum_swap (fun x => phi (anx a x - x)) _ i d); auto.
  - rewrite upd_other by exact Hdi. rewrite upd_same. reflexivity.
  - intros x Hx Hne. rewrite upd_other by exact Hne.
    rewrite upd_other; [reflexivity|]. intros ->. contradiction.
Qed.

Lemma am_insert phi a c :
  ameasure phi (a_insert c a) = ameasure phi a + phi (anx a c - c).
Proof. unfold ameasure. simpl. lia. Qed.

(** *** The counters under the concrete operations *)

Lemma fm_set f b v st : fm (set f b v st) = fm st.
Proof. reflexivity. Qed.

Lemma fm_with_memory st m : fm (with_memory st m) = fm st.
Proof. reflexivity. Qed.

Lemma fm_disconnect c st : fm (umm_disconnect_from_free_list c st) = fm st.
Proof. reflexivity. Qed.

Lemma fm_split c k m st : fm (umm_split_block c k m st) = fm st.
Proof. reflexivity. Qed.

Lemma u32_u32_sub x y : u32 (u32 x - y) = u32 (x - y).
Proof. unfold u32. apply Zminus_mod_idemp_l. Qed.

Lemma u32_u32_add x y : u32 (u32 x + y) = u32 (x + y).
Proof. unfold u32. apply Zplus_mod_idemp_l. Qed.

Lemma minfo_same st st' a a' :
  minfo st a -> fm st' = fm st ->
  (forall phi, ameasure phi a' = ameasure phi a) ->
  minfo st' a'.
Proof.
  intros Hm Ef Ea Hin. rewrite Ef, !Ea. apply Hm. exact Hin.
Qed.

Lemma minfo_REMOVE st a a' c b :
  minfo st a -> nxt st c - c = b -> 0 <= b < 65536 ->
  (forall phi, ameasure phi a' = ameasure phi a - phi b) ->
  minfo (UMM_FRAGMENTATION_METRIC_REMOVE c st) a'.
Proof.
  intros Hm Eb Hb Ea Hin. specialize (Hm Hin).
  unfold fm in *. injection Hm as HF HQ.
  unfold UMM_FRAGMENTATION_METRIC_REMOVE. rewrite Hin.
  unfold umm_fragmentation_metric_remove. cbv zeta.
  cbn [ummHeapInfo with_info freeBlocks freeBlocksSquared].
  rewrite Eb, (u16_small b Hb), HF, HQ, !Ea.
  rewrite !u32_u32_sub. reflexivity.
Qed.

Lemma minfo_ADD st a a' c b :
  minfo st a -> nxt st c - c = b -> 0 <= b < 65536 ->
  (forall phi, ameasure phi a' = ameasure phi a + phi b) ->
  minfo (UMM_FRAGMENTATION_METRIC_ADD c st) a'.
Proof.
  intros Hm Eb Hb Ea Hin. specialize (Hm Hin).
  unfold fm in *. injection Hm as HF HQ.
  unfold UMM_FRAGMENTATION_METRIC_ADD. rewrite Hin.
  unfold umm_fragmentation_metric_add. cbv zeta.
  cbn [ummHeapInfo with_info freeBlocks freeBlocksSquared].
  rewrite Eb, (u16_small b Hb), HF, HQ, !Ea.
  rewrite !u32_u32_add. reflexivity.
Qed.

(** *** The primitives keep the counters exact *)

Lemma view_nodup st a : view st a -> NoDup (afl a).
Proof. intros Hv. pose proof (view_ainv _ _ Hv) as Hi. destruct Hi. auto. Qed.

Lemma used_not_in_ring st a c : view st a -> afr a c = false -> ~ In c (afl a).
Proof.
  intros Hv Hf Hin. destruct (view_fl_S _ _ _ Hv Hin) as [_ Hfc]. congruence.
Qed.

Lemma view_size_range st a c :
  view st a -> aS a c -> c <> aN a - 1 -> 0 <= anx a c - c < 65536.
Proof.
  intros Hv Hc HcN. destruct (view_next _ _ _ Hv Hc HcN) as (Hlt & Hn & _).
  pose proof (view_S_range _ _ _ Hv Hn). pose proof (view_S_range _ _ _ Hv Hc).
  pose proof (view_N_range _ _ Hv). lia.
Qed.

Lemma m_up st a c :
  view st a -> aS a c -> afr a c = false -> c <> 0 -> c <> aN a - 1 ->
  minfo st a -> minfo (umm_assimilate_up c st) (a_up c a).
Proof.
  intros Hv Hc Hf Hc0 HcN Hm.
  destruct (view_next _ _ _ Hv Hc HcN) as (Hlt & Hn & Hpn).
  pose proof (view_ainv _ _ Hv) as Hinv.
  unfold umm_assimilate_up, a_up.
  rewrite (view_NBLOCK_used _ _ _ Hv Hc Hf).
  rewrite (view_fr _ _ _ Hv Hn).
  destruct (afr a (anx a c)) eqn:Hfn; [|exact Hm].
  cbv zeta.
  assert (Hin : In (anx a c) (afl a)) by (destruct Hinv; apply hi_mem0; auto).
  destruct (hinv_free_inner _ _ _ _ _ _ _ _ Hinv _ Hn Hfn) as [Hn0 HnN].
  apply (minfo_same (UMM_FRAGMENTATION_METRIC_REMOVE (anx a c) st) _
           (a_unlink (anx a c) a)).
  - apply (minfo_REMOVE st a _ _ (anx a (anx a c) - anx a c) Hm).
    + rewrite (view_nxt _ _ _ Hv Hn). reflexivity.
    + apply (view_size_range st a); auto.
    + intros phi. apply am_unlink; [apply (view_nodup st a Hv) | exact Hin].
  - rewrite !fm_set, fm_disconnect. reflexivity.
  - intros phi. apply am_merge_used. simpl. rewrite In_drop.
    intros [Hc' _]. apply (used_not_in_ring st a c Hv Hf Hc').
Qed.

(** [umm_assimilate_down] in [umm_free_core]: the free predecessor grows. *)
Lemma m_down_free st a c :
  view st a -> aS a c -> afr a c = false -> c <> 0 -> c <> aN a - 1 ->
  afr a (apv a c) = true ->
  minfo st a ->
  minfo (snd (umm_assimilate_down c UMM_FREELIST_MASK st)) (a_merge (apv a c) a).
Proof.
  intros Hv Hc Hf Hc0 HcN Hfp Hm.
  destruct (view_prev _ _ _ Hv Hc Hc0) as (Hp & Hnp & Hplt & HpN).
  destruct (view_next _ _ _ Hv Hc HcN) as (Hlt & Hn & Hpn).
  pose proof (view_ainv _ _ Hv) as Hinv.
  pose proof (view_anx_range _ _ _ Hv Hc) as Hr.
  pose proof (view_S_range _ _ _ Hv Hp) as Hrp.
  pose proof (view_S_range _ _ _ Hv Hn) as Hrn.
  pose proof (view_N_range _ _ Hv) as HNr.
  pose proof (view_pv _ _ _ Hv Hc) as Epv.
  pose proof (view_NBLOCK_used _ _ _ Hv Hc Hf) as Enb.
  assert (Hpin : In (apv a c) (afl a)) by (destruct Hinv; apply hi_mem0; auto).
  unfold umm_assimilate_down. cbv zeta. cbn [snd].
  replace (UMM_FREELIST_MASK =? 0) with false by reflexivity.
  rewrite Epv.
  set (s0 := UMM_FRAGMENTATION_METRIC_REMOVE (apv a c) st).
  assert (E1 : get PBLOCK s0 c = apv a c).
  { unfold s0. rewrite get_METRIC_REMOVE. exact Epv. }
  assert (E2 : get NBLOCK s0 c = anx a c).
  { unfold s0. rewrite get_METRIC_REMOVE. exact Enb. }
  rewrite !E1, !E2.
  set (s1 := set NBLOCK (apv a c) (Z.lor (anx a c) UMM_FREELIST_MASK) s0).
  assert (E3 : get NBLOCK s1 c = anx a c).
  { unfold s1. rewrite get_set_eq.
    destruct (Z.eqb_spec c (apv a c)); [lia | exact E2]. }
  assert (E4 : get PBLOCK s1 c = apv a c).
  { unfold s1. rewrite get_set_diff by discriminate. exact E1. }
  rewrite !E3, !E4.
  set (s2 := set PBLOCK (anx a c) (apv a c) s1).
  assert (E5 : get PBLOCK s2 c = apv a c).
  { unfold s2. rewrite get_set_eq.
    destruct (Z.eqb_spec c (anx a c)); [lia | exact E4]. }
  rewrite E5.
  assert (Hm0 : minfo s0 (a_unlink (apv a c) a)).
  { apply (minfo_REMOVE st a _ _ (c - apv a c) Hm).
    - rewrite (view_nxt _ _ _ Hv Hp), Hnp. reflexivity.
    - lia.
    - intros phi. rewrite am_unlink; [|apply (view_nodup st a Hv) | exact Hpin].
      rewrite Hnp. reflexivity. }
  assert (Hm2 : minfo s2 (a_unlink (apv a c) a)).
  { apply (minfo_same s0 _ _ _ Hm0); [|reflexivity].
    unfold s2, s1. rewrite !fm_set. reflexivity. }
  apply (minfo_ADD s2 _ _ _ (anx a c - apv a c) Hm2).
  - unfold s2. rewrite nxt_set_other by discriminate.
    unfold s1. rewrite nxt_set_NBLOCK, Z.eqb_refl.
    rewrite u16_lor_free by lia. rewrite idx_of_free by lia. reflexivity.
  - lia.
  - intros phi.
    rewrite am_merge_free; [|apply (view_nodup st a Hv) | exact Hpin].
    rewrite am_unlink; [|apply (view_nodup st a Hv) | exact Hpin].
    rewrite Hnp. reflexivity.
Qed.

(** [umm_disconnect_from_free_list] and [umm_assimilate_down] in
    [umm_realloc]: the free predecessor is taken over by the block. *)
Lemma m_unlink_down st a c :
  view st a -> aS a c -> afr a c = false -> c <> 0 -> c <> aN a - 1 ->
  afr a (apv a c) = true ->
  minfo st a ->
  minfo (snd (umm_assimilate_down c 0
                (umm_disconnect_from_free_list (apv a c) st)))
        (a_merge (apv a c) (a_unlink (apv a c) a)).
Proof.
  intros Hv Hc Hf Hc0 HcN Hfp Hm.
  destruct (view_prev _ _ _ Hv Hc Hc0) as (Hp & Hnp & Hplt & HpN).
  pose proof (view_ainv _ _ Hv) as Hinv.
  pose proof (view_S_range _ _ _ Hv Hp) as Hrp.
  pose proof (view_S_range _ _ _ Hv Hc) as Hrc.
  pose proof (view_N_range _ _ Hv) as HNr.
  assert (Hpin : In (apv a c) (afl a)) by (destruct Hinv; apply hi_mem0; auto).
  pose proof (sim_disconnect _ _ _ Hv Hpin) as Hv1.
  assert (Hm1 : minfo (umm_disconnect_from_free_list (apv a c) st) a).
  { apply (minfo_same st _ a a Hm); [apply fm_disconnect | reflexivity]. }
  remember (umm_disconnect_from_free_list (apv a c) st) as st1 eqn:Est1.
  assert (Epv1 : get PBLOCK st1 c = apv a c).
  { rewrite (view_pv _ _ _ Hv1 Hc). reflexivity. }
  assert (Enx1 : nxt st1 (apv a c) = c).
  { rewrite (view_nxt _ _ _ Hv1 Hp). simpl. exact Hnp. }
  unfold umm_assimilate_down. cbv zeta. cbn [snd].
  replace (0 =? 0) with true by reflexivity.
  rewrite Epv1.
  apply (minfo_same (UMM_FRAGMENTATION_METRIC_REMOVE (apv a c) st1) _
           (a_unlink (apv a c) a)).
  - apply (minfo_REMOVE st1 a _ _ (c - apv a c) Hm1).
    + rewrite Enx1. reflexivity.
    + lia.
    + intros phi. rewrite am_unlink; [|apply (view_nodup st a Hv) | exact Hpin].
      rewrite Hnp. reflexivity.
  - rewrite !fm_set. reflexivity.
  - intros phi. apply am_merge_used. simpl. rewrite In_drop. tauto.
Qed.

Lemma m_free_core st a c :
  view st a -> aS a c -> afr a c = false -> c <> 0 -> c <> aN a - 1 ->
  minfo st a -> minfo (umm_free_core (UMM_DATA st c) st) (a_free c a).
Proof.
  intros Hv Hc Hf Hc0 HcN Hm.
  pose proof (view_N_range _ _ Hv) as HNr.
  pose proof (view_S_range _ _ _ Hv Hc) as Hrc.
  pose proof (view_N _ _ Hv) as HN.
  unfold umm_free_core, a_free. cbv zeta.
  rewrite block_of_DATA by (try apply Hv; lia).
  pose proof (sim_assimilate_up _ _ _ Hv Hc Hf Hc0 HcN) as Hv1.
  pose proof (m_up st a c Hv Hc Hf Hc0 HcN Hm) as Hm1.
  destruct (a_up_facts a c (view_ainv _ _ Hv) Hc Hf Hc0 HcN)
    as (HN1 & Hc1 & Hf1 & Hfn1 & Hpv1 & Hfp1).
  remember (umm_assimilate_up c st) as st1 eqn:Est1.
  remember (a_up c a) as a1 eqn:Ea1.
  assert (HcN1 : c <> aN a1 - 1) by lia.
  destruct (view_prev _ _ _ Hv1 Hc1 Hc0) as (Hp & Hnp & Hplt & HpN).
  pose proof (view_pv _ _ _ Hv1 Hc1) as Epv.
  rewrite Epv. rewrite (view_fr _ _ _ Hv1 Hp).
  destruct (afr a1 (apv a1 c)) eqn:Hfp.
  - apply (m_down_free st1 a1 c); auto.
  - apply (minfo_same (UMM_FRAGMENTATION_METRIC_ADD c st1) _ (a_insert c a1)).
    + apply (minfo_ADD st1 a1 _ _ (anx a1 c - c) Hm1).
      * rewrite (view_nxt _ _ _ Hv1 Hc1). reflexivity.
      * apply (view_size_range st1 a1); auto.
      * intros phi. apply am_insert.
    + rewrite !fm_set. reflexivity.
    + reflexivity.
Qed.

Lemma m_split_used st a c k :
  view st a -> aS a c -> afr a c = false -> 0 < k -> c + k < anx a c ->
  minfo st a -> minfo (umm_split_block c k 0 st) (a_split_used c (c + k) a).
Proof.
  intros Hv Hc Hf Hk Hlt Hm.
  apply (minfo_same st _ a _ Hm); [apply fm_split|].
  intros phi. apply am_split_used.
  - apply (used_not_in_ring st a c Hv Hf).
  - intros Hin. destruct (view_fl_S _ _ _ Hv Hin) as [Hd _].
    pose proof (view_gap _ _ _ _ Hv Hc Hd). lia.
Qed.

Lemma m_take st a cf k :
  view st a -> In cf (afl a) -> 0 < k <= anx a cf - cf ->
  minfo st a ->
  minfo (malloc_take cf (anx a cf - cf) k st) (a_alloc cf k a).
Proof.
  intros Hv Hin Hk Hm.
  destruct (view_fl_S _ _ _ Hv Hin) as [HcS Hcf].
  pose proof (view_ainv _ _ Hv) as Hinv.
  pose proof (hinv_fl_range _ _ _ _ _ _ _ _ Hinv cf Hin) as Hcr.
  pose proof (view_anx_range _ _ _ Hv HcS) as Hr.
  pose proof (view_nxt _ _ _ Hv HcS) as Enx.
  assert (Hm0 : minfo (UMM_FRAGMENTATION_METRIC_REMOVE cf st) (a_unlink cf a)).
  { apply (minfo_REMOVE st a _ _ (anx a cf - cf) Hm).
    - rewrite Enx. reflexivity.
    - lia.
    - intros phi. apply am_unlink; [apply (view_nodup st a Hv) | exact Hin]. }
  unfold malloc_take, a_alloc. cbv zeta.
  destruct (Z.eqb_spec (anx a cf - cf) k) as [E|E].
  - apply (minfo_same _ _ _ _ Hm0); [apply fm_disconnect | reflexivity].
  - set (s0 := UMM_FRAGMENTATION_METRIC_REMOVE cf st) in *.
    set (s1 := umm_split_block cf k UMM_FREELIST_MASK s0).
    assert (E1 : get NBLOCK s1 cf = cf + k).
    { unfold s1. rewrite split_NBLOCK by lia. rewrite Z.eqb_refl.
      apply u16_small. lia. }
    rewrite E1.
    assert (Hm1 : minfo s1 (a_unlink cf a)).
    { apply (minfo_same s0 _ _ _ Hm0); [apply fm_split | reflexivity]. }
    apply (minfo_same (UMM_FRAGMENTATION_METRIC_ADD (cf + k) s1) _
             (a_split_free cf (cf + k) a)).
    + apply (minfo_ADD s1 _ _ _ (anx a cf - (cf + k)) Hm1).
      * unfold s1. rewrite split_NBLOCK by lia.
        destruct (Z.eqb_spec (cf + k) cf); [lia|]. rewrite Z.eqb_refl.
        unfold s0. rewrite nxt_METRIC_REMOVE, Enx.
        rewrite u16_lor_free by lia. rewrite idx_of_free by lia. reflexivity.
      * lia.
      * intros phi.
        rewrite am_split_free; [|apply (view_nodup st a Hv) | exact Hin |].
        -- rewrite am_unlink; [|apply (view_nodup st a Hv) | exact Hin].
           reflexivity.
        -- intros Hd. destruct (view_fl_S _ _ _ Hv Hd) as [Hd' _].
           pose proof (view_gap _ _ _ _ Hv HcS Hd'). lia.
    + rewrite !fm_set. reflexivity.
    + reflexivity.
Qed.

Lemma m_init ptr size st :
  valid_region ptr size ->
  minfo (umm_init_heap ptr size st) (a_init (size / UMM_BLOCKSIZE)).
Proof.
  intros (Hp & He & HN) Hin.
  unfold umm_init_heap. cbv zeta. rewrite !fm_set.
  unfold UMM_FRAGMENTATION_METRIC_INIT. rewrite Hin.
  unfold fm, umm_fragmentation_metric_init, UMM_NUMBLOCKS. cbv zeta.
  cbn [ummHeapInfo with_info with_memory umm_heap_current numblocks
       freeBlocks freeBlocksSquared].
  rewrite (u16_small (size / UMM_BLOCKSIZE)) by lia.
  unfold ameasure. simpl. unfold upd. simpl.
  rewrite !Z.add_0_r.
  replace (size / UMM_BLOCKSIZE - 1 - 1) with (size / UMM_BLOCKSIZE - 2) by lia.
  rewrite (u32_small (size / UMM_BLOCKSIZE - 2)) by lia. reflexivity.
Qed.

(** *** Steps that leave allocated bodies alone *)

(** From [(st, a)] to [(st', a')] the blocks selected by [P] keep their
    bodies: a byte of the body of such a block is still one, the block
    ends where it ended, and the byte holds what it held.  The bytes
    outside the block array hold what they held. *)
Definition fr_core (st : umm_state) (a : aheap) (st' : umm_state) (a' : aheap)
                   (P : Z -> Prop) : Prop :=
  umm_heap_current st' = umm_heap_current st /\ aN a' = aN a /\
  (forall q x, P q -> in_body st a q x ->
               in_body st' a' q x /\ anx a' q = anx a q /\
               memory st' x = memory st x) /\
  (forall x, outside st x -> memory st' x = memory st x).

Lemma fr_core_trans st a st1 a1 st2 a2 (P Q : Z -> Prop) :
  fr_core st a st1 a1 P -> fr_core st1 a1 st2 a2 Q ->
  fr_core st a st2 a2 (fun q => P q /\ Q q).
Proof.
  intros (E1 & N1 & H1 & O1) (E2 & N2 & H2 & O2).
  split; [congruence|]. split; [congruence|]. split.
  - intros q x [HP HQ] Hb.
    destruct (H1 q x HP Hb) as (Hb1 & X1 & M1).
    destruct (H2 q x HQ Hb1) as (Hb2 & X2 & M2).
    split; [exact Hb2 | split; congruence].
  - intros x Hx. rewrite O2 by (apply (outside_cfg st); assumption). apply O1. exact Hx.
Qed.

Lemma fr_core_weaken st a st' a' (P Q : Z -> Prop) :
  (forall q x, Q q -> in_body st a q x -> P q) ->
  fr_core st a st' a' P -> fr_core st a st' a' Q.
Proof.
  intros HQP (E & N & H & O). split; [exact E|]. split; [exact N|].
  split; [|exact O].
  intros q x HQ Hb. apply H; [|exact Hb]. apply (HQP q x HQ Hb).
Qed.

Lemma fr_core_refl st a (P : Z -> Prop) : fr_core st a st a P.
Proof. split; [reflexivity|]. split; [reflexivity|]. split; auto. Qed.

(** A body that ends later is still a body. *)
Lemma in_body_grow st st' a a' q x :
  umm_heap_current st' = umm_heap_current st ->
  in_body st a q x ->
  aS a' q -> afr a' q = false -> anx a q <= anx a' q -> aN a' = aN a ->
  in_body st' a' q x.
Proof.
  intros E (Hq & Hf & Hq0 & HqN & Hx) HS' Hf' Hn' HN'.
  pose proof UMM_BLOCKSIZE_ge as HB.
  unfold in_body. rewrite HN'.
  unfold UMM_DATA, UMM_BLOCK, UMM_HEAP in *. rewrite E.
  repeat split; auto; try lia. nia.
Qed.

Lemma a_up_grow a c q :
  ainv a -> aS a c -> afr a c = false -> c <> 0 -> c <> aN a - 1 ->
  aS a q -> afr a q = false ->
  aS (a_up c a) q /\ afr (a_up c a) q = false /\ anx a q <= anx (a_up c a) q.
Proof.
  intros Hinv Hc Hf Hc0 HcN Hq Hfq.
  pose proof Hinv as Hi. destruct Hi.
  destruct (hi_next0 c Hc HcN) as (Hlt & Hn & Hpn).
  unfold a_up. destruct (afr a (anx a c)) eqn:Hfn; [|repeat split; auto; lia].
  destruct (hinv_free_inner _ _ _ _ _ _ _ _ Hinv _ Hn Hfn) as [Hn0 HnN].
  destruct (hi_next0 _ Hn HnN) as (Hlt2 & _).
  simpl. split; [|split].
  - split; [exact Hq|]. intros ->. congruence.
  - unfold updb. destruct (Z.eqb_spec q (anx a c)); auto.
  - unfold upd. destruct (Z.eqb_spec q c) as [->|]; lia.
Qed.

Lemma frc_up st a c :
  view st a -> aS a c -> afr a c = false -> c <> 0 -> c <> aN a - 1 ->
  fr_core st a (umm_assimilate_up c st) (a_up c a) (fun q => q <> c).
Proof.
  intros Hv Hc Hf Hc0 HcN.
  pose proof (view_ainv _ _ Hv) as Hinv.
  destruct (a_up_facts a c Hinv Hc Hf Hc0 HcN) as (HN1 & _).
  split; [apply cfg_assimilate_up|]. split; [exact HN1|].
  split; [|intros x Hx; apply (out_assimilate_up st a c x); auto].
  intros q x Hqc Hb.
  assert (Hx : anx (a_up c a) q = anx a q).
  { unfold a_up. destruct (afr a (anx a c)); [|reflexivity].
    simpl. apply upd_other. exact Hqc. }
  split; [|split].
  - pose proof Hb as (Hq & Hfq & _).
    destruct (a_up_grow a c q Hinv Hc Hf Hc0 HcN Hq Hfq) as (H1 & H2 & H3).
    apply (in_body_grow st _ a _ q x (cfg_assimilate_up c st) Hb); auto.
  - exact Hx.
  - apply (fr_assimilate_up st a c q x); auto.
Qed.

Lemma frc_disconnect st a c :
  view st a -> In c (afl a) ->
  fr_core st a (umm_disconnect_from_free_list c st) (a_unlink c a) (fun _ => True).
Proof.
  intros Hv Hc.
  split; [apply cfg_disconnect|]. split; [reflexivity|].
  split; [|intros x Hx; apply (out_disconnect st a c x); auto].
  intros q x _ Hb. split; [|split].
  - pose proof Hb as (Hq & Hfq & _).
    apply (in_body_keep st _ a _ q x (cfg_disconnect c st) Hb); auto.
    simpl. unfold updb. destruct (Z.eqb_spec q c); auto.
  - reflexivity.
  - apply (fr_disconnect st a c q x); auto.
Qed.

Lemma frc_down st a c m :
  view st a -> aS a c -> afr a c = false -> c <> 0 -> c <> aN a - 1 ->
  fr_core st a (snd (umm_assimilate_down c m st)) (a_merge (apv a c) a)
          (fun q => q <> c /\ q <> apv a c).
Proof.
  intros Hv Hc Hf Hc0 HcN.
  destruct (view_prev _ _ _ Hv Hc Hc0) as (Hp & Hnp & Hplt & HpN).
  destruct (view_next _ _ _ Hv Hc HcN) as (Hlt & Hn & Hpn).
  split; [apply cfg_assimilate_down|]. split; [reflexivity|].
  split; [|intros x Hx; apply (out_assimilate_down st a c m x); auto].
  intros q x [Hqc Hqp] Hb.
  assert (Hx : anx (a_merge (apv a c) a) q = anx a q).
  { simpl. apply upd_other. exact Hqp. }
  split; [|split].
  - pose proof Hb as (Hq & Hfq & _).
    apply (in_body_keep st _ a _ q x (cfg_assimilate_down c m st) Hb); auto.
    simpl. split; [exact Hq|]. rewrite Hnp. exact Hqc.
  - exact Hx.
  - apply (fr_assimilate_down st a c m q x); auto.
Qed.

(** A store of the program into the body of the block [c]. *)
Lemma frc_store st a m' c :
  (forall x, ~ (UMM_DATA st c <= x < UMM_BLOCK st (anx a c)) -> m' x = memory st x) ->
  view st a -> aS a c ->
  fr_core st a (with_memory st m') a (fun q => q <> c).
Proof.
  intros Hm Hv Hc.
  split; [reflexivity|]. split; [reflexivity|].
  split.
  2: { intros x Hx. cbn [memory with_memory]. apply Hm.
       pose proof UMM_BLOCKSIZE_ge as HB.
       pose proof (view_S_range _ _ _ Hv Hc) as Hcr.
       pose proof (hinv_nx_range _ _ _ _ _ _ _ _ (view_ainv _ _ Hv) c Hc) as Hnr.
       pose proof (view_N _ _ Hv) as HN.
       unfold outside, UMM_DATA, UMM_BLOCK, header_size in *. nia. }
  intros q x Hqc Hb. split; [|split].
  - destruct Hb as (H1 & H2 & H3 & H4 & H5). unfold in_body. auto.
  - reflexivity.
  - cbn [memory with_memory]. apply Hm.
    pose proof (body_clear st a q x c c Hv Hb Hc) as Hcl.
    destruct Hb as (Hq & Hfq & Hq0 & HqN & Hx).
    pose proof UMM_BLOCKSIZE_ge as HB.
    destruct (view_next _ _ _ Hv Hq HqN) as (Hlt & Hn & _).
    unfold UMM_DATA, UMM_BLOCK, header_size in *.
    assert (Hcase : c < q \/ q < c) by lia.
    destruct Hcase as [Hl|Hl].
    + pose proof (view_gap _ _ _ _ Hv Hc Hq Hl). nia.
    + pose proof (view_gap _ _ _ _ Hv Hq Hc Hl). nia.
Qed.

Lemma frc_split_used st a c k :
  view st a -> aS a c -> c <> aN a - 1 -> 0 < k -> c + k < anx a c ->
  fr_core st a (umm_split_block c k 0 st) (a_split_used c (c + k) a)
          (fun q => q <> c).
Proof.
  intros Hv Hc HcN Hk Hlt.
  destruct (view_next _ _ _ Hv Hc HcN) as (_ & Hn & _).
  split; [apply cfg_split|]. split; [reflexivity|].
  split; [|intros x Hx; apply (out_split st a c k 0 x); auto].
  intros q x Hqc Hb.
  assert (Hqd : q <> c + k).
  { intros ->. destruct Hb as (Hq & _). pose proof (view_gap _ _ _ _ Hv Hc Hq). lia. }
  assert (Hx : anx (a_split_used c (c + k) a) q = anx a q).
  { simpl. rewrite !upd_other by auto. reflexivity. }
  split; [|split].
  - pose proof Hb as (Hq & Hfq & _).
    apply (in_body_keep st _ a _ q x (cfg_split c k 0 st) Hb); auto.
    + simpl. left. exact Hq.
    + simpl. rewrite updb_other by auto. exact Hfq.
  - exact Hx.
  - apply fr_split; [lia | | |].
    + apply clear_off_hdr. apply (body_clear st a q x c (c + k) Hv Hb Hc); auto; lia.
    + rewrite (view_nxt _ _ _ Hv Hc). apply (body_off_hdr st a q x _ Hv Hb Hn).
    + apply (body_off_hdr st a q x _ Hv Hb Hc).
Qed.

Lemma frc_free st a c :
  view st a -> aS a c -> afr a c = false -> c <> 0 -> c <> aN a - 1 ->
  fr_core st a (umm_free_core (UMM_DATA st c) st) (a_free c a) (fun q => q <> c).
Proof.
  intros Hv Hc Hf Hc0 HcN.
  pose proof (view_ainv _ _ Hv) as Hinv.
  split; [apply cfg_free_core|].
  split.
  { destruct (hinv_prev_lt _ _ _ _ _ _ _ _ Hinv c Hc Hc0) as (Hplt & _).
    destruct (a_up_facts a c Hinv Hc Hf Hc0 HcN) as (HN1 & _).
    unfold a_free. cbv zeta.
    destruct (afr (a_up c a) (apv (a_up c a) c)); simpl; exact HN1. }
  split; [|intros x Hx; apply (out_free_core st a c x); auto].
  intros q x Hqc Hb.
  pose proof Hb as (Hq & Hfq & _).
  destruct (a_free_others a c q Hinv Hc Hf Hc0 HcN Hq Hfq Hqc) as (H1 & H2 & H3 & H4).
  split; [|split].
  - apply (in_body_keep st _ a _ q x (cfg_free_core _ st) Hb); auto.
  - exact H3.
  - apply (fr_free_core st a c q x); auto.
Qed.

Lemma frc_take st a cf k :
  view st a -> In cf (afl a) -> 0 < k <= anx a cf - cf ->
  fr_core st a (malloc_take cf (anx a cf - cf) k st) (a_alloc cf k a)
          (fun _ => True).
Proof.
  intros Hv Hin Hk.
  pose proof (view_ainv _ _ Hv) as Hinv.
  destruct (a_alloc_facts a cf k Hinv Hin Hk) as (HNa & _ & _ & _ & Hoth).
  split; [apply cfg_malloc_take|]. split; [exact HNa|].
  split; [|intros x Hx; apply (out_malloc_take st a cf k x); auto].
  intros q x _ Hb.
  pose proof Hb as (Hq & Hfq & _).
  assert (Hne : q <> cf).
  { intros ->. destruct (view_fl_S _ _ _ Hv Hin). congruence. }
  destruct (Hoth q Hq Hne) as (H1 & H2 & H3).
  split; [|split].
  - apply (in_body_keep st _ a _ q x (cfg_malloc_take _ _ _ _) Hb); auto. congruence.
  - exact H3.
  - apply (fr_malloc_take st a cf k q x); auto.
Qed.

(** *** Steps that also keep the inline counters exact *)

Definition fr_step (st : umm_state) (a : aheap) (st' : umm_state) (a' : aheap)
                   (P : Z -> Prop) : Prop :=
  fr_core st a st' a' P /\ (minfo st a -> minfo st' a').

Lemma fr_step_trans st a st1 a1 st2 a2 (P Q : Z -> Prop) :
  fr_step st a st1 a1 P -> fr_step st1 a1 st2 a2 Q ->
  fr_step st a st2 a2 (fun q => P q /\ Q q).
Proof.
  intros [H1 M1] [H2 M2]. split; [|auto].
  apply (fr_core_trans st a st1 a1 st2 a2 P Q H1 H2).
Qed.

Lemma fr_step_weaken st a st' a' (P Q : Z -> Prop) :
  (forall q x, Q q -> in_body st a q x -> P q) ->
  fr_step st a st' a' P -> fr_step st a st' a' Q.
Proof.
  intros HQP [H M]. split; [|exact M].
  apply (fr_core_weaken st a st' a' P Q HQP H).
Qed.

Lemma fr_step_refl st a (P : Z -> Prop) : fr_step st a st a P.
Proof. split; [apply fr_core_refl | auto]. Qed.

Lemma frs_up st a c :
  view st a -> aS a c -> afr a c = false -> c <> 0 -> c <> aN a - 1 ->
  fr_step st a (umm_assimilate_up c st) (a_up c a) (fun q => q <> c).
Proof.
  intros Hv Hc Hf Hc0 HcN. split; [apply frc_up | apply m_up]; auto.
Qed.

Lemma frs_store st a m' c :
  (forall x, ~ (UMM_DATA st c <= x < UMM_BLOCK st (anx a c)) -> m' x = memory st x) ->
  view st a -> aS a c ->
  fr_step st a (with_memory st m') a (fun q => q <> c).
Proof.
  intros Hm Hv Hc. split; [apply frc_store; auto|].
  intros Hi. apply (minfo_same st _ a a Hi); reflexivity.
Qed.

Lemma frs_split_used st a c k :
  view st a -> aS a c -> c <> aN a - 1 -> 0 < k -> c + k < anx a c ->
  afr a c = false ->
  fr_step st a (umm_split_block c k 0 st) (a_split_used c (c + k) a)
          (fun q => q <> c).
Proof.
  intros Hv Hc HcN Hk Hlt Hf. split; [apply frc_split_used | apply m_split_used]; auto.
Qed.

Lemma frs_free st a c :
  view st a -> aS a c -> afr a c = false -> c <> 0 -> c <> aN a - 1 ->
  fr_step st a (umm_free_core (UMM_DATA st c) st) (a_free c a) (fun q => q <> c).
Proof.
  intros Hv Hc Hf Hc0 HcN. split; [apply frc_free | apply m_free_core]; auto.
Qed.

Lemma frs_take st a cf k :
  view st a -> In cf (afl a) -> 0 < k <= anx a cf - cf ->
  fr_step st a (malloc_take cf (anx a cf - cf) k st) (a_alloc cf k a)
          (fun _ => True).
Proof.
  intros Hv Hin Hk. split; [apply frc_take | apply m_take]; auto.
Qed.

(** *** umm_realloc *)

(** The last stage of [umm_realloc] on the used block [c]: the block ends
    up with [k] blocks, and what lies before block [c + k] is kept. *)
Lemma finish_spec st a c k ptr :
  view st a -> aS a c -> afr a c = false -> c <> 0 -> c <> aN a - 1 ->
  1 <= k <= anx a c - c ->
  exists st' a',
    realloc_finish k ptr c (anx a c - c) st = Some (ptr, st') /\
    view st' a' /\ fr_step st a st' a' (fun q => q <> c) /\
    aS a' c /\ afr a' c = false /\ anx a' c = c + k /\
    (forall x, UMM_DATA st c <= x < UMM_BLOCK st (c + k) -> memory st' x = memory st x) /\
    (forall q, used a' q -> used a q).
Proof.
  intros Hv Hc Hf Hc0 HcN Hk.
  pose proof UMM_BLOCKSIZE_ge as HB.
  pose proof (view_ainv _ _ Hv) as Hinv.
  destruct (view_next _ _ _ Hv Hc HcN) as (Hlt & Hn & _).
  pose proof (view_S_range _ _ _ Hv Hn) as Hrn.
  pose proof (view_S_range _ _ _ Hv Hc) as Hrc.
  unfold realloc_finish.
  destruct (Z.gtb_spec (anx a c - c) k) as [Hgt|Hle].
  - cbv zeta.
    pose proof (sim_split_used st a c k Hv Hc HcN) as Hv1.
    assert (Hv1' : view (umm_split_block c k 0 st) (a_split_used c (c + k) a))
      by (apply Hv1; auto; lia).
    clear Hv1.
    remember (umm_split_block c k 0 st) as st1 eqn:Est1.
    remember (a_split_used c (c + k) a) as a1 eqn:Ea1.
    assert (Ecfg1 : umm_heap_current st1 = umm_heap_current st).
    { rewrite Est1. apply cfg_split. }
    assert (Hd1 : aS a1 (c + k)) by (rewrite Ea1; simpl; auto).
    assert (Hfd1 : afr a1 (c + k) = false) by (rewrite Ea1; simpl; apply updb_same).
    assert (HN1 : aN a1 = aN a) by (rewrite Ea1; reflexivity).
    assert (Hc1 : aS a1 c) by (rewrite Ea1; simpl; auto).
    assert (Hfc1 : afr a1 c = false).
    { rewrite Ea1; simpl. rewrite updb_other by lia. exact Hf. }
    assert (Hnc1 : anx a1 c = c + k) by (rewrite Ea1; simpl; apply upd_same).
    assert (Hd0 : c + k <> 0) by lia.
    assert (HdN : c + k <> aN a1 - 1) by lia.
    pose proof (sim_free_core st1 a1 (c + k) Hv1' Hd1 Hfd1 Hd0 HdN) as Hv2.
    pose proof (frs_free st1 a1 (c + k) Hv1' Hd1 Hfd1 Hd0 HdN) as Hs2.
    assert (Hs1 : fr_step st a st1 a1 (fun q => q <> c)).
    { rewrite Est1, Ea1. apply frs_split_used; auto; lia. }
    destruct (a_free_others a1 (c + k) c (view_ainv _ _ Hv1') Hd1 Hfd1 Hd0 HdN
                Hc1 Hfc1) as (Hc2 & Hfc2 & Hnc2 & HN2); [lia|].
    eexists. exists (a_free (c + k) a1).
    split; [reflexivity|]. split; [exact Hv2|].
    split; [|split; [|split; [|split; [|split]]]].
    + apply (fr_step_weaken st a _ _ (fun q => q <> c /\ q <> c + k)).
      * intros q x Hq Hb. split; [exact Hq|].
        intros ->. destruct Hb as (Hb & _).
        pose proof (view_gap _ _ _ _ Hv Hc Hb). lia.
      * apply (fr_step_trans st a st1 a1 _ _ _ _ Hs1 Hs2).
    + exact Hc2.
    + exact Hfc2.
    + rewrite Hnc2. exact Hnc1.
    + intros x Hx.
      assert (Hb1 : in_body st1 a1 c x).
      { unfold in_body. rewrite Hnc1, HN1.
        unfold UMM_DATA, UMM_BLOCK, UMM_HEAP in *. rewrite Ecfg1.
        repeat split; auto; lia. }
      destruct Hs2 as ((_ & _ & Hs2 & _) & _).
      destruct (Hs2 c x) as (_ & _ & M2); [lia | exact Hb1 |].
      rewrite M2. rewrite Est1. apply fr_split; [lia | | |].
      * unfold off_hdr. lia.
      * rewrite (view_nxt _ _ _ Hv Hc). unfold off_hdr.
        unfold UMM_DATA, UMM_BLOCK in *. left. nia.
      * unfold off_hdr. unfold UMM_DATA, header_size in Hx. lia.
    + intros q Hq.
      apply (cu_free a1 (c + k) q (view_ainv _ _ Hv1') Hd1 Hfd1 Hd0 HdN) in Hq.
      destruct Hq as [Hq Hne]. rewrite Ea1 in Hq. apply cu_split_used in Hq. tauto.
  - exists st, a. split; [reflexivity|]. split; [exact Hv|].
    split; [apply fr_step_refl|].
    split; [|split; [|split; [|split]]]; auto. lia.
Qed.

(** Cases 2 and 3: the block grows into its free successor. *)
Lemma up_spec st a c k ptr :
  view st a -> aS a c -> afr a c = false -> c <> 0 -> c <> aN a - 1 ->
  1 <= k -> anx a c - c <= k <= anx (a_up c a) c - c ->
  exists st' a',
    realloc_finish k ptr c (anx (a_up c a) c - c) (umm_assimilate_up c st)
    = Some (ptr, st') /\
    view st' a' /\ fr_step st a st' a' (fun q => q <> c) /\
    aS a' c /\ afr a' c = false /\ anx a' c = c + k /\
    (forall x, UMM_DATA st c <= x < UMM_BLOCK st (anx a c) ->
               memory st' x = memory st x) /\
    (forall q, used a' q -> used a q).
Proof.
  intros Hv Hc Hf Hc0 HcN Hk Hfit.
  pose proof UMM_BLOCKSIZE_ge as HB.
  pose proof (view_ainv _ _ Hv) as Hinv.
  pose proof (sim_assimilate_up _ _ _ Hv Hc Hf Hc0 HcN) as Hv1.
  pose proof (frs_up st a c Hv Hc Hf Hc0 HcN) as Hs1.
  destruct (a_up_facts a c Hinv Hc Hf Hc0 HcN)
    as (HN1 & Hc1 & Hf1 & Hfn1 & Hpv1 & Hfp1).
  assert (HcN1 : c <> aN (a_up c a) - 1) by lia.
  destruct (finish_spec _ _ c k ptr Hv1 Hc1 Hf1 Hc0 HcN1)
    as (st' & a' & E & Hv' & Hs2 & Hc' & Hf' & Hn' & Hself & Hu); [lia|].
  exists st', a'. split; [exact E|]. split; [exact Hv'|].
  split; [|split; [|split; [|split; [|split]]]]; auto.
  - apply (fr_step_weaken st a _ _ (fun q => q <> c /\ q <> c)).
    + intros q x Hq _. auto.
    + apply (fr_step_trans st a _ _ _ _ _ _ Hs1 Hs2).
  - intros x Hx.
    assert (Hb : in_body st a c x) by (unfold in_body; auto).
    pose proof (fr_assimilate_up st a c c x Hv Hc Hf Hc0 HcN Hb) as M1.
    pose proof (cfg_assimilate_up c st) as Ecfg1.
    rewrite <- M1. apply Hself.
    unfold UMM_DATA, UMM_BLOCK, UMM_HEAP in *. rewrite Ecfg1. nia.
  - intros q Hq. apply (cu_up c a q). auto.
Qed.

(** Cases 4 and 5: the block moves down into its free predecessor. *)
Lemma down_spec st a c k cur :
  view st a -> aS a c -> afr a c = false -> c <> 0 -> c <> aN a - 1 ->
  afr a (apv a c) = true -> 1 <= k <= anx a c - apv a c ->
  0 <= cur <= (anx a c - c) * UMM_BLOCKSIZE - header_size ->
  exists st' a',
    (let st1 := umm_disconnect_from_free_list (apv a c) st in
     let '(c', st2) := umm_assimilate_down c 0 st1 in
     let st3 := with_memory st2
                  (memmove (memory st2) (UMM_DATA st2 c') (UMM_DATA st c) cur) in
     realloc_finish k (UMM_DATA st3 c') c' (anx a c - apv a c) st3)
    = Some (UMM_DATA st (apv a c), st') /\
    view st' a' /\ fr_step st a st' a' (fun q => q <> c) /\
    aS a' (apv a c) /\ afr a' (apv a c) = false /\ anx a' (apv a c) = apv a c + k /\
    apv a c <> 0 /\ apv a c <> aN a - 1 /\
    (forall off, 0 <= off < cur -> off < k * UMM_BLOCKSIZE - header_size ->
       memory st' (UMM_DATA st (apv a c) + off) = memory st (UMM_DATA st c + off)) /\
    (forall q, used a' q -> (used a q /\ q <> c) \/ q = apv a c).
Proof.
  intros Hv Hc Hf Hc0 HcN Hfp Hk Hcur.
  pose proof UMM_BLOCKSIZE_ge as HB.
  destruct (view_prev _ _ _ Hv Hc Hc0) as (Hp & Hnp & Hplt & HpN).
  destruct (view_next _ _ _ Hv Hc HcN) as (Hlt & Hn & Hpn).
  pose proof (view_ainv _ _ Hv) as Hinv.
  destruct (hinv_free_inner _ _ _ _ _ _ _ _ Hinv _ Hp Hfp) as [Hp0 _].
  assert (Hpin : In (apv a c) (afl a)).
  { destruct Hinv. apply hi_mem0. auto. }
  cbv zeta.
  pose proof (m_unlink_down st a c Hv Hc Hf Hc0 HcN Hfp) as Hm12.
  pose proof (sim_disconnect _ _ _ Hv Hpin) as Hv1.
  pose proof (frc_disconnect st a _ Hv Hpin) as Hs1.
  remember (umm_disconnect_from_free_list (apv a c) st) as st1 eqn:Est1.
  remember (a_unlink (apv a c) a) as a1 eqn:Ea1.
  assert (Hc1 : aS a1 c) by (rewrite Ea1; exact Hc).
  assert (HN1 : aN a1 = aN a) by (rewrite Ea1; reflexivity).
  assert (Hnx1 : forall x, anx a1 x = anx a x) by (rewrite Ea1; reflexivity).
  assert (Hpv1 : forall x, apv a1 x = apv a x) by (rewrite Ea1; reflexivity).
  assert (Hf1 : afr a1 c = false).
  { rewrite Ea1; simpl. unfold updb. destruct (Z.eqb_spec c (apv a c)); auto. }
  assert (Hfp1 : afr a1 (apv a1 c) = false).
  { rewrite Ea1; simpl. apply updb_same. }
  assert (HcN1 : c <> aN a1 - 1) by lia.
  destruct (sim_assimilate_down st1 a1 c 0 false Hv1 Hc1 Hc0) as [Efst Hv2];
    [lia | exact Hf1 | rewrite Hpv1; exact Hp0 | reflexivity | exact Hfp1
    | discriminate |].
  pose proof (frc_down st1 a1 c 0 Hv1 Hc1 Hf1 Hc0 HcN1) as Hs2.
  destruct (umm_assimilate_down c 0 st1) as [c' st2] eqn:Edown.
  simpl in Efst, Hv2, Hs2. rewrite Hpv1 in Efst, Hv2, Hs2. subst c'.
  cbn [snd] in Hm12.
  remember (a_merge (apv a c) a1) as a2 eqn:Ea2.
  assert (Hp2 : aS a2 (apv a c)).
  { rewrite Ea2; simpl. split; [rewrite Ea1; exact Hp|]. rewrite Hnx1, Hnp. lia. }
  assert (Hfp2 : afr a2 (apv a c) = false).
  { rewrite Ea2; simpl. rewrite <- Hpv1. exact Hfp1. }
  assert (Hnx2 : anx a2 (apv a c) = anx a c).
  { rewrite Ea2; simpl. rewrite upd_same. rewrite !Hnx1, Hnp. reflexivity. }
  assert (HN2 : aN a2 = aN a) by (rewrite Ea2; simpl; exact HN1).
  assert (Ecfg2 : umm_heap_current st2 = umm_heap_current st).
  { destruct Hs2 as (E2 & _). destruct Hs1 as (E1 & _). congruence. }
  assert (Hm3 : forall x, ~ (UMM_DATA st2 (apv a c) <= x
                             < UMM_BLOCK st2 (anx a2 (apv a c))) ->
            memmove (memory st2) (UMM_DATA st2 (apv a c)) (UMM_DATA st c) cur x
            = memory st2 x).
  { intros x Hx. unfold memmove.
    destruct (Z.leb_spec (UMM_DATA st2 (apv a c)) x);
      destruct (Z.ltb_spec x (UMM_DATA st2 (apv a c) + cur)); simpl; auto.
    exfalso. apply Hx. rewrite Hnx2.
    unfold UMM_DATA, UMM_BLOCK, header_size in *. nia. }
  pose proof (view_frame st2 a2 _ (apv a c) Hv2 Hp2 Hp0 Hfp2 Hm3) as Hv3.
  pose proof (frs_store st2 a2 _ (apv a c) Hm3 Hv2 Hp2) as Hs3.
  remember (with_memory st2
              (memmove (memory st2) (UMM_DATA st2 (apv a c)) (UMM_DATA st c) cur))
    as st3 eqn:Est3.
  assert (Ecfg3 : umm_heap_current st3 = umm_heap_current st).
  { rewrite Est3. exact Ecfg2. }
  assert (HpN2 : apv a c <> aN a2 - 1) by lia.
  destruct (finish_spec st3 a2 (apv a c) k (UMM_DATA st3 (apv a c))
              Hv3 Hp2 Hfp2 Hp0 HpN2)
    as (st' & a' & E & Hv' & Hs4 & Hc' & Hf' & Hn' & Hself & Hu);
    [rewrite Hnx2; lia|].
  rewrite Hnx2 in E. rewrite (DATA_same_cfg st st3 _ Ecfg3) in E.
  rewrite (DATA_same_cfg st st3 _ Ecfg3).
  exists st', a'. split; [exact E|]. split; [exact Hv'|].
  split; [|split; [|split; [|split; [|split; [|split; [|split]]]]]]; auto.
  - apply (fr_step_weaken st a _ _
             (fun q => ((True /\ (q <> c /\ q <> apv a c)) /\ q <> apv a c)
                       /\ q <> apv a c)).
    + intros q x Hq Hb. destruct Hb as (_ & Hfq & _).
      assert (q <> apv a c) by (intros ->; congruence). auto.
    + apply (fr_step_trans st a st3 a2 _ _ _ _); [|exact Hs4].
      apply (fr_step_trans st a st2 a2 _ _ _ _); [|exact Hs3].
      split; [apply (fr_core_trans st a st1 a1 _ _ _ _ Hs1 Hs2) | exact Hm12].
  - intros off Hoff Hoffk.
    rewrite Hself.
    2: { unfold UMM_DATA, UMM_BLOCK, UMM_HEAP, header_size in *. rewrite Ecfg3. nia. }
    rewrite Est3. cbn [memory with_memory]. unfold memmove.
    rewrite (DATA_same_cfg st st2 _ Ecfg2).
    destruct (Z.leb_spec (UMM_DATA st (apv a c)) (UMM_DATA st (apv a c) + off)); [|lia].
    destruct (Z.ltb_spec (UMM_DATA st (apv a c) + off) (UMM_DATA st (apv a c) + cur));
      [|lia].
    simpl.
    replace (UMM_DATA st c + (UMM_DATA st (apv a c) + off - UMM_DATA st (apv a c)))
      with (UMM_DATA st c + off) by lia.
    assert (Hb : in_body st a c (UMM_DATA st c + off)).
    { unfold in_body. repeat split; auto; try lia.
      unfold UMM_DATA, UMM_BLOCK, header_size in *. nia. }
    destruct Hs1 as (_ & _ & Hs1 & _). destruct (Hs1 _ _ I Hb) as (Hb1 & _ & M1).
    rewrite <- M1.
    apply (fr_assimilate_down st1 a1 c 0 c _ Hv1 Hc1 Hf1 Hc0 HcN1) in Hb1.
    rewrite Edown in Hb1. exact Hb1.
  - intros q Hq. apply Hu in Hq. rewrite Ea2 in Hq. apply cu_merge in Hq.
    destruct Hq as [Hq Hne]. rewrite Hnx1, Hnp in Hne.
    rewrite Ea1 in Hq. apply cu_unlink in Hq. tauto.
Qed.

(** Case 6: a new block is taken, the contents are copied and the old
    block is freed. *)
Lemma move_spec st a c cf k cur :
  view st a -> aS a c -> afr a c = false -> c <> 0 -> c <> aN a - 1 ->
  In cf (afl a) -> 0 < k <= anx a cf - cf ->
  0 <= cur <= (anx a c - c) * UMM_BLOCKSIZE - header_size ->
  cur <= k * UMM_BLOCKSIZE - header_size ->
  exists a',
    let st1 := malloc_take cf (anx a cf - cf) k st in
    let st2 := with_memory st1
                 (memcpy (memory st1) (UMM_DATA st cf) (UMM_DATA st c) cur) in
    let st3 := umm_free_core (UMM_DATA st c) st2 in
    view st3 a' /\ fr_step st a st3 a' (fun q => q <> c) /\
    aS a' cf /\ afr a' cf = false /\ anx a' cf = cf + k /\
    (forall off, 0 <= off < cur ->
       memory st3 (UMM_DATA st cf + off) = memory st (UMM_DATA st c + off)) /\
    (forall q, used a' q -> (used a q /\ q <> c) \/ q = cf).
Proof.
  intros Hv Hc Hf Hc0 HcN Hin Hk Hcur Hcurk.
  pose proof UMM_BLOCKSIZE_ge as HB.
  pose proof (view_ainv _ _ Hv) as Hinv.
  destruct (view_next _ _ _ Hv Hc HcN) as (Hlt & Hn & _).
  destruct (view_fl_S _ _ _ Hv Hin) as [HcfS Hcff].
  pose proof (hinv_fl_range _ _ _ _ _ _ _ _ Hinv cf Hin) as Hcfr.
  pose proof (sim_malloc_take st a cf k Hv Hin Hk) as Hv1.
  pose proof (frs_take st a cf k Hv Hin Hk) as Hs1.
  pose proof (cfg_malloc_take cf (anx a cf - cf) k st) as Ecfg1.
  destruct (a_alloc_facts a cf k Hinv Hin Hk) as (HNa & Hcfa & Hcffa & Hnxa & Hoth).
  assert (Hccf : c <> cf) by (intros ->; congruence).
  destruct (Hoth c Hc Hccf) as (Hca & Hcfr' & Hcnx). rewrite Hf in Hcfr'.
  cbv zeta.
  remember (malloc_take cf (anx a cf - cf) k st) as st1 eqn:Est1.
  remember (a_alloc cf k a) as a1 eqn:Ea1.
  assert (Hm2 : forall x, ~ (UMM_DATA st1 cf <= x < UMM_BLOCK st1 (anx a1 cf)) ->
            memcpy (memory st1) (UMM_DATA st cf) (UMM_DATA st c) cur x = memory st1 x).
  { intros x Hx. unfold memcpy, memmove.
    destruct (Z.leb_spec (UMM_DATA st cf) x);
      destruct (Z.ltb_spec x (UMM_DATA st cf + cur)); simpl; auto.
    exfalso. apply Hx. rewrite Hnxa. rewrite (DATA_same_cfg st st1 _ Ecfg1).
    unfold UMM_DATA, UMM_BLOCK, UMM_HEAP, header_size in *. rewrite Ecfg1. nia. }
  assert (Hcf0 : cf <> 0) by lia.
  pose proof (view_frame st1 a1 _ cf Hv1 Hcfa Hcf0 Hcffa Hm2) as Hv2.
  pose proof (frs_store st1 a1 _ cf Hm2 Hv1 Hcfa) as Hs2.
  remember (with_memory st1
              (memcpy (memory st1) (UMM_DATA st cf) (UMM_DATA st c) cur))
    as st2 eqn:Est2.
  assert (Ecfg2 : umm_heap_current st2 = umm_heap_current st).
  { rewrite Est2. exact Ecfg1. }
  rewrite <- (DATA_same_cfg st st2 c Ecfg2).
  assert (HcN1 : c <> aN a1 - 1) by lia.
  pose proof (sim_free_core st2 a1 c Hv2 Hca Hcfr' Hc0 HcN1) as Hv3.
  pose proof (frs_free st2 a1 c Hv2 Hca Hcfr' Hc0 HcN1) as Hs3.
  assert (Hcf1N : cf <> c) by auto.
  destruct (a_free_others a1 c cf (view_ainv _ _ Hv1) Hca Hcfr' Hc0 HcN1
              Hcfa Hcffa Hcf1N) as (H1 & H2 & H3 & H4).
  exists (a_free c a1).
  split; [exact Hv3|]. split; [|split; [|split; [|split; [|split]]]]; auto.
  - apply (fr_step_weaken st a _ _ (fun q => (True /\ q <> cf) /\ q <> c)).
    + intros q x Hq Hb. destruct Hb as (_ & Hfq & _).
      assert (q <> cf) by (intros ->; congruence). auto.
    + apply (fr_step_trans st a st2 a1 _ _ _ _); [|exact Hs3].
      apply (fr_step_trans st a st1 a1 _ _ _ _ Hs1 Hs2).
  - congruence.
  - intros off Hoff.
    assert (Hb2 : in_body st2 a1 cf (UMM_DATA st cf + off)).
    { unfold in_body. rewrite Hnxa.
      unfold UMM_DATA, UMM_BLOCK, UMM_HEAP, header_size in *. rewrite Ecfg2.
      repeat split; auto; try lia; try nia. }
    destruct Hs3 as ((_ & _ & Hs3 & _) & _).
    destruct (Hs3 cf _ Hcf1N Hb2) as (_ & _ & M3). rewrite M3.
    rewrite (DATA_same_cfg st st2 c Ecfg2).
    rewrite Est2. cbn [memory with_memory]. unfold memcpy, memmove.
    destruct (Z.leb_spec (UMM_DATA st cf) (UMM_DATA st cf + off)); [|lia].
    destruct (Z.ltb_spec (UMM_DATA st cf + off) (UMM_DATA st cf + cur)); [|lia].
    simpl.
    replace (UMM_DATA st c + (UMM_DATA st cf + off - UMM_DATA st cf))
      with (UMM_DATA st c + off) by lia.
    assert (Hb : in_body st a c (UMM_DATA st c + off)).
    { unfold in_body. repeat split; auto; try lia.
      unfold UMM_DATA, UMM_BLOCK, header_size in *. nia. }
    destruct Hs1 as ((_ & _ & Hs1 & _) & _).
    destruct (Hs1 _ _ I Hb) as (_ & _ & M1). exact M1.
  - intros q Hq.
    apply (cu_free a1 c q (view_ainv _ _ Hv1) Hca Hcfr' Hc0 HcN1) in Hq.
    destruct Hq as [Hq Hne]. rewrite Ea1 in Hq. apply cu_alloc in Hq. tauto.
Qed.

(** What a successful [umm_realloc] of the block [c] to [k] blocks
    establishes: the result is the body of a block [c'] of exactly [k]
    blocks, the other allocated blocks are as they were, and the first
    bytes of the old body are the first bytes of the new one. *)
Definition realloc_done (st : umm_state) (a : aheap) (c k : Z)
                        (p' : Z) (st' : umm_state) : Prop :=
  exists a' c',
    view st' a' /\ fr_step st a st' a' (fun q => q <> c) /\
    p' = UMM_DATA st c' /\ (c' = c \/ afr a c' = true) /\
    aS a' c' /\ afr a' c' = false /\
    c' <> 0 /\ c' <> aN a - 1 /\ anx a' c' = c' + k /\
    (forall off, 0 <= off < (anx a c - c) * UMM_BLOCKSIZE - header_size ->
                 off < k * UMM_BLOCKSIZE - header_size ->
       memory st' (p' + off) = memory st (UMM_DATA st c + off)) /\
    (forall q, used a' q -> (used a q /\ q <> c) \/ q = c').

Lemma realloc_done_intro st a c k p' st' a' c' :
  view st' a' -> fr_step st a st' a' (fun q => q <> c) ->
  p' = UMM_DATA st c' -> (c' = c \/ afr a c' = true) ->
  aS a' c' -> afr a' c' = false ->
  c' <> 0 -> c' <> aN a - 1 -> anx a' c' = c' + k ->
  (forall off, 0 <= off < (anx a c - c) * UMM_BLOCKSIZE - header_size ->
               off < k * UMM_BLOCKSIZE - header_size ->
     memory st' (p' + off) = memory st (UMM_DATA st c + off)) ->
  (forall q, used a' q -> (used a q /\ q <> c) \/ q = c') ->
  realloc_done st a c k p' st'.
Proof.
  intros H1 H2 H3 H3' H4 H5 H6 H7 H8 H9 H10. exists a', c'.
  split; [exact H1|]. split; [exact H2|]. split; [exact H3|]. split; [exact H3'|].
  split; [exact H4|].
  split; [exact H5|]. split; [exact H6|]. split; [exact H7|]. split; [exact H8|].
  split; [exact H9|exact H10].
Qed.

Lemma realloc_spec st a c size :
  view st a -> aS a c -> afr a c = false -> c <> 0 -> c <> aN a - 1 ->
  0 < size < 4294967296 ->
  exists p' st',
    umm_realloc (UMM_DATA st c) size st = Some (p', st') /\
    ((p' = NULL /\ st' = st /\ anx a c - c < umm_blocks size) \/
     realloc_done st a c (umm_blocks size) p' st').
Proof.
  intros Hv Hc Hf Hc0 HcN Hsize.
  pose proof UMM_BLOCKSIZE_ge as HB.
  pose proof (view_ainv _ _ Hv) as Hinv.
  pose proof (view_N_range _ _ Hv) as HNr.
  pose proof (view_N _ _ Hv) as HN.
  pose proof (view_S_range _ _ _ Hv Hc) as Hrc.
  pose proof Hv as (Hcfg & _).
  destruct (view_prev _ _ _ Hv Hc Hc0) as (Hp & Hnp & Hplt & HpN).
  destruct (view_next _ _ _ Hv Hc HcN) as (Hlt & Hn & Hpn).
  pose proof (view_S_range _ _ _ Hv Hn) as Hrn.
  pose proof (view_S_range _ _ _ Hv Hp) as Hrp.
  assert (Hk : 1 <= umm_blocks size <= 32767) by (apply umm_blocks_range; lia).
  unfold umm_realloc.
  destruct (Z.eqb_spec (UMM_DATA st c) NULL) as [E|_];
    [exfalso; revert E; apply DATA_nonnull; [exact Hcfg | lia]|].
  destruct (Z.eqb_spec size 0); [lia|].
  cbv zeta.
  rewrite block_of_DATA by (try exact Hcfg; lia).
  rewrite (view_NBLOCK_used _ _ _ Hv Hc Hf).
  rewrite (view_pv _ _ _ Hv Hc).
  rewrite (view_fr _ _ _ Hv Hn), (view_fr _ _ _ Hv Hp).
  rewrite (view_nxt _ _ _ Hv Hn).
  rewrite (u16_small (anx a c - c)) by lia.
  rewrite (u16_small (c - apv a c)) by lia.
  assert (Hcur : 0 <= (anx a c - c) * UMM_BLOCKSIZE - header_size < 4294967296).
  { destruct Hcfg as (? & ? & ?). unfold header_size. nia. }
  rewrite (u32_small _ Hcur).
  set (nbs := if afr a (anx a c) then u16 (anx a (anx a c) - anx a c) else 0).
  set (pbs := if afr a (apv a c) then c - apv a c else 0).
  destruct (a_up_facts a c Hinv Hc Hf Hc0 HcN)
    as (HN1 & Hc1 & Hf1 & Hfn1 & Hpv1 & Hfp1).
  assert (Hup : anx (a_up c a) c - c = anx a c - c + nbs /\ 0 <= nbs < 32768).
  { unfold a_up, nbs. destruct (afr a (anx a c)) eqn:Hfn.
    - destruct (hinv_free_inner _ _ _ _ _ _ _ _ Hinv _ Hn Hfn) as [Hn0 HnN].
      destruct (view_next _ _ _ Hv Hn HnN) as (Hlt2 & Hn2 & _).
      pose proof (view_S_range _ _ _ Hv Hn2) as Hrn2.
      rewrite u16_small by lia. simpl. rewrite upd_same. lia.
    - lia. }
  destruct Hup as [Hup Hnbs].
  assert (Hpbs : 0 <= pbs /\ (0 < pbs -> afr a (apv a c) = true)
                 /\ (afr a (apv a c) = true -> pbs = c - apv a c)).
  { unfold pbs. destruct (afr a (apv a c)); repeat split; auto; lia. }
  destruct Hpbs as (Hpbs0 & Hpbs1 & Hpbs2).
  destruct (Z.geb_spec (anx a c - c) (umm_blocks size)) as [H1|H1].
  { (* case 1 *)
    destruct (finish_spec st a c (umm_blocks size) (UMM_DATA st c) Hv Hc Hf Hc0 HcN)
      as (st' & a' & E & Hv' & Hs & Hc' & Hf' & Hn' & Hself & Hu); [lia|].
    exists (UMM_DATA st c), st'. split; [exact E|]. right.
    apply (realloc_done_intro st a c _ _ _ a' c Hv' Hs eq_refl (or_introl eq_refl)
             Hc' Hf' Hc0 HcN Hn').
    - intros off Ho1 Ho2. apply Hself.
      unfold UMM_DATA, UMM_BLOCK, header_size in *. nia.
    - intros q Hq. destruct (Z.eq_dec q c); auto. }
  destruct (Z.eqb_spec (anx a c - c + nbs) (umm_blocks size)) as [H2|H2].
  { (* case 2 *)
    rewrite u16_small by lia. rewrite <- Hup.
    destruct (up_spec st a c (umm_blocks size) (UMM_DATA st c) Hv Hc Hf Hc0 HcN)
      as (st' & a' & E & Hv' & Hs & Hc' & Hf' & Hn' & Hself & Hu); [lia | lia |].
    exists (UMM_DATA st c), st'. split; [exact E|]. right.
    apply (realloc_done_intro st a c _ _ _ a' c Hv' Hs eq_refl (or_introl eq_refl)
             Hc' Hf' Hc0 HcN Hn').
    - intros off Ho1 Ho2. apply Hself.
      unfold UMM_DATA, UMM_BLOCK, header_size in *. nia.
    - intros q Hq. destruct (Z.eq_dec q c); auto. }
  destruct ((0 =? pbs) && (anx a c - c + nbs >=? umm_blocks size)) eqn:H3.
  { (* case 3 *)
    apply andb_true_iff in H3. destruct H3 as [_ H3]. rewrite Z.geb_leb in H3.
    apply Z.leb_le in H3.
    rewrite u16_small by lia. rewrite <- Hup.
    destruct (up_spec st a c (umm_blocks size) (UMM_DATA st c) Hv Hc Hf Hc0 HcN)
      as (st' & a' & E & Hv' & Hs & Hc' & Hf' & Hn' & Hself & Hu); [lia | lia |].
    exists (UMM_DATA st c), st'. split; [exact E|]. right.
    apply (realloc_done_intro st a c _ _ _ a' c Hv' Hs eq_refl (or_introl eq_refl)
             Hc' Hf' Hc0 HcN Hn').
    - intros off Ho1 Ho2. apply Hself.
      unfold UMM_DATA, UMM_BLOCK, header_size in *. nia.
    - intros q Hq. destruct (Z.eq_dec q c); auto. }
  destruct (Z.geb_spec (pbs + (anx a c - c)) (umm_blocks size)) as [H4|H4].
  { (* case 4 *)
    assert (Hfp : afr a (apv a c) = true) by (apply Hpbs1; lia).
    rewrite (u16_small (anx a c - c + pbs)) by (rewrite (Hpbs2 Hfp); lia).
    replace (anx a c - c + pbs) with (anx a c - apv a c) by (rewrite (Hpbs2 Hfp); lia).
    destruct (down_spec st a c (umm_blocks size)
                ((anx a c - c) * UMM_BLOCKSIZE - header_size) Hv Hc Hf Hc0 HcN Hfp)
      as (st' & a' & E & Hv' & Hs & Hc' & Hf' & Hn' & Hp0 & HpN' & Hself & Hu);
      [rewrite (Hpbs2 Hfp) in H4; lia | lia |].
    exists (UMM_DATA st (apv a c)), st'. split; [exact E|]. right.
    apply (realloc_done_intro st a c _ _ _ a' (apv a c) Hv' Hs eq_refl
             (or_intror Hfp) Hc' Hf' Hp0 HpN' Hn'); [|exact Hu].
    intros off Ho1 Ho2. apply Hself; lia. }
  destruct (Z.geb_spec (pbs + (anx a c - c) + nbs) (umm_blocks size)) as [H5|H5].
  { (* case 5 *)
    assert (Hfp : afr a (apv a c) = true).
    { apply Hpbs1. destruct (Z.eqb_spec 0 pbs) as [E0|E0]; [|lia].
      simpl in H3. rewrite Z.geb_leb in H3. apply Z.leb_gt in H3. lia. }
    pose proof (sim_assimilate_up _ _ _ Hv Hc Hf Hc0 HcN) as Hv1.
    pose proof (frs_up st a c Hv Hc Hf Hc0 HcN) as Hs1.
    rewrite (view_pv _ _ _ Hv1 Hc1).
    rewrite (u16_small (anx a c - c + (pbs + nbs))) by (rewrite (Hpbs2 Hfp); lia).
    replace (anx a c - c + (pbs + nbs)) with (anx (a_up c a) c - apv (a_up c a) c)
      by (rewrite Hpv1, (Hpbs2 Hfp); lia).
    assert (HcN1 : c <> aN (a_up c a) - 1) by lia.
    assert (Hfp1' : afr (a_up c a) (apv (a_up c a) c) = true).
    { rewrite Hpv1, Hfp1. exact Hfp. }
    rewrite <- (DATA_same_cfg st (umm_assimilate_up c st) c (cfg_assimilate_up c st)).
    destruct (down_spec (umm_assimilate_up c st) (a_up c a) c (umm_blocks size)
                ((anx a c - c) * UMM_BLOCKSIZE - header_size)
                Hv1 Hc1 Hf1 Hc0 HcN1 Hfp1')
      as (st' & a' & E & Hv' & Hs & Hc' & Hf' & Hn' & Hp0 & HpN' & Hself & Hu);
      [rewrite Hpv1; rewrite (Hpbs2 Hfp) in H5; lia | rewrite Hup; nia |].
    rewrite !Hpv1 in *.
    rewrite !(DATA_same_cfg st (umm_assimilate_up c st) _ (cfg_assimilate_up c st))
      in *.
    exists (UMM_DATA st (apv a c)), st'. split; [exact E|]. right.
    assert (Hs' : fr_step st a st' a' (fun q => q <> c)).
    { apply (fr_step_weaken st a _ _ (fun q => q <> c /\ q <> c)).
      - intros q x Hq _. auto.
      - apply (fr_step_trans st a _ _ _ _ _ _ Hs1 Hs). }
    apply (realloc_done_intro st a c _ _ _ a' (apv a c) Hv' Hs' eq_refl
             (or_intror Hfp) Hc' Hf' Hp0); [lia | exact Hn' | |].
    - intros off Ho1 Ho2. rewrite Hself by lia.
      assert (Hb : in_body st a c (UMM_DATA st c + off)).
      { unfold in_body. repeat split; auto; try lia.
        unfold UMM_DATA, UMM_BLOCK, header_size in *. nia. }
      apply (fr_assimilate_up st a c c _ Hv Hc Hf Hc0 HcN Hb).
    - intros q Hq. apply Hu in Hq. destruct Hq as [[Hq Hne]|Hq]; [|auto].
      left. split; [|exact Hne]. apply (cu_up c a q). exact Hq. }
  (* case 6 *)
  assert (Hsize' : 0 <= size < 4294967296) by lia.
  destruct (malloc_core_cases st a size Hv Hsize') as [[E _]|(cf & Hin & Hfit & E)].
  - rewrite E. simpl. unfold realloc_finish. rewrite Z.gtb_ltb, Z.ltb_irrefl.
    eexists. eexists. split; [reflexivity|]. left. auto.
  - rewrite E.
    destruct (view_fl_S _ _ _ Hv Hin) as [HcfS Hcff].
    pose proof (hinv_fl_range _ _ _ _ _ _ _ _ Hinv cf Hin) as Hcfr.
    destruct (Z.eqb_spec (UMM_DATA st cf) NULL) as [E0|_];
      [exfalso; revert E0; apply DATA_nonnull; [exact Hcfg | lia]|].
    destruct (move_spec st a c cf (umm_blocks size)
                ((anx a c - c) * UMM_BLOCKSIZE - header_size)
                Hv Hc Hf Hc0 HcN Hin)
      as (a' & Hv' & Hs & Hc' & Hf' & Hn' & Hself & Hu);
      [lia | lia | unfold header_size; nia |].
    cbv zeta in Hv', Hs, Hself.
    unfold realloc_finish. rewrite Z.gtb_ltb, Z.ltb_irrefl.
    eexists. eexists. split; [reflexivity|]. right.
    apply (realloc_done_intro st a c _ _ _ a' cf Hv' Hs eq_refl (or_intror Hcff)
             Hc' Hf'); [lia | lia | exact Hn' | | exact Hu].
    intros off Ho1 Ho2. apply Hself. lia.
Qed.

(** X9. [umm_realloc] of an allocated block to a size above 0 returns
    on every reachable heap: it either fails, returning null and the
    state it was given, or returns an allocated block of exactly
    [umm_blocks size] blocks, which holds [size] bytes, and whose
    contents are those of the old block up to the smaller of the old and
    the new usable size. *)
Theorem realloc_preserves_contents st p size :
  reachable st -> allocated st p = true -> 0 < size < 4294967296 ->
  exists p' st',
    umm_realloc p size st = Some (p', st') /\
    ((p' = NULL /\ st' = st) \/
     (p' <> NULL /\ allocated st' p' = true /\
      usable_size st' (block_of st' p')
      = umm_blocks size * UMM_BLOCKSIZE - header_size /\
      size <= usable_size st' (block_of st' p') /\
      (forall off, 0 <= off < usable_size st (block_of st p) ->
                   off < usable_size st' (block_of st' p') ->
         memory st' (p' + off) = memory st (p + off)))).
Proof.
  intros Hr Hp Hsize.
  destruct (reachable_inv st Hr) as [a Hv].
  destruct (allocated_extent st a p Hv Hp)
    as (c & Ep & Eb & Hc & Hf & Hc1 & Hlt & Hle & _ & Eu).
  destruct (realloc_spec st a c size Hv Hc Hf) as (p1 & st1 & E1 & Hres);
    [lia | lia | exact Hsize |].
  exists p1, st1. split; [rewrite Ep; exact E1|].
  destruct Hres as [(-> & -> & _)|Hdone]; [left; auto|].
  right.
  destruct Hdone
    as (a' & c' & Hv' & Hs & Ep' & _ & Hc' & Hf' & Hc0' & HcN' & Hn' & Hcont & _).
  destruct Hs as ((Ecfg & HN & _) & _).
  pose proof (view_S_range _ _ _ Hv' Hc') as Hrc'.
  pose proof (view_N_range _ _ Hv') as HNr'.
  destruct (view_next _ _ _ Hv' Hc') as (_ & Hn1 & _); [lia|].
  pose proof (view_S_range _ _ _ Hv' Hn1) as Hrn'.
  assert (Hb' : block_of st1 p1 = c').
  { rewrite Ep'. rewrite <- (DATA_same_cfg st st1 c' Ecfg).
    pose proof (view_N _ _ Hv').
    apply block_of_DATA; [apply Hv' | lia | lia]. }
  assert (Hu' : usable_size st1 c' = umm_blocks size * UMM_BLOCKSIZE - header_size).
  { unfold usable_size. rewrite (view_nxt _ _ _ Hv' Hc'), Hn'. f_equal. f_equal. lia. }
  rewrite Hb', Hu'.
  split; [|split; [|split; [|split]]].
  - rewrite Ep'. apply DATA_nonnull; [apply Hv | lia].
  - rewrite Ep'. rewrite <- (DATA_same_cfg st st1 c' Ecfg).
    apply (allocated_intro st1 a' c' Hv'); auto; lia.
  - reflexivity.
  - apply umm_blocks_covers; lia.
  - intros off Ho1 Ho2. rewrite Eb, Eu in Ho1. rewrite Ep. apply Hcont; lia.
Qed.

(** X10. [umm_realloc] of an allocated block leaves every other
    allocated block alone: it stays allocated, with the same usable size
    and the same contents. *)
Theorem realloc_keeps_others st p size p' st' q :
  reachable st -> allocated st p = true -> 0 < size < 4294967296 ->
  umm_realloc p size st = Some (p', st') ->
  allocated st q = true -> q <> p ->
  q <> p' /\ allocated st' q = true /\
  usable_size st' (block_of st' q) = usable_size st (block_of st q) /\
  (forall off, 0 <= off < usable_size st (block_of st q) ->
     memory st' (q + off) = memory st (q + off)).
Proof.
  intros Hr Hp Hsize E Hq Hqp.
  destruct (reachable_inv st Hr) as [a Hv].
  pose proof UMM_BLOCKSIZE_ge as HB.
  destruct (allocated_extent st a p Hv Hp)
    as (c & Ep & Eb & Hc & Hf & Hc1 & Hlt & Hle & _ & Eu).
  destruct (allocated_extent st a q Hv Hq)
    as (d & Eq & Ebq & Hd & Hfd & Hd1 & Hltd & Hled & _ & Euq).
  assert (Hdc : d <> c) by (intros ->; congruence).
  assert (Hqn : q <> NULL) by (rewrite Eq; apply DATA_nonnull; [apply Hv | lia]).
  destruct (realloc_spec st a c size Hv Hc Hf) as (p1 & st1 & E1 & Hres);
    [lia | lia | exact Hsize |].
  rewrite Ep in E. rewrite E1 in E. injection E as <- <-.
  destruct Hres as [(-> & -> & _)|Hdone]; [repeat split; auto|].
  destruct Hdone
    as (a' & c' & Hv' & Hs & Ep' & Hor & Hc' & Hf' & Hc0' & HcN' & Hn' & Hcont & _).
  destruct Hs as ((Ecfg & HN & Hs & _) & _).
  assert (Hb0 : in_body st a d q).
  { replace q with (q + 0) by lia. rewrite <- Ebq.
    apply allocated_in_body; auto. rewrite Ebq, Euq. unfold header_size. nia. }
  destruct (Hs d q Hdc Hb0) as ((Hd' & Hfd' & _) & Hx' & _).
  split; [|split; [|split]].
  - intros Eqp. rewrite Eq, Ep' in Eqp.
    assert (Edc' : d = c').
    { unfold UMM_DATA, UMM_BLOCK in Eqp. nia. }
    destruct Hor as [Ecc|Hfc']; [congruence | rewrite <- Edc' in Hfc'; congruence].
  - apply (allocated_keep st _ a a' q Hv Hv' Ecfg Hq); rewrite ?Ebq; auto.
  - apply (allocated_keep st _ a a' q Hv Hv' Ecfg Hq); rewrite ?Ebq; auto.
  - intros off Hoff.
    assert (Hb : in_body st a (block_of st q) (q + off))
      by (apply allocated_in_body; auto).
    rewrite Ebq in Hb. apply (Hs d _ Hdc Hb).
Qed.

(** ** The statistics of [umm_info] *)

Definition sum_list (l : list Z) : Z := fold_right Z.add 0 l.
Definition sum_squares (l : list Z) : Z := fold_right (fun n s => n * n + s) 0 l.
Definition max_list (l : list Z) : Z := fold_right Z.max 0 l.

(** The lengths of the free runs met from block [b] on. *)
Definition lens_from (fuel : nat) (st : umm_state) (b : Z) : list Z :=
  map (fun x => nxt st x - x) (filter (fun x => is_free st x) (chain_from fuel st b)).

Lemma chain_from_fuel st a :
  view st a ->
  forall f1 f2 b, aS a b ->
    (Z.to_nat (aN a - 1 - b) <= f1)%nat -> (Z.to_nat (aN a - 1 - b) <= f2)%nat ->
    chain_from f1 st b = chain_from f2 st b.
Proof.
  intros Hv. pose proof (view_ainv _ _ Hv) as Hinv.
  assert (Hlast : forall f b, aS a b -> b = aN a - 1 -> chain_from f st b = [b]).
  { intros f b Hb E. destruct f; [reflexivity|]. cbn [chain_from].
    rewrite (view_nxt _ _ _ Hv Hb). rewrite E.
    destruct Hinv. rewrite hi_nxlast0. reflexivity. }
  induction f1 as [|f1 IH]; intros f2 b Hb H1 H2.
  - pose proof (view_S_range _ _ _ Hv Hb).
    rewrite (Hlast 0%nat b Hb), (Hlast f2 b Hb) by lia. reflexivity.
  - destruct (Z.eq_dec b (aN a - 1)) as [E|HbN].
    { rewrite (Hlast (S f1) b Hb E), (Hlast f2 b Hb E). reflexivity. }
    pose proof (view_S_range _ _ _ Hv Hb).
    destruct f2 as [|f2]; [lia|].
    destruct (view_next _ _ _ Hv Hb HbN) as (Hlt & Hn & _).
    cbn [chain_from]. rewrite (view_nxt _ _ _ Hv Hb).
    destruct (Z.eqb_spec (anx a b) 0); [lia|].
    f_equal. apply IH; auto; lia.
Qed.

(** What the walk has counted when it stands at block [b]. *)
Definition counted (b : Z) (i : UMM_HEAP_INFO) : Prop :=
  totalBlocks i = b - 1 /\ usedBlocks i + freeBlocks i = b - 1 /\
  0 <= usedBlocks i /\ 0 <= freeBlocks i /\
  0 <= freeBlocksSquared i <= freeBlocks i * freeBlocks i /\
  0 <= maxFreeContiguousBlocks i <= freeBlocks i /\
  totalEntries i = usedEntries i + freeEntries i /\
  0 <= usedEntries i /\ 0 <= freeEntries i /\ totalEntries i <= b - 1.

Lemma info_walk_stats st a :
  view st a ->
  forall fuel b i, aS a b -> 1 <= b -> (Z.to_nat (aN a - 1 - b) <= fuel)%nat ->
    counted b i ->
    exists i',
      info_walk fuel st NULL b i = Some (false, i') /\ counted (aN a - 1) i' /\
      freeEntries i' = freeEntries i + Z.of_nat (length (lens_from fuel st b)) /\
      freeBlocks i' = freeBlocks i + sum_list (lens_from fuel st b) /\
      freeBlocksSquared i' = freeBlocksSquared i + sum_squares (lens_from fuel st b) /\
      maxFreeContiguousBlocks i'
      = Z.max (maxFreeContiguousBlocks i) (max_list (lens_from fuel st b)) /\
      usage_metric i' = usage_metric i /\
      fragmentation_metric i' = fragmentation_metric i.
Proof.
  intros Hv. pose proof (view_ainv _ _ Hv) as Hinv.
  pose proof (view_N_range _ _ Hv) as HNr.
  pose proof UMM_BLOCKSIZE_ge as HB.
  assert (Hlast : forall f b i, aS a b -> b = aN a - 1 -> counted b i ->
            exists i',
              info_walk f st NULL b i = Some (false, i') /\ counted (aN a - 1) i' /\
              freeEntries i' = freeEntries i + Z.of_nat (length (lens_from f st b)) /\
              freeBlocks i' = freeBlocks i + sum_list (lens_from f st b) /\
              freeBlocksSquared i' = freeBlocksSquared i + sum_squares (lens_from f st b) /\
              maxFreeContiguousBlocks i'
              = Z.max (maxFreeContiguousBlocks i) (max_list (lens_from f st b)) /\
              usage_metric i' = usage_metric i /\
              fragmentation_metric i' = fragmentation_metric i).
  { intros f b i Hb E Hi.
    assert (E0 : nxt st b = 0).
    { rewrite (view_nxt _ _ _ Hv Hb). rewrite E. destruct Hinv; auto. }
    assert (Ef : is_free st b = false).
    { rewrite (view_fr _ _ _ Hv Hb). rewrite E. destruct Hinv; auto. }
    exists i. rewrite (info_walk_end f st NULL b i E0).
    assert (EL : lens_from f st b = []).
    { unfold lens_from. destruct f; cbn [chain_from]; rewrite ?E0; simpl;
        rewrite Ef; reflexivity. }
    rewrite EL. simpl. rewrite <- E.
    destruct Hi as (H1 & H2 & H3 & H4 & H5 & H6 & H7).
    repeat split; try assumption; try lia; try tauto. }
  induction fuel as [|fuel IH]; intros b i Hb Hb1 Hfuel Hi.
  - pose proof (view_S_range _ _ _ Hv Hb). apply Hlast; auto. lia.
  - destruct (Z.eq_dec b (aN a - 1)) as [E|HbN]; [apply Hlast; auto|].
    pose proof (view_S_range _ _ _ Hv Hb) as Hrb.
    destruct (view_next _ _ _ Hv Hb HbN) as (Hlt & Hn & _).
    pose proof (view_S_range _ _ _ Hv Hn) as Hrn.
    rewrite info_walk_step.
    unfold lens_from. cbn [chain_from]. fold (lens_from fuel st (nxt st b)).
    rewrite (view_nxt _ _ _ Hv Hb).
    destruct (Z.eqb_spec (anx a b) 0); [lia|].
    rewrite (u32_small (anx a b - b)) by lia.
    replace (NULL =? UMM_BLOCK st b) with false.
    2: { symmetry. apply Z.eqb_neq. destruct Hv as ((Hh & _) & _).
         unfold NULL, UMM_BLOCK. nia. }
    destruct Hi as (H1 & H2 & H3 & H4 & H5 & H6 & H7 & H8 & H9 & H10).
    cbn [filter].
    destruct (is_free st b) eqn:Ef.
    + assert (Hi' : counted (anx a b) (count_free (anx a b - b) i)).
      { unfold counted, count_free; cbn.
        rewrite !u32_small by nia.
        destruct (Z.ltb_spec (maxFreeContiguousBlocks i) (anx a b - b));
          repeat split; try lia; try nia. }
      destruct (IH (anx a b) (count_free (anx a b - b) i) Hn) as
        (i' & E' & Hc' & F1 & F2 & F3 & F4 & F5 & F6); [lia | lia | exact Hi' |].
      exists i'. split; [exact E'|]. split; [exact Hc'|].
      unfold lens_from in *. cbn [map length sum_list sum_squares max_list fold_right].
      rewrite (view_nxt _ _ _ Hv Hb).
      fold (sum_list (map (fun x => nxt st x - x)
                        (filter (fun x => is_free st x) (chain_from fuel st (anx a b))))).
      fold (sum_squares (map (fun x => nxt st x - x)
                        (filter (fun x => is_free st x) (chain_from fuel st (anx a b))))).
      fold (max_list (map (fun x => nxt st x - x)
                        (filter (fun x => is_free st x) (chain_from fuel st (anx a b))))).
      rewrite F1, F2, F3, F4, F5, F6.
      unfold count_free; cbn.
      rewrite !u32_small by nia.
      destruct (Z.ltb_spec (maxFreeContiguousBlocks i) (anx a b - b));
        repeat split; try lia.
    + assert (Hi' : counted (anx a b) (count_used (anx a b - b) i)).
      { unfold counted, count_used; cbn.
        rewrite !u32_small by nia.
        repeat split; try lia; try nia. }
      destruct (IH (anx a b) (count_used (anx a b - b) i) Hn) as
        (i' & E' & Hc' & F1 & F2 & F3 & F4 & F5 & F6); [lia | lia | exact Hi' |].
      exists i'. split; [exact E'|]. split; [exact Hc'|].
      unfold lens_from in *.
      rewrite F1, F2, F3, F4, F5, F6.
      unfold count_used; cbn. repeat split; reflexivity.
Qed.

Lemma run_lengths_spec st a :
  view st a ->
  map snd (free_runs st) = lens_from (scan_fuel st) st 1.
Proof.
  intros Hv. pose proof (view_ainv _ _ Hv) as Hinv.
  pose proof (view_N_range _ _ Hv) as HNr. pose proof (view_N _ _ Hv) as HN.
  assert (HS0 : aS a 0) by (destruct Hinv; auto).
  assert (Hnx0 : anx a 0 = 1) by (destruct Hinv; auto).
  assert (Hf0 : afr a 0 = false) by (destruct Hinv; auto).
  pose proof (hinv_S1 _ _ _ _ _ _ _ _ Hinv) as HS1.
  unfold free_runs, chain, lens_from. rewrite map_map. cbn [snd].
  unfold scan_fuel. rewrite <- HN.
  destruct (Z.to_nat (aN a)) as [|f] eqn:Ef; [lia|].
  cbn [chain_from]. rewrite (view_nxt _ _ _ Hv HS0), Hnx0.
  cbn [Z.eqb filter]. rewrite (view_fr _ _ _ Hv HS0), Hf0.
  rewrite (chain_from_fuel st a Hv f (S f) 1 HS1) by lia.
  reflexivity.
Qed.

Lemma info_statistics st force :
  heap_inv st ->
  exists st',
    umm_info NULL force st = Some (NULL, st') /\
    memory st' = memory st /\ umm_heap_current st' = umm_heap_current st /\
    freeEntries (ummHeapInfo st') = Z.of_nat (length (free_runs st)) /\
    freeBlocks (ummHeapInfo st') = sum_list (map snd (free_runs st)) /\
    freeBlocksSquared (ummHeapInfo st') = sum_squares (map snd (free_runs st)) /\
    maxFreeContiguousBlocks (ummHeapInfo st') = max_list (map snd (free_runs st)) /\
    totalBlocks (ummHeapInfo st') = UMM_NUMBLOCKS st - 2 /\
    usedBlocks (ummHeapInfo st') + freeBlocks (ummHeapInfo st') = UMM_NUMBLOCKS st - 2 /\
    totalEntries (ummHeapInfo st')
    = usedEntries (ummHeapInfo st') + freeEntries (ummHeapInfo st').
Proof.
  intros [a Hv].
  pose proof (view_ainv _ _ Hv) as Hinv.
  pose proof (view_N_range _ _ Hv) as HNr. pose proof (view_N _ _ Hv) as HN.
  assert (HS0 : aS a 0) by (destruct Hinv; auto).
  assert (Hnx0 : anx a 0 = 1) by (destruct Hinv; auto).
  pose proof (hinv_S1 _ _ _ _ _ _ _ _ Hinv) as HS1.
  assert (Hc0 : counted 1 info_zero).
  { unfold counted, info_zero; cbn. lia. }
  destruct (info_walk_stats st a Hv (scan_fuel st) 1 info_zero HS1) as
    (i' & E & Hc & F1 & F2 & F3 & F4 & F5 & F6);
    [lia | unfold scan_fuel; rewrite <- HN; lia | exact Hc0 |].
  rewrite <- (run_lengths_spec st a Hv) in F1, F2, F3, F4.
  rewrite length_map in F1.
  unfold umm_info. cbv zeta. rewrite (view_nxt _ _ _ Hv HS0), Hnx0. rewrite E.
  eexists. split; [reflexivity|].
  unfold compute_fragmentation_metric, compute_usage_metric, with_info.
  cbn [ummHeapInfo memory umm_heap_current totalEntries usedEntries freeEntries
       totalBlocks usedBlocks freeBlocks freeBlocksSquared maxFreeContiguousBlocks].
  destruct Hc as (H1 & H2 & H3 & H4 & H5 & H6 & H7 & H8 & H9 & H10).
  unfold info_zero in F1, F2, F3, F4; cbn in F1, F2, F3, F4.
  split; [reflexivity|]. split; [reflexivity|].
  split; [exact F1|]. split; [exact F2|]. split; [exact F3|].
  split; [rewrite F4; pose proof (Z.le_max_l 0 (max_list (map snd (free_runs st)))) |].
  { assert (Hm : forall l, 0 <= max_list l).
    { induction l; simpl; lia. }
    specialize (Hm (map snd (free_runs st))). lia. }
  split; [lia|]. split; [lia|]. exact H7.
Qed.

(** X11. On a reachable heap [umm_info] with a null probe returns null,
    leaves the memory as it is, and its counts are those of the heap:
    the number, the total, the sum of squares and the greatest of the
    lengths of the free runs; the used and the free blocks add up to all
    blocks between the two end blocks. *)
Theorem umm_info_statistics st force :
  reachable st ->
  exists st',
    umm_info NULL force st = Some (NULL, st') /\
    memory st' = memory st /\ umm_heap_current st' = umm_heap_current st /\
    freeEntries (ummHeapInfo st') = Z.of_nat (length (free_runs st)) /\
    freeBlocks (ummHeapInfo st') = sum_list (map snd (free_runs st)) /\
    freeBlocksSquared (ummHeapInfo st') = sum_squares (map snd (free_runs st)) /\
    maxFreeContiguousBlocks (ummHeapInfo st') = max_list (map snd (free_runs st)) /\
    totalBlocks (ummHeapInfo st') = UMM_NUMBLOCKS st - 2 /\
    usedBlocks (ummHeapInfo st') + freeBlocks (ummHeapInfo st') = UMM_NUMBLOCKS st - 2 /\
    totalEntries (ummHeapInfo st')
    = usedEntries (ummHeapInfo st') + freeEntries (ummHeapInfo st').
Proof.
  intros Hr. apply info_statistics. apply reachable_inv. exact Hr.
Qed.

Lemma max_list_ge (l : list Z) (k : Z) :
  0 < k -> (k <= max_list l <-> exists x, In x l /\ k <= x).
Proof.
  intros Hk. induction l as [|y l IH]; simpl.
  - split; [lia | intros (x & [] & _)].
  - split.
    + intros H. destruct (Z.le_gt_cases k y) as [Hy|Hy].
      * exists y. auto.
      * assert (Hl : k <= max_list l) by (unfold max_list in *; lia).
        apply IH in Hl. destruct Hl as (x & Hx & Hle). exists x. auto.
    + intros (x & [->|Hx] & Hle); [lia|].
      assert (Hl : k <= max_list l) by (apply IH; exists x; auto).
      unfold max_list in *. lia.
Qed.

Lemma max_list_bounds (l : list Z) (m : Z) :
  0 <= m -> (forall x, In x l -> x <= m) -> 0 <= max_list l <= m.
Proof.
  intros Hm. induction l as [|y l IH]; simpl; intros H; [lia|].
  assert (y <= m) by (apply H; auto).
  assert (0 <= max_list l <= m) by (apply IH; intros; apply H; auto).
  unfold max_list in *. lia.
Qed.

(** X12. [umm_max_free_block_size] returns the length of the longest free
    run in bytes, and [umm_malloc] of a size above 0 succeeds exactly when
    that many bytes hold the [umm_blocks size] blocks it needs. *)
Theorem malloc_succeeds_iff_fits st size :
  reachable st -> 0 < size < 4294967296 ->
  exists p st' s,
    umm_malloc size st = Some (p, st') /\
    umm_max_free_block_size st
    = Some (max_list (map snd (free_runs st)) * UMM_BLOCKSIZE, s) /\
    (p <> NULL <->
     umm_blocks size * UMM_BLOCKSIZE
     <= max_list (map snd (free_runs st)) * UMM_BLOCKSIZE).
Proof.
  intros Hr Hsize.
  destruct (reachable_inv st Hr) as [a Hv].
  pose proof (view_ainv _ _ Hv) as Hinv.
  pose proof UMM_BLOCKSIZE_ge as HB.
  pose proof (view_N_range _ _ Hv) as HNr. pose proof (view_N _ _ Hv) as HN.
  destruct (info_statistics st false (reachable_inv st Hr))
    as (s & Ei & _ & _ & _ & _ & _ & F4 & _).
  assert (Hsize' : 0 <= size < 4294967296) by lia.
  pose proof (umm_blocks_range size Hsize') as Hk.
  assert (Hfit : (exists c, In c (afl a) /\ umm_blocks size <= anx a c - c) <->
                 umm_blocks size <= max_list (map snd (free_runs st))).
  { rewrite max_list_ge by lia. split.
    - intros (c & Hc & Hle). exists (anx a c - c). split; [|exact Hle].
      apply in_map_iff. exists (c, anx a c - c). split; [reflexivity|].
      apply (free_runs_spec st a c _ Hv).
      destruct (view_fl_S _ _ _ Hv Hc). auto.
    - intros (x & Hx & Hle). apply in_map_iff in Hx.
      destruct Hx as ([i len] & E & Hin). simpl in E. subst len.
      apply (free_runs_spec st a i x Hv) in Hin. destruct Hin as (Hi & Hf & ->).
      exists i. split; [|exact Hle]. destruct Hinv. apply hi_mem0. auto. }
  assert (Hmax : 0 <= max_list (map snd (free_runs st)) <= aN a).
  { apply max_list_bounds; [lia|]. intros x Hx. apply in_map_iff in Hx.
    destruct Hx as ([i len] & E & Hin). simpl in E. subst len.
    apply (free_runs_spec st a i x Hv) in Hin. destruct Hin as (Hi & Hf & ->).
    destruct (hinv_free_inner _ _ _ _ _ _ _ _ Hinv _ Hi Hf) as [_ HiN].
    destruct (view_next _ _ _ Hv Hi HiN) as (_ & Hn & _).
    pose proof (view_S_range _ _ _ Hv Hi). pose proof (view_S_range _ _ _ Hv Hn).
    lia. }
  unfold umm_malloc. destruct (Z.eqb_spec size 0); [lia|].
  unfold umm_max_free_block_size. rewrite Ei. rewrite F4.
  assert (Hprod : 0 <= max_list (map snd (free_runs st)) * UMM_BLOCKSIZE < 4294967296).
  { destruct Hv as ((Hh & Hs & He) & _). rewrite HN in Hmax. nia. }
  rewrite (u32_small _ Hprod).
  destruct (malloc_core_cases st a size Hv Hsize') as [[E Hno]|(cf & Hin & Hle & E)];
    rewrite E.
  - exists NULL, st, s. split; [reflexivity|]. split; [reflexivity|].
    split; [intros H; contradiction|].
    intros Hle. exfalso.
    assert (Hk' : umm_blocks size <= max_list (map snd (free_runs st))) by nia.
    apply Hfit in Hk'. destruct Hk' as (c & Hc & Hc'). specialize (Hno c Hc). lia.
  - eexists. eexists. exists s. split; [reflexivity|]. split; [reflexivity|].
    split.
    + intros _.
      assert (Hk' : umm_blocks size <= max_list (map snd (free_runs st))).
      { apply Hfit. exists cf. auto. }
      nia.
    + intros _. apply DATA_nonnull; [apply Hv|].
      pose proof (hinv_fl_range _ _ _ _ _ _ _ _ Hinv cf Hin). lia.
Qed.

(** ** umm_integrity_check *)

(** The first loop of [umm_integrity_check]: along the free list, check
    each back link and mark the block in its [prev] field.  The boolean
    is [ok]. *)
Fixpoint integrity_free_loop (fuel : nat) (st : umm_state) (prev : Z)
  : option (bool * umm_state) :=
  match fuel with
  | O => None
  | S fuel' =>
      let cur := UMM_NFREE st prev in
      if cur >=? UMM_NUMBLOCKS st then Some (false, st)
      else if cur =? 0 then Some (true, st)
      else if negb (UMM_PFREE st cur =? prev) then Some (false, st)
      else
        let st := set PBLOCK cur (Z.lor (UMM_PBLOCK st cur) UMM_FREELIST_MASK) st in
        integrity_free_loop fuel' st cur
  end.

(** The second loop: along the block chain, compare the mark with the
    free flag, check the order, remove the mark and check the back link. *)
Fixpoint integrity_chain_loop (fuel : nat) (st : umm_state) (prev : Z)
  : option (bool * umm_state) :=
  match fuel with
  | O => None
  | S fuel' =>
      let cur := Z.land (UMM_NBLOCK st prev) UMM_BLOCKNO_MASK in
      if cur >=? UMM_NUMBLOCKS st then Some (false, st)
      else if cur =? 0 then Some (true, st)
      else if negb (Z.land (UMM_NBLOCK st cur) UMM_FREELIST_MASK
                    =? Z.land (UMM_PBLOCK st cur) UMM_FREELIST_MASK)
      then Some (false, st)
      else if cur <=? prev then Some (false, st)
      else
        let st := set PBLOCK cur (Z.land (UMM_PBLOCK st cur) UMM_BLOCKNO_MASK) st in
        if negb (UMM_PBLOCK st cur =? prev) then Some (false, st)
        else integrity_chain_loop fuel' st cur
  end.

(** [umm_integrity_check].  On failure the source calls the hook
    [UMM_HEAP_CORRUPTION_CB] of the host, which is not part of the
    allocator; the result is the value of [ok]. *)
Definition umm_integrity_check (st : umm_state) : option (bool * umm_state) :=
  match integrity_free_loop (S (scan_fuel st)) st 0 with
  | None => None
  | Some (false, st) => Some (false, st)
  | Some (true, st) => integrity_chain_loop (S (scan_fuel st)) st 0
  end.

(** A state that differs from [st] by the marks [mk] alone. *)
Definition marked_state (st s : umm_state) (mk : Z -> bool) : Prop :=
  umm_heap_current s = umm_heap_current st /\ ummHeapInfo s = ummHeapInfo st /\
  (forall x, get PBLOCK s x
             = if mk x then Z.lor (get PBLOCK st x) UMM_FREELIST_MASK
               else get PBLOCK st x) /\
  (forall f x, f <> PBLOCK -> get f s x = get f st x) /\
  (forall y, (forall b, mk b = true ->
                        y <> UMM_BLOCK st b + 2 /\ y <> UMM_BLOCK st b + 3) ->
             memory s y mod 256 = memory st y mod 256).

Lemma marked_state_ext st s mk mk' :
  (forall x, mk' x = mk x) -> marked_state st s mk -> marked_state st s mk'.
Proof.
  intros E (H1 & H2 & H3 & H4 & H5).
  split; [exact H1|]. split; [exact H2|]. split; [|split; [exact H4|]].
  - intros x. rewrite E. apply H3.
  - intros y Hy. apply H5. intros b Hb. apply Hy. rewrite E. exact Hb.
Qed.

Lemma marked_state_refl st : marked_state st st (fun _ => false).
Proof. unfold marked_state. repeat split; auto. Qed.

Lemma store16_restores m m0 a y :
  (y = a \/ y = a + 1) ->
  store16 m a (load16 m0 a) y mod 256 = m0 y mod 256.
Proof.
  intros Hy. unfold store16, store8.
  rewrite (u16_small (load16 m0 a)) by apply load16_range.
  unfold load16.
  pose proof (Z.mod_pos_bound (m0 a) 256).
  pose proof (Z.mod_pos_bound (m0 (a + 1)) 256).
  destruct Hy as [->| ->].
  - destruct (Z.eqb_spec a (a + 1)); [lia|]. rewrite Z.eqb_refl.
    rewrite Z.mod_mod by lia.
    rewrite Z.mul_comm, Z.mod_add by lia. apply Z.mod_mod. lia.
  - rewrite Z.eqb_refl. rewrite Z.mod_mod by lia.
    rewrite Z.mul_comm, Z.div_add by lia.
    rewrite (Z.div_small (m0 a mod 256)) by lia. rewrite Z.add_0_l.
    apply Z.mod_mod. lia.
Qed.

Lemma UMM_BLOCK_cfg st s b :
  umm_heap_current s = umm_heap_current st -> UMM_BLOCK s b = UMM_BLOCK st b.
Proof. intros E. unfold UMM_BLOCK, UMM_HEAP. rewrite E. reflexivity. Qed.

(** The two loops on a state [B] whose [next] fields and free-list
    [next] links are those of a well-formed heap [a]; what the [prev]
    fields and the free-list [prev] links hold is left open. *)
Section Integrity.

Variables (B : umm_state) (a : aheap).
Hypothesis Hinv : ainv a.
Hypothesis HN : aN a = UMM_NUMBLOCKS B.
Hypothesis HNF : forall x, x = 0 \/ In x (afl a) -> get NFREE B x = anf a x.
Hypothesis HNB : forall x, aS a x ->
  get NBLOCK B x = anx a x + (if afr a x then 32768 else 0).
Hypothesis HPB : forall x, aS a x -> 0 < x -> 0 <= get PBLOCK B x < 32768.

Lemma ring_S x : In x (afl a) -> aS a x /\ afr a x = true.
Proof. intros Hx. destruct Hinv. apply hi_mem0. exact Hx. Qed.

Lemma B_nxt x : aS a x -> nxt B x = anx a x.
Proof.
  intros Hx. rewrite (HNB x Hx). apply decode_idx.
  pose proof (hinv_nx_range _ _ _ _ _ _ _ _ Hinv x Hx). destruct Hinv. lia.
Qed.

Lemma B_flag x :
  aS a x -> Z.land (get NBLOCK B x) UMM_FREELIST_MASK = if afr a x then 32768 else 0.
Proof.
  intros Hx. rewrite (HNB x Hx).
  pose proof (hinv_nx_range _ _ _ _ _ _ _ _ Hinv x Hx).
  assert (HNr : 3 <= aN a <= 32767) by (destruct Hinv; auto).
  rewrite land_freemask by (destruct (afr a x); lia).
  destruct (afr a x).
  - destruct (Z.ltb_spec (anx a x + 32768) 32768); [lia | reflexivity].
  - destruct (Z.ltb_spec (anx a x + 0) 32768); [reflexivity | lia].
Qed.

(** Marking one more block. *)
Lemma marked_state_mark s mk x :
  In x (afl a) -> mk x = false ->
  marked_state B s mk ->
  marked_state B
    (set PBLOCK x (Z.lor (UMM_PBLOCK s x) UMM_FREELIST_MASK) s)
    (fun y => mk y || (y =? x)).
Proof.
  intros Hx Hmk (H1 & H2 & H3 & H4 & H5).
  destruct (ring_S x Hx) as [HS _].
  pose proof (hinv_fl_range _ _ _ _ _ _ _ _ Hinv x Hx) as Hxr.
  pose proof (HPB x HS (proj1 Hxr)) as Hr.
  pose proof (H3 x) as E3. rewrite Hmk in E3.
  split; [rewrite cfg_set; exact H1|]. split; [exact H2|].
  split; [|split].
  - intros y. rewrite get_set_eq. destruct (Z.eqb_spec y x) as [->|Hne].
    + rewrite orb_true_r. rewrite E3. apply u16_lor_free. exact Hr.
    + rewrite orb_false_r. apply H3.
  - intros f y Hf. rewrite get_set_diff by congruence. apply H4. exact Hf.
  - intros y Hy.
    rewrite memory_set.
    + apply H5. intros b Hb. apply Hy. rewrite Hb. reflexivity.
    + assert (Hyx : y <> UMM_BLOCK B x + 2 /\ y <> UMM_BLOCK B x + 3).
      { apply Hy. rewrite Z.eqb_refl. apply orb_true_r. }
      rewrite (UMM_BLOCK_cfg B s) by exact H1. simpl. lia.
Qed.

(** One round of the first loop at the ring member [x] behind [p]. *)
Lemma free_loop_step fuel s mk p x :
  (p = 0 \/ In p (afl a)) -> In x (afl a) -> anf a p = x ->
  marked_state B s mk ->
  integrity_free_loop (S fuel) s p =
  if negb (UMM_PFREE B x =? p) then Some (false, s)
  else integrity_free_loop fuel
         (set PBLOCK x (Z.lor (UMM_PBLOCK s x) UMM_FREELIST_MASK) s) x.
Proof.
  intros Hp Hx E1 (H1 & H2 & H3 & H4 & H5).
  pose proof (hinv_fl_range _ _ _ _ _ _ _ _ Hinv x Hx) as Hxr.
  cbn [integrity_free_loop]. cbv zeta.
  rewrite (H4 NFREE p) by congruence.
  rewrite (HNF p Hp). rewrite E1.
  unfold UMM_NUMBLOCKS at 1. rewrite H1. fold (UMM_NUMBLOCKS B). rewrite <- HN.
  destruct (Z.geb_spec x (aN a)); [lia|].
  destruct (Z.eqb_spec x 0); [lia|].
  rewrite (H4 PFREE x) by congruence. reflexivity.
Qed.

(** The first loop succeeds where the free-list [prev] links are right,
    and marks the blocks of the free list. *)
Lemma integrity_free_loop_ok :
  forall l fuel p s mk,
    links (anf a) (apf a) p l ->
    (p = 0 \/ In p (afl a)) ->
    (forall x, In x l -> In x (afl a)) ->
    (forall x, In x l -> UMM_PFREE B x = apf a x) ->
    NoDup l ->
    (forall x, In x l -> mk x = false) ->
    marked_state B s mk ->
    (length l < fuel)%nat ->
    exists s' mk',
      integrity_free_loop fuel s p = Some (true, s') /\
      (forall y, mk' y = mk y || existsb (Z.eqb y) l) /\
      marked_state B s' mk'.
Proof.
  assert (HNr : 3 <= aN a <= 32767) by (destruct Hinv; auto).
  induction l as [|x l IH]; intros fuel p s mk Hl Hp Hsub Hpf Hnd Hmk Hm Hfuel.
  - destruct fuel; [simpl in Hfuel; lia|].
    pose proof Hm as (H1 & H2 & H3 & H4 & H5).
    exists s, mk. split; [|split].
    + cbn [integrity_free_loop]. cbv zeta.
      rewrite (H4 NFREE p) by congruence.
      rewrite (HNF p Hp). rewrite (proj1 Hl).
      unfold UMM_NUMBLOCKS. rewrite H1. fold (UMM_NUMBLOCKS B). rewrite <- HN.
      destruct (Z.geb_spec 0 (aN a)); [lia|]. reflexivity.
    + intros y. simpl. rewrite orb_false_r. reflexivity.
    + exact Hm.
  - destruct fuel; [simpl in Hfuel; lia|].
    simpl in Hl. destruct Hl as (E1 & E2 & Hl).
    assert (Hx : In x (afl a)) by (apply Hsub; left; reflexivity).
    apply NoDup_cons_iff in Hnd. destruct Hnd as [Hnin Hnd'].
    assert (Hmk' : forall y, In y l -> mk y || (y =? x) = false).
    { intros y Hy. rewrite (Hmk y (or_intror Hy)).
      destruct (Z.eqb_spec y x); [subst; contradiction | reflexivity]. }
    assert (Hf' : (length l < fuel)%nat) by (simpl in Hfuel; lia).
    pose proof (marked_state_mark s mk x Hx (Hmk x (or_introl eq_refl)) Hm) as Hm'.
    destruct (IH fuel x _ _ Hl (or_intror Hx)
                (fun y Hy => Hsub y (or_intror Hy))
                (fun y Hy => Hpf y (or_intror Hy)) Hnd'
                Hmk' Hm' Hf')
      as (s' & mk' & Er & Emk & Hm'').
    exists s', mk'. split; [|split; [|exact Hm'']].
    + rewrite (free_loop_step fuel s mk p x Hp Hx E1 Hm).
      rewrite (Hpf x (or_introl eq_refl)), E2, Z.eqb_refl. exact Er.
    + intros y. rewrite Emk. cbn [existsb]. rewrite orb_assoc. reflexivity.
Qed.

(** The first loop fails when a free-list [prev] link is wrong. *)
Lemma integrity_free_loop_bad :
  forall l fuel p s mk,
    links (anf a) (apf a) p l ->
    (p = 0 \/ In p (afl a)) ->
    (forall x, In x l -> In x (afl a)) ->
    NoDup l ->
    (forall x, In x l -> mk x = false) ->
    marked_state B s mk ->
    (length l < fuel)%nat ->
    (exists c, In c l /\ UMM_PFREE B c <> apf a c) ->
    exists s', integrity_free_loop fuel s p = Some (false, s').
Proof.
  induction l as [|x l IH]; intros fuel p s mk Hl Hp Hsub Hnd Hmk Hm Hfuel Hbad.
  - destruct Hbad as (c & [] & _).
  - destruct fuel; [simpl in Hfuel; lia|].
    simpl in Hl. destruct Hl as (E1 & E2 & Hl).
    assert (Hx : In x (afl a)) by (apply Hsub; left; reflexivity).
    apply NoDup_cons_iff in Hnd. destruct Hnd as [Hnin Hnd'].
    rewrite (free_loop_step fuel s mk p x Hp Hx E1 Hm).
    destruct (Z.eqb_spec (UMM_PFREE B x) p) as [Eok|Ebad].
    + cbn [negb].
      assert (Hmk' : forall y, In y l -> mk y || (y =? x) = false).
      { intros y Hy. rewrite (Hmk y (or_intror Hy)).
        destruct (Z.eqb_spec y x); [subst; contradiction | reflexivity]. }
      assert (Hf' : (length l < fuel)%nat) by (simpl in Hfuel; lia).
      pose proof (marked_state_mark s mk x Hx (Hmk x (or_introl eq_refl)) Hm) as Hm'.
      apply (IH fuel x _ _ Hl (or_intror Hx)
               (fun y Hy => Hsub y (or_intror Hy)) Hnd' Hmk' Hm' Hf').
      destruct Hbad as (c & [->|Hc] & Hne).
      * exfalso. apply Hne. rewrite E2. exact Eok.
      * exists c. auto.
    + cbn [negb]. exists s. reflexivity.
Qed.

(** Writing the [prev] field of a block again removes its mark. *)
Lemma marked_state_unmark s mk c :
  marked_state B s mk ->
  marked_state B (set PBLOCK c (UMM_PBLOCK B c) s) (fun y => mk y && negb (y =? c)).
Proof.
  intros (H1 & H2 & H3 & H4 & H5).
  split; [rewrite cfg_set; exact H1|]. split; [exact H2|].
  split; [|split].
  - intros y. rewrite get_set_eq. destruct (Z.eqb_spec y c) as [->|Hne].
    + rewrite andb_false_r. apply u16_get.
    + rewrite andb_true_r. apply H3.
  - intros f y Hf. rewrite get_set_diff by congruence. apply H4. exact Hf.
  - intros y Hy.
    destruct (Z.eq_dec y (UMM_BLOCK B c + 2)) as [E2|N2];
      [|destruct (Z.eq_dec y (UMM_BLOCK B c + 3)) as [E3|N3]].
    + unfold set, with_memory. cbn [memory].
      rewrite (UMM_BLOCK_cfg B s) by exact H1.
      unfold get. apply store16_restores. left. exact E2.
    + unfold set, with_memory. cbn [memory].
      rewrite (UMM_BLOCK_cfg B s) by exact H1.
      unfold get. apply store16_restores. right. rewrite E3. simpl. lia.
    + rewrite memory_set.
      * apply H5. intros b Hb. destruct (Z.eq_dec b c) as [->|Hbc]; [auto|].
        apply Hy. rewrite Hb. destruct (Z.eqb_spec b c); [contradiction | reflexivity].
      * rewrite (UMM_BLOCK_cfg B s) by exact H1. simpl. lia.
Qed.

(** One round of the second loop at a block [prev] that is not the last. *)
Lemma chain_loop_step fuel s mk prev :
  aS a prev -> prev <> aN a - 1 ->
  (forall y, mk y = true <-> In y (afl a) /\ prev < y) ->
  marked_state B s mk ->
  integrity_chain_loop (S fuel) s prev =
  if negb (UMM_PBLOCK B (anx a prev) =? prev)
  then Some (false, set PBLOCK (anx a prev) (UMM_PBLOCK B (anx a prev)) s)
  else integrity_chain_loop fuel
         (set PBLOCK (anx a prev) (UMM_PBLOCK B (anx a prev)) s) (anx a prev).
Proof.
  intros HS Hnl Hmk (H1 & H2 & H3 & H4 & H5).
  assert (HNr : 3 <= aN a <= 32767) by (destruct Hinv; auto).
  assert (Hnext : prev < anx a prev /\ aS a (anx a prev)).
  { destruct Hinv. destruct (hi_next0 prev HS Hnl) as (Hlt & Hn & _). auto. }
  destruct Hnext as [Hlt HSc].
  assert (Hcr : 0 <= anx a prev <= aN a - 1) by (destruct Hinv; auto).
  assert (Hp0 : 0 <= prev) by (destruct Hinv; apply hi_range0; auto).
  assert (Hc0 : 0 < anx a prev) by lia.
  pose proof (HPB _ HSc Hc0) as Hpr.
  cbn [integrity_chain_loop]. cbv zeta.
  rewrite (H4 NBLOCK prev) by congruence.
  rewrite (B_nxt prev HS).
  unfold UMM_NUMBLOCKS at 1. rewrite H1. fold (UMM_NUMBLOCKS B). rewrite <- HN.
  set (cur := anx a prev) in *.
  destruct (Z.geb_spec cur (aN a)); [lia|].
  destruct (Z.eqb_spec cur 0); [lia|].
  rewrite (H4 NBLOCK cur) by congruence.
  rewrite (B_flag cur HSc).
  rewrite (H3 cur).
  assert (Emk : mk cur = afr a cur).
  { destruct (afr a cur) eqn:Ef.
    - apply Hmk. split; [|lia]. destruct Hinv. apply hi_mem0. auto.
    - destruct (mk cur) eqn:E; [|reflexivity].
      apply Hmk in E. destruct E as [Hin _].
      destruct (ring_S _ Hin) as [_ Hf]. congruence. }
  rewrite Emk.
  assert (Eflag : (if afr a cur then 32768 else 0)
                  = Z.land (if afr a cur then Z.lor (UMM_PBLOCK B cur) UMM_FREELIST_MASK
                            else UMM_PBLOCK B cur) UMM_FREELIST_MASK).
  { destruct (afr a cur).
    - rewrite lor_freemask by lia. rewrite land_freemask by lia.
      destruct (Z.ltb_spec (UMM_PBLOCK B cur + 32768) 32768); [lia | reflexivity].
    - rewrite land_freemask by lia.
      destruct (Z.ltb_spec (UMM_PBLOCK B cur) 32768); [reflexivity | lia]. }
  rewrite <- Eflag. rewrite Z.eqb_refl. cbn [negb].
  destruct (Z.leb_spec cur prev); [lia|].
  assert (Eidx : Z.land (if afr a cur then Z.lor (UMM_PBLOCK B cur) UMM_FREELIST_MASK
                         else UMM_PBLOCK B cur) UMM_BLOCKNO_MASK = UMM_PBLOCK B cur).
  { destruct (afr a cur).
    - apply idx_of_free. lia.
    - apply idx_of_used. lia. }
  rewrite Eidx.
  rewrite get_set_eq, Z.eqb_refl. rewrite u16_get. reflexivity.
Qed.

Lemma chain_loop_marks mk prev :
  aS a prev -> prev <> aN a - 1 ->
  (forall y, mk y = true <-> In y (afl a) /\ prev < y) ->
  forall y, mk y && negb (y =? anx a prev) = true <-> In y (afl a) /\ anx a prev < y.
Proof.
  intros HS Hnl Hmk y.
  rewrite andb_true_iff, negb_true_iff, Z.eqb_neq, Hmk.
  destruct Hinv. destruct (hi_next0 prev HS Hnl) as (Hlt & Hn & _).
  split.
  - intros [[Hin Hy] Hne]. split; [exact Hin|].
    apply hi_mem0 in Hin. destruct Hin as [HSy _].
    pose proof (hi_gap0 _ _ HS HSy Hy). lia.
  - intros [Hin Hy]. split; [split; [exact Hin | lia] | lia].
Qed.

(** The second loop succeeds where the [prev] fields are right, and
    removes the marks. *)
Lemma integrity_chain_loop_ok :
  forall fuel prev s mk,
    aS a prev ->
    (forall x, aS a x -> prev < x -> UMM_PBLOCK B x = apv a x) ->
    (forall y, mk y = true <-> In y (afl a) /\ prev < y) ->
    marked_state B s mk ->
    (Z.to_nat (aN a - 1 - prev) < fuel)%nat ->
    exists s',
      integrity_chain_loop fuel s prev = Some (true, s') /\
      marked_state B s' (fun _ => false).
Proof.
  assert (HNr : 3 <= aN a <= 32767) by (destruct Hinv; auto).
  induction fuel as [|fuel IH]; intros prev s mk HS Hpb Hmk Hm Hfuel; [lia|].
  assert (Hpr : 0 <= prev <= aN a - 1) by (destruct Hinv; auto).
  destruct (Z.eq_dec prev (aN a - 1)) as [->|Hnl].
  - pose proof Hm as (H1 & H2 & H3 & H4 & H5).
    cbn [integrity_chain_loop]. cbv zeta.
    rewrite (H4 NBLOCK (aN a - 1)) by congruence.
    rewrite (B_nxt _ HS).
    unfold UMM_NUMBLOCKS at 1. rewrite H1. fold (UMM_NUMBLOCKS B). rewrite <- HN.
    assert (E0 : anx a (aN a - 1) = 0) by (destruct Hinv; auto).
    rewrite E0.
    destruct (Z.geb_spec 0 (aN a)); [lia|]. cbn [Z.eqb].
    exists s. split; [reflexivity|].
    apply (marked_state_ext B s mk); [|exact Hm].
    intros x. destruct (mk x) eqn:E; [|reflexivity].
    apply Hmk in E. destruct E as [Hin Hlt].
    pose proof (hinv_fl_range _ _ _ _ _ _ _ _ Hinv x Hin). lia.
  - assert (Hnext : prev < anx a prev /\ aS a (anx a prev) /\ apv a (anx a prev) = prev).
    { destruct Hinv. apply hi_next0; auto. }
    destruct Hnext as (Hlt & HSc & Epv).
    assert (Hcr : 0 <= anx a prev <= aN a - 1) by (destruct Hinv; auto).
    rewrite (chain_loop_step fuel s mk prev HS Hnl Hmk Hm).
    assert (Eok : UMM_PBLOCK B (anx a prev) = prev).
    { rewrite (Hpb _ HSc Hlt). exact Epv. }
    destruct (Z.eqb_spec (UMM_PBLOCK B (anx a prev)) prev); [|contradiction].
    cbn [negb].
    apply (IH (anx a prev) _ (fun y => mk y && negb (y =? anx a prev))).
    + exact HSc.
    + intros x Hx Hxl. apply Hpb; [exact Hx | lia].
    + apply chain_loop_marks; auto.
    + apply marked_state_unmark. exact Hm.
    + lia.
Qed.

(** The second loop fails when a [prev] field is wrong. *)
Lemma integrity_chain_loop_bad :
  forall fuel prev s mk,
    aS a prev ->
    (forall y, mk y = true <-> In y (afl a) /\ prev < y) ->
    marked_state B s mk ->
    (Z.to_nat (aN a - 1 - prev) < fuel)%nat ->
    (exists c, aS a c /\ prev < c /\ UMM_PBLOCK B c <> apv a c) ->
    exists s', integrity_chain_loop fuel s prev = Some (false, s').
Proof.
  assert (HNr : 3 <= aN a <= 32767) by (destruct Hinv; auto).
  induction fuel as [|fuel IH]; intros prev s mk HS Hmk Hm Hfuel Hbad; [lia|].
  assert (Hpr : 0 <= prev <= aN a - 1) by (destruct Hinv; auto).
  assert (Hnl : prev <> aN a - 1).
  { intros ->. destruct Hbad as (c & Hc & Hlt & _).
    assert (0 <= c <= aN a - 1) by (destruct Hinv; auto). lia. }
  assert (Hnext : prev < anx a prev /\ aS a (anx a prev) /\ apv a (anx a prev) = prev).
  { destruct Hinv. apply hi_next0; auto. }
  destruct Hnext as (Hlt & HSc & Epv).
  assert (Hcr : 0 <= anx a prev <= aN a - 1) by (destruct Hinv; auto).
  rewrite (chain_loop_step fuel s mk prev HS Hnl Hmk Hm).
  destruct (Z.eqb_spec (UMM_PBLOCK B (anx a prev)) prev) as [Eok|Ebad].
  - cbn [negb].
    apply (IH (anx a prev) _ (fun y => mk y && negb (y =? anx a prev))).
    + exact HSc.
    + apply chain_loop_marks; auto.
    + apply marked_state_unmark. exact Hm.
    + lia.
    + destruct Hbad as (c & Hc & Hpc & Hne).
      exists c. split; [exact Hc|]. split; [|exact Hne].
      assert (Hge : anx a prev <= c) by (destruct Hinv; eauto).
      destruct (Z.eq_dec c (anx a prev)) as [->|Hcn]; [|lia].
      exfalso. apply Hne. rewrite Epv. exact Eok.
  - cbn [negb]. eexists. reflexivity.
Qed.

Lemma ring_fuel : (length (afl a) < S (scan_fuel B))%nat.
Proof.
  assert (HNr : 3 <= aN a <= 32767) by (destruct Hinv; auto).
  assert (H : (length (afl a) <= scan_fuel B)%nat); [|lia].
  unfold scan_fuel. rewrite <- HN. apply NoDup_bounded_length.
  - destruct Hinv; auto.
  - intros x Hx. pose proof (hinv_fl_range _ _ _ _ _ _ _ _ Hinv x Hx). lia.
Qed.

Lemma ring_marks mk :
  (forall y, mk y = false || existsb (Z.eqb y) (afl a)) ->
  forall y, mk y = true <-> In y (afl a) /\ 0 < y.
Proof.
  intros Emk y. rewrite Emk. cbn [orb]. rewrite existsb_exists. split.
  - intros (z & Hz & Eyz). apply Z.eqb_eq in Eyz. subst z.
    split; [exact Hz|]. pose proof (hinv_fl_range _ _ _ _ _ _ _ _ Hinv y Hz). lia.
  - intros [Hin _]. exists y. split; [exact Hin | apply Z.eqb_refl].
Qed.

(** The check passes when all [prev] links are right. *)
Lemma integrity_ok :
  (forall x, In x (afl a) -> UMM_PFREE B x = apf a x) ->
  (forall x, aS a x -> 0 < x -> UMM_PBLOCK B x = apv a x) ->
  exists s, umm_integrity_check B = Some (true, s) /\
            marked_state B s (fun _ => false).
Proof.
  intros Hpf Hpb.
  assert (HNr : 3 <= aN a <= 32767) by (destruct Hinv; auto).
  destruct (integrity_free_loop_ok (afl a) (S (scan_fuel B)) 0 B (fun _ => false))
    as (s1 & mk1 & E1 & Emk1 & Hm1); auto.
  - destruct Hinv; auto.
  - destruct Hinv; auto.
  - apply marked_state_refl.
  - apply ring_fuel.
  - assert (Ef : scan_fuel s1 = scan_fuel B).
    { destruct Hm1 as (C1 & _). unfold scan_fuel, UMM_NUMBLOCKS. rewrite C1. reflexivity. }
    destruct (integrity_chain_loop_ok (S (scan_fuel B)) 0 s1 mk1)
      as (s2 & E2 & Hm2); auto.
    + destruct Hinv; auto.
    + apply ring_marks. exact Emk1.
    + unfold scan_fuel. rewrite <- HN. lia.
    + exists s2. split; [|exact Hm2].
      unfold umm_integrity_check. rewrite E1. rewrite Ef. exact E2.
Qed.

(** The check fails when a free-list [prev] link is wrong. *)
Lemma integrity_bad_free c :
  In c (afl a) -> UMM_PFREE B c <> apf a c ->
  exists s, umm_integrity_check B = Some (false, s).
Proof.
  intros Hc Hne.
  destruct (integrity_free_loop_bad (afl a) (S (scan_fuel B)) 0 B (fun _ => false))
    as (s1 & E1); auto.
  - destruct Hinv; auto.
  - destruct Hinv; auto.
  - apply marked_state_refl.
  - apply ring_fuel.
  - exists c. auto.
  - exists s1. unfold umm_integrity_check. rewrite E1. reflexivity.
Qed.

(** The check fails when the [prev] field of a chain block is wrong. *)
Lemma integrity_bad_chain c :
  (forall x, In x (afl a) -> UMM_PFREE B x = apf a x) ->
  aS a c -> 0 < c -> UMM_PBLOCK B c <> apv a c ->
  exists s, umm_integrity_check B = Some (false, s).
Proof.
  intros Hpf Hc Hc0 Hne.
  assert (HNr : 3 <= aN a <= 32767) by (destruct Hinv; auto).
  destruct (integrity_free_loop_ok (afl a) (S (scan_fuel B)) 0 B (fun _ => false))
    as (s1 & mk1 & E1 & Emk1 & Hm1); auto.
  - destruct Hinv; auto.
  - destruct Hinv; auto.
  - apply marked_state_refl.
  - apply ring_fuel.
  - assert (Ef : scan_fuel s1 = scan_fuel B).
    { destruct Hm1 as (C1 & _). unfold scan_fuel, UMM_NUMBLOCKS. rewrite C1. reflexivity. }
    destruct (integrity_chain_loop_bad (S (scan_fuel B)) 0 s1 mk1)
      as (s2 & E2); auto.
    + destruct Hinv; auto.
    + apply ring_marks. exact Emk1.
    + unfold scan_fuel. rewrite <- HN. lia.
    + exists c. auto.
    + exists s2. unfold umm_integrity_check. rewrite E1. rewrite Ef. exact E2.
Qed.

End Integrity.

(** The [prev] field of a chain block holds a block number. *)
Lemma view_PBLOCK_range st a x :
  view st a -> aS a x -> 0 < x -> 0 <= get PBLOCK st x < 32768.
Proof.
  intros Hv HS Hx. rewrite (view_pv _ _ _ Hv HS).
  pose proof (view_N_range _ _ Hv). pose proof (view_S_range _ _ _ Hv HS).
  destruct (view_prev _ _ _ Hv HS) as (HSp & _ & Hlt & _); [lia|].
  pose proof (view_S_range _ _ _ Hv HSp). lia.
Qed.

(** X13. On a reachable heap [umm_integrity_check] reports no corruption,
    and the marks it sets in the [prev] fields are all removed again: the
    heap configuration, the statistics record, every field of every block
    and every byte of the memory are as before the call. *)
Theorem integrity_check_passes st :
  reachable st ->
  exists st',
    umm_integrity_check st = Some (true, st') /\
    umm_heap_current st' = umm_heap_current st /\
    ummHeapInfo st' = ummHeapInfo st /\
    (forall f b, get f st' b = get f st b) /\
    (forall x, memory st' x mod 256 = memory st x mod 256).
Proof.
  intros Hr. destruct (reachable_inv _ Hr) as [a Hv].
  destruct (integrity_ok st a) as (s & E & D1 & D2 & D3 & D4 & D5).
  - exact (view_ainv _ _ Hv).
  - exact (view_N _ _ Hv).
  - intros x Hx. exact (view_nf _ _ x Hv Hx).
  - intros x Hx. exact (view_NBLOCK _ _ x Hv Hx).
  - intros x Hx Hx0. exact (view_PBLOCK_range _ _ x Hv Hx Hx0).
  - intros x Hx. exact (view_pf _ _ x Hv (or_intror Hx)).
  - intros x Hx _. exact (view_pv _ _ x Hv Hx).
  - exists s. split; [exact E|]. split; [exact D1|]. split; [exact D2|]. split.
    + intros f b. destruct f; try (apply D4; congruence). apply D3.
    + intros x. apply D5. intros b Hb. discriminate.
Qed.

(** X20. [umm_integrity_check] finds a wrong [prev] field: when on a
    reachable heap the [prev] field of a block of the chain other than
    block 0 is overwritten with a block number that is not the one of its
    predecessor, the check returns false. *)
Theorem integrity_check_detects_prev st c v :
  reachable st ->
  In c (chain st) -> c <> 0 -> 0 <= v < 32768 -> v <> UMM_PBLOCK st c ->
  exists s, umm_integrity_check (set PBLOCK c v st) = Some (false, s).
Proof.
  intros Hr Hc Hc0 Hv0 Hne. destruct (reachable_inv _ Hr) as [a Hv].
  apply (chain_spec st a c Hv) in Hc.
  pose proof (view_S_range _ _ _ Hv Hc) as Hcr.
  apply (integrity_bad_chain (set PBLOCK c v st) a) with (c := c).
  - exact (view_ainv _ _ Hv).
  - exact (view_N _ _ Hv).
  - intros x Hx. rewrite get_set_diff by discriminate. exact (view_nf _ _ x Hv Hx).
  - intros x Hx. rewrite get_set_diff by discriminate. exact (view_NBLOCK _ _ x Hv Hx).
  - intros x Hx Hx0. rewrite get_set_eq. destruct (Z.eqb_spec x c).
    + rewrite u16_small by lia. exact Hv0.
    + exact (view_PBLOCK_range _ _ x Hv Hx Hx0).
  - intros x Hx. rewrite get_set_diff by discriminate.
    exact (view_pf _ _ x Hv (or_intror Hx)).
  - exact Hc.
  - lia.
  - rewrite get_set_eq, Z.eqb_refl. rewrite u16_small by lia.
    rewrite <- (view_pv _ _ c Hv Hc). exact Hne.
Qed.

(** X21. [umm_integrity_check] finds a wrong free-list [prev] link: when
    on a reachable heap the [prev] link of a block of the free list is
    overwritten with another value, the check returns false. *)
Theorem integrity_check_detects_free_prev st c v :
  reachable st ->
  In c (free_list st) -> 0 <= v < 65536 -> v <> UMM_PFREE st c ->
  exists s, umm_integrity_check (set PFREE c v st) = Some (false, s).
Proof.
  intros Hr Hc Hv0 Hne. destruct (reachable_inv _ Hr) as [a Hv].
  rewrite (free_list_spec st a Hv) in Hc.
  apply (integrity_bad_free (set PFREE c v st) a) with (c := c).
  - exact (view_ainv _ _ Hv).
  - exact (view_N _ _ Hv).
  - intros x Hx. rewrite get_set_diff by discriminate. exact (view_nf _ _ x Hv Hx).
  - intros x Hx Hx0. rewrite get_set_diff by discriminate.
    exact (view_PBLOCK_range _ _ x Hv Hx Hx0).
  - exact Hc.
  - rewrite get_set_eq, Z.eqb_refl. rewrite u16_small by lia.
    rewrite <- (view_pf _ _ c Hv (or_intror Hc)). exact Hne.
Qed.

(** ** No operation writes outside the heap *)

Lemma malloc_outside st a size p st' x :
  view st a -> 0 <= size < 4294967296 ->
  umm_malloc size st = Some (p, st') ->
  outside st x -> memory st' x = memory st x.
Proof.
  intros Hv Hsize E Hx. unfold umm_malloc in E.
  destruct (Z.eqb_spec size 0).
  { injection E as <- <-. reflexivity. }
  destruct (malloc_core_cases st a size Hv Hsize) as [[E1 _]|(cf & Hin & Hfit & E1)];
    rewrite E1 in E; injection E as <- <-.
  { reflexivity. }
  pose proof (umm_blocks_range size Hsize) as Hk.
  apply (out_malloc_take st a cf _ x Hv Hin); [lia | exact Hx].
Qed.

Lemma free_outside st a p x :
  view st a -> allocated st p = true -> outside st x ->
  memory (umm_free p st) x = memory st x.
Proof.
  intros Hv Hp Hx.
  destruct (allocated_spec st a p Hv Hp) as (c & Ep & Ebp & Hc & Hc0 & HcN & Hf).
  unfold umm_free. destruct (p =? NULL); [reflexivity|].
  rewrite Ep. apply (out_free_core st a c x); auto.
Qed.

(** X14. The public operations write inside the block array of the heap
    only: a byte of the memory that lies before [UMM_HEAP] or behind the
    last block holds after [umm_malloc], [umm_free], [umm_realloc] and
    [umm_calloc] what it held before. *)
Theorem writes_stay_in_heap st x :
  reachable st ->
  x < UMM_HEAP st \/ UMM_HEAP st + UMM_NUMBLOCKS st * UMM_BLOCKSIZE <= x ->
  (forall size p st',
     0 <= size < 4294967296 -> umm_malloc size st = Some (p, st') ->
     memory st' x = memory st x) /\
  (forall p, allocated st p = true -> memory (umm_free p st) x = memory st x) /\
  (forall p size p' st',
     p = NULL \/ allocated st p = true -> 0 <= size < 4294967296 ->
     umm_realloc p size st = Some (p', st') ->
     memory st' x = memory st x) /\
  (forall num item_size p st',
     0 <= num * item_size < 4294967296 ->
     umm_calloc num item_size st = Some (p, st') ->
     memory st' x = memory st x).
Proof.
  intros Hr Hx. fold (outside st x) in Hx.
  destruct (reachable_inv st Hr) as [a Hv].
  pose proof (view_ainv _ _ Hv) as Hinv.
  pose proof UMM_BLOCKSIZE_ge as HB.
  split; [|split; [|split]].
  - intros size p st' Hsize E. apply (malloc_outside st a size p st' x); auto.
  - intros p Hp. apply (free_outside st a p x); auto.
  - intros p size p' st' Hp Hsize E.
    unfold umm_realloc in E.
    destruct (Z.eqb_spec p NULL) as [Ep0|Ep0].
    { apply (malloc_outside st a size p' st' x); auto. }
    destruct Hp as [Hp|Hp]; [contradiction|].
    destruct (Z.eqb_spec size 0) as [Es0|Es0].
    { injection E as <- <-. apply (free_outside st a p x); auto. }
    destruct (allocated_spec st a p Hv Hp) as (c & Ep & Ebp & Hc & Hc0 & HcN & Hf).
    assert (Hsize' : 0 < size < 4294967296) by lia.
    destruct (realloc_spec st a c size Hv Hc Hf Hc0 HcN Hsize')
      as (p1 & st1 & E1 & Hcase).
    assert (E2 : umm_realloc p size st = Some (p', st')).
    { unfold umm_realloc.
      destruct (Z.eqb_spec p NULL); [contradiction|].
      destruct (Z.eqb_spec size 0); [contradiction|]. exact E. }
    rewrite Ep in E2. rewrite E1 in E2. injection E2 as <- <-.
    destruct Hcase as [(_ & -> & _)|(a' & c' & _ & Hs & _)]; [reflexivity|].
    destruct Hs as ((_ & _ & _ & Ho) & _). apply Ho. exact Hx.
  - intros num item_size p st' Hprod E.
    unfold umm_calloc in E.
    rewrite (Z.mul_comm item_size num) in E.
    rewrite (u32_small _ Hprod) in E.
    destruct (umm_malloc (num * item_size) st) as [[r s1]|] eqn:Em; [|discriminate].
    pose proof (malloc_outside st a _ r s1 x Hv Hprod Em Hx) as Em1.
    destruct (Z.eqb_spec r NULL) as [Er|Er].
    { injection E as <- <-. exact Em1. }
    injection E as <- <-. cbn [memory with_memory].
    rewrite <- Em1.
    unfold umm_malloc in Em.
    destruct (Z.eqb_spec (num * item_size) 0).
    { injection Em as <- <-. contradiction. }
    destruct (malloc_core_cases st a _ Hv Hprod) as [[E1 _]|(cf & Hin & Hfit & E1)];
      rewrite E1 in Em; injection Em as <- <-.
    { contradiction. }
    destruct (view_fl_S _ _ _ Hv Hin) as [HcfS Hcff].
    pose proof (hinv_fl_range _ _ _ _ _ _ _ _ Hinv cf Hin) as Hcfr.
    pose proof (hinv_nx_range _ _ _ _ _ _ _ _ Hinv cf HcfS) as Hnr.
    pose proof (view_N _ _ Hv) as HN.
    pose proof (view_N_range _ _ Hv) as HNr.
    pose proof (umm_blocks_range _ Hprod) as Hk.
    assert (Hcov : num * item_size
                   <= umm_blocks (num * item_size) * UMM_BLOCKSIZE - header_size).
    { apply umm_blocks_covers; lia. }
    unfold memset.
    assert (Hout : ~ (UMM_DATA st cf <= x < UMM_DATA st cf + num * item_size)).
    { unfold outside, UMM_DATA, UMM_BLOCK, header_size in *. nia. }
    destruct (Z.leb_spec (UMM_DATA st cf) x);
      destruct (Z.ltb_spec x (UMM_DATA st cf + num * item_size));
      simpl; try lia; reflexivity.
Qed.

(** ** umm_init_heap on any region *)

Lemma memory_set_at f b v s s0 x :
  umm_heap_current s = umm_heap_current s0 ->
  x < UMM_BLOCK s0 b + field_offset f \/ UMM_BLOCK s0 b + field_offset f + 2 <= x ->
  memory (set f b v s) x = memory s x.
Proof.
  intros E Hx. apply memory_set. unfold UMM_BLOCK, UMM_HEAP in *.
  rewrite E. exact Hx.
Qed.

(** The bytes [umm_init_heap] leaves as [memset] made them: all but the
    fields it writes in the blocks 0, 1 and the last one. *)
Lemma init_memory ptr size st x :
  3 <= size / UMM_BLOCKSIZE <= 32767 ->
  x < ptr \/ ptr + 8 <= x ->
  x < ptr + UMM_BLOCKSIZE \/ ptr + UMM_BLOCKSIZE + 2 <= x ->
  x < ptr + (size / UMM_BLOCKSIZE - 1) * UMM_BLOCKSIZE + 2
  \/ ptr + (size / UMM_BLOCKSIZE - 1) * UMM_BLOCKSIZE + 4 <= x ->
  memory (umm_init_heap ptr size st) x = memset (memory st) ptr 0 size x.
Proof.
  intros HN H0 H1 H2.
  pose proof UMM_BLOCKSIZE_ge as HB.
  unfold umm_init_heap. cbv zeta.
  set (s0 := mk_state (memory st) (mk_config ptr size (u16 (size / UMM_BLOCKSIZE)))
               (ummHeapInfo st)).
  set (s1 := UMM_FRAGMENTATION_METRIC_INIT
               (with_memory s0 (memset (memory s0) (UMM_HEAP s0) 0 (UMM_HEAPSIZE s0)))).
  assert (Es1 : umm_heap_current s1 = umm_heap_current s0).
  { unfold s1. rewrite cfg_METRIC_INIT. reflexivity. }
  assert (HL : forall s, umm_heap_current s = umm_heap_current s1 ->
                 UMM_BLOCK_LAST s = size / UMM_BLOCKSIZE - 1).
  { intros s Es. unfold UMM_BLOCK_LAST, UMM_NUMBLOCKS. rewrite Es, Es1. simpl.
    rewrite u16_small by lia. reflexivity. }
  assert (HBk : forall b, UMM_BLOCK s1 b = ptr + b * UMM_BLOCKSIZE).
  { intros b. unfold UMM_BLOCK, UMM_HEAP. rewrite Es1. reflexivity. }
  rewrite !HL by reflexivity.
  rewrite (memory_set_at _ _ _ _ s1) by (try reflexivity; rewrite HBk; cbn [field_offset]; lia).
  rewrite (memory_set_at _ _ _ _ s1) by (try reflexivity; rewrite HBk; cbn [field_offset]; lia).
  rewrite (memory_set_at _ _ _ _ s1) by (try reflexivity; rewrite HBk; cbn [field_offset]; lia).
  rewrite (memory_set_at _ _ _ _ s1) by (try reflexivity; rewrite HBk; cbn [field_offset]; lia).
  rewrite (memory_set_at _ _ _ _ s1) by (try reflexivity; rewrite HBk; cbn [field_offset]; lia).
  unfold s1, UMM_FRAGMENTATION_METRIC_INIT.
  destruct UMM_INLINE_METRICS; reflexivity.
Qed.

(** X15. [umm_init_heap] on a region of 3 to 32767 blocks: the heap has
    [size / UMM_BLOCKSIZE] blocks, of which block 0 and the last are the
    two sentinels and the blocks between them are one free block, the only
    member of the free list; no pointer is allocated; the bytes of that
    free block behind its used-header are zero; and no byte outside
    [ptr, ptr + size) is written. *)
Theorem init_heap_layout ptr size st :
  0 < ptr -> ptr + size <= 4294967296 -> 3 <= size / UMM_BLOCKSIZE <= 32767 ->
  UMM_HEAP (umm_init_heap ptr size st) = ptr /\
  UMM_HEAPSIZE (umm_init_heap ptr size st) = size /\
  UMM_NUMBLOCKS (umm_init_heap ptr size st) = size / UMM_BLOCKSIZE /\
  chain (umm_init_heap ptr size st) = [0; 1; size / UMM_BLOCKSIZE - 1] /\
  free_list (umm_init_heap ptr size st) = [1] /\
  free_runs (umm_init_heap ptr size st) = [(1, size / UMM_BLOCKSIZE - 2)] /\
  (forall p, allocated (umm_init_heap ptr size st) p = false) /\
  (forall x, ptr + UMM_BLOCKSIZE + header_size <= x
             < ptr + (size / UMM_BLOCKSIZE - 1) * UMM_BLOCKSIZE ->
             memory (umm_init_heap ptr size st) x = 0) /\
  (forall x, x < ptr \/ ptr + size <= x ->
             memory (umm_init_heap ptr size st) x = memory st x).
Proof.
  intros Hp He HN.
  assert (Hr : valid_region ptr size) by (unfold valid_region; auto).
  pose proof UMM_BLOCKSIZE_ge as HB.
  pose proof (view_init ptr size st Hr) as Hv.
  assert (Hsz : size / UMM_BLOCKSIZE * UMM_BLOCKSIZE <= size).
  { rewrite Z.mul_comm. apply Z.mul_div_le. lia. }
  split; [unfold UMM_HEAP; rewrite cfg_init; reflexivity|].
  split; [unfold UMM_HEAPSIZE; rewrite cfg_init; reflexivity|].
  split; [exact (init_numblocks ptr size st Hr)|].
  split; [exact (init_chain ptr size st Hr)|].
  split; [rewrite (free_list_spec _ _ Hv); reflexivity|].
  split; [exact (init_free_runs ptr size st Hr)|].
  split; [|split].
  - intros p. destruct (allocated (umm_init_heap ptr size st) p) eqn:Ha; [|reflexivity].
    exfalso.
    destruct (allocated_spec _ _ p Hv Ha) as (c & _ & _ & Hc & Hc0 & HcN & Hf).
    simpl in Hc, HcN, Hf. destruct Hc as [->|[->| ->]]; try lia.
    unfold updb in Hf. simpl in Hf. discriminate.
  - intros x Hx. unfold header_size in Hx.
    rewrite init_memory by (try exact HN; nia).
    unfold memset.
    destruct (Z.leb_spec ptr x); [|lia].
    destruct (Z.ltb_spec x (ptr + size)); [reflexivity | nia].
  - intros x Hx.
    rewrite init_memory by (try exact HN; nia).
    unfold memset.
    destruct (Z.leb_spec ptr x); destruct (Z.ltb_spec x (ptr + size));
      simpl; try lia; reflexivity.
Qed.

(** ** The block chain *)

Lemma chain_from_sorted st a :
  view st a ->
  forall fuel b, aS a b -> (Z.to_nat (aN a - 1 - b) <= fuel)%nat ->
  StronglySorted Z.lt (chain_from fuel st b).
Proof.
  intros Hv. induction fuel as [|fuel IH]; intros b Hb Hfuel.
  - simpl. constructor; constructor.
  - cbn [chain_from]. rewrite (view_nxt _ _ _ Hv Hb).
    pose proof (view_S_range _ _ _ Hv Hb) as Hrb.
    destruct (Z.eqb_spec (anx a b) 0) as [E0|E0].
    + constructor; constructor.
    + assert (HbN : b <> aN a - 1).
      { intros ->. pose proof (view_ainv _ _ Hv) as Hi. destruct Hi. contradiction. }
      destruct (view_next _ _ _ Hv Hb HbN) as (Hlt & Hn & _).
      assert (Hf : (Z.to_nat (aN a - 1 - anx a b) <= fuel)%nat) by lia.
      constructor.
      * apply IH; auto.
      * apply Forall_forall. intros i Hi.
        apply (chain_from_spec st a Hv fuel (anx a b) Hn Hf) in Hi. lia.
Qed.

(** X16. The block chain of a reachable heap: walked from block 0 along
    the [next] fields it is strictly ascending, starts with the sentinel
    block 0 followed by block 1, and ends with the sentinel block
    [UMM_NUMBLOCKS - 1], whose [next] is 0; the two sentinels are never
    free; and every block is the [prev] of its successor. *)
Theorem chain_well_formed st :
  reachable st ->
  StronglySorted Z.lt (chain st) /\
  In 0 (chain st) /\ In (UMM_BLOCK_LAST st) (chain st) /\
  (forall b, In b (chain st) -> 0 <= b <= UMM_BLOCK_LAST st) /\
  nxt st 0 = 1 /\ nxt st (UMM_BLOCK_LAST st) = 0 /\
  is_free st 0 = false /\ is_free st (UMM_BLOCK_LAST st) = false /\
  (forall b, In b (chain st) -> b <> UMM_BLOCK_LAST st ->
     b < nxt st b /\ In (nxt st b) (chain st) /\ UMM_PBLOCK st (nxt st b) = b) /\
  (forall b c, In b (chain st) -> In c (chain st) -> b < c -> nxt st b <= c).
Proof.
  intros Hr. destruct (reachable_inv st Hr) as [a Hv].
  pose proof (view_ainv _ _ Hv) as Hinv.
  pose proof (view_N _ _ Hv) as HN. pose proof (view_N_range _ _ Hv) as HNr.
  assert (HS0 : aS a 0) by (destruct Hinv; auto).
  assert (HSL : aS a (UMM_BLOCK_LAST st)).
  { unfold UMM_BLOCK_LAST. rewrite <- HN. destruct Hinv; auto. }
  split.
  { unfold chain, scan_fuel. rewrite <- HN.
    apply (chain_from_sorted st a Hv); [exact HS0 | lia]. }
  split; [apply (chain_spec st a 0 Hv); exact HS0|].
  split; [apply (chain_spec st a _ Hv); exact HSL|].
  split.
  { intros b Hb. apply (chain_spec st a b Hv) in Hb.
    pose proof (view_S_range _ _ _ Hv Hb). unfold UMM_BLOCK_LAST. lia. }
  split; [rewrite (view_nxt _ _ _ Hv HS0); destruct Hinv; auto|].
  split.
  { rewrite (view_nxt _ _ _ Hv HSL). unfold UMM_BLOCK_LAST. rewrite <- HN.
    destruct Hinv; auto. }
  split; [rewrite (view_fr _ _ _ Hv HS0); destruct Hinv; auto|].
  split.
  { rewrite (view_fr _ _ _ Hv HSL). unfold UMM_BLOCK_LAST. rewrite <- HN.
    destruct Hinv; auto. }
  split.
  - intros b Hb HbL. apply (chain_spec st a b Hv) in Hb.
    assert (HbN : b <> aN a - 1) by (unfold UMM_BLOCK_LAST in HbL; lia).
    destruct (view_next _ _ _ Hv Hb HbN) as (Hlt & Hn & Hp).
    rewrite (view_nxt _ _ _ Hv Hb).
    split; [exact Hlt|]. split; [apply (chain_spec st a _ Hv); exact Hn|].
    rewrite (view_pv _ _ _ Hv Hn). exact Hp.
  - intros b c Hb Hc Hlt.
    apply (chain_spec st a b Hv) in Hb. apply (chain_spec st a c Hv) in Hc.
    rewrite (view_nxt _ _ _ Hv Hb). apply (view_gap _ _ _ _ Hv Hb Hc Hlt).
Qed.

(** ** The inline counters on reachable heaps *)

(** The heap invariant together with exact inline counters. *)
Definition minv (st : umm_state) : Prop := exists a, view st a /\ minfo st a.

Lemma malloc_minv st size p st' :
  minv st -> 0 <= size < 4294967296 ->
  umm_malloc size st = Some (p, st') -> minv st'.
Proof.
  intros (a & Hv & Hm) Hsize E. unfold umm_malloc in E.
  destruct (Z.eqb_spec size 0).
  { injection E as <- <-. exists a. auto. }
  destruct (malloc_core_cases st a size Hv Hsize) as [[E1 _]|(cf & Hin & Hfit & E1)];
    rewrite E1 in E; injection E as <- <-.
  { exists a. auto. }
  pose proof (umm_blocks_range size Hsize) as Hk.
  assert (Hk' : 0 < umm_blocks size <= anx a cf - cf) by lia.
  exists (a_alloc cf (umm_blocks size) a). split.
  - apply sim_malloc_take; auto.
  - apply m_take; auto.
Qed.

Lemma calloc_minv st num item_size p st' :
  minv st -> umm_calloc num item_size st = Some (p, st') -> minv st'.
Proof.
  intros (a & Hv & Hm) E. unfold umm_calloc in E.
  pose proof UMM_BLOCKSIZE_ge as HB.
  assert (Hsize : 0 <= u32 (item_size * num) < 4294967296).
  { unfold u32. apply Z.mod_pos_bound. lia. }
  unfold umm_malloc in E.
  destruct (Z.eqb_spec (u32 (item_size * num)) 0).
  { simpl in E. injection E as <- <-. exists a. auto. }
  destruct (malloc_core_cases st a _ Hv Hsize) as [[E1 _]|(cf & Hin & Hfit & E1)];
    rewrite E1 in E.
  { simpl in E. injection E as <- <-. exists a. auto. }
  pose proof (view_ainv _ _ Hv) as Hinv.
  pose proof (hinv_fl_range _ _ _ _ _ _ _ _ Hinv cf Hin) as Hcfr.
  destruct (view_fl_S _ _ _ Hv Hin) as [HcfS _].
  destruct (view_next _ _ _ Hv HcfS) as (_ & Hn & _); [lia|].
  pose proof (view_S_range _ _ _ Hv Hn) as Hrn.
  pose proof (view_N_range _ _ Hv) as HNr.
  pose proof (umm_blocks_range _ Hsize) as Hk.
  assert (Hk' : 0 < umm_blocks (u32 (item_size * num)) <= anx a cf - cf) by lia.
  destruct (Z.eqb_spec (UMM_DATA st cf) NULL) as [E0|_];
    [exfalso; revert E0; apply DATA_nonnull; [apply Hv | lia]|].
  injection E as <- <-.
  pose proof (sim_malloc_take st a cf _ Hv Hin Hk') as Hv1.
  pose proof (m_take st a cf _ Hv Hin Hk' Hm) as Hm1.
  pose proof (cfg_malloc_take cf (anx a cf - cf) (umm_blocks (u32 (item_size * num))) st)
    as Ecfg.
  destruct (a_alloc_facts a cf (umm_blocks (u32 (item_size * num))) Hinv Hin Hk')
    as (HNa & Hcfa & Hcffa & Hnxa & _).
  remember (malloc_take cf (anx a cf - cf) (umm_blocks (u32 (item_size * num))) st)
    as st1 eqn:Est1.
  exists (a_alloc cf (umm_blocks (u32 (item_size * num))) a). split.
  - apply (view_memset st1 _ cf); auto; try lia.
    + rewrite (DATA_same_cfg st st1) by exact Ecfg. lia.
    + rewrite Hnxa.
      assert (Hcov : u32 (item_size * num)
                     <= umm_blocks (u32 (item_size * num)) * UMM_BLOCKSIZE - header_size).
      { apply umm_blocks_covers; lia. }
      unfold UMM_DATA, UMM_BLOCK, UMM_HEAP, header_size in *.
      rewrite Ecfg. nia.
  - apply (minfo_same st1 _ _ _ Hm1); reflexivity.
Qed.

Lemma free_minv st p :
  minv st -> p = NULL \/ allocated st p = true -> minv (umm_free p st).
Proof.
  intros (a & Hv & Hm) Hp. unfold umm_free.
  destruct (Z.eqb_spec p NULL); [exists a; auto|].
  destruct Hp as [Hp|Hp]; [contradiction|].
  destruct (allocated_spec st a p Hv Hp) as (c & -> & _ & Hc & Hc0 & HcN & Hf).
  exists (a_free c a). split.
  - apply sim_free_core; auto.
  - apply m_free_core; auto.
Qed.

Lemma realloc_minv st p size p' st' :
  minv st -> p = NULL \/ allocated st p = true ->
  0 <= size < 4294967296 ->
  umm_realloc p size st = Some (p', st') -> minv st'.
Proof.
  intros Hi Hp Hsize E.
  destruct (Z.eq_dec p NULL) as [->|Hnn].
  { unfold umm_realloc in E. simpl in E. apply (malloc_minv st size p' st'); auto. }
  destruct Hp as [Hp|Hp]; [contradiction|].
  destruct (Z.eq_dec size 0) as [->|Hs0].
  { unfold umm_realloc in E.
    destruct (Z.eqb_spec p NULL); [contradiction|]. simpl in E.
    injection E as <- <-. apply free_minv; auto. }
  destruct Hi as (a & Hv & Hm).
  destruct (allocated_spec st a p Hv Hp) as (c & -> & _ & Hc & Hc0 & HcN & Hf).
  assert (Hsize' : 0 < size < 4294967296) by lia.
  destruct (realloc_spec st a c size Hv Hc Hf Hc0 HcN Hsize')
    as (p1 & st1 & E1 & Hcase).
  rewrite E1 in E. injection E as <- <-.
  destruct Hcase as [(_ & -> & _)|(a' & c' & Hv' & Hs & _)].
  - exists a. auto.
  - exists a'. split; [exact Hv'|]. destruct Hs as [_ Hs]. auto.
Qed.

Lemma store_minv st p off v :
  minv st -> allocated st p = true ->
  0 <= off < usable_size st (block_of st p) ->
  minv (with_memory st (store8 (memory st) (p + off) v)).
Proof.
  intros (a & Hv & Hm) Hp Hoff.
  destruct (allocated_spec st a p Hv Hp) as (c & Ep & Eb & Hc & Hc0 & HcN & Hf).
  rewrite Eb in Hoff. unfold usable_size in Hoff.
  rewrite (view_nxt _ _ _ Hv Hc) in Hoff.
  exists a. split.
  - apply (view_store8 st a c); auto.
    rewrite Ep. unfold UMM_DATA, UMM_BLOCK, header_size in *. nia.
  - apply (minfo_same st _ a a Hm); reflexivity.
Qed.

Lemma reachable_minv st : reachable st -> minv st.
Proof.
  induction 1.
  - eexists. split; [apply view_init | apply m_init]; assumption.
  - eapply malloc_minv; eauto.
  - eapply calloc_minv; eauto.
  - apply free_minv; auto.
  - eapply realloc_minv; eauto.
  - apply store_minv; auto.
Qed.

(** *** The counters and the free runs *)

Lemma fsum_same_members f : forall l1 l2,
  NoDup l1 -> NoDup l2 -> (forall x, In x l1 <-> In x l2) ->
  fsum f l1 = fsum f l2.
Proof.
  induction l1 as [|x l1 IH]; intros l2 H1 H2 Hm.
  - destruct l2 as [|y l2]; [reflexivity|].
    exfalso. apply (proj2 (Hm y)). left. reflexivity.
  - apply NoDup_cons_iff in H1. destruct H1 as [Hx H1].
    assert (Hin : In x l2) by (apply Hm; left; reflexivity).
    simpl. rewrite (IH (drop x l2)); auto.
    + rewrite fsum_drop by assumption. lia.
    + apply NoDup_drop. exact H2.
    + intros y. rewrite In_drop. split.
      * intros Hy. split; [apply Hm; right; exact Hy|]. intros ->. contradiction.
      * intros [Hy Hne]. apply Hm in Hy. destruct Hy as [->|Hy]; [contradiction|].
        exact Hy.
Qed.

Lemma fsum_map f (g : Z -> Z) l : fsum f (map g l) = fsum (fun x => f (g x)) l.
Proof. induction l as [|x l IH]; simpl; [reflexivity | rewrite IH; reflexivity]. Qed.

Lemma sum_list_fsum l : sum_list l = fsum (fun x => x) l.
Proof. induction l as [|x l IH]; simpl; [reflexivity | rewrite <- IH; reflexivity]. Qed.

Lemma sum_squares_fsum l : sum_squares l = fsum sq l.
Proof. induction l as [|x l IH]; simpl; [reflexivity | rewrite <- IH; reflexivity]. Qed.

Lemma sorted_nodup l : StronglySorted Z.lt l -> NoDup l.
Proof.
  induction 1 as [|x l Hs IH Hall]; constructor; [|exact IH].
  intros Hin. rewrite Forall_forall in Hall. specialize (Hall x Hin). lia.
Qed.

(** The measure of the abstract heap is the sum over the free runs. *)
Lemma ameasure_runs st a phi :
  view st a -> ameasure phi a = fsum phi (map snd (free_runs st)).
Proof.
  intros Hv. pose proof (view_ainv _ _ Hv) as Hinv.
  pose proof (view_N _ _ Hv) as HN. pose proof (view_N_range _ _ Hv) as HNr.
  unfold free_runs. rewrite map_map. cbn [snd]. rewrite fsum_map.
  unfold ameasure.
  rewrite (fsum_same_members _ (afl a) (filter (fun b => is_free st b) (chain st))).
  - apply fsum_ext. intros x Hx. apply filter_In in Hx. destruct Hx as [Hx _].
    apply (chain_spec st a x Hv) in Hx. rewrite (view_nxt _ _ _ Hv Hx). reflexivity.
  - destruct Hinv; auto.
  - apply NoDup_filter. apply sorted_nodup.
    unfold chain, scan_fuel. rewrite <- HN.
    apply (chain_from_sorted st a Hv); [destruct Hinv; auto | lia].
  - intros x. rewrite filter_In. rewrite (chain_spec st a x Hv).
    destruct Hinv. rewrite hi_mem0. split.
    + intros [HS Hf]. split; [exact HS|]. rewrite (view_fr _ _ _ Hv HS). exact Hf.
    + intros [HS Hf]. split; [exact HS|]. rewrite <- (view_fr _ _ _ Hv HS). exact Hf.
Qed.

Lemma run_sums_bounds st :
  heap_inv st ->
  0 <= sum_list (map snd (free_runs st)) <= UMM_NUMBLOCKS st - 2 /\
  0 <= sum_squares (map snd (free_runs st))
  <= sum_list (map snd (free_runs st)) * sum_list (map snd (free_runs st)).
Proof.
  intros [a Hv].
  pose proof (view_ainv _ _ Hv) as Hinv.
  pose proof (view_N_range _ _ Hv) as HNr. pose proof (view_N _ _ Hv) as HN.
  pose proof (hinv_S1 _ _ _ _ _ _ _ _ Hinv) as HS1.
  assert (Hc0 : counted 1 info_zero).
  { unfold counted, info_zero; cbn. lia. }
  destruct (info_walk_stats st a Hv (scan_fuel st) 1 info_zero HS1) as
    (i' & E & Hc & F1 & F2 & F3 & _);
    [lia | unfold scan_fuel; rewrite <- HN; lia | exact Hc0 |].
  rewrite <- (run_lengths_spec st a Hv) in F2, F3.
  destruct Hc as (H1 & H2 & H3 & H4 & H5 & _).
  unfold info_zero in F2, F3; cbn in F2, F3.
  rewrite <- F2, <- F3. lia.
Qed.

(** *** The heap under the queries *)

Lemma get_same st s f b :
  memory s = memory st -> umm_heap_current s = umm_heap_current st ->
  get f s b = get f st b.
Proof.
  intros Em Ec. unfold get, UMM_BLOCK, UMM_HEAP. rewrite Em, Ec. reflexivity.
Qed.

Lemma view_same_fields st s a :
  umm_heap_current s = umm_heap_current st ->
  (forall f b, get f s b = get f st b) ->
  view st a -> view s a.
Proof.
  intros Ec Hg (H1 & H2 & H3 & H4 & H5).
  split; [|split; [|split; [exact H3|split]]].
  - unfold cfg_ok, UMM_HEAP, UMM_HEAPSIZE, UMM_NUMBLOCKS in *. rewrite Ec. exact H1.
  - unfold UMM_NUMBLOCKS in *. rewrite Ec. exact H2.
  - intros x Hx. rewrite !Hg. apply H4. exact Hx.
  - intros x Hx. rewrite !Hg. apply H5. exact Hx.
Qed.

Lemma minv_same_fields st s :
  umm_heap_current s = umm_heap_current st ->
  (forall f b, get f s b = get f st b) ->
  fm s = fm st ->
  minv st -> minv s.
Proof.
  intros Ec Hg Ef (a & Hv & Hm). exists a. split.
  - apply (view_same_fields st s a Ec Hg Hv).
  - intros Hin. rewrite Ef. apply Hm. exact Hin.
Qed.

(** A walk of [umm_info] that did not find its probe did what the walk
    for the null probe does. *)
Lemma info_walk_unmatched st ptr :
  0 < UMM_HEAP st ->
  forall fuel b i i', 0 <= b ->
    info_walk fuel st ptr b i = Some (false, i') ->
    info_walk fuel st NULL b i = Some (false, i').
Proof.
  intros Hh. pose proof UMM_BLOCKSIZE_ge as HB.
  induction fuel as [|fuel IH]; intros b i i' Hb E.
  - cbn [info_walk] in *.
    destruct (Z.land (UMM_NBLOCK st b) UMM_BLOCKNO_MASK =? 0); [exact E|discriminate].
  - cbn [info_walk] in *.
    destruct (Z.land (UMM_NBLOCK st b) UMM_BLOCKNO_MASK =? 0); [exact E|].
    assert (Hn : 0 <= Z.land (UMM_NBLOCK st b) UMM_BLOCKNO_MASK).
    { apply Z.land_nonneg. right. unfold UMM_BLOCKNO_MASK. lia. }
    destruct (has_free_flag (UMM_NBLOCK st b)).
    + destruct (ptr =? UMM_BLOCK st b); [discriminate|].
      destruct (Z.eqb_spec NULL (UMM_BLOCK st b)) as [E0|_].
      { exfalso. unfold NULL, UMM_BLOCK in E0. nia. }
      apply IH; assumption.
    + apply IH; assumption.
Qed.

Lemma info_null_result st ptr force st' :
  heap_inv st -> umm_info ptr force st = Some (NULL, st') ->
  umm_info NULL force st = Some (NULL, st').
Proof.
  intros [a Hv] E.
  destruct (Z.eq_dec ptr NULL) as [->|Hne]; [exact E|].
  assert (Hh : 0 < UMM_HEAP st) by (destruct Hv as ((Hh & _) & _); exact Hh).
  unfold umm_info in *. cbv zeta in *.
  assert (Hb : 0 <= Z.land (UMM_NBLOCK st 0) UMM_BLOCKNO_MASK).
  { apply Z.land_nonneg. right. unfold UMM_BLOCKNO_MASK. lia. }
  destruct (info_walk (scan_fuel st) st ptr
              (Z.land (UMM_NBLOCK st 0) UMM_BLOCKNO_MASK) info_zero)
    as [[[|] i]|] eqn:Ew; [|rewrite (info_walk_unmatched st ptr Hh _ _ _ _ Hb Ew)|];
    [injection E as E _; contradiction | exact E | discriminate].
Qed.

Lemma info_minv st ptr force st' :
  minv st -> umm_info ptr force st = Some (NULL, st') -> minv st'.
Proof.
  intros (a & Hv & Hm) E.
  apply (info_null_result st ptr force st' (ex_intro _ a Hv)) in E.
  destruct (info_statistics st force (ex_intro _ a Hv))
    as (s & Es & Em & Ec & _ & EF & EQ & _).
  rewrite Es in E. injection E as <-.
  pose proof (view_N_range _ _ Hv) as HNr. pose proof (view_N _ _ Hv) as HN.
  destruct (run_sums_bounds st (ex_intro _ a Hv)) as [HF HQ].
  exists a. split.
  - apply (view_same_fields st s a Ec); [|exact Hv].
    intros f b. apply get_same; assumption.
  - intros _. unfold fm. rewrite EF, EQ.
    rewrite !(ameasure_runs st a _ Hv).
    rewrite <- sum_list_fsum, <- sum_squares_fsum.
    rewrite u32_small by lia. rewrite u32_small by nia. reflexivity.
Qed.

Lemma integrity_passes_inv st :
  heap_inv st ->
  exists st',
    umm_integrity_check st = Some (true, st') /\
    umm_heap_current st' = umm_heap_current st /\
    ummHeapInfo st' = ummHeapInfo st /\
    (forall f b, get f st' b = get f st b).
Proof.
  intros [a Hv].
  destruct (integrity_ok st a) as (s & E & D1 & D2 & D3 & D4 & D5).
  - exact (view_ainv _ _ Hv).
  - exact (view_N _ _ Hv).
  - intros x Hx. exact (view_nf _ _ x Hv Hx).
  - intros x Hx. exact (view_NBLOCK _ _ x Hv Hx).
  - intros x Hx Hx0. exact (view_PBLOCK_range _ _ x Hv Hx Hx0).
  - intros x Hx. exact (view_pf _ _ x Hv (or_intror Hx)).
  - intros x Hx _. exact (view_pv _ _ x Hv Hx).
  - exists s. split; [exact E|]. split; [exact D1|]. split; [exact D2|].
    intros f b. destruct f; try (apply D4; congruence). apply D3.
Qed.

(** The state with [v] in the field [fragmentation_metric]. *)
Definition with_fragmentation (st : umm_state) (v : Z) : umm_state :=
  let i := ummHeapInfo st in
  with_info st
    (mk_info (totalEntries i) (usedEntries i) (freeEntries i) (totalBlocks i)
       (usedBlocks i) (freeBlocks i) (freeBlocksSquared i)
       (maxFreeContiguousBlocks i) (usage_metric i) v).

(** States reachable when the program also looks at the heap: the steps
    of [reachable], the four metric queries, [umm_integrity_check], and
    the calls of [umm_info] that return null, that is, whose probe is not
    the address of a free block.  A call of [umm_info] that finds its
    probe leaves the walk early, with the statistics record counted up to
    the block it found; no such call is a step here.  The value that
    [sqrtf] yields in single precision is not relied on: a state with any
    other value in [fragmentation_metric] is reachable too. *)
Inductive reachable_q : umm_state -> Prop :=
| rq_init : forall ptr size st,
    valid_region ptr size -> reachable_q (umm_init_heap ptr size st)
| rq_malloc : forall st size p st',
    reachable_q st -> 0 <= size < 4294967296 ->
    umm_malloc size st = Some (p, st') -> reachable_q st'
| rq_calloc : forall st num item_size p st',
    reachable_q st ->
    umm_calloc num item_size st = Some (p, st') -> reachable_q st'
| rq_free : forall st p,
    reachable_q st -> p = NULL \/ allocated st p = true ->
    reachable_q (umm_free p st)
| rq_realloc : forall st p size p' st',
    reachable_q st -> p = NULL \/ allocated st p = true ->
    0 <= size < 4294967296 ->
    umm_realloc p size st = Some (p', st') -> reachable_q st'
| rq_store : forall st p off v,
    reachable_q st -> allocated st p = true ->
    0 <= off < usable_size st (block_of st p) ->
    reachable_q (with_memory st (store8 (memory st) (p + off) v))
| rq_info : forall st ptr force st',
    reachable_q st -> umm_info ptr force st = Some (NULL, st') -> reachable_q st'
| rq_free_heap_size : forall st v st',
    reachable_q st -> umm_free_heap_size st = Some (v, st') -> reachable_q st'
| rq_max_free_block_size : forall st v st',
    reachable_q st -> umm_max_free_block_size st = Some (v, st') -> reachable_q st'
| rq_usage_metric : forall st v st',
    reachable_q st -> umm_usage_metric st = Some (v, st') -> reachable_q st'
| rq_fragmentation_metric : forall st v st',
    reachable_q st -> umm_fragmentation_metric st = Some (v, st') -> reachable_q st'
| rq_integrity_check : forall st b st',
    reachable_q st -> umm_integrity_check st = Some (b, st') -> reachable_q st'
| rq_fragmentation_value : forall st v,
    reachable_q st -> reachable_q (with_fragmentation st v).

Lemma reachable_q_of st : reachable st -> reachable_q st.
Proof.
  induction 1.
  - apply rq_init; assumption.
  - eapply rq_malloc; eauto.
  - eapply rq_calloc; eauto.
  - apply rq_free; assumption.
  - eapply rq_realloc; eauto.
  - apply rq_store; assumption.
Qed.

Lemma reachable_q_minv st : reachable_q st -> minv st.
Proof.
  induction 1 as [ptr size st Hreg
                 | st size p st' _ IH Hs E
                 | st num item_size p st' _ IH E
                 | st p _ IH Hp
                 | st p size p' st' _ IH Hp Hs E
                 | st p off v _ IH Hp Hoff
                 | st ptr force st' _ IH E
                 | st v st' _ IH E
                 | st v st' _ IH E
                 | st v st' _ IH E
                 | st v st' _ IH E
                 | st b st' _ IH E
                 | st v _ IH].
  - eexists. split; [apply view_init | apply m_init]; assumption.
  - eapply malloc_minv; eauto.
  - eapply calloc_minv; eauto.
  - apply free_minv; auto.
  - eapply realloc_minv; eauto.
  - apply store_minv; auto.
  - apply (info_minv st ptr force st' IH E).
  - unfold umm_free_heap_size in E. destruct UMM_INLINE_METRICS.
    + injection E as _ <-. exact IH.
    + destruct (umm_info NULL false st) as [[q s]|] eqn:Ei; [|discriminate].
      injection E as _ <-.
      destruct IH as (a & Hv & Hm).
      destruct (info_statistics st false (ex_intro _ a Hv)) as (s' & Es & _).
      rewrite Es in Ei. injection Ei as <- <-.
      apply (info_minv st NULL false s'); [exists a; auto | exact Es].
  - unfold umm_max_free_block_size in E.
    destruct (umm_info NULL false st) as [[q s]|] eqn:Ei; [|discriminate].
    injection E as _ <-.
    destruct IH as (a & Hv & Hm).
    destruct (info_statistics st false (ex_intro _ a Hv)) as (s' & Es & _).
    rewrite Es in Ei. injection Ei as <- <-.
    apply (info_minv st NULL false s'); [exists a; auto | exact Es].
  - unfold umm_usage_metric in E. destruct UMM_INLINE_METRICS.
    + injection E as _ <-.
      apply (minv_same_fields st); [reflexivity | reflexivity | reflexivity | exact IH].
    + destruct (umm_info NULL false st) as [[q s]|] eqn:Ei; [|discriminate].
      injection E as _ <-.
      destruct IH as (a & Hv & Hm).
      destruct (info_statistics st false (ex_intro _ a Hv)) as (s' & Es & _).
      rewrite Es in Ei. injection Ei as <- <-.
      apply (info_minv st NULL false s'); [exists a; auto | exact Es].
  - unfold umm_fragmentation_metric in E. destruct UMM_INLINE_METRICS.
    + injection E as _ <-.
      apply (minv_same_fields st); [reflexivity | reflexivity | reflexivity | exact IH].
    + destruct (umm_info NULL false st) as [[q s]|] eqn:Ei; [|discriminate].
      injection E as _ <-.
      destruct IH as (a & Hv & Hm).
      destruct (info_statistics st false (ex_intro _ a Hv)) as (s' & Es & _).
      rewrite Es in Ei. injection Ei as <- <-.
      apply (info_minv st NULL false s'); [exists a; auto | exact Es].
  - destruct IH as (a & Hv & Hm).
    destruct (integrity_passes_inv st (ex_intro _ a Hv)) as (s & Es & Ec & Ei & Hg).
    rewrite Es in E. injection E as _ <-.
    apply (minv_same_fields st s Ec Hg); [unfold fm; rewrite Ei; reflexivity|].
    exists a. auto.
  - apply (minv_same_fields st); [reflexivity | reflexivity | reflexivity | exact IH].
Qed.

(** With inline metrics the two counters are the sums over the free
    runs in every state of [reachable_q]. *)
Lemma inline_counters_exact st :
  reachable_q st -> UMM_INLINE_METRICS = true ->
  freeBlocks (ummHeapInfo st) = sum_list (map snd (free_runs st)) /\
  freeBlocksSquared (ummHeapInfo st) = sum_squares (map snd (free_runs st)).
Proof.
  intros Hr Hin.
  destruct (reachable_q_minv st Hr) as (a & Hv & Hm).
  pose proof (view_N_range _ _ Hv) as HNr. pose proof (view_N _ _ Hv) as HN.
  destruct (run_sums_bounds st (ex_intro _ a Hv)) as [HF HQ].
  specialize (Hm Hin). unfold fm in Hm. injection Hm as EF EQ.
  rewrite (ameasure_runs st a _ Hv) in EF. rewrite (ameasure_runs st a _ Hv) in EQ.
  rewrite <- sum_list_fsum in EF. rewrite <- sum_squares_fsum in EQ.
  rewrite u32_small in EF by lia. rewrite u32_small in EQ by nia.
  auto.
Qed.

(** X18. [umm_free_heap_size] returns the number of blocks in free runs
    times [UMM_BLOCKSIZE], with inline metrics (where it reads the
    counter) and without (where it walks the heap), in every state
    reached by the allocation operations, stores into allocated blocks,
    the metric queries, [umm_integrity_check] and the calls of [umm_info]
    that return null; it leaves the memory and the heap configuration as
    they are.  (After a call of [umm_info] that finds its probe the
    counter it reads with inline metrics can be short.) *)
Theorem free_heap_size_exact st :
  reachable_q st ->
  exists s,
    umm_free_heap_size st
    = Some (sum_list (map snd (free_runs st)) * UMM_BLOCKSIZE, s) /\
    memory s = memory st /\ umm_heap_current s = umm_heap_current st /\
    0 <= sum_list (map snd (free_runs st)) <= UMM_NUMBLOCKS st - 2.
Proof.
  intros Hr.
  destruct (reachable_q_minv st Hr) as (a & Hv & Hm).
  pose proof (view_N_range _ _ Hv) as HNr. pose proof (view_N _ _ Hv) as HN.
  pose proof UMM_BLOCKSIZE_ge as HB.
  destruct (run_sums_bounds st (ex_intro _ a Hv)) as [HF HQ].
  assert (Hsmall : u32 (sum_list (map snd (free_runs st)) * UMM_BLOCKSIZE)
                   = sum_list (map snd (free_runs st)) * UMM_BLOCKSIZE).
  { apply u32_small. destruct Hv as ((Hh & Hs & He) & _). nia. }
  unfold umm_free_heap_size.
  destruct UMM_INLINE_METRICS eqn:Hin.
  - specialize (Hm Hin). unfold fm in Hm. injection Hm as EF EQ.
    rewrite (ameasure_runs st a _ Hv) in EF. rewrite <- sum_list_fsum in EF.
    rewrite u32_small in EF by lia.
    exists st. rewrite EF, Hsmall. auto.
  - destruct (info_statistics st false (ex_intro _ a Hv))
      as (s & E & Em & Ec & _ & EF & _).
    exists s. rewrite E, EF, Hsmall. auto.
Qed.

Lemma s32_small x : 0 <= x < 2147483648 -> s32 x = x.
Proof.
  intros H. unfold s32. cbv zeta. rewrite u32_small by lia.
  destruct (Z.ltb_spec x 2147483648); [reflexivity | lia].
Qed.

(** X19. Without inline metrics [umm_usage_metric] walks the heap and
    returns -1 when no block is free, and otherwise the used blocks times
    100 divided by the free blocks, where the used blocks are all blocks
    between the two end blocks that are not in a free run; the memory is
    left as it is. *)
Theorem usage_metric_from_walk st :
  reachable st -> UMM_INLINE_METRICS = false ->
  exists s,
    umm_usage_metric st
    = Some (if sum_list (map snd (free_runs st)) =? 0 then -1
            else (UMM_NUMBLOCKS st - 2 - sum_list (map snd (free_runs st))) * 100
                 / sum_list (map snd (free_runs st)), s) /\
    memory s = memory st /\ umm_heap_current s = umm_heap_current st.
Proof.
  intros Hr Hin.
  destruct (reachable_inv st Hr) as [a Hv].
  pose proof (view_ainv _ _ Hv) as Hinv.
  pose proof (view_N_range _ _ Hv) as HNr. pose proof (view_N _ _ Hv) as HN.
  assert (HS0 : aS a 0) by (destruct Hinv; auto).
  assert (Hnx0 : anx a 0 = 1) by (destruct Hinv; auto).
  pose proof (hinv_S1 _ _ _ _ _ _ _ _ Hinv) as HS1.
  assert (Hc0 : counted 1 info_zero).
  { unfold counted, info_zero; cbn. lia. }
  destruct (info_walk_stats st a Hv (scan_fuel st) 1 info_zero HS1) as
    (i' & E & Hc & F1 & F2 & _);
    [lia | unfold scan_fuel; rewrite <- HN; lia | exact Hc0 |].
  rewrite <- (run_lengths_spec st a Hv) in F2.
  unfold info_zero in F2; cbn in F2.
  destruct Hc as (H1 & H2 & H3 & H4 & _).
  unfold umm_usage_metric. rewrite Hin.
  unfold umm_info. cbv zeta. rewrite (view_nxt _ _ _ Hv HS0), Hnx0. rewrite E.
  match goal with |- exists s, Some (_, ?X) = _ /\ _ => exists X end.
  split; [|split; reflexivity].
  apply (f_equal (fun v => Some (v, _))).
  unfold compute_fragmentation_metric, compute_usage_metric, with_info.
  cbn [ummHeapInfo usage_metric usedBlocks freeBlocks].
  rewrite <- F2.
  assert (EU : usedBlocks i' = UMM_NUMBLOCKS st - 2 - freeBlocks i') by lia.
  rewrite <- EU.
  rewrite (Z.eqb_sym 0 (freeBlocks i')).
  destruct (Z.eqb_spec (freeBlocks i') 0) as [E0|E0]; [reflexivity|].
  rewrite (u32_small (usedBlocks i' * 100)) by lia.
  rewrite s32_small; [reflexivity|].
  split.
  - apply Z.div_pos; lia.
  - apply Z.div_lt_upper_bound; nia.
Qed.

(** ** The allocated set after each operation *)

Lemma DATA_inj st c d : UMM_DATA st c = UMM_DATA st d -> c = d.
Proof.
  pose proof UMM_BLOCKSIZE_ge as HB. unfold UMM_DATA, UMM_BLOCK. nia.
Qed.

Lemma allocated_used_at st st' a' c :
  view st' a' -> umm_heap_current st' = umm_heap_current st ->
  (allocated st' (UMM_DATA st c) = true <-> used a' c).
Proof.
  intros Hv' Ecfg. rewrite (allocated_used st' a' _ Hv'). split.
  - intros (d & E & Hd). rewrite (DATA_same_cfg st st' d Ecfg) in E.
    apply DATA_inj in E. subst d. exact Hd.
  - intros Hc. exists c. split; [|exact Hc].
    symmetry. apply DATA_same_cfg. exact Ecfg.
Qed.

(** X22. [umm_malloc] changes the set of allocated blocks by at most the
    block it returns: a block is allocated afterwards exactly when it was
    allocated before or is the non-null result. *)
Theorem malloc_allocated_set st size p st' q :
  reachable st -> 0 <= size < 4294967296 ->
  umm_malloc size st = Some (p, st') ->
  (allocated st' q = true <-> allocated st q = true \/ (p <> NULL /\ q = p)).
Proof.
  intros Hr Hsize E.
  destruct (reachable_inv st Hr) as [a Hv].
  pose proof (view_ainv _ _ Hv) as Hinv.
  assert (Hsame : p = NULL /\ st' = st ->
            (allocated st' q = true <->
             allocated st q = true \/ (p <> NULL /\ q = p))).
  { intros [-> ->]. split; [auto|]. intros [H|[H _]]; [exact H|contradiction]. }
  unfold umm_malloc in E.
  destruct (Z.eqb_spec size 0).
  { injection E as <- <-. apply Hsame. auto. }
  destruct (malloc_core_cases st a size Hv Hsize) as [[E1 _]|(cf & Hin & Hfit & E1)];
    rewrite E1 in E; injection E as <- <-.
  { apply Hsame. auto. }
  pose proof (umm_blocks_range size Hsize) as Hk.
  assert (Hk' : 0 < umm_blocks size <= anx a cf - cf) by lia.
  pose proof (sim_malloc_take st a cf _ Hv Hin Hk') as Hv'.
  pose proof (cfg_malloc_take cf (anx a cf - cf) (umm_blocks size) st) as Ecfg.
  destruct (view_fl_S _ _ _ Hv Hin) as [HcfS Hcff].
  pose proof (hinv_fl_range _ _ _ _ _ _ _ _ Hinv cf Hin) as Hcfr.
  destruct (a_alloc_facts a cf (umm_blocks size) Hinv Hin Hk')
    as (HNa & HcfS' & Hcff' & _ & Hoth).
  assert (Hpn : UMM_DATA st cf <> NULL).
  { apply DATA_nonnull; [apply Hv | lia]. }
  split.
  - intros Hq.
    apply (allocated_used _ _ _ Hv') in Hq. destruct Hq as (d & Eq & Hd).
    rewrite (DATA_same_cfg st _ d Ecfg) in Eq.
    apply cu_alloc in Hd. destruct Hd as [Hd| ->].
    + left. apply (allocated_used st a q Hv). exists d. auto.
    + right. auto.
  - intros [Hq|[_ ->]].
    + apply (allocated_used st a q Hv) in Hq.
      destruct Hq as (d & -> & Hd & Hfd & Hd0 & HdN).
      apply (allocated_used_at st _ _ d Hv' Ecfg).
      assert (Hne : d <> cf) by (intros ->; congruence).
      destruct (Hoth d Hd Hne) as (Hd' & Hfd' & _).
      unfold used. rewrite HNa. repeat split; auto. congruence.
    + apply (allocated_used_at st _ _ cf Hv' Ecfg).
      unfold used. rewrite HNa. repeat split; auto; lia.
Qed.

(** X23. [umm_free] of an allocated block takes exactly that block out
    of the set of allocated blocks. *)
Theorem free_allocated_set st p q :
  reachable st -> allocated st p = true ->
  (allocated (umm_free p st) q = true <-> allocated st q = true /\ q <> p).
Proof.
  intros Hr Hp.
  destruct (reachable_inv st Hr) as [a Hv].
  pose proof (view_ainv _ _ Hv) as Hinv.
  destruct (allocated_spec st a p Hv Hp) as (c & Ep & Ebp & Hc & Hc0 & HcN & Hf).
  unfold umm_free.
  destruct (Z.eqb_spec p NULL) as [E0|_].
  { exfalso. rewrite Ep in E0. revert E0.
    pose proof (view_S_range _ _ _ Hv Hc). apply DATA_nonnull; [apply Hv | lia]. }
  rewrite Ep.
  pose proof (sim_free_core st a c Hv Hc Hf Hc0 HcN) as Hv'.
  pose proof (cfg_free_core (UMM_DATA st c) st) as Ecfg.
  split.
  - intros Hq.
    apply (allocated_used _ _ _ Hv') in Hq. destruct Hq as (d & Eq & Hd).
    rewrite (DATA_same_cfg st _ d Ecfg) in Eq.
    apply (cu_free a c d Hinv Hc Hf Hc0 HcN) in Hd. destruct Hd as [Hd Hne].
    split.
    + apply (allocated_used st a q Hv). exists d. auto.
    + rewrite Eq. intros E. apply DATA_inj in E. contradiction.
  - intros [Hq Hne].
    apply (allocated_used st a q Hv) in Hq.
    destruct Hq as (d & -> & Hd & Hfd & Hd0 & HdN).
    apply (allocated_used_at st _ _ d Hv' Ecfg).
    assert (Hdc : d <> c) by (intros ->; contradiction).
    destruct (a_free_others a c d Hinv Hc Hf Hc0 HcN Hd Hfd Hdc)
      as (HS' & Hf' & _ & HN').
    unfold used. rewrite HN'. auto.
Qed.

(** X24. [umm_realloc] of an allocated block to a size above 0: when it
    fails the set of allocated blocks is as before; when it succeeds the
    set loses the old block and gains the returned one, and changes in no
    other way. *)
Theorem realloc_allocated_set st p size p' st' q :
  reachable st -> allocated st p = true -> 0 < size < 4294967296 ->
  umm_realloc p size st = Some (p', st') ->
  (p' = NULL /\ (allocated st' q = true <-> allocated st q = true)) \/
  (p' <> NULL /\
   (allocated st' q = true <-> (allocated st q = true /\ q <> p) \/ q = p')).
Proof.
  intros Hr Hp Hsize E.
  destruct (reachable_inv st Hr) as [a Hv].
  pose proof UMM_BLOCKSIZE_ge as HB.
  destruct (allocated_extent st a p Hv Hp)
    as (c & Ep & Eb & Hc & Hf & Hc1 & Hlt & Hle & _ & Eu).
  destruct (realloc_spec st a c size Hv Hc Hf) as (p1 & st1 & E1 & Hres);
    [lia | lia | exact Hsize |].
  rewrite Ep in E. rewrite E1 in E. injection E as <- <-.
  destruct Hres as [(-> & -> & _)|Hdone]; [left; split; [reflexivity|tauto]|].
  right.
  destruct Hdone
    as (a' & c' & Hv' & Hs & Ep' & _ & Hc' & Hf' & Hc0' & HcN' & Hn' & _ & Hu).
  destruct Hs as ((Ecfg & HN & Hs & _) & _).
  pose proof (view_S_range _ _ _ Hv' Hc') as Hrc'.
  split.
  { rewrite Ep'. apply DATA_nonnull; [apply Hv | lia]. }
  split.
  - intros Hq.
    apply (allocated_used _ _ _ Hv') in Hq. destruct Hq as (d & Eq & Hd).
    rewrite (DATA_same_cfg st _ d Ecfg) in Eq.
    apply Hu in Hd. destruct Hd as [[Hd Hne]| ->].
    + left. split.
      * apply (allocated_used st a q Hv). exists d. auto.
      * rewrite Eq, Ep. intros E. apply DATA_inj in E. contradiction.
    + right. congruence.
  - intros [[Hq Hne]| ->].
    + destruct (allocated_extent st a q Hv Hq)
        as (d & Eq & Ebq & Hd & Hfd & Hd1 & Hltd & Hled & _ & Euq).
      assert (Hdc : d <> c) by (intros ->; congruence).
      assert (Hb0 : in_body st a d q).
      { replace q with (q + 0) by lia. rewrite <- Ebq.
        apply allocated_in_body; auto. rewrite Ebq, Euq. unfold header_size. nia. }
      destruct (Hs d q Hdc Hb0) as (Hb' & _).
      rewrite Eq. apply (allocated_used_at st _ _ d Hv' Ecfg).
      destruct Hb' as (H1 & H2 & H3 & H4 & _). unfold used. auto.
    + rewrite Ep'. apply (allocated_used_at st _ _ c' Hv' Ecfg).
      unfold used. rewrite HN. auto.
Qed.

(** ** Freed memory can be handed out again *)

(** After [a_free c] some free block covers what block [c] covered. *)
Lemma a_free_run a c :
  ainv a -> aS a c -> afr a c = false -> c <> 0 -> c <> aN a - 1 ->
  exists f, In f (afl (a_free c a)) /\ f <= c /\ anx a c <= anx (a_free c a) f.
Proof.
  intros Hinv Hc Hf Hc0 HcN.
  pose proof Hinv as Hi. destruct Hi.
  destruct (hi_prev0 c Hc Hc0) as (Hp & Hnp).
  destruct (hi_next0 c Hc HcN) as (Hlt & Hn & _).
  destruct (hinv_prev_lt _ _ _ _ _ _ _ _ Hinv c Hc Hc0) as (Hplt & _).
  destruct (a_up_facts a c Hinv Hc Hf Hc0 HcN) as (HN1 & _ & _ & _ & Hpv1 & Hfp1).
  destruct (a_up_grow a c c Hinv Hc Hf Hc0 HcN Hc Hf) as (_ & _ & Hgrow).
  assert (Hnp1 : anx (a_up c a) (apv a c) = c).
  { unfold a_up. destruct (afr a (anx a c)); [|exact Hnp].
    simpl. rewrite upd_other by lia. exact Hnp. }
  assert (Hfl1 : forall x, In x (afl a) -> x <> anx a c -> In x (afl (a_up c a))).
  { intros x Hx Hne. unfold a_up. destruct (afr a (anx a c)); [|exact Hx].
    simpl. apply In_drop. auto. }
  unfold a_free. cbv zeta. rewrite Hpv1, Hfp1.
  destruct (afr a (apv a c)) eqn:Hfp.
  - exists (apv a c). simpl. split; [|split].
    + apply Hfl1; [|lia]. apply hi_mem0. auto.
    + lia.
    + rewrite upd_same, Hnp1. exact Hgrow.
  - exists c. simpl. split; [auto|]. split; [lia|exact Hgrow].
Qed.

(** X30. What [umm_free] releases can be allocated again: right after
    an allocated block is freed, [umm_malloc] of any size from 1 up to
    the usable size of that block succeeds. *)
Theorem free_then_malloc_succeeds st p size :
  reachable st -> allocated st p = true ->
  0 < size <= usable_size st (block_of st p) ->
  exists p' st', umm_malloc size (umm_free p st) = Some (p', st') /\ p' <> NULL.
Proof.
  intros Hr Hp Hsize.
  destruct (reachable_inv st Hr) as [a Hv].
  pose proof UMM_BLOCKSIZE_ge as HB.
  pose proof (view_ainv _ _ Hv) as Hinv.
  pose proof (view_N_range _ _ Hv) as HNr.
  pose proof (view_N _ _ Hv) as HN.
  destruct (allocated_extent st a p Hv Hp)
    as (c & Ep & Eb & Hc & Hf & Hc1 & Hlt & Hle & _ & Eu).
  rewrite Eb, Eu in Hsize.
  assert (Hc0 : c <> 0) by lia. assert (HcN : c <> aN a - 1) by lia.
  assert (H32 : 0 <= size < 4294967296).
  { destruct Hv as ((Hh & Hs & He) & _). unfold header_size in Hsize. nia. }
  assert (Hk : umm_blocks size <= anx a c - c).
  { apply umm_blocks_le; lia. }
  assert (E : umm_free p st = umm_free_core (UMM_DATA st c) st).
  { unfold umm_free. rewrite Ep.
    destruct (Z.eqb_spec (UMM_DATA st c) NULL) as [E0|_]; [|reflexivity].
    exfalso. revert E0. apply DATA_nonnull; [apply Hv | lia]. }
  rewrite E.
  pose proof (sim_free_core st a c Hv Hc Hf Hc0 HcN) as Hv'.
  destruct (a_free_run a c Hinv Hc Hf Hc0 HcN) as (f & Hin & Hfc & Hrun).
  unfold umm_malloc. destruct (Z.eqb_spec size 0); [lia|].
  destruct (malloc_core_cases _ _ size Hv' H32) as [[_ Hno]|(cf & Hcf & _ & E1)].
  - specialize (Hno f Hin). lia.
  - rewrite E1. eexists. eexists. split; [reflexivity|].
    pose proof (hinv_fl_range _ _ _ _ _ _ _ _ (view_ainv _ _ Hv') cf Hcf) as Hr1.
    apply DATA_nonnull; [apply Hv' | lia].
Qed.

(** * The poison layer *)

(** The functions under [UMM_POISON_CHECK].  The sizes of the two guard
    areas and the type of the length word are macros of the configuration
    header; they are parameters here.  The length word is taken to be an
    unsigned integer of [LEN_BYTES] bytes, stored little endian as on the
    target. *)
Section Poison.

Variable UMM_POISON_SIZE_BEFORE : Z.
Variable UMM_POISON_SIZE_AFTER : Z.
Variable LEN_BYTES : nat.

Definition POISON_BYTE : Z := 165.

(** [sizeof(UMM_POISONED_BLOCK_LEN_TYPE)] *)
Definition len_size : Z := Z.of_nat LEN_BYTES.

Definition poison_size (s : Z) : Z :=
  if s =? 0 then 0
  else u32 (UMM_POISON_SIZE_BEFORE + len_size + UMM_POISON_SIZE_AFTER).

Definition put_poison (m : mem) (ptr poison_size : Z) : mem :=
  memset m ptr POISON_BYTE poison_size.

(** The [for] loop of [check_poison], from index [i] on. *)
Fixpoint check_poison_from (n : nat) (m : mem) (ptr i : Z) : bool :=
  match n with
  | O => true
  | S n' =>
      if negb (m (ptr + i) mod 256 =? POISON_BYTE) then false
      else check_poison_from n' m ptr (i + 1)
  end.

Definition check_poison (m : mem) (ptr poison_size : Z) : bool :=
  check_poison_from (Z.to_nat poison_size) m ptr 0.

(** Reading and writing the length word. *)
Fixpoint load_le (n : nat) (m : mem) (a : Z) : Z :=
  match n with
  | O => 0
  | S n' => m a mod 256 + 256 * load_le n' m (a + 1)
  end.

Fixpoint store_le (n : nat) (m : mem) (a v : Z) : mem :=
  match n with
  | O => m
  | S n' => store_le n' (store8 m a v) (a + 1) (v / 256)
  end.

(** [check_poison_block] on the block with index [c]. *)
Definition check_poison_block (st : umm_state) (c : Z) : bool :=
  if has_free_flag (UMM_NBLOCK st c) then true
  else
    let pc := UMM_DATA st c in
    if negb (check_poison (memory st) (pc + len_size) UMM_POISON_SIZE_BEFORE) then false
    else
      check_poison (memory st)
        (pc + load_le LEN_BYTES (memory st) pc - UMM_POISON_SIZE_AFTER)
        UMM_POISON_SIZE_AFTER.

Definition get_poisoned (ptr size_w_poison : Z) (st : umm_state) : Z * umm_state :=
  if negb (size_w_poison =? 0) && negb (ptr =? NULL) then
    let m := put_poison (memory st) (ptr + len_size) UMM_POISON_SIZE_BEFORE in
    let m := put_poison m (ptr + size_w_poison - UMM_POISON_SIZE_AFTER)
               UMM_POISON_SIZE_AFTER in
    let m := store_le LEN_BYTES m ptr size_w_poison in
    (ptr + len_size + UMM_POISON_SIZE_BEFORE, with_memory st m)
  else (ptr, st).

(** [get_unpoisoned] also calls [check_poison_block] on the block of the
    pointer; the result of that call is not used, and but for logging the
    call has no effect. *)
Definition get_unpoisoned (ptr : Z) : Z :=
  if ptr =? NULL then ptr
  else ptr - (len_size + UMM_POISON_SIZE_BEFORE).

Definition umm_poison_malloc (size : Z) (st : umm_state) : option (Z * umm_state) :=
  let size := u32 (size + poison_size size) in
  match umm_malloc size st with
  | None => None
  | Some (ret, st) => Some (get_poisoned ret size st)
  end.

Definition umm_poison_calloc (num item_size : Z) (st : umm_state)
  : option (Z * umm_state) :=
  let size := u32 (item_size * num) in
  let size := u32 (size + poison_size size) in
  match umm_malloc size st with
  | None => None
  | Some (ret, st) =>
      let st := if ret =? NULL then st
                else with_memory st (memset (memory st) ret 0 size) in
      Some (get_poisoned ret size st)
  end.

Definition umm_poison_realloc (ptr size : Z) (st : umm_state)
  : option (Z * umm_state) :=
  let ptr := get_unpoisoned ptr in
  let size := u32 (size + poison_size size) in
  match umm_realloc ptr size st with
  | None => None
  | Some (ret, st) => Some (get_poisoned ret size st)
  end.

Definition umm_poison_free (ptr : Z) (st : umm_state) : umm_state :=
  umm_free (get_unpoisoned ptr) st.

(** The [while] loop of [umm_poison_check]; the result is [ok]. *)
Fixpoint poison_walk (fuel : nat) (st : umm_state) (cur : Z) : option bool :=
  if nxt st cur =? 0 then Some true
  else
    match fuel with
    | O => None
    | S fuel' =>
        if negb (is_free st cur) then
          if negb (check_poison_block st cur) then Some false
          else poison_walk fuel' st (nxt st cur)
        else poison_walk fuel' st (nxt st cur)
    end.

Definition umm_poison_check (st : umm_state) : option bool :=
  poison_walk (scan_fuel st) st (nxt st 0).

(** ** Guard bytes and the length word *)

Lemma check_poison_from_spec m ptr : forall n i,
  check_poison_from n m ptr i = true <->
  (forall j, i <= j < i + Z.of_nat n -> m (ptr + j) mod 256 = POISON_BYTE).
Proof.
  induction n as [|n IH]; intros i.
  - simpl. split; [intros _ j Hj; lia | reflexivity].
  - cbn [check_poison_from].
    destruct (Z.eqb_spec (m (ptr + i) mod 256) POISON_BYTE) as [E|E]; cbn [negb].
    + rewrite IH. split.
      * intros H j Hj. destruct (Z.eq_dec j i) as [->|Hne]; [exact E|].
        apply H. lia.
      * intros H j Hj. apply H. lia.
    + split; [discriminate|]. intros H. exfalso. apply E. apply H. lia.
Qed.

Lemma check_poison_spec m ptr n :
  0 <= n ->
  (check_poison m ptr n = true <->
   forall j, 0 <= j < n -> m (ptr + j) mod 256 = POISON_BYTE).
Proof.
  intros Hn. unfold check_poison. rewrite check_poison_from_spec.
  rewrite Z2Nat.id by exact Hn. reflexivity.
Qed.

Lemma store_le_outside : forall n m a v x,
  x < a \/ a + Z.of_nat n <= x -> store_le n m a v x = m x.
Proof.
  induction n as [|n IH]; intros m a v x Hx; [reflexivity|].
  cbn [store_le]. rewrite IH by lia.
  unfold store8. destruct (Z.eqb_spec x a); [lia | reflexivity].
Qed.

Lemma load_le_ext : forall n m m' a,
  (forall x, a <= x < a + Z.of_nat n -> m' x = m x) ->
  load_le n m' a = load_le n m a.
Proof.
  induction n as [|n IH]; intros m m' a H; [reflexivity|].
  cbn [load_le]. rewrite (H a) by lia. rewrite (IH m m' (a + 1)); [reflexivity|].
  intros x Hx. apply H. lia.
Qed.

Lemma load_le_store_le : forall n m a v,
  load_le n (store_le n m a v) a = v mod 256 ^ Z.of_nat n.
Proof.
  induction n as [|n IH]; intros m a v.
  - simpl. rewrite Z.mod_1_r. reflexivity.
  - cbn [load_le store_le].
    rewrite store_le_outside by lia.
    unfold store8 at 1. rewrite Z.eqb_refl.
    rewrite Z.mod_mod by lia.
    rewrite IH.
    rewrite Nat2Z.inj_succ, Z.pow_succ_r by lia.
    rewrite (Z.rem_mul_r v 256 (256 ^ Z.of_nat n)) by lia. reflexivity.
Qed.

Hypothesis Hbefore : 0 <= UMM_POISON_SIZE_BEFORE.
Hypothesis Hafter : 0 <= UMM_POISON_SIZE_AFTER.

(** Bytes added to a request: the length word and the two guard areas. *)
Definition overhead : Z := UMM_POISON_SIZE_BEFORE + len_size + UMM_POISON_SIZE_AFTER.

(** The memory [get_poisoned] leaves. *)
Definition poisoned_mem (m : mem) (ptr sw : Z) : mem :=
  store_le LEN_BYTES
    (put_poison (put_poison m (ptr + len_size) UMM_POISON_SIZE_BEFORE)
       (ptr + sw - UMM_POISON_SIZE_AFTER) UMM_POISON_SIZE_AFTER)
    ptr sw.

Lemma get_poisoned_eq ptr sw st :
  sw <> 0 -> ptr <> NULL ->
  get_poisoned ptr sw st
  = (ptr + len_size + UMM_POISON_SIZE_BEFORE,
     with_memory st (poisoned_mem (memory st) ptr sw)).
Proof.
  intros Hs Hp. unfold get_poisoned.
  destruct (Z.eqb_spec sw 0); [contradiction|].
  destruct (Z.eqb_spec ptr NULL); [contradiction|]. reflexivity.
Qed.

Lemma get_poisoned_null sw st : get_poisoned NULL sw st = (NULL, st).
Proof. unfold get_poisoned. rewrite Z.eqb_refl, andb_false_r. reflexivity. Qed.

Lemma len_size_nonneg : 0 <= len_size.
Proof. unfold len_size. lia. Qed.

Lemma poisoned_mem_outside m ptr size x :
  0 <= size -> x < ptr \/ ptr + (size + overhead) <= x ->
  poisoned_mem m ptr (size + overhead) x = m x.
Proof.
  intros Hs Hx. pose proof len_size_nonneg as HL. unfold overhead in *.
  unfold poisoned_mem. rewrite store_le_outside by (fold len_size; lia).
  unfold put_poison, memset.
  destruct (Z.leb_spec (ptr + (size + (UMM_POISON_SIZE_BEFORE + len_size
                                       + UMM_POISON_SIZE_AFTER))
                        - UMM_POISON_SIZE_AFTER) x);
    destruct (Z.ltb_spec x (ptr + (size + (UMM_POISON_SIZE_BEFORE + len_size
                                           + UMM_POISON_SIZE_AFTER))
                            - UMM_POISON_SIZE_AFTER + UMM_POISON_SIZE_AFTER));
    cbn [andb]; try lia;
    destruct (Z.leb_spec (ptr + len_size) x);
    destruct (Z.ltb_spec x (ptr + len_size + UMM_POISON_SIZE_BEFORE));
    cbn [andb]; try lia; reflexivity.
Qed.

Lemma poisoned_mem_user m ptr size x :
  0 <= size ->
  ptr + len_size + UMM_POISON_SIZE_BEFORE <= x
  < ptr + len_size + UMM_POISON_SIZE_BEFORE + size ->
  poisoned_mem m ptr (size + overhead) x = m x.
Proof.
  intros Hs Hx. pose proof len_size_nonneg as HL. unfold overhead in *.
  unfold poisoned_mem. rewrite store_le_outside by (fold len_size; lia).
  unfold put_poison, memset.
  destruct (Z.leb_spec (ptr + (size + (UMM_POISON_SIZE_BEFORE + len_size
                                       + UMM_POISON_SIZE_AFTER))
                        - UMM_POISON_SIZE_AFTER) x);
    destruct (Z.ltb_spec x (ptr + (size + (UMM_POISON_SIZE_BEFORE + len_size
                                           + UMM_POISON_SIZE_AFTER))
                            - UMM_POISON_SIZE_AFTER + UMM_POISON_SIZE_AFTER));
    cbn [andb]; try lia;
    destruct (Z.leb_spec (ptr + len_size) x);
    destruct (Z.ltb_spec x (ptr + len_size + UMM_POISON_SIZE_BEFORE));
    cbn [andb]; try lia; reflexivity.
Qed.

Lemma poisoned_mem_before m ptr size i :
  0 <= size -> 0 <= i < UMM_POISON_SIZE_BEFORE ->
  poisoned_mem m ptr (size + overhead) (ptr + len_size + i) = POISON_BYTE.
Proof.
  intros Hs Hi. pose proof len_size_nonneg as HL. unfold overhead in *.
  unfold poisoned_mem. rewrite store_le_outside by (fold len_size; lia).
  unfold put_poison, memset.
  destruct (Z.leb_spec (ptr + (size + (UMM_POISON_SIZE_BEFORE + len_size
                                       + UMM_POISON_SIZE_AFTER))
                        - UMM_POISON_SIZE_AFTER) (ptr + len_size + i));
    destruct (Z.ltb_spec (ptr + len_size + i)
                (ptr + (size + (UMM_POISON_SIZE_BEFORE + len_size
                                + UMM_POISON_SIZE_AFTER))
                 - UMM_POISON_SIZE_AFTER + UMM_POISON_SIZE_AFTER));
    cbn [andb]; try reflexivity;
    destruct (Z.leb_spec (ptr + len_size) (ptr + len_size + i));
    destruct (Z.ltb_spec (ptr + len_size + i) (ptr + len_size + UMM_POISON_SIZE_BEFORE));
    cbn [andb]; try lia; reflexivity.
Qed.

Lemma poisoned_mem_after m ptr size i :
  0 <= size -> 0 <= i < UMM_POISON_SIZE_AFTER ->
  poisoned_mem m ptr (size + overhead)
    (ptr + len_size + UMM_POISON_SIZE_BEFORE + size + i) = POISON_BYTE.
Proof.
  intros Hs Hi. pose proof len_size_nonneg as HL. unfold overhead in *.
  unfold poisoned_mem. rewrite store_le_outside by (fold len_size; lia).
  unfold put_poison, memset.
  destruct (Z.leb_spec (ptr + (size + (UMM_POISON_SIZE_BEFORE + len_size
                                       + UMM_POISON_SIZE_AFTER))
                        - UMM_POISON_SIZE_AFTER)
              (ptr + len_size + UMM_POISON_SIZE_BEFORE + size + i));
    destruct (Z.ltb_spec (ptr + len_size + UMM_POISON_SIZE_BEFORE + size + i)
                (ptr + (size + (UMM_POISON_SIZE_BEFORE + len_size
                                + UMM_POISON_SIZE_AFTER))
                 - UMM_POISON_SIZE_AFTER + UMM_POISON_SIZE_AFTER));
    cbn [andb]; try lia; reflexivity.
Qed.

Lemma poisoned_mem_len m ptr sw :
  0 <= sw < 256 ^ len_size ->
  load_le LEN_BYTES (poisoned_mem m ptr sw) ptr = sw.
Proof.
  intros Hs. unfold poisoned_mem. rewrite load_le_store_le.
  fold len_size. apply Z.mod_small. exact Hs.
Qed.

(** The used block [c] holds a request of [size] bytes between intact
    guards. *)
Definition guarded (st : umm_state) (c size : Z) : Prop :=
  load_le LEN_BYTES (memory st) (UMM_DATA st c) = size + overhead /\
  (forall i, 0 <= i < UMM_POISON_SIZE_BEFORE ->
     memory st (UMM_DATA st c + len_size + i) mod 256 = POISON_BYTE) /\
  (forall i, 0 <= i < UMM_POISON_SIZE_AFTER ->
     memory st (UMM_DATA st c + len_size + UMM_POISON_SIZE_BEFORE + size + i) mod 256
     = POISON_BYTE).

Lemma guarded_check st c size :
  is_free st c = false -> guarded st c size -> check_poison_block st c = true.
Proof.
  intros Hf (Hl & Hb & Ha). unfold check_poison_block. rewrite Hf. cbv zeta.
  assert (E1 : check_poison (memory st) (UMM_DATA st c + len_size)
                 UMM_POISON_SIZE_BEFORE = true).
  { apply check_poison_spec; [exact Hbefore|]. exact Hb. }
  rewrite E1. cbn [negb]. rewrite Hl.
  apply check_poison_spec; [exact Hafter|].
  intros j Hj.
  replace (UMM_DATA st c + (size + overhead) - UMM_POISON_SIZE_AFTER + j)
    with (UMM_DATA st c + len_size + UMM_POISON_SIZE_BEFORE + size + j)
    by (unfold overhead; lia).
  apply Ha. exact Hj.
Qed.

(** A wrong byte in one of the guards of a used block is found. *)
Lemma broken_guard_check st c size off :
  is_free st c = false ->
  load_le LEN_BYTES (memory st) (UMM_DATA st c) = size + overhead ->
  - UMM_POISON_SIZE_BEFORE <= off < 0 \/ size <= off < size + UMM_POISON_SIZE_AFTER ->
  memory st (UMM_DATA st c + len_size + UMM_POISON_SIZE_BEFORE + off) mod 256
  <> POISON_BYTE ->
  check_poison_block st c = false.
Proof.
  intros Hf Hl Hoff Hbad. unfold check_poison_block. rewrite Hf. cbv zeta.
  destruct (check_poison (memory st) (UMM_DATA st c + len_size)
              UMM_POISON_SIZE_BEFORE) eqn:E1; [|reflexivity].
  cbn [negb]. rewrite Hl.
  destruct (check_poison (memory st)
              (UMM_DATA st c + (size + overhead) - UMM_POISON_SIZE_AFTER)
              UMM_POISON_SIZE_AFTER) eqn:E2; [|reflexivity].
  exfalso. apply Hbad.
  rewrite check_poison_spec in E1 by exact Hbefore.
  rewrite check_poison_spec in E2 by exact Hafter.
  destruct Hoff as [Ho|Ho].
  - replace (UMM_DATA st c + len_size + UMM_POISON_SIZE_BEFORE + off)
      with (UMM_DATA st c + len_size + (UMM_POISON_SIZE_BEFORE + off)) by lia.
    apply E1. lia.
  - replace (UMM_DATA st c + len_size + UMM_POISON_SIZE_BEFORE + off)
      with (UMM_DATA st c + (size + overhead) - UMM_POISON_SIZE_AFTER + (off - size))
      by (unfold overhead; lia).
    apply E2. lia.
Qed.

(** [get_poisoned] on the body of a used block that is large enough. *)
Lemma poison_block st a c size :
  view st a -> aS a c -> c <> 0 -> c <> aN a - 1 -> afr a c = false ->
  0 <= size -> size + overhead < 256 ^ len_size ->
  size + overhead <= (anx a c - c) * UMM_BLOCKSIZE - header_size ->
  view (with_memory st (poisoned_mem (memory st) (UMM_DATA st c) (size + overhead))) a /\
  guarded (with_memory st (poisoned_mem (memory st) (UMM_DATA st c) (size + overhead)))
    c size.
Proof.
  intros Hv Hc Hc0 HcN Hf Hs Hlen Hfit.
  pose proof len_size_nonneg as HL.
  split.
  - apply (view_frame st a _ c Hv Hc Hc0 Hf).
    intros x Hx. apply poisoned_mem_outside; [exact Hs|].
    unfold UMM_DATA, UMM_BLOCK, header_size in *. lia.
  - unfold guarded. cbn [memory with_memory].
    change (UMM_DATA (with_memory st
              (poisoned_mem (memory st) (UMM_DATA st c) (size + overhead))) c)
      with (UMM_DATA st c).
    split; [|split].
    + apply poisoned_mem_len. unfold overhead in *. lia.
    + intros i Hi. rewrite poisoned_mem_before by assumption. reflexivity.
    + intros i Hi. rewrite poisoned_mem_after by assumption. reflexivity.
Qed.

(** ** The invariant of the poison layer *)

(** The used block [c] was handed out for a request of [size] bytes: the
    request with its length word and guards fits the body, and the guards
    are intact. *)
Definition pblock (st : umm_state) (a : aheap) (c size : Z) : Prop :=
  0 <= size /\
  size + overhead <= (anx a c - c) * UMM_BLOCKSIZE - header_size /\
  guarded st c size.

Definition pok (st : umm_state) (a : aheap) : Prop :=
  forall c, used a c -> exists size, pblock st a c size.

(** Every allocated block carries intact guards. *)
Definition pinv (st : umm_state) : Prop := exists a, view st a /\ pok st a.

Lemma guarded_ext st st' c size :
  umm_heap_current st' = umm_heap_current st -> 0 <= size ->
  (forall x, UMM_DATA st c <= x < UMM_DATA st c + (size + overhead) ->
     memory st' x = memory st x) ->
  guarded st c size -> guarded st' c size.
Proof.
  intros E Hs Hm (Hl & Hb & Ha). pose proof len_size_nonneg as HL.
  unfold guarded. rewrite (DATA_same_cfg st st' c E).
  split; [|split].
  - rewrite <- Hl. apply load_le_ext. intros x Hx. apply Hm.
    unfold overhead, len_size in *. lia.
  - intros i Hi. rewrite Hm; [auto | unfold overhead; lia].
  - intros i Hi. rewrite Hm; [auto | unfold overhead; lia].
Qed.

Lemma used_body st a c x :
  used a c -> UMM_DATA st c <= x < UMM_BLOCK st (anx a c) -> in_body st a c x.
Proof. intros (Hc & Hf & Hc0 & HcN) Hx. unfold in_body. auto. Qed.

Lemma pblock_keep st a st' a' (P : Z -> Prop) c size :
  view st a -> fr_core st a st' a' P -> P c -> used a c ->
  pblock st a c size -> pblock st' a' c size.
Proof.
  intros Hv (E & HN & H & _) HP Hu (Hs & Hfit & Hg).
  pose proof UMM_BLOCKSIZE_ge as HB.
  pose proof Hu as (Hc & Hf & Hc0 & HcN).
  destruct (view_next _ _ _ Hv Hc HcN) as (Hlt & _).
  assert (Hb0 : in_body st a c (UMM_DATA st c)).
  { apply used_body; [exact Hu|]. unfold UMM_DATA, UMM_BLOCK, header_size. nia. }
  destruct (H c _ HP Hb0) as (_ & Hn & _).
  split; [exact Hs|]. split; [rewrite Hn; exact Hfit|].
  apply (guarded_ext st st' c size E Hs); [|exact Hg].
  intros x Hx. apply (H c x HP). apply used_body; [exact Hu|].
  unfold UMM_DATA, UMM_BLOCK, header_size in *. nia.
Qed.

Lemma fr_used st a st' a' (P : Z -> Prop) c :
  view st a -> fr_core st a st' a' P -> P c -> used a c -> used a' c.
Proof.
  intros Hv (E & HN & H & _) HP Hu.
  pose proof UMM_BLOCKSIZE_ge as HB.
  pose proof Hu as (Hc & Hf & Hc0 & HcN).
  destruct (view_next _ _ _ Hv Hc HcN) as (Hlt & _).
  assert (Hb0 : in_body st a c (UMM_DATA st c)).
  { apply used_body; [exact Hu|]. unfold UMM_DATA, UMM_BLOCK, header_size. nia. }
  destruct (H c _ HP Hb0) as ((H1 & H2 & H3 & H4 & _) & _).
  unfold used. auto.
Qed.

Lemma pok_step st a st' a' (P : Z -> Prop) :
  view st a -> fr_core st a st' a' P -> pok st a ->
  (forall c, used a' c ->
     (used a c /\ P c) \/ exists size, pblock st' a' c size) ->
  pok st' a'.
Proof.
  intros Hv Hs Hok Hnew c Hc.
  destruct (Hnew c Hc) as [[Hu HP]|Hp]; [|exact Hp].
  destruct (Hok c Hu) as (size & Hb). exists size.
  apply (pblock_keep st a st' a' P c size Hv Hs HP Hu Hb).
Qed.

(** [get_poisoned] on the body of an allocated block. *)
Lemma pblock_new st a c size :
  view st a -> used a c ->
  0 <= size -> size + overhead < 256 ^ len_size ->
  size + overhead <= (anx a c - c) * UMM_BLOCKSIZE - header_size ->
  view (with_memory st (poisoned_mem (memory st) (UMM_DATA st c) (size + overhead))) a /\
  fr_core st a
    (with_memory st (poisoned_mem (memory st) (UMM_DATA st c) (size + overhead))) a
    (fun q => q <> c) /\
  pblock (with_memory st (poisoned_mem (memory st) (UMM_DATA st c) (size + overhead)))
    a c size.
Proof.
  intros Hv (Hc & Hf & Hc0 & HcN) Hs Hlen Hfit.
  destruct (poison_block st a c size Hv Hc Hc0 HcN Hf Hs Hlen Hfit) as [Hv' Hg].
  split; [exact Hv'|]. split.
  - apply frc_store; [|exact Hv|exact Hc].
    intros x Hx. apply poisoned_mem_outside; [exact Hs|].
    unfold UMM_DATA, UMM_BLOCK, header_size in *. lia.
  - split; [exact Hs|]. split; [exact Hfit|exact Hg].
Qed.

(** A store into the user area leaves the guards and the length word. *)
Lemma guarded_store st c size x v :
  0 <= size ->
  UMM_DATA st c + len_size + UMM_POISON_SIZE_BEFORE <= x
  < UMM_DATA st c + len_size + UMM_POISON_SIZE_BEFORE + size ->
  guarded st c size ->
  guarded (with_memory st (store8 (memory st) x v)) c size.
Proof.
  intros Hs Hx (Hl & Hb & Ha). pose proof len_size_nonneg as HL.
  unfold guarded. cbn [memory with_memory].
  change (UMM_DATA (with_memory st (store8 (memory st) x v)) c) with (UMM_DATA st c).
  split; [|split].
  - rewrite <- Hl. apply load_le_ext. intros y Hy. unfold store8.
    destruct (Z.eqb_spec y x); [unfold len_size in *; lia | reflexivity].
  - intros i Hi. unfold store8.
    destruct (Z.eqb_spec (UMM_DATA st c + len_size + i) x); [lia | auto].
  - intros i Hi. unfold store8.
    destruct (Z.eqb_spec (UMM_DATA st c + len_size + UMM_POISON_SIZE_BEFORE + size + i) x);
      [lia | auto].
Qed.

(** ** The operations of the poison layer *)

Lemma overhead_nonneg : 0 <= overhead.
Proof. pose proof len_size_nonneg. unfold overhead. lia. Qed.

Lemma size_with_poison size :
  0 <= size -> size <> 0 -> size + overhead < 4294967296 ->
  u32 (size + poison_size size) = size + overhead.
Proof.
  intros H0 Hne Hlt. pose proof overhead_nonneg as Ho.
  unfold poison_size. destruct (Z.eqb_spec size 0); [contradiction|].
  fold overhead. rewrite (u32_small overhead) by lia. apply u32_small. lia.
Qed.

Lemma get_unpoisoned_eq p :
  p <> NULL -> get_unpoisoned p = p - (len_size + UMM_POISON_SIZE_BEFORE).
Proof. intros Hp. unfold get_unpoisoned. destruct (Z.eqb_spec p NULL); [contradiction|reflexivity]. Qed.

Lemma malloc_cases st a size p st' :
  view st a -> 0 <= size < 4294967296 ->
  umm_malloc size st = Some (p, st') ->
  (p = NULL /\ st' = st) \/
  exists cf, In cf (afl a) /\ umm_blocks size <= anx a cf - cf /\
             p = UMM_DATA st cf /\
             st' = malloc_take cf (anx a cf - cf) (umm_blocks size) st.
Proof.
  intros Hv Hsize E. unfold umm_malloc in E.
  destruct (Z.eqb_spec size 0).
  { injection E as <- <-. left. auto. }
  destruct (malloc_core_cases st a size Hv Hsize) as [[E1 _]|(cf & Hin & Hfit & E1)];
    rewrite E1 in E; injection E as <- <-.
  - left. auto.
  - right. exists cf. auto.
Qed.

(** A block is taken from the free block [cf], its body is filled with
    [m1] and then poisoned. *)
Lemma poison_take st a cf size k st1 m1 :
  view st a -> pok st a -> In cf (afl a) ->
  0 <= size -> size + overhead < 4294967296 -> size + overhead < 256 ^ len_size ->
  k = umm_blocks (size + overhead) -> k <= anx a cf - cf ->
  st1 = malloc_take cf (anx a cf - cf) k st ->
  (forall x, ~ (UMM_DATA st cf <= x < UMM_BLOCK st (cf + k)) -> m1 x = memory st1 x) ->
  view (with_memory st1 (poisoned_mem m1 (UMM_DATA st cf) (size + overhead)))
       (a_alloc cf k a) /\
  pok (with_memory st1 (poisoned_mem m1 (UMM_DATA st cf) (size + overhead)))
      (a_alloc cf k a) /\
  fr_core st a (with_memory st1 (poisoned_mem m1 (UMM_DATA st cf) (size + overhead)))
          (a_alloc cf k a) (fun _ => True) /\
  used (a_alloc cf k a) cf /\
  pblock (with_memory st1 (poisoned_mem m1 (UMM_DATA st cf) (size + overhead)))
         (a_alloc cf k a) cf size.
Proof.
  intros Hv Hok Hin Hs H32 Hlen Ek Hfit Est1 Hm1.
  pose proof UMM_BLOCKSIZE_ge as HB.
  pose proof overhead_nonneg as Ho.
  pose proof (view_ainv _ _ Hv) as Hinv.
  assert (Hsw : 0 <= size + overhead < 4294967296) by lia.
  pose proof (umm_blocks_range _ Hsw) as Hk. rewrite <- Ek in Hk.
  assert (Hk' : 0 < k <= anx a cf - cf) by lia.
  pose proof (sim_malloc_take st a cf k Hv Hin Hk') as Hv1.
  pose proof (frc_take st a cf k Hv Hin Hk') as Hs1.
  pose proof (cfg_malloc_take cf (anx a cf - cf) k st) as Ecfg1.
  rewrite <- Est1 in Hv1, Hs1, Ecfg1.
  destruct (view_fl_S _ _ _ Hv Hin) as [HcfS Hcff].
  pose proof (hinv_fl_range _ _ _ _ _ _ _ _ Hinv cf Hin) as Hcfr.
  destruct (view_next _ _ _ Hv HcfS) as (_ & Hn & _); [lia|].
  pose proof (view_S_range _ _ _ Hv Hn) as Hrn.
  pose proof (view_N_range _ _ Hv) as HNr.
  destruct (a_alloc_facts a cf k Hinv Hin Hk') as (HNa & Hcfa & Hcffa & Hnxa & Hoth).
  remember (a_alloc cf k a) as a1 eqn:Ea1.
  assert (Hu1 : used a1 cf).
  { unfold used. rewrite HNa. repeat split; auto; lia. }
  assert (Hm1' : forall x, ~ (UMM_DATA st1 cf <= x < UMM_BLOCK st1 (anx a1 cf)) ->
                           m1 x = memory st1 x).
  { intros x Hx. apply Hm1. rewrite Hnxa in Hx.
    unfold UMM_DATA, UMM_BLOCK, UMM_HEAP in *. rewrite Ecfg1 in Hx. exact Hx. }
  assert (Hcf0 : cf <> 0) by lia.
  pose proof (view_frame st1 a1 m1 cf Hv1 Hcfa Hcf0 Hcffa Hm1') as Hv2.
  pose proof (frc_store st1 a1 m1 cf Hm1' Hv1 Hcfa) as Hs2.
  assert (Hcov : size + overhead <= (anx a1 cf - cf) * UMM_BLOCKSIZE - header_size).
  { rewrite Hnxa. replace (cf + k - cf) with k by lia. rewrite Ek.
    apply umm_blocks_covers; [exact Hsw | lia]. }
  destruct (pblock_new (with_memory st1 m1) a1 cf size Hv2 Hu1 Hs Hlen Hcov)
    as (Hv3 & Hs3 & Hp3).
  rewrite <- (DATA_same_cfg st st1 cf Ecfg1).
  assert (Hfr : fr_core st a
                 (with_memory st1 (poisoned_mem m1 (UMM_DATA st1 cf) (size + overhead)))
                 a1 (fun _ => True)).
  { apply (fr_core_weaken st a _ _ (fun q => (True /\ q <> cf) /\ q <> cf)).
    - intros q x _ (_ & Hfq & _).
      assert (q <> cf) by (intros ->; congruence). auto.
    - apply (fr_core_trans st a (with_memory st1 m1) a1 _ _ _ _); [|exact Hs3].
      apply (fr_core_trans st a st1 a1 _ _ _ _ Hs1 Hs2). }
  split; [exact Hv3|]. split; [|split; [exact Hfr|split; [exact Hu1|exact Hp3]]].
  apply (pok_step st a _ a1 (fun _ => True) Hv Hfr Hok).
  intros c Hc. rewrite Ea1 in Hc. apply cu_alloc in Hc.
  destruct Hc as [Hc| ->]; [left; auto|].
  right. exists size. exact Hp3.
Qed.

Lemma poison_malloc_spec st a size p st' :
  view st a -> pok st a ->
  0 <= size -> size + overhead < 4294967296 -> size + overhead < 256 ^ len_size ->
  umm_poison_malloc size st = Some (p, st') ->
  (p = NULL /\ st' = st) \/
  exists cf,
    In cf (afl a) /\ p = UMM_DATA st cf + len_size + UMM_POISON_SIZE_BEFORE /\
    view st' (a_alloc cf (umm_blocks (size + overhead)) a) /\
    pok st' (a_alloc cf (umm_blocks (size + overhead)) a) /\
    fr_core st a st' (a_alloc cf (umm_blocks (size + overhead)) a) (fun _ => True) /\
    used (a_alloc cf (umm_blocks (size + overhead)) a) cf /\
    pblock st' (a_alloc cf (umm_blocks (size + overhead)) a) cf size.
Proof.
  intros Hv Hok Hs H32 Hlen E.
  pose proof overhead_nonneg as Ho.
  unfold umm_poison_malloc in E.
  destruct (Z.eq_dec size 0) as [->|Hne].
  { left. unfold poison_size in E. simpl in E. injection E as <- <-. auto. }
  rewrite (size_with_poison size Hs Hne H32) in E.
  destruct (umm_malloc (size + overhead) st) as [[ret st1]|] eqn:E1; [|discriminate].
  injection E as E.
  assert (Hsw : 0 <= size + overhead < 4294967296) by lia.
  destruct (malloc_cases st a _ ret st1 Hv Hsw E1)
    as [[-> ->]|(cf & Hin & Hfit & -> & Est1)].
  { rewrite get_poisoned_null in E. injection E as <- <-. left. auto. }
  right. exists cf.
  pose proof (view_ainv _ _ Hv) as Hinv.
  pose proof (hinv_fl_range _ _ _ _ _ _ _ _ Hinv cf Hin) as Hcfr.
  rewrite get_poisoned_eq in E;
    [| lia | apply DATA_nonnull; [apply Hv | lia]].
  injection E as <- <-.
  split; [exact Hin|]. split; [reflexivity|].
  apply (poison_take st a cf size _ st1 (memory st1) Hv Hok Hin Hs H32 Hlen eq_refl
           Hfit Est1).
  intros x _. reflexivity.
Qed.

Lemma poison_calloc_spec st a num item_size p st' :
  view st a -> pok st a ->
  0 <= item_size * num -> item_size * num + overhead < 4294967296 ->
  item_size * num + overhead < 256 ^ len_size ->
  umm_poison_calloc num item_size st = Some (p, st') ->
  (p = NULL /\ st' = st) \/
  exists cf,
    In cf (afl a) /\ p = UMM_DATA st cf + len_size + UMM_POISON_SIZE_BEFORE /\
    view st' (a_alloc cf (umm_blocks (item_size * num + overhead)) a) /\
    pok st' (a_alloc cf (umm_blocks (item_size * num + overhead)) a) /\
    fr_core st a st' (a_alloc cf (umm_blocks (item_size * num + overhead)) a)
            (fun _ => True) /\
    used (a_alloc cf (umm_blocks (item_size * num + overhead)) a) cf /\
    pblock st' (a_alloc cf (umm_blocks (item_size * num + overhead)) a) cf
           (item_size * num) /\
    (forall off, 0 <= off < item_size * num -> memory st' (p + off) = 0).
Proof.
  intros Hv Hok Hs H32 Hlen E.
  pose proof overhead_nonneg as Ho. pose proof len_size_nonneg as HL.
  pose proof UMM_BLOCKSIZE_ge as HB.
  unfold umm_poison_calloc in E. cbv zeta in E.
  rewrite (u32_small (item_size * num)) in E by lia.
  remember (item_size * num) as size eqn:Esize.
  destruct (Z.eq_dec size 0) as [Hz|Hne].
  { left. rewrite Hz in E. unfold poison_size in E. simpl in E.
    injection E as <- <-. auto. }
  rewrite (size_with_poison size Hs Hne H32) in E.
  destruct (umm_malloc (size + overhead) st) as [[ret st1]|] eqn:E1; [|discriminate].
  injection E as E.
  assert (Hsw : 0 <= size + overhead < 4294967296) by lia.
  destruct (malloc_cases st a _ ret st1 Hv Hsw E1)
    as [[-> ->]|(cf & Hin & Hfit & -> & Est1)].
  { rewrite Z.eqb_refl in E. rewrite get_poisoned_null in E.
    injection E as <- <-. left. auto. }
  right. exists cf.
  pose proof (view_ainv _ _ Hv) as Hinv.
  pose proof (hinv_fl_range _ _ _ _ _ _ _ _ Hinv cf Hin) as Hcfr.
  destruct (view_fl_S _ _ _ Hv Hin) as [HcfS _].
  destruct (view_next _ _ _ Hv HcfS) as (_ & Hn & _); [lia|].
  pose proof (view_S_range _ _ _ Hv Hn) as Hrn.
  pose proof (view_N_range _ _ Hv) as HNr.
  assert (Hnn : UMM_DATA st cf <> NULL) by (apply DATA_nonnull; [apply Hv | lia]).
  destruct (Z.eqb_spec (UMM_DATA st cf) NULL) as [E0|_]; [contradiction|].
  rewrite get_poisoned_eq in E; [| lia | exact Hnn].
  injection E as <- <-.
  cbn [memory with_memory].
  pose proof (umm_blocks_range _ Hsw) as Hk.
  pose proof (umm_blocks_covers _ Hsw) as Hcov.
  destruct (poison_take st a cf size _ st1
              (memset (memory st1) (UMM_DATA st cf) 0 (size + overhead))
              Hv Hok Hin Hs H32 Hlen eq_refl Hfit Est1)
    as (H1 & H2 & H3 & H4 & H5).
  { intros x Hx. unfold memset.
    destruct (Z.leb_spec (UMM_DATA st cf) x);
      destruct (Z.ltb_spec x (UMM_DATA st cf + (size + overhead))); cbn [andb]; auto.
    exfalso. apply Hx. unfold UMM_DATA, UMM_BLOCK, header_size in *. nia. }
  split; [exact Hin|]. split; [reflexivity|].
  split; [exact H1|]. split; [exact H2|]. split; [exact H3|]. split; [exact H4|].
  split; [exact H5|].
  intros off Hoff. cbn [memory with_memory].
  rewrite poisoned_mem_user by lia.
  unfold memset.
  destruct (Z.leb_spec (UMM_DATA st cf)
              (UMM_DATA st cf + len_size + UMM_POISON_SIZE_BEFORE + off)); [|lia].
  destruct (Z.ltb_spec (UMM_DATA st cf + len_size + UMM_POISON_SIZE_BEFORE + off)
              (UMM_DATA st cf + (size + overhead))); [|unfold overhead in *; lia].
  reflexivity.
Qed.

Lemma poison_free_spec st a p :
  view st a -> pok st a -> p <> NULL -> allocated st (get_unpoisoned p) = true ->
  exists c,
    get_unpoisoned p = UMM_DATA st c /\ used a c /\
    view (umm_poison_free p st) (a_free c a) /\
    pok (umm_poison_free p st) (a_free c a) /\
    fr_core st a (umm_poison_free p st) (a_free c a) (fun q => q <> c).
Proof.
  intros Hv Hok Hp Hal.
  pose proof (view_ainv _ _ Hv) as Hinv.
  destruct (allocated_spec st a _ Hv Hal) as (c & Ep & _ & Hc & Hc0 & HcN & Hf).
  pose proof (view_S_range _ _ _ Hv Hc) as Hrc.
  exists c. split; [exact Ep|]. split; [unfold used; auto|].
  unfold umm_poison_free, umm_free. rewrite Ep.
  destruct (Z.eqb_spec (UMM_DATA st c) NULL) as [E0|_].
  { exfalso. revert E0. apply DATA_nonnull; [apply Hv | lia]. }
  pose proof (sim_free_core st a c Hv Hc Hf Hc0 HcN) as Hv'.
  pose proof (frc_free st a c Hv Hc Hf Hc0 HcN) as Hs.
  split; [exact Hv'|]. split; [|exact Hs].
  apply (pok_step st a _ _ _ Hv Hs Hok).
  intros q Hq. left. apply (cu_free a c q Hinv Hc Hf Hc0 HcN). exact Hq.
Qed.

Lemma poison_realloc_spec st a p size p' st' :
  view st a -> pok st a -> p <> NULL -> allocated st (get_unpoisoned p) = true ->
  0 < size -> size + overhead < 4294967296 -> size + overhead < 256 ^ len_size ->
  umm_poison_realloc p size st = Some (p', st') ->
  (p' = NULL /\ st' = st) \/
  exists c c' a' osize,
    get_unpoisoned p = UMM_DATA st c /\ used a c /\ pblock st a c osize /\
    p' = UMM_DATA st c' + len_size + UMM_POISON_SIZE_BEFORE /\
    (c' = c \/ afr a c' = true) /\
    view st' a' /\ pok st' a' /\ fr_core st a st' a' (fun q => q <> c) /\
    used a' c' /\ pblock st' a' c' size /\
    (forall off, 0 <= off < osize -> off < size ->
       memory st' (p' + off) = memory st (p + off)).
Proof.
  intros Hv Hok Hp Hal Hs H32 Hlen E.
  pose proof overhead_nonneg as Ho. pose proof len_size_nonneg as HL.
  pose proof UMM_BLOCKSIZE_ge as HB.
  destruct (allocated_spec st a _ Hv Hal) as (c & Ep & _ & Hc & Hc0 & HcN & Hf).
  assert (Hu : used a c) by (unfold used; auto).
  destruct (Hok c Hu) as (osize & Hpb).
  unfold umm_poison_realloc in E. cbv zeta in E.
  rewrite (size_with_poison size) in E by lia.
  rewrite Ep in E.
  assert (Hsw : 0 < size + overhead < 4294967296) by lia.
  destruct (realloc_spec st a c (size + overhead) Hv Hc Hf Hc0 HcN Hsw)
    as (p1 & st1 & E1 & Hres).
  rewrite E1 in E. injection E as E.
  destruct Hres as [(-> & -> & _)|Hdone].
  { rewrite get_poisoned_null in E. injection E as <- <-. left. auto. }
  right.
  destruct Hdone
    as (a1 & c' & Hv1 & Hs1 & Ep1 & Hor & Hc' & Hf' & Hc0' & HcN' & Hn' & Hcont & Hnew).
  destruct Hs1 as (Hs1 & _).
  pose proof Hs1 as (Ecfg & HN & _).
  pose proof (view_S_range _ _ _ Hv1 Hc') as Hrc'.
  pose proof (view_N_range _ _ Hv1) as HNr.
  assert (HcN1 : c' <> aN a1 - 1) by lia.
  destruct (view_next _ _ _ Hv1 Hc' HcN1) as (_ & Hn1 & _).
  pose proof (view_S_range _ _ _ Hv1 Hn1) as Hrn1.
  assert (Hu1 : used a1 c') by (unfold used; auto).
  assert (Hcov : size + overhead <= (anx a1 c' - c') * UMM_BLOCKSIZE - header_size).
  { rewrite Hn'. replace (c' + umm_blocks (size + overhead) - c')
      with (umm_blocks (size + overhead)) by lia.
    apply umm_blocks_covers; lia. }
  assert (Hnn : p1 <> NULL).
  { rewrite Ep1. apply DATA_nonnull; [apply Hv | lia]. }
  rewrite get_poisoned_eq in E; [| lia | exact Hnn].
  injection E as <- <-.
  destruct (pblock_new st1 a1 c' size Hv1 Hu1) as (Hv2 & Hs2 & Hp2); [lia..|].
  rewrite (DATA_same_cfg st st1 c' Ecfg) in Hv2, Hs2, Hp2. rewrite <- Ep1 in Hv2, Hs2, Hp2.
  assert (Hfr : fr_core st a
                  (with_memory st1 (poisoned_mem (memory st1) p1 (size + overhead)))
                  a1 (fun q => q <> c)).
  { apply (fr_core_weaken st a _ _ (fun q => q <> c /\ q <> c')).
    - intros q x Hq (_ & Hfq & _). split; [exact Hq|].
      destruct Hor as [->|Hfc']; [exact Hq|]. intros ->. congruence.
    - apply (fr_core_trans st a st1 a1 _ _ _ _ Hs1 Hs2). }
  exists c, c', a1, osize.
  split; [exact Ep|]. split; [exact Hu|]. split; [exact Hpb|].
  split; [rewrite Ep1; reflexivity|]. split; [exact Hor|].
  split; [exact Hv2|]. split; [|split; [exact Hfr|split; [exact Hu1|split; [exact Hp2|]]]].
  - apply (pok_step st a _ a1 (fun q => q <> c /\ q <> c') Hv
             (fr_core_trans st a st1 a1 _ _ _ _ Hs1 Hs2) Hok).
    intros q Hq. destruct (Z.eq_dec q c') as [->|Hne].
    + right. exists size. exact Hp2.
    + left. destruct (Hnew q Hq) as [[H1 H2]|H1]; [auto|contradiction].
  - intros off Ho1 Ho2. cbn [memory with_memory].
    destruct Hpb as (Hos & Hofit & _).
    replace (p1 + len_size + UMM_POISON_SIZE_BEFORE + off)
      with (p1 + len_size + UMM_POISON_SIZE_BEFORE + off) by reflexivity.
    rewrite poisoned_mem_user by lia.
    rewrite get_unpoisoned_eq in Ep by exact Hp.
    replace (p1 + len_size + UMM_POISON_SIZE_BEFORE + off)
      with (p1 + (len_size + UMM_POISON_SIZE_BEFORE + off)) by lia.
    rewrite Hcont by (unfold overhead in *; lia).
    f_equal. lia.
Qed.

Lemma poison_store_spec st a p size off v :
  view st a -> pok st a -> p <> NULL -> allocated st (get_unpoisoned p) = true ->
  load_le LEN_BYTES (memory st) (get_unpoisoned p) = size + overhead ->
  0 <= off < size ->
  view (with_memory st (store8 (memory st) (p + off) v)) a /\
  pok (with_memory st (store8 (memory st) (p + off) v)) a.
Proof.
  intros Hv Hok Hp Hal Hl Hoff.
  pose proof overhead_nonneg as Ho. pose proof len_size_nonneg as HL.
  destruct (allocated_spec st a _ Hv Hal) as (c & Ep & _ & Hc & Hc0 & HcN & Hf).
  assert (Hu : used a c) by (unfold used; auto).
  destruct (Hok c Hu) as (size0 & Hs0 & Hfit & Hg).
  assert (Es : size0 = size).
  { destruct Hg as (Hl0 & _). rewrite Ep in Hl. lia. }
  subst size0.
  rewrite get_unpoisoned_eq in Ep by exact Hp.
  assert (Hm : forall x, ~ (UMM_DATA st c <= x < UMM_BLOCK st (anx a c)) ->
                 store8 (memory st) (p + off) v x = memory st x).
  { intros x Hx. unfold store8. destruct (Z.eqb_spec x (p + off)); [|reflexivity].
    exfalso. apply Hx. unfold UMM_DATA, UMM_BLOCK, header_size, overhead in *. lia. }
  split; [apply (view_frame st a _ c Hv Hc Hc0 Hf Hm)|].
  pose proof (frc_store st a _ c Hm Hv Hc) as Hs.
  apply (pok_step st a _ a _ Hv Hs Hok).
  intros q Hq. destruct (Z.eq_dec q c) as [->|Hne]; [|left; auto].
  right. exists size. split; [exact Hs0|]. split; [exact Hfit|].
  apply guarded_store; [exact Hs0 | lia | exact Hg].
Qed.

Lemma pok_init N st : pok st (a_init N).
Proof.
  intros c (Hc & Hf & Hc0 & HcN). exfalso.
  unfold a_init in *. simpl in *. unfold updb in Hf.
  destruct (Z.eqb_spec c 1); [discriminate|]. lia.
Qed.

(** ** States reached through the poison layer *)

(** States reachable from [umm_init_heap] by the operations of the poison
    layer, called as their contracts require, interleaved with stores of
    the program into the bytes it asked for.  The sizes are those for
    which the request with its guards fits a [size_t] and the length
    word. *)
Inductive preachable : umm_state -> Prop :=
| preach_init : forall ptr size st,
    valid_region ptr size -> preachable (umm_init_heap ptr size st)
| preach_malloc : forall st size p st',
    preachable st ->
    0 <= size -> size + overhead < 4294967296 -> size + overhead < 256 ^ len_size ->
    umm_poison_malloc size st = Some (p, st') -> preachable st'
| preach_calloc : forall st num item_size p st',
    preachable st ->
    0 <= item_size * num -> item_size * num + overhead < 4294967296 ->
    item_size * num + overhead < 256 ^ len_size ->
    umm_poison_calloc num item_size st = Some (p, st') -> preachable st'
| preach_free : forall st p,
    preachable st -> p = NULL \/ allocated st (get_unpoisoned p) = true ->
    preachable (umm_poison_free p st)
| preach_realloc : forall st p size p' st',
    preachable st -> p <> NULL -> allocated st (get_unpoisoned p) = true ->
    0 < size -> size + overhead < 4294967296 -> size + overhead < 256 ^ len_size ->
    umm_poison_realloc p size st = Some (p', st') -> preachable st'
| preach_store : forall st p size off v,
    preachable st -> p <> NULL -> allocated st (get_unpoisoned p) = true ->
    load_le LEN_BYTES (memory st) (get_unpoisoned p) = size + overhead ->
    0 <= off < size ->
    preachable (with_memory st (store8 (memory st) (p + off) v)).

Lemma preachable_pinv st : preachable st -> pinv st.
Proof.
  induction 1 as [ptr size st Hreg
                 | st size p st' _ IH Hs H32 Hlen E
                 | st num item_size p st' _ IH Hs H32 Hlen E
                 | st p _ IH Hp
                 | st p size p' st' _ IH Hp Hal Hs H32 Hlen E
                 | st p size off v _ IH Hp Hal Hl Hoff].
  - exists (a_init (size / UMM_BLOCKSIZE)). split; [apply view_init; exact Hreg|].
    apply pok_init.
  - destruct IH as (a & Hv & Hok).
    destruct (poison_malloc_spec st a size p st' Hv Hok Hs H32 Hlen E)
      as [[_ ->]|(cf & _ & _ & Hv' & Hok' & _)].
    + exists a. auto.
    + eexists. eauto.
  - destruct IH as (a & Hv & Hok).
    destruct (poison_calloc_spec st a num item_size p st' Hv Hok Hs H32 Hlen E)
      as [[_ ->]|(cf & _ & _ & Hv' & Hok' & _)].
    + exists a. auto.
    + eexists. eauto.
  - destruct IH as (a & Hv & Hok).
    destruct (Z.eq_dec p NULL) as [->|Hnn].
    { unfold umm_poison_free, get_unpoisoned, umm_free. simpl. exists a. auto. }
    destruct Hp as [Hp|Hp]; [contradiction|].
    destruct (poison_free_spec st a p Hv Hok Hnn Hp) as (c & _ & _ & Hv' & Hok' & _).
    eexists. eauto.
  - destruct IH as (a & Hv & Hok).
    destruct (poison_realloc_spec st a p size p' st' Hv Hok Hp Hal Hs H32 Hlen E)
      as [[_ ->]|(c & c' & a' & osize & _ & _ & _ & _ & _ & Hv' & Hok' & _)].
    + exists a. auto.
    + exists a'. auto.
  - destruct IH as (a & Hv & Hok).
    exists a. apply (poison_store_spec st a p size off v); auto.
Qed.

(** ** umm_poison_check *)

Lemma poison_walk_ok st a :
  view st a -> (forall c, used a c -> check_poison_block st c = true) ->
  forall fuel cur, aS a cur -> 1 <= cur -> aN a - 1 - cur <= Z.of_nat fuel ->
  poison_walk fuel st cur = Some true.
Proof.
  intros Hv Hall. pose proof (view_ainv _ _ Hv) as Hinv.
  assert (Hlast : anx a (aN a - 1) = 0) by (destruct Hinv; auto).
  induction fuel as [|fuel IH]; intros cur Hc H1 Hfuel.
  - pose proof (view_S_range _ _ _ Hv Hc). assert (cur = aN a - 1) by lia. subst cur.
    cbn [poison_walk]. rewrite (view_nxt _ _ _ Hv Hc), Hlast. reflexivity.
  - cbn [poison_walk]. rewrite (view_nxt _ _ _ Hv Hc).
    destruct (Z.eq_dec cur (aN a - 1)) as [->|Hne].
    + rewrite Hlast. reflexivity.
    + destruct (view_next _ _ _ Hv Hc Hne) as (Hlt & Hn & _).
      destruct (Z.eqb_spec (anx a cur) 0); [lia|].
      rewrite (view_fr _ _ _ Hv Hc).
      destruct (afr a cur) eqn:Hf; cbn [negb].
      * apply IH; auto; lia.
      * rewrite Hall by (unfold used; repeat split; auto; lia). cbn [negb].
        apply IH; auto; lia.
Qed.

Lemma poison_walk_bad st a c :
  view st a -> used a c -> check_poison_block st c = false ->
  forall fuel cur, aS a cur -> 1 <= cur <= c -> aN a - 1 - cur <= Z.of_nat fuel ->
  poison_walk fuel st cur = Some false.
Proof.
  intros Hv (Hc & Hfc & Hc0 & HcN) Hbad.
  pose proof (view_S_range _ _ _ Hv Hc) as Hrc.
  induction fuel as [|fuel IH]; intros cur Hcur H1 Hfuel; [lia|].
  cbn [poison_walk]. rewrite (view_nxt _ _ _ Hv Hcur).
  assert (Hne : cur <> aN a - 1) by lia.
  destruct (view_next _ _ _ Hv Hcur Hne) as (Hlt & Hn & _).
  destruct (Z.eqb_spec (anx a cur) 0); [lia|].
  rewrite (view_fr _ _ _ Hv Hcur).
  assert (Hnext : cur <> c -> poison_walk fuel st (anx a cur) = Some false).
  { intros Hcc. assert (Hlt' : cur < c) by lia.
    pose proof (view_gap _ _ _ _ Hv Hcur Hc Hlt'). apply IH; auto; lia. }
  destruct (afr a cur) eqn:Hf; cbn [negb].
  - apply Hnext. intros ->. congruence.
  - destruct (check_poison_block st cur) eqn:Hchk; cbn [negb]; [|reflexivity].
    apply Hnext. intros ->. congruence.
Qed.

Lemma poison_check_start st a :
  view st a ->
  umm_poison_check st = poison_walk (scan_fuel st) st 1 /\ aS a 1 /\
  aN a - 1 - 1 <= Z.of_nat (scan_fuel st).
Proof.
  intros Hv. pose proof (view_ainv _ _ Hv) as Hinv.
  pose proof (view_N_range _ _ Hv) as HNr.
  assert (H0 : aS a 0) by (destruct Hinv; auto).
  assert (E0 : anx a 0 = 1) by (destruct Hinv; auto).
  destruct (view_next _ _ _ Hv H0) as (_ & H1 & _); [lia|].
  rewrite E0 in H1.
  unfold umm_poison_check. rewrite (view_nxt _ _ _ Hv H0), E0.
  split; [reflexivity|]. split; [exact H1|].
  unfold scan_fuel. rewrite <- (view_N _ _ Hv). lia.
Qed.

(** X25. As long as the program goes through the poison layer and
    writes only to the bytes it asked for, [umm_poison_check] finds every
    guard intact and returns true. *)
Theorem poison_check_passes st :
  preachable st -> umm_poison_check st = Some true.
Proof.
  intros Hr. destruct (preachable_pinv st Hr) as (a & Hv & Hok).
  destruct (poison_check_start st a Hv) as (-> & H1 & Hfuel).
  apply (poison_walk_ok st a Hv); auto; [|lia].
  intros c Hc. destruct (Hok c Hc) as (size & _ & _ & Hg).
  apply (guarded_check st c size); [|exact Hg].
  destruct Hc as (Hc & Hf & _). rewrite (view_fr _ _ _ Hv Hc). exact Hf.
Qed.

(** X26. A byte other than 0xA5 written just before or just after the
    bytes the program asked for, inside a guard of an allocated block, is
    detected: [umm_poison_check] returns false. *)
Theorem poison_check_detects st p size off v :
  preachable st -> p <> NULL -> allocated st (get_unpoisoned p) = true ->
  load_le LEN_BYTES (memory st) (get_unpoisoned p) = size + overhead ->
  - UMM_POISON_SIZE_BEFORE <= off < 0 \/ size <= off < size + UMM_POISON_SIZE_AFTER ->
  v mod 256 <> POISON_BYTE ->
  umm_poison_check (with_memory st (store8 (memory st) (p + off) v)) = Some false.
Proof.
  intros Hr Hp Hal Hl Hoff Hv8.
  destruct (preachable_pinv st Hr) as (a & Hv & Hok).
  pose proof overhead_nonneg as Ho. pose proof len_size_nonneg as HL.
  destruct (allocated_spec st a _ Hv Hal) as (c & Ep & _ & Hc & Hc0 & HcN & Hf).
  assert (Hu : used a c) by (unfold used; auto).
  destruct (Hok c Hu) as (size0 & Hs0 & Hfit & Hg).
  assert (Es : size0 = size).
  { destruct Hg as (Hl0 & _). rewrite Ep in Hl. lia. }
  subst size0.
  rewrite Ep in Hl.
  rewrite get_unpoisoned_eq in Ep by exact Hp.
  assert (Hm : forall x, ~ (UMM_DATA st c <= x < UMM_BLOCK st (anx a c)) ->
                 store8 (memory st) (p + off) v x = memory st x).
  { intros x Hx. unfold store8. destruct (Z.eqb_spec x (p + off)); [|reflexivity].
    exfalso. apply Hx. unfold UMM_DATA, UMM_BLOCK, header_size, overhead in *. lia. }
  pose proof (view_frame st a _ c Hv Hc Hc0 Hf Hm) as Hv'.
  destruct (poison_check_start _ a Hv') as (-> & H1 & Hfuel).
  pose proof (view_S_range _ _ _ Hv Hc) as Hrc.
  apply (poison_walk_bad _ a c Hv' Hu); auto; [|lia].
  apply (broken_guard_check _ c size off).
  - rewrite (view_fr _ _ _ Hv' Hc). exact Hf.
  - cbn [memory with_memory].
    change (UMM_DATA (with_memory st (store8 (memory st) (p + off) v)) c)
      with (UMM_DATA st c).
    rewrite <- Hl. apply load_le_ext. intros y Hy. unfold store8.
    destruct (Z.eqb_spec y (p + off)); [unfold len_size in *; lia | reflexivity].
  - exact Hoff.
  - cbn [memory with_memory].
    change (UMM_DATA (with_memory st (store8 (memory st) (p + off) v)) c)
      with (UMM_DATA st c).
    unfold store8.
    destruct (Z.eqb_spec (UMM_DATA st c + len_size + UMM_POISON_SIZE_BEFORE + off)
                (p + off)); [|lia].
    rewrite Z.mod_mod by lia. exact Hv8.
Qed.

(** What the pointer handed to the program says about the block behind it. *)
Lemma poisoned_ptr st st' a' c p :
  view st' a' -> umm_heap_current st' = umm_heap_current st -> used a' c ->
  p = UMM_DATA st c + len_size + UMM_POISON_SIZE_BEFORE ->
  p <> NULL /\ get_unpoisoned p = UMM_DATA st c /\
  allocated st' (get_unpoisoned p) = true /\
  block_of st' (get_unpoisoned p) = c.
Proof.
  intros Hv' Ecfg Hu Ep.
  pose proof len_size_nonneg as HL.
  pose proof Hu as (Hc & Hf & Hc0 & HcN).
  pose proof (view_S_range _ _ _ Hv' Hc) as Hrc.
  pose proof (view_N_range _ _ Hv') as HNr.
  pose proof (view_N _ _ Hv') as HN.
  assert (Hd : UMM_DATA st' c = UMM_DATA st c) by (apply DATA_same_cfg; exact Ecfg).
  assert (Hpos : 0 < UMM_DATA st' c).
  { destruct Hv' as ((Hh & _) & _). pose proof UMM_BLOCKSIZE_ge.
    unfold UMM_DATA, UMM_BLOCK, header_size. nia. }
  assert (Hp : p <> NULL) by (unfold NULL; lia).
  split; [exact Hp|].
  rewrite (get_unpoisoned_eq p Hp).
  replace (p - (len_size + UMM_POISON_SIZE_BEFORE)) with (UMM_DATA st c) by lia.
  split; [reflexivity|]. split.
  - apply (allocated_used_at st st' a' c Hv' Ecfg). exact Hu.
  - rewrite <- Hd. apply block_of_DATA; [apply Hv' | lia | lia].
Qed.

Lemma pblock_usable st a c size :
  view st a -> used a c -> pblock st a c size ->
  size + overhead <= usable_size st c /\ guarded st c size.
Proof.
  intros Hv (Hc & _) (_ & Hfit & Hg). split; [|exact Hg].
  unfold usable_size. rewrite (view_nxt _ _ _ Hv Hc). exact Hfit.
Qed.

(** What a call of [umm_poison_malloc] that returned has done. *)
Lemma poison_malloc_cases st size p st' :
  preachable st ->
  0 <= size -> size + overhead < 4294967296 -> size + overhead < 256 ^ len_size ->
  umm_poison_malloc size st = Some (p, st') ->
  (p = NULL /\ st' = st) \/
  (p <> NULL /\ allocated st (get_unpoisoned p) = false /\
   allocated st' (get_unpoisoned p) = true /\
   size + overhead <= usable_size st' (block_of st' (get_unpoisoned p)) /\
   guarded st' (block_of st' (get_unpoisoned p)) size /\
   (forall q off, allocated st q = true ->
      0 <= off < usable_size st (block_of st q) ->
      allocated st' q = true /\ memory st' (q + off) = memory st (q + off))).
Proof.
  intros Hr Hs H32 Hlen E.
  destruct (preachable_pinv st Hr) as (a & Hv & Hok).
  destruct (poison_malloc_spec st a size p st' Hv Hok Hs H32 Hlen E)
    as [H|(cf & Hin & Ep & Hv' & Hok' & Hfr & Hu' & Hpb)]; [left; exact H|].
  right.
  pose proof Hfr as (Ecfg & _ & Hbody & _).
  destruct (poisoned_ptr st st' _ cf p Hv' Ecfg Hu' Ep) as (Hp & Eu & Hal' & Eb).
  destruct (pblock_usable st' _ cf size Hv' Hu' Hpb) as (Hfit & Hg).
  split; [exact Hp|]. rewrite Eb. split; [|split; [exact Hal'|split; [exact Hfit|]]].
  - rewrite Eu. destruct (allocated st (UMM_DATA st cf)) eqn:Hal; [|reflexivity].
    apply (allocated_used st a _ Hv) in Hal. destruct Hal as (c & Ec & Hc).
    apply DATA_inj in Ec. subst c.
    destruct (view_fl_S _ _ _ Hv Hin) as [_ Hcff]. destruct Hc as (_ & Hf & _).
    congruence.
  - split; [exact Hg|]. intros q off Hq Hoff.
    pose proof (allocated_in_body st a q off Hv Hq Hoff) as Hb.
    destruct (Hbody _ _ I Hb) as ((H1 & H2 & H3 & H4 & _) & _ & M).
    split; [|exact M].
    destruct (allocated_spec st a q Hv Hq) as (c & Eq & Ebq & _).
    rewrite Ebq in *. rewrite Eq.
    apply (allocated_used_at st st' _ c Hv' Ecfg). unfold used. auto.
Qed.

(** What a call of [umm_poison_realloc] that returned has done. *)
Lemma poison_realloc_cases st p osize size p' st' :
  preachable st -> p <> NULL -> allocated st (get_unpoisoned p) = true ->
  load_le LEN_BYTES (memory st) (get_unpoisoned p) = osize + overhead ->
  0 < size -> size + overhead < 4294967296 -> size + overhead < 256 ^ len_size ->
  umm_poison_realloc p size st = Some (p', st') ->
  (p' = NULL /\ st' = st) \/
  (p' <> NULL /\ allocated st' (get_unpoisoned p') = true /\
   size + overhead <= usable_size st' (block_of st' (get_unpoisoned p')) /\
   guarded st' (block_of st' (get_unpoisoned p')) size /\
   (forall off, 0 <= off < osize -> off < size ->
      memory st' (p' + off) = memory st (p + off))).
Proof.
  intros Hr Hp Hal Hl Hs H32 Hlen E.
  destruct (preachable_pinv st Hr) as (a & Hv & Hok).
  destruct (poison_realloc_spec st a p size p' st' Hv Hok Hp Hal Hs H32 Hlen E)
    as [H|(c & c' & a' & osize0 & Eu & Hu & Hpb & Ep' & _ & Hv' & Hok' & Hfr & Hu'
           & Hpb' & Hcont)];
    [left; exact H|].
  right.
  assert (Es : osize0 = osize).
  { destruct Hpb as (_ & _ & Hl0 & _). rewrite Eu in Hl. lia. }
  subst osize0.
  pose proof Hfr as (Ecfg & _).
  destruct (poisoned_ptr st st' a' c' p' Hv' Ecfg Hu' Ep') as (Hp' & _ & Hal' & Eb).
  destruct (pblock_usable st' a' c' size Hv' Hu' Hpb') as (Hfit & Hg).
  rewrite Eb. auto.
Qed.

(** What a call of [umm_poison_calloc] that returned has done. *)
Lemma poison_calloc_cases st num item_size p st' :
  preachable st ->
  0 <= item_size * num -> item_size * num + overhead < 4294967296 ->
  item_size * num + overhead < 256 ^ len_size ->
  umm_poison_calloc num item_size st = Some (p, st') ->
  (p = NULL /\ st' = st) \/
  (p <> NULL /\ allocated st (get_unpoisoned p) = false /\
   allocated st' (get_unpoisoned p) = true /\
   guarded st' (block_of st' (get_unpoisoned p)) (item_size * num) /\
   (forall off, 0 <= off < item_size * num -> memory st' (p + off) = 0)).
Proof.
  intros Hr Hs H32 Hlen E.
  destruct (preachable_pinv st Hr) as (a & Hv & Hok).
  destruct (poison_calloc_spec st a num item_size p st' Hv Hok Hs H32 Hlen E)
    as [H|(cf & Hin & Ep & Hv' & Hok' & Hfr & Hu' & Hpb & Hz)]; [left; exact H|].
  right.
  pose proof Hfr as (Ecfg & _).
  destruct (poisoned_ptr st st' _ cf p Hv' Ecfg Hu' Ep) as (Hp & Eu & Hal' & Eb).
  destruct (pblock_usable st' _ cf _ Hv' Hu' Hpb) as (Hfit & Hg).
  split; [exact Hp|]. rewrite Eb. split; [|auto].
  rewrite Eu. destruct (allocated st (UMM_DATA st cf)) eqn:Hal; [|reflexivity].
  apply (allocated_used st a _ Hv) in Hal. destruct Hal as (c & Ec & Hc).
  apply DATA_inj in Ec. subst c.
  destruct (view_fl_S _ _ _ Hv Hin) as [_ Hcff]. destruct Hc as (_ & Hf & _).
  congruence.
Qed.

(** *** The operations return *)

Lemma poison_malloc_total st size :
  heap_inv st -> exists p st', umm_poison_malloc size st = Some (p, st').
Proof.
  intros Hi. unfold umm_poison_malloc. cbv zeta.
  assert (Hsize : 0 <= u32 (size + poison_size size) < 4294967296).
  { unfold u32. apply Z.mod_pos_bound. lia. }
  destruct (malloc_total st _ Hi Hsize) as (ret & st1 & E). rewrite E.
  destruct (get_poisoned ret (u32 (size + poison_size size)) st1) as [p s].
  exists p, s. reflexivity.
Qed.

Lemma poison_calloc_total st num item_size :
  heap_inv st -> exists p st', umm_poison_calloc num item_size st = Some (p, st').
Proof.
  intros Hi. unfold umm_poison_calloc. cbv zeta.
  match goal with
  | |- context [umm_malloc ?sz st] =>
      assert (Hsize : 0 <= sz < 4294967296)
        by (unfold u32; apply Z.mod_pos_bound; lia);
      destruct (malloc_total st sz Hi Hsize) as (ret & st1 & E); rewrite E
  end.
  match goal with
  | |- exists p st', Some ?X = Some (p, st') => destruct X as [p s]
  end.
  exists p, s. reflexivity.
Qed.

Lemma poison_realloc_total st p size :
  heap_inv st -> p <> NULL -> allocated st (get_unpoisoned p) = true ->
  0 < size -> size + overhead < 4294967296 ->
  exists p' st', umm_poison_realloc p size st = Some (p', st').
Proof.
  intros [a Hv] Hp Hal Hs H32.
  pose proof overhead_nonneg as Ho.
  destruct (allocated_spec st a _ Hv Hal) as (c & Ep & _ & Hc & Hc0 & HcN & Hf).
  unfold umm_poison_realloc. cbv zeta.
  rewrite (size_with_poison size) by lia.
  rewrite Ep.
  assert (Hsw : 0 < size + overhead < 4294967296) by lia.
  destruct (realloc_spec st a c (size + overhead) Hv Hc Hf Hc0 HcN Hsw)
    as (p1 & st1 & E1 & _).
  rewrite E1.
  destruct (get_poisoned p1 (size + overhead) st1) as [p' s].
  exists p', s. reflexivity.
Qed.

(** X27. On every state reached through the poison layer
    [umm_poison_malloc] returns: it returns null and leaves the state as
    it is, or returns a pointer into a block that was not allocated
    before: the block holds the length word, the two guards filled with
    0xA5 and the [size] bytes asked for between them, and the blocks
    allocated before keep their contents. *)
Theorem poison_malloc_guards st size :
  preachable st ->
  0 <= size -> size + overhead < 4294967296 -> size + overhead < 256 ^ len_size ->
  exists p st',
    umm_poison_malloc size st = Some (p, st') /\
    ((p = NULL /\ st' = st) \/
     (p <> NULL /\ allocated st (get_unpoisoned p) = false /\
      allocated st' (get_unpoisoned p) = true /\
      size + overhead <= usable_size st' (block_of st' (get_unpoisoned p)) /\
      guarded st' (block_of st' (get_unpoisoned p)) size /\
      (forall q off, allocated st q = true ->
         0 <= off < usable_size st (block_of st q) ->
         allocated st' q = true /\ memory st' (q + off) = memory st (q + off)))).
Proof.
  intros Hr Hs H32 Hlen.
  destruct (preachable_pinv st Hr) as (a & Hv & _).
  destruct (poison_malloc_total st size (ex_intro _ a Hv)) as (p & st' & E).
  exists p, st'. split; [exact E|].
  apply (poison_malloc_cases st size p st' Hr Hs H32 Hlen E).
Qed.

(** X28. On every state reached through the poison layer
    [umm_poison_realloc] of a pointer obtained for [osize] bytes to a
    size above 0 returns: it returns null and leaves the state as it is,
    or returns a pointer to [size] bytes between fresh guards whose first
    bytes, up to the smaller of the two sizes, are those the program had
    at the old pointer. *)
Theorem poison_realloc_preserves st p osize size :
  preachable st -> p <> NULL -> allocated st (get_unpoisoned p) = true ->
  load_le LEN_BYTES (memory st) (get_unpoisoned p) = osize + overhead ->
  0 < size -> size + overhead < 4294967296 -> size + overhead < 256 ^ len_size ->
  exists p' st',
    umm_poison_realloc p size st = Some (p', st') /\
    ((p' = NULL /\ st' = st) \/
     (p' <> NULL /\ allocated st' (get_unpoisoned p') = true /\
      size + overhead <= usable_size st' (block_of st' (get_unpoisoned p')) /\
      guarded st' (block_of st' (get_unpoisoned p')) size /\
      (forall off, 0 <= off < osize -> off < size ->
         memory st' (p' + off) = memory st (p + off)))).
Proof.
  intros Hr Hp Hal Hl Hs H32 Hlen.
  destruct (preachable_pinv st Hr) as (a & Hv & _).
  destruct (poison_realloc_total st p size (ex_intro _ a Hv) Hp Hal Hs H32)
    as (p' & st' & E).
  exists p', st'. split; [exact E|].
  apply (poison_realloc_cases st p osize size p' st' Hr Hp Hal Hl Hs H32 Hlen E).
Qed.

(** X29. On every state reached through the poison layer
    [umm_poison_calloc], for a product that with the guards fits the
    length word, returns: it returns null and leaves the state as it is,
    or returns a pointer to [num * item_size] zero bytes between guards
    filled with 0xA5, in a block that was not allocated before. *)
Theorem poison_calloc_zeroed st num item_size :
  preachable st ->
  0 <= item_size * num -> item_size * num + overhead < 4294967296 ->
  item_size * num + overhead < 256 ^ len_size ->
  exists p st',
    umm_poison_calloc num item_size st = Some (p, st') /\
    ((p = NULL /\ st' = st) \/
     (p <> NULL /\ allocated st (get_unpoisoned p) = false /\
      allocated st' (get_unpoisoned p) = true /\
      guarded st' (block_of st' (get_unpoisoned p)) (item_size * num) /\
      (forall off, 0 <= off < item_size * num -> memory st' (p + off) = 0))).
Proof.
  intros Hr Hs H32 Hlen.
  destruct (preachable_pinv st Hr) as (a & Hv & _).
  destruct (poison_calloc_total st num item_size (ex_intro _ a Hv)) as (p & st' & E).
  exists p, st'. split; [exact E|].
  apply (poison_calloc_cases st num item_size p st' Hr Hs H32 Hlen E).
Qed.

End Poison.
End Allocator.

(** * Concrete heaps *)

(** A 128-byte heap of 8-byte blocks at address 65536, in a memory that
    held the byte 170 everywhere before [umm_init_heap]. *)
Definition blank : umm_state :=
  mk_state (fun _ => 170) (mk_config 0 0 0) info_zero.

Abbreviation heap128 inline := (umm_init_heap 8 inline 65536 128 blank).

(** The state and the pointer of a call that returned. *)
Definition state_of (r : option (Z * umm_state)) : umm_state :=
  match r with Some (_, s) => s | None => blank end.
Definition ptr_of (r : option (Z * umm_state)) : Z :=
  match r with Some (p, _) => p | None => -1 end.

Lemma returned r p : ptr_of r = p -> p <> -1 -> r = Some (p, state_of r).
Proof. destruct r as [[q s]|]; simpl; intros; congruence. Qed.

Lemma heap128_reachable policy inline : reachable 8 policy inline (heap128 inline).
Proof.
  apply (reach_init 8 policy inline 65536 128 blank).
  unfold valid_region. vm_compute. intuition discriminate.
Qed.

(** ** One allocation of 10 bytes *)

Abbreviation alloc10 := (umm_malloc 8 UMM_BEST_FIT false 10 (heap128 false)).

Lemma alloc10_eq : alloc10 = Some (65548, state_of alloc10).
Proof. apply returned; [vm_compute; reflexivity | discriminate]. Qed.

(** ** A 20-byte block cut down to 4 bytes *)

Abbreviation alloc20 := (umm_malloc 8 UMM_BEST_FIT false 20 (heap128 false)).

Lemma alloc20_eq : alloc20 = Some (65548, state_of alloc20).
Proof. apply returned; [vm_compute; reflexivity | discriminate]. Qed.

Lemma alloc20_reachable : reachable 8 UMM_BEST_FIT false (state_of alloc20).
Proof.
  apply (reach_malloc 8 UMM_BEST_FIT false (heap128 false) 20 65548).
  - apply heap128_reachable.
  - lia.
  - exact alloc20_eq.
Qed.

(** The same block after the program wrote 7 into its byte 4. *)
Abbreviation wrote20 :=
  (with_memory (state_of alloc20) (store8 (memory (state_of alloc20)) (65548 + 4) 7)).

Lemma wrote20_reachable : reachable 8 UMM_BEST_FIT false wrote20.
Proof.
  apply (reach_store 8 UMM_BEST_FIT false (state_of alloc20) 65548 4 7).
  - exact alloc20_reachable.
  - vm_compute. reflexivity.
  - vm_compute. intuition discriminate.
Qed.

Abbreviation shrunk := (umm_realloc 8 UMM_BEST_FIT false 65548 4 wrote20).

(** ** A full 64-byte heap with two isolated one-block holes *)

Abbreviation heap64 := (umm_init_heap 8 false 65536 64 blank).
Abbreviation full1 := (state_of (umm_malloc 8 UMM_BEST_FIT false 12 heap64)).
Abbreviation full2 := (state_of (umm_malloc 8 UMM_BEST_FIT false 4 full1)).
Abbreviation full3 := (state_of (umm_malloc 8 UMM_BEST_FIT false 4 full2)).
Abbreviation full4 := (state_of (umm_malloc 8 UMM_BEST_FIT false 4 full3)).
Abbreviation full5 := (state_of (umm_malloc 8 UMM_BEST_FIT false 4 full4)).
Abbreviation holes := (umm_free 8 false 65588 (umm_free 8 false 65572 full5)).

Lemma step_malloc policy inline st size p :
  reachable 8 policy inline st -> 0 <= size < 4294967296 ->
  ptr_of (umm_malloc 8 policy inline size st) = p -> p <> -1 ->
  reachable 8 policy inline (state_of (umm_malloc 8 policy inline size st)).
Proof.
  intros Hr Hs Hp Hn.
  apply (reach_malloc 8 policy inline st size p _ Hr Hs).
  apply returned; assumption.
Qed.

Lemma step_free policy inline st p :
  reachable 8 policy inline st -> allocated 8 st p = true ->
  reachable 8 policy inline (umm_free 8 inline p st).
Proof. intros Hr Ha. apply reach_free; auto. Qed.

Lemma holes_reachable : reachable 8 UMM_BEST_FIT false holes.
Proof.
  assert (H0 : reachable 8 UMM_BEST_FIT false heap64).
  { apply (reach_init 8 UMM_BEST_FIT false 65536 64 blank).
    unfold valid_region. vm_compute. intuition discriminate. }
  assert (H1 : reachable 8 UMM_BEST_FIT false full1).
  { apply (step_malloc UMM_BEST_FIT false heap64 12 65548 H0);
      [lia | vm_compute; reflexivity | discriminate]. }
  assert (H2 : reachable 8 UMM_BEST_FIT false full2).
  { apply (step_malloc UMM_BEST_FIT false full1 4 65564 H1);
      [lia | vm_compute; reflexivity | discriminate]. }
  assert (H3 : reachable 8 UMM_BEST_FIT false full3).
  { apply (step_malloc UMM_BEST_FIT false full2 4 65572 H2);
      [lia | vm_compute; reflexivity | discriminate]. }
  assert (H4 : reachable 8 UMM_BEST_FIT false full4).
  { apply (step_malloc UMM_BEST_FIT false full3 4 65580 H3);
      [lia | vm_compute; reflexivity | discriminate]. }
  assert (H5 : reachable 8 UMM_BEST_FIT false full5).
  { apply (step_malloc UMM_BEST_FIT false full4 4 65588 H4);
      [lia | vm_compute; reflexivity | discriminate]. }
  apply step_free; [apply step_free; [exact H5|] |]; vm_compute; reflexivity.
Qed.

(** ** A freed block that still holds bytes of its last owner *)

Abbreviation alloc12 := (umm_malloc 8 UMM_BEST_FIT false 12 (heap128 false)).

(** The owner of the block at 65548 writes 255 at offset [off]. *)
Abbreviation fill s off := (with_memory s (store8 (memory s) (65548 + off) 255)).

(** The bytes 4 to 8 of the block hold 255 when it is freed. *)
Abbreviation marked := (fill (fill (fill (fill (fill (state_of alloc12) 4) 5) 6) 7) 8).
Abbreviation released := (umm_free 8 false 65548 marked).
Abbreviation wrapped := (umm_calloc 8 UMM_BEST_FIT false 536870913 8 released).

Lemma released_reachable : reachable 8 UMM_BEST_FIT false released.
Proof.
  assert (H1 : reachable 8 UMM_BEST_FIT false (state_of alloc12)).
  { apply (step_malloc UMM_BEST_FIT false (heap128 false) 12 65548);
      [apply heap128_reachable | lia | vm_compute; reflexivity | discriminate]. }
  assert (Hfill : forall s off,
            reachable 8 UMM_BEST_FIT false s -> allocated 8 s 65548 = true ->
            0 <= off < usable_size 8 s (block_of 8 s 65548) ->
            reachable 8 UMM_BEST_FIT false (fill s off)).
  { intros s off Hs Ha Ho. apply (reach_store 8 UMM_BEST_FIT false s 65548 off 255 Hs Ha Ho). }
  apply step_free; [|vm_compute; reflexivity].
  apply Hfill; [|vm_compute; reflexivity|vm_compute; intuition discriminate].
  apply Hfill; [|vm_compute; reflexivity|vm_compute; intuition discriminate].
  apply Hfill; [|vm_compute; reflexivity|vm_compute; intuition discriminate].
  apply Hfill; [|vm_compute; reflexivity|vm_compute; intuition discriminate].
  apply Hfill; [exact H1|vm_compute; reflexivity|vm_compute; intuition discriminate].
Qed.

(** * The claims on concrete heaps *)

Abbreviation nxt B st b := (Z.land (get B NBLOCK st b) UMM_BLOCKNO_MASK).
Abbreviation is_free B st b := (has_free_flag (get B NBLOCK st b)).

(** The fresh heap: block 1 is free and its successor, the last block, is
    not. *)
Lemma no_adjacent_free_blocks_witness :
  is_free 8 (heap128 false) (nxt 8 (heap128 false) 1) = false.
Proof.
  apply (no_adjacent_free_blocks 8 UMM_BEST_FIT false (heap128 false) 1).
  - apply heap128_reachable.
  - vm_compute. right. left. reflexivity.
  - vm_compute. reflexivity.
Defined.

(** Growing the 12-byte block to 20 bytes needs 3 blocks in a row; the
    heap has two holes of one block. *)
Lemma realloc_case6_failure_keeps_heap_witness :
  umm_realloc 8 UMM_BEST_FIT false 65548 20 holes = Some (NULL, holes).
Proof.
  apply (realloc_case6_failure_keeps_heap 8 UMM_BEST_FIT false holes 65548 20).
  - exact holes_reachable.
  - vm_compute. reflexivity.
  - lia.
  - vm_compute. reflexivity.
  - exists (state_of (umm_malloc_core 8 UMM_BEST_FIT false 20 holes)).
    apply returned; [vm_compute; reflexivity | discriminate].
Defined.

(** Ten bytes allocated on the fresh heap and freed again. *)
Lemma malloc_then_free_restores_free_runs_witness :
  In (1, 14) (free_runs 8 (umm_free 8 false 65548 (state_of alloc10)))
  <-> In (1, 14) (free_runs 8 (heap128 false)).
Proof.
  apply (malloc_then_free_restores_free_runs 8 UMM_BEST_FIT false
           (heap128 false) 10 65548 (state_of alloc10) (1, 14)).
  - apply (reachable_inv 8 UMM_BEST_FIT false). apply heap128_reachable.
  - lia.
  - exact alloc10_eq.
  - discriminate.
Defined.

(** Thirteen bytes in 8-byte blocks. *)
Lemma umm_blocks_formula_witness :
  umm_blocks 8 13 =
  if 13 <=? UMM_BLOCKSIZE 8 - 4 then 1
  else Z.min ((13 - (UMM_BLOCKSIZE 8 - 4) + UMM_BLOCKSIZE 8 - 1) / UMM_BLOCKSIZE 8 + 1)
             INT16_MAX.
Proof. apply (umm_blocks_formula 8 13). lia. Defined.

(** The table in the comment of [umm_blocks]: 5 bytes take 2 blocks of 8
    bytes, where the excess over the body rounded up plus 2 gives 3. *)
Lemma umm_blocks_is_not_plus_two :
  umm_blocks 8 5 = 2 /\ spec_blocks_for 8 5 = 3 /\
  umm_blocks 8 5 <> spec_blocks_for 8 5.
Proof. vm_compute. repeat split; try reflexivity. discriminate. Qed.

(** The 20-byte block cut down to 4 bytes. *)
Lemma realloc_shrink_keeps_new_extent_witness :
  exists st',
    shrunk = Some (65548, st') /\
    4 <= umm_blocks 8 4 * UMM_BLOCKSIZE 8 - header_size /\
    umm_blocks 8 4 * UMM_BLOCKSIZE 8 - header_size
      <= usable_size 8 wrote20 (block_of 8 wrote20 65548) /\
    (forall off, 0 <= off < umm_blocks 8 4 * UMM_BLOCKSIZE 8 - header_size ->
       memory st' (65548 + off) = memory wrote20 (65548 + off)) /\
    (umm_blocks 8 4 * UMM_BLOCKSIZE 8 - header_size
     = usable_size 8 wrote20 (block_of 8 wrote20 65548) -> st' = wrote20).
Proof.
  apply (realloc_shrink_keeps_new_extent 8 UMM_BEST_FIT false wrote20 65548 4).
  - exact wrote20_reachable.
  - vm_compute. reflexivity.
  - vm_compute. intuition discriminate.
Defined.

(** The block at 65548 offers 20 bytes and holds 7 in its byte 4.  Cut
    down to 4 bytes it stays where it is, and its byte 4, now the header of
    the free block behind it, reads 15. *)
Lemma realloc_shrink_overwrites_tail :
  reachable 8 UMM_BEST_FIT false wrote20 /\
  allocated 8 wrote20 65548 = true /\
  usable_size 8 wrote20 (block_of 8 wrote20 65548) = 20 /\
  shrunk = Some (65548, state_of shrunk) /\
  memory wrote20 (65548 + 4) = 7 /\
  memory (state_of shrunk) (65548 + 4) = 15 /\
  memory (state_of shrunk) (65548 + 4) <> memory wrote20 (65548 + 4).
Proof.
  split; [exact wrote20_reachable|].
  split; [vm_compute; reflexivity|].
  split; [vm_compute; reflexivity|].
  split; [apply returned; [vm_compute; reflexivity | discriminate]|].
  split; [vm_compute; reflexivity|].
  split; [vm_compute; reflexivity|].
  vm_compute. discriminate.
Qed.

(** Four bytes allocated on the fresh heap. *)
Lemma malloc_returns_block_body_witness :
  exists p st',
    umm_malloc 8 UMM_BEST_FIT false 4 (heap128 false) = Some (p, st') /\
    (p = NULL /\ st' = heap128 false /\
     (forall c, In c (chain 8 (heap128 false)) ->
                is_free 8 (heap128 false) c = true ->
                nxt 8 (heap128 false) c - c < umm_blocks 8 4) \/
     exists c,
       In c (chain 8 (heap128 false)) /\
       is_free 8 (heap128 false) c = true /\
       umm_blocks 8 4 <= nxt 8 (heap128 false) c - c /\
       p = UMM_BLOCK 8 (heap128 false) c + header_size /\
       (UMM_BLOCK 8 (heap128 false) c - UMM_HEAP (heap128 false))
         mod UMM_BLOCKSIZE 8 = 0 /\
       (p - UMM_HEAP (heap128 false)) mod UMM_BLOCKSIZE 8 = header_size /\
       allocated 8 st' p = true /\
       block_of 8 st' p = c /\
       nxt 8 st' c - c = umm_blocks 8 4 /\
       4 <= usable_size 8 st' c).
Proof.
  apply (malloc_returns_block_body 8 UMM_BEST_FIT false (heap128 false) 4).
  - apply heap128_reachable.
  - lia.
Defined.

(** On a heap that starts at a multiple of the block size, the body
    handed out for 4 bytes is 4 bytes past one. *)
Lemma malloc_body_is_not_block_aligned :
  UMM_HEAP (heap128 false) mod UMM_BLOCKSIZE 8 = 0 /\
  (exists st', umm_malloc 8 UMM_BEST_FIT false 4 (heap128 false)
               = Some (65548, st')) /\
  65548 mod UMM_BLOCKSIZE 8 <> 0 /\
  (65548 - UMM_HEAP (heap128 false)) mod UMM_BLOCKSIZE 8 <> 0.
Proof.
  split; [vm_compute; reflexivity|].
  split.
  - eexists. apply returned; [vm_compute; reflexivity | discriminate].
  - split; vm_compute; discriminate.
Qed.

(** C8, as the code has it. With 8-byte blocks and a 128-byte heap, right after
    [umm_init_heap] (the statistics record zeroed, as a C global starts
    out) the heap has one free run, blocks 1 to 14; [umm_free_heap_size]
    returns 112, [umm_fragmentation_metric] returns 0 and
    [umm_usage_metric] returns 0, with and without inline metrics. *)
Theorem init_then_introspect inline ptr st :
  0 < ptr -> ptr + 128 <= 4294967296 -> ummHeapInfo st = info_zero ->
  UMM_NUMBLOCKS (umm_init_heap 8 inline ptr 128 st) = 16 /\
  free_runs 8 (umm_init_heap 8 inline ptr 128 st) = [(1, 14)] /\
  (exists s, umm_free_heap_size 8 inline (umm_init_heap 8 inline ptr 128 st)
             = Some (112, s)) /\
  (exists s, umm_fragmentation_metric 8 inline (umm_init_heap 8 inline ptr 128 st)
             = Some (0, s)) /\
  (exists s, umm_usage_metric 8 inline (umm_init_heap 8 inline ptr 128 st)
             = Some (0, s)).
Proof.
  intros Hp He Hi.
  assert (Hr : valid_region 8 ptr 128).
  { unfold valid_region. change (128 / UMM_BLOCKSIZE 8) with 16. lia. }
  split; [exact (init_numblocks 8 inline ptr 128 st Hr)|].
  split; [exact (init_free_runs 8 inline ptr 128 st Hr)|].
  exact (init_introspect 8 inline ptr 128 st Hr Hi).
Qed.

(** The heap at 65536 with inline metrics. *)
Lemma init_then_introspect_witness :
  UMM_NUMBLOCKS (heap128 true) = 16 /\
  free_runs 8 (heap128 true) = [(1, 14)] /\
  (exists s, umm_free_heap_size 8 true (heap128 true) = Some (112, s)) /\
  (exists s, umm_fragmentation_metric 8 true (heap128 true) = Some (0, s)) /\
  (exists s, umm_usage_metric 8 true (heap128 true) = Some (0, s)).
Proof.
  apply (init_then_introspect true 65536 blank).
  - lia.
  - lia.
  - reflexivity.
Defined.

(** On the fresh heap [umm_usage_metric] returns 0, so it does not
    return -1, whichever way the metrics are kept. *)
Lemma init_usage_is_not_minus_one :
  (~ exists s, umm_usage_metric 8 false (heap128 false) = Some (-1, s)) /\
  (~ exists s, umm_usage_metric 8 true (heap128 true) = Some (-1, s)).
Proof.
  split; intros [s E].
  - assert (E0 : ptr_of (umm_usage_metric 8 false (heap128 false)) = 0)
      by (vm_compute; reflexivity).
    rewrite E in E0. discriminate E0.
  - assert (E0 : ptr_of (umm_usage_metric 8 true (heap128 true)) = 0)
      by (vm_compute; reflexivity).
    rewrite E in E0. discriminate E0.
Qed.

(** The header of the one free block of the fresh heap. *)
Lemma umm_info_matches_free_blocks_witness :
  exists r st',
    umm_info 8 65544 false (heap128 false) = Some (r, st') /\
    ((exists b, In b (chain 8 (heap128 false)) /\
                is_free 8 (heap128 false) b = true /\
                65544 = UMM_BLOCK 8 (heap128 false) b) -> r = 65544) /\
    (~ (exists b, In b (chain 8 (heap128 false)) /\
                  is_free 8 (heap128 false) b = true /\
                  65544 = UMM_BLOCK 8 (heap128 false) b) -> r = NULL).
Proof.
  apply (umm_info_matches_free_blocks 8 UMM_BEST_FIT false (heap128 false)
           65544 false).
  apply heap128_reachable.
Defined.

(** After 10 bytes were allocated, block 1 is a used block of the chain
    with its header at 65544, and block 0 has its header at 65536;
    [umm_info] returns null for both addresses. *)
Lemma umm_info_skips_used_blocks :
  In 1 (chain 8 (state_of alloc10)) /\
  UMM_BLOCK 8 (state_of alloc10) 1 = 65544 /\
  (exists s, umm_info 8 65544 false (state_of alloc10) = Some (NULL, s)) /\
  NULL <> 65544 /\
  In 0 (chain 8 (state_of alloc10)) /\
  UMM_BLOCK 8 (state_of alloc10) 0 = 65536 /\
  (exists s, umm_info 8 65536 false (state_of alloc10) = Some (NULL, s)).
Proof.
  split; [vm_compute; right; left; reflexivity|].
  split; [vm_compute; reflexivity|].
  split; [eexists; apply returned; [vm_compute; reflexivity | discriminate]|].
  split; [discriminate|].
  split; [vm_compute; left; reflexivity|].
  split; [vm_compute; reflexivity|].
  eexists. apply returned; [vm_compute; reflexivity | discriminate].
Qed.



(** * Further properties on concrete heaps *)

Lemma alloc12_reachable : reachable 8 UMM_BEST_FIT false (state_of alloc12).
Proof.
  apply (step_malloc UMM_BEST_FIT false (heap128 false) 12 65548);
    [apply heap128_reachable | lia | vm_compute; reflexivity | discriminate].
Qed.

(** Two allocated blocks: 12 bytes at 65548 and 4 bytes at 65564. *)
Abbreviation two := (state_of (umm_malloc 8 UMM_BEST_FIT false 4 (state_of alloc12))).

Lemma two_eq :
  umm_malloc 8 UMM_BEST_FIT false 4 (state_of alloc12) = Some (65564, two).
Proof. apply returned; [vm_compute; reflexivity | discriminate]. Qed.

Lemma two_reachable : reachable 8 UMM_BEST_FIT false two.
Proof.
  apply (step_malloc UMM_BEST_FIT false (state_of alloc12) 4 65564);
    [exact alloc12_reachable | lia | vm_compute; reflexivity | discriminate].
Qed.

Abbreviation moved := (umm_realloc 8 UMM_BEST_FIT false 65548 20 two).

Lemma allocated_blocks_disjoint_witness :
  65548 + usable_size 8 two (block_of 8 two 65548) + header_size <= 65564.
Proof.
  apply (allocated_blocks_disjoint 8 UMM_BEST_FIT false two 65548 65564).
  - exact two_reachable.
  - vm_compute. reflexivity.
  - vm_compute. reflexivity.
  - lia.
Defined.

Lemma allocated_block_in_heap_witness :
  UMM_HEAP (state_of alloc10) + UMM_BLOCKSIZE 8 + header_size <= 65548 /\
  UMM_BLOCKSIZE 8 - header_size
  <= usable_size 8 (state_of alloc10) (block_of 8 (state_of alloc10) 65548) /\
  65548 + usable_size 8 (state_of alloc10) (block_of 8 (state_of alloc10) 65548)
  <= UMM_BLOCK 8 (state_of alloc10) (UMM_BLOCK_LAST (state_of alloc10)) /\
  UMM_BLOCK 8 (state_of alloc10) (UMM_BLOCK_LAST (state_of alloc10)) + UMM_BLOCKSIZE 8
  <= UMM_HEAP (state_of alloc10) + UMM_HEAPSIZE (state_of alloc10) /\
  (65548 - UMM_HEAP (state_of alloc10)) mod UMM_BLOCKSIZE 8 = header_size.
Proof.
  apply (allocated_block_in_heap 8 UMM_BEST_FIT false (state_of alloc10) 65548).
  - apply (step_malloc UMM_BEST_FIT false (heap128 false) 10 65548);
      [apply heap128_reachable | lia | vm_compute; reflexivity | discriminate].
  - vm_compute. reflexivity.
Defined.

Lemma umm_blocks_least_witness :
  1 <= umm_blocks 8 13 <= INT16_MAX /\
  (umm_blocks 8 13 < INT16_MAX ->
   13 <= umm_blocks 8 13 * UMM_BLOCKSIZE 8 - header_size) /\
  (forall n, 1 <= n <= INT16_MAX -> 13 <= n * UMM_BLOCKSIZE 8 - header_size ->
             umm_blocks 8 13 <= n).
Proof. apply (umm_blocks_least 8 13). lia. Defined.

Lemma block_of_body_witness :
  block_of 8 (heap128 false) (UMM_DATA 8 (heap128 false) 3 + 2) = 3.
Proof.
  apply (block_of_body 8 UMM_BEST_FIT false (heap128 false) 3 2).
  - apply heap128_reachable.
  - vm_compute. intuition discriminate.
  - vm_compute. intuition discriminate.
Defined.

Lemma free_list_coherent_witness :
  NoDup (free_list 8 holes) /\
  (forall b, In b (free_list 8 holes)
             <-> In b (chain 8 holes) /\ is_free 8 holes b = true) /\
  (forall b, b = 0 \/ In b (free_list 8 holes) ->
             get 8 PFREE holes (get 8 NFREE holes b) = b /\
             get 8 NFREE holes (get 8 PFREE holes b) = b).
Proof.
  apply (free_list_coherent 8 UMM_BEST_FIT false holes).
  exact holes_reachable.
Defined.

Lemma malloc_keeps_allocated_witness :
  65564 <> 65548 /\
  (65564 <> NULL -> allocated 8 (state_of alloc12) 65564 = false) /\
  allocated 8 two 65548 = true /\
  usable_size 8 two (block_of 8 two 65548)
  = usable_size 8 (state_of alloc12) (block_of 8 (state_of alloc12) 65548) /\
  (forall off,
     0 <= off < usable_size 8 (state_of alloc12) (block_of 8 (state_of alloc12) 65548) ->
     memory two (65548 + off) = memory (state_of alloc12) (65548 + off)).
Proof.
  apply (malloc_keeps_allocated 8 UMM_BEST_FIT false (state_of alloc12) 4 65564 two 65548).
  - exact alloc12_reachable.
  - lia.
  - exact two_eq.
  - vm_compute. reflexivity.
Defined.

Lemma free_keeps_others_witness :
  allocated 8 (umm_free 8 false 65548 two) 65548 = false /\
  allocated 8 (umm_free 8 false 65548 two) 65564 = true /\
  usable_size 8 (umm_free 8 false 65548 two)
    (block_of 8 (umm_free 8 false 65548 two) 65564)
  = usable_size 8 two (block_of 8 two 65564) /\
  (forall off, 0 <= off < usable_size 8 two (block_of 8 two 65564) ->
     memory (umm_free 8 false 65548 two) (65564 + off) = memory two (65564 + off)).
Proof.
  apply (free_keeps_others 8 UMM_BEST_FIT false two 65548 65564).
  - exact two_reachable.
  - vm_compute. reflexivity.
  - vm_compute. reflexivity.
  - discriminate.
Defined.

Lemma calloc_gives_zeroed_block_witness :
  exists p st',
    umm_calloc 8 UMM_BEST_FIT false 2 4 released = Some (p, st') /\
    ((p = NULL /\ st' = released) \/
     (p <> NULL /\
      allocated 8 released p = false /\
      allocated 8 st' p = true /\
      2 * 4 <= usable_size 8 st' (block_of 8 st' p) /\
      (forall off, 0 <= off < 2 * 4 -> memory st' (p + off) = 0) /\
      (forall q off, allocated 8 released q = true ->
         0 <= off < usable_size 8 released (block_of 8 released q) ->
         allocated 8 st' q = true /\
         memory st' (q + off) = memory released (q + off)))).
Proof.
  apply (calloc_gives_zeroed_block 8 UMM_BEST_FIT false released 2 4).
  - exact released_reachable.
  - lia.
Defined.

Lemma realloc_preserves_contents_witness :
  exists p' st',
    umm_realloc 8 UMM_BEST_FIT false 65548 4 wrote20 = Some (p', st') /\
    ((p' = NULL /\ st' = wrote20) \/
     (p' <> NULL /\
      allocated 8 st' p' = true /\
      usable_size 8 st' (block_of 8 st' p')
      = umm_blocks 8 4 * UMM_BLOCKSIZE 8 - header_size /\
      4 <= usable_size 8 st' (block_of 8 st' p') /\
      (forall off, 0 <= off < usable_size 8 wrote20 (block_of 8 wrote20 65548) ->
         off < usable_size 8 st' (block_of 8 st' p') ->
         memory st' (p' + off) = memory wrote20 (65548 + off)))).
Proof.
  apply (realloc_preserves_contents 8 UMM_BEST_FIT false wrote20 65548 4).
  - exact wrote20_reachable.
  - vm_compute. reflexivity.
  - lia.
Defined.

Lemma realloc_keeps_others_witness :
  65564 <> 65572 /\
  allocated 8 (state_of moved) 65564 = true /\
  usable_size 8 (state_of moved) (block_of 8 (state_of moved) 65564)
  = usable_size 8 two (block_of 8 two 65564) /\
  (forall off, 0 <= off < usable_size 8 two (block_of 8 two 65564) ->
     memory (state_of moved) (65564 + off) = memory two (65564 + off)).
Proof.
  apply (realloc_keeps_others 8 UMM_BEST_FIT false two 65548 20 65572
           (state_of moved) 65564).
  - exact two_reachable.
  - vm_compute. reflexivity.
  - lia.
  - apply returned; [vm_compute; reflexivity | discriminate].
  - vm_compute. reflexivity.
  - discriminate.
Defined.

Lemma umm_info_statistics_witness :
  exists st',
    umm_info 8 NULL false holes = Some (NULL, st') /\
    memory st' = memory holes /\
    umm_heap_current st' = umm_heap_current holes /\
    freeEntries (ummHeapInfo st') = Z.of_nat (length (free_runs 8 holes)) /\
    freeBlocks (ummHeapInfo st') = sum_list (map snd (free_runs 8 holes)) /\
    freeBlocksSquared (ummHeapInfo st') = sum_squares (map snd (free_runs 8 holes)) /\
    maxFreeContiguousBlocks (ummHeapInfo st') = max_list (map snd (free_runs 8 holes)) /\
    totalBlocks (ummHeapInfo st') = UMM_NUMBLOCKS holes - 2 /\
    usedBlocks (ummHeapInfo st') + freeBlocks (ummHeapInfo st') = UMM_NUMBLOCKS holes - 2 /\
    totalEntries (ummHeapInfo st')
    = usedEntries (ummHeapInfo st') + freeEntries (ummHeapInfo st').
Proof.
  apply (umm_info_statistics 8 UMM_BEST_FIT false holes false).
  exact holes_reachable.
Defined.

Lemma malloc_succeeds_iff_fits_witness :
  exists p st' s,
    umm_malloc 8 UMM_BEST_FIT false 20 holes = Some (p, st') /\
    umm_max_free_block_size 8 holes
    = Some (max_list (map snd (free_runs 8 holes)) * UMM_BLOCKSIZE 8, s) /\
    (p <> NULL <->
     umm_blocks 8 20 * UMM_BLOCKSIZE 8
     <= max_list (map snd (free_runs 8 holes)) * UMM_BLOCKSIZE 8).
Proof.
  apply (malloc_succeeds_iff_fits 8 UMM_BEST_FIT false holes 20).
  - exact holes_reachable.
  - lia.
Defined.

Lemma integrity_check_passes_witness :
  exists st',
    umm_integrity_check 8 holes = Some (true, st') /\
    umm_heap_current st' = umm_heap_current holes /\
    ummHeapInfo st' = ummHeapInfo holes /\
    (forall f b, get 8 f st' b = get 8 f holes b) /\
    (forall x, memory st' x mod 256 = memory holes x mod 256).
Proof.
  apply (integrity_check_passes 8 UMM_BEST_FIT false holes).
  exact holes_reachable.
Defined.

(** The byte just behind the 16 blocks of the 128-byte heap. *)
Lemma writes_stay_in_heap_witness :
  (forall size p st',
     0 <= size < 4294967296 ->
     umm_malloc 8 UMM_BEST_FIT false size two = Some (p, st') ->
     memory st' 65664 = memory two 65664) /\
  (forall p, allocated 8 two p = true ->
             memory (umm_free 8 false p two) 65664 = memory two 65664) /\
  (forall p size p' st',
     p = NULL \/ allocated 8 two p = true -> 0 <= size < 4294967296 ->
     umm_realloc 8 UMM_BEST_FIT false p size two = Some (p', st') ->
     memory st' 65664 = memory two 65664) /\
  (forall num item_size p st',
     0 <= num * item_size < 4294967296 ->
     umm_calloc 8 UMM_BEST_FIT false num item_size two = Some (p, st') ->
     memory st' 65664 = memory two 65664).
Proof.
  apply (writes_stay_in_heap 8 UMM_BEST_FIT false two 65664).
  - exact two_reachable.
  - right. vm_compute. discriminate.
Defined.

Lemma init_heap_layout_witness :
  UMM_HEAP (heap128 true) = 65536 /\
  UMM_HEAPSIZE (heap128 true) = 128 /\
  UMM_NUMBLOCKS (heap128 true) = 128 / UMM_BLOCKSIZE 8 /\
  chain 8 (heap128 true) = [0; 1; 128 / UMM_BLOCKSIZE 8 - 1] /\
  free_list 8 (heap128 true) = [1] /\
  free_runs 8 (heap128 true) = [(1, 128 / UMM_BLOCKSIZE 8 - 2)] /\
  (forall p, allocated 8 (heap128 true) p = false) /\
  (forall x, 65536 + UMM_BLOCKSIZE 8 + header_size <= x
             < 65536 + (128 / UMM_BLOCKSIZE 8 - 1) * UMM_BLOCKSIZE 8 ->
             memory (heap128 true) x = 0) /\
  (forall x, x < 65536 \/ 65536 + 128 <= x ->
             memory (heap128 true) x = memory blank x).
Proof.
  apply (init_heap_layout 8 true 65536 128 blank).
  - lia.
  - lia.
  - vm_compute. intuition discriminate.
Defined.

Lemma chain_well_formed_witness :
  StronglySorted Z.lt (chain 8 holes) /\
  In 0 (chain 8 holes) /\ In (UMM_BLOCK_LAST holes) (chain 8 holes) /\
  (forall b, In b (chain 8 holes) -> 0 <= b <= UMM_BLOCK_LAST holes) /\
  nxt 8 holes 0 = 1 /\ nxt 8 holes (UMM_BLOCK_LAST holes) = 0 /\
  is_free 8 holes 0 = false /\ is_free 8 holes (UMM_BLOCK_LAST holes) = false /\
  (forall b, In b (chain 8 holes) -> b <> UMM_BLOCK_LAST holes ->
     b < nxt 8 holes b /\ In (nxt 8 holes b) (chain 8 holes) /\
     get 8 PBLOCK holes (nxt 8 holes b) = b) /\
  (forall b c, In b (chain 8 holes) -> In c (chain 8 holes) -> b < c ->
     nxt 8 holes b <= c).
Proof.
  apply (chain_well_formed 8 UMM_BEST_FIT false holes).
  exact holes_reachable.
Defined.

(** The full 64-byte heap with two one-block holes, with inline metrics:
    blocks 4 and 6 are free. *)
Abbreviation iheap64 := (umm_init_heap 8 true 65536 64 blank).
Abbreviation ifull1 := (state_of (umm_malloc 8 UMM_BEST_FIT true 12 iheap64)).
Abbreviation ifull2 := (state_of (umm_malloc 8 UMM_BEST_FIT true 4 ifull1)).
Abbreviation ifull3 := (state_of (umm_malloc 8 UMM_BEST_FIT true 4 ifull2)).
Abbreviation ifull4 := (state_of (umm_malloc 8 UMM_BEST_FIT true 4 ifull3)).
Abbreviation ifull5 := (state_of (umm_malloc 8 UMM_BEST_FIT true 4 ifull4)).
Abbreviation iholes := (umm_free 8 true 65588 (umm_free 8 true 65572 ifull5)).

Lemma iholes_reachable : reachable 8 UMM_BEST_FIT true iholes.
Proof.
  assert (H0 : reachable 8 UMM_BEST_FIT true iheap64).
  { apply (reach_init 8 UMM_BEST_FIT true 65536 64 blank).
    unfold valid_region. vm_compute. intuition discriminate. }
  assert (H1 : reachable 8 UMM_BEST_FIT true ifull1).
  { apply (step_malloc UMM_BEST_FIT true iheap64 12 65548 H0);
      [lia | vm_compute; reflexivity | discriminate]. }
  assert (H2 : reachable 8 UMM_BEST_FIT true ifull2).
  { apply (step_malloc UMM_BEST_FIT true ifull1 4 65564 H1);
      [lia | vm_compute; reflexivity | discriminate]. }
  assert (H3 : reachable 8 UMM_BEST_FIT true ifull3).
  { apply (step_malloc UMM_BEST_FIT true ifull2 4 65572 H2);
      [lia | vm_compute; reflexivity | discriminate]. }
  assert (H4 : reachable 8 UMM_BEST_FIT true ifull4).
  { apply (step_malloc UMM_BEST_FIT true ifull3 4 65580 H3);
      [lia | vm_compute; reflexivity | discriminate]. }
  assert (H5 : reachable 8 UMM_BEST_FIT true ifull5).
  { apply (step_malloc UMM_BEST_FIT true ifull4 4 65588 H4);
      [lia | vm_compute; reflexivity | discriminate]. }
  apply step_free; [apply step_free; [exact H5|] |]; vm_compute; reflexivity.
Qed.

(** The same heap after [umm_info] was asked about block 4, which it
    finds free, and after it walked the whole heap. *)
Abbreviation probed := (umm_info 8 65568 false iholes).
Abbreviation walked := (umm_info 8 NULL false iholes).

(** X17. With inline metrics the counters [freeBlocks] and
    [freeBlocksSquared] that [umm_fragmentation_metric_init], [_add] and
    [_remove] maintain are exact, the sum of the lengths of the free runs
    and the sum of their squares, in every state reached from
    [umm_init_heap] by the allocation operations, stores into allocated
    blocks, the metric queries, [umm_integrity_check] and the calls of
    [umm_info] that return null.  A call of [umm_info] that finds its
    probe is not among these steps, and after one the counters can be
    short: on a reachable heap whose free runs are the blocks 4 and 6,
    [umm_info] with the address of block 4 returns that address and
    leaves both counters at 1, while the free runs still sum to 2. *)
Theorem inline_metrics_exact :
  (forall B policy st,
     reachable_q B policy true st ->
     freeBlocks (ummHeapInfo st) = sum_list (map snd (free_runs B st)) /\
     freeBlocksSquared (ummHeapInfo st) = sum_squares (map snd (free_runs B st))) /\
  exists st ptr st',
    reachable 8 UMM_BEST_FIT true st /\
    free_runs 8 st = [(4, 1); (6, 1)] /\
    ptr = UMM_BLOCK 8 st 4 /\
    umm_info 8 ptr false st = Some (ptr, st') /\
    free_runs 8 st' = [(4, 1); (6, 1)] /\
    freeBlocks (ummHeapInfo st') = 1 /\
    freeBlocksSquared (ummHeapInfo st') = 1.
Proof.
  split.
  - intros B policy st Hr. apply (inline_counters_exact B policy true st Hr).
    reflexivity.
  - exists iholes, 65568, (state_of probed).
    split; [exact iholes_reachable|].
    split; [vm_compute; reflexivity|].
    split; [vm_compute; reflexivity|].
    split; [apply returned; [vm_compute; reflexivity | discriminate]|].
    split; [vm_compute; reflexivity|].
    split; vm_compute; reflexivity.
Qed.

Lemma inline_metrics_exact_witness :
  freeBlocks (ummHeapInfo (state_of walked))
  = sum_list (map snd (free_runs 8 (state_of walked))) /\
  freeBlocksSquared (ummHeapInfo (state_of walked))
  = sum_squares (map snd (free_runs 8 (state_of walked))).
Proof.
  apply (proj1 inline_metrics_exact 8 UMM_BEST_FIT (state_of walked)).
  apply (rq_info 8 UMM_BEST_FIT true iholes NULL false).
  - apply reachable_q_of. exact iholes_reachable.
  - apply returned; [vm_compute; reflexivity | discriminate].
Defined.

Lemma free_heap_size_exact_witness :
  exists s,
    umm_free_heap_size 8 true (state_of walked)
    = Some (sum_list (map snd (free_runs 8 (state_of walked))) * UMM_BLOCKSIZE 8, s) /\
    memory s = memory (state_of walked) /\
    umm_heap_current s = umm_heap_current (state_of walked) /\
    0 <= sum_list (map snd (free_runs 8 (state_of walked)))
    <= UMM_NUMBLOCKS (state_of walked) - 2.
Proof.
  apply (free_heap_size_exact 8 UMM_BEST_FIT true (state_of walked)).
  apply (rq_info 8 UMM_BEST_FIT true iholes NULL false).
  - apply reachable_q_of. exact iholes_reachable.
  - apply returned; [vm_compute; reflexivity | discriminate].
Defined.

Lemma usage_metric_from_walk_witness :
  exists s,
    umm_usage_metric 8 false holes
    = Some (if sum_list (map snd (free_runs 8 holes)) =? 0 then -1
            else (UMM_NUMBLOCKS holes - 2 - sum_list (map snd (free_runs 8 holes))) * 100
                 / sum_list (map snd (free_runs 8 holes)), s) /\
    memory s = memory holes /\ umm_heap_current s = umm_heap_current holes.
Proof.
  apply (usage_metric_from_walk 8 UMM_BEST_FIT false holes).
  - exact holes_reachable.
  - reflexivity.
Defined.

(** Block 3 follows block 1; its [prev] field is overwritten with 2. *)
Lemma integrity_check_detects_prev_witness :
  exists s, umm_integrity_check 8 (set 8 PBLOCK 3 2 two) = Some (false, s).
Proof.
  apply (integrity_check_detects_prev 8 UMM_BEST_FIT false two 3 2).
  - exact two_reachable.
  - vm_compute. right. right. left. reflexivity.
  - discriminate.
  - lia.
  - vm_compute. discriminate.
Defined.

(** Block 4 follows block 6 in the free list; its link back is
    overwritten with 0. *)
Lemma integrity_check_detects_free_prev_witness :
  exists s, umm_integrity_check 8 (set 8 PFREE 4 0 holes) = Some (false, s).
Proof.
  apply (integrity_check_detects_free_prev 8 UMM_BEST_FIT false holes 4 0).
  - exact holes_reachable.
  - vm_compute. right. left. reflexivity.
  - lia.
  - vm_compute. discriminate.
Defined.

Lemma malloc_allocated_set_witness :
  allocated 8 two 65564 = true <->
  allocated 8 (state_of alloc12) 65564 = true \/ (65564 <> NULL /\ 65564 = 65564).
Proof.
  apply (malloc_allocated_set 8 UMM_BEST_FIT false (state_of alloc12) 4 65564 two 65564).
  - exact alloc12_reachable.
  - lia.
  - exact two_eq.
Defined.

Lemma free_allocated_set_witness :
  allocated 8 (umm_free 8 false 65548 two) 65564 = true <->
  allocated 8 two 65564 = true /\ 65564 <> 65548.
Proof.
  apply (free_allocated_set 8 UMM_BEST_FIT false two 65548 65564).
  - exact two_reachable.
  - vm_compute. reflexivity.
Defined.

Lemma realloc_allocated_set_witness :
  (65572 = NULL /\
   (allocated 8 (state_of moved) 65564 = true <-> allocated 8 two 65564 = true)) \/
  (65572 <> NULL /\
   (allocated 8 (state_of moved) 65564 = true <->
    (allocated 8 two 65564 = true /\ 65564 <> 65548) \/ 65564 = 65572)).
Proof.
  apply (realloc_allocated_set 8 UMM_BEST_FIT false two 65548 20 65572
           (state_of moved) 65564).
  - exact two_reachable.
  - vm_compute. reflexivity.
  - lia.
  - apply returned; [vm_compute; reflexivity | discriminate].
Defined.

(** ** The poison layer with 6-byte guards and a 16-bit length word *)

(** Ten bytes asked for through the poison layer: the block starts at
    65548 and the program gets 65556. *)
Abbreviation guarded10 :=
  (umm_poison_malloc 8 UMM_BEST_FIT false 6 6 2 10 (heap128 false)).

Lemma guarded10_eq : guarded10 = Some (65556, state_of guarded10).
Proof. apply returned; [vm_compute; reflexivity | discriminate]. Qed.

Lemma heap128_preachable :
  preachable 8 UMM_BEST_FIT false 6 6 2 (heap128 false).
Proof.
  apply (preach_init 8 UMM_BEST_FIT false 6 6 2 65536 128 blank).
  unfold valid_region. vm_compute. intuition discriminate.
Qed.

Lemma guarded10_preachable :
  preachable 8 UMM_BEST_FIT false 6 6 2 (state_of guarded10).
Proof.
  apply (preach_malloc 8 UMM_BEST_FIT false 6 6 2 (heap128 false) 10 65556).
  - exact heap128_preachable.
  - lia.
  - vm_compute. reflexivity.
  - vm_compute. reflexivity.
  - exact guarded10_eq.
Qed.

Lemma poison_check_passes_witness :
  umm_poison_check 8 6 6 2 (state_of guarded10) = Some true.
Proof.
  apply (poison_check_passes 8 UMM_BEST_FIT false 6 6 2).
  - lia.
  - lia.
  - exact guarded10_preachable.
Defined.

Lemma poison_check_detects_witness :
  umm_poison_check 8 6 6 2
    (with_memory (state_of guarded10)
       (store8 (memory (state_of guarded10)) (65556 + 10) 0))
  = Some false.
Proof.
  apply (poison_check_detects 8 UMM_BEST_FIT false 6 6 2 ltac:(lia) ltac:(lia)
           (state_of guarded10) 65556 10 10 0).
  - exact guarded10_preachable.
  - discriminate.
  - vm_compute. reflexivity.
  - vm_compute. reflexivity.
  - right. lia.
  - vm_compute. discriminate.
Defined.

Lemma poison_malloc_guards_witness :
  exists p st',
    umm_poison_malloc 8 UMM_BEST_FIT false 6 6 2 10 (heap128 false) = Some (p, st') /\
    ((p = NULL /\ st' = heap128 false) \/
     (p <> NULL /\
      allocated 8 (heap128 false) (get_unpoisoned 6 2 p) = false /\
      allocated 8 st' (get_unpoisoned 6 2 p) = true /\
      10 + overhead 6 6 2
      <= usable_size 8 st' (block_of 8 st' (get_unpoisoned 6 2 p)) /\
      guarded 8 6 6 2 st' (block_of 8 st' (get_unpoisoned 6 2 p)) 10 /\
      (forall q off, allocated 8 (heap128 false) q = true ->
         0 <= off < usable_size 8 (heap128 false) (block_of 8 (heap128 false) q) ->
         allocated 8 st' q = true /\
         memory st' (q + off) = memory (heap128 false) (q + off)))).
Proof.
  apply (poison_malloc_guards 8 UMM_BEST_FIT false 6 6 2 ltac:(lia) ltac:(lia)
           (heap128 false) 10).
  - exact heap128_preachable.
  - lia.
  - vm_compute. reflexivity.
  - vm_compute. reflexivity.
Defined.

Lemma poison_realloc_preserves_witness :
  exists p' st',
    umm_poison_realloc 8 UMM_BEST_FIT false 6 6 2 65556 20 (state_of guarded10)
    = Some (p', st') /\
    ((p' = NULL /\ st' = state_of guarded10) \/
     (p' <> NULL /\
      allocated 8 st' (get_unpoisoned 6 2 p') = true /\
      20 + overhead 6 6 2
      <= usable_size 8 st' (block_of 8 st' (get_unpoisoned 6 2 p')) /\
      guarded 8 6 6 2 st' (block_of 8 st' (get_unpoisoned 6 2 p')) 20 /\
      (forall off, 0 <= off < 10 -> off < 20 ->
         memory st' (p' + off) = memory (state_of guarded10) (65556 + off)))).
Proof.
  apply (poison_realloc_preserves 8 UMM_BEST_FIT false 6 6 2 ltac:(lia) ltac:(lia)
           (state_of guarded10) 65556 10 20).
  - exact guarded10_preachable.
  - discriminate.
  - vm_compute. reflexivity.
  - vm_compute. reflexivity.
  - lia.
  - vm_compute. reflexivity.
  - vm_compute. reflexivity.
Defined.

Lemma poison_calloc_zeroed_witness :
  exists p st',
    umm_poison_calloc 8 UMM_BEST_FIT false 6 6 2 2 5 (heap128 false) = Some (p, st') /\
    ((p = NULL /\ st' = heap128 false) \/
     (p <> NULL /\
      allocated 8 (heap128 false) (get_unpoisoned 6 2 p) = false /\
      allocated 8 st' (get_unpoisoned 6 2 p) = true /\
      guarded 8 6 6 2 st' (block_of 8 st' (get_unpoisoned 6 2 p)) (5 * 2) /\
      (forall off, 0 <= off < 5 * 2 -> memory st' (p + off) = 0))).
Proof.
  apply (poison_calloc_zeroed 8 UMM_BEST_FIT false 6 6 2 ltac:(lia) ltac:(lia)
           (heap128 false) 2 5).
  - exact heap128_preachable.
  - lia.
  - vm_compute. reflexivity.
  - vm_compute. reflexivity.
Defined.

Lemma free_then_malloc_succeeds_witness :
  exists p' st',
    umm_malloc 8 UMM_BEST_FIT false 12 (umm_free 8 false 65548 two) = Some (p', st') /\
    p' <> NULL.
Proof.
  apply (free_then_malloc_succeeds 8 UMM_BEST_FIT false two 65548 12).
  - exact two_reachable.
  - vm_compute. reflexivity.
  - vm_compute. intuition discriminate.
Defined.
